(* ===== verification/_CoqProject ===== *)
-Q . S2P
Prelude.v
Mem.v
Util.v
Hash.v
Item.v
State.v
Memlog.v
Assoc.v
AssocFacts.v
Items.v
ItemFacts.v
ItemSpec.v
ItemClaims.v
Clean.v
Store.v
StoreFacts.v
StoreClaims.v
Replication.v
Bip.v
Pool.v
Prefix.v
Conn.v
ConnOps.v
IovFacts.v
Stats.v
Ascii.v
IoFacts.v
Tokens.v
GetFacts.v
StatsFacts.v
Binary.v
Net.v
TxFacts.v
RxFacts.v
NetFacts.v
Thread.v
ThreadFacts.v
PauseFacts.v
Logger.v
LoggerFacts.v
LoggerClaims.v
LogEntry.v
Settings.v
Crawler.v
CrawlerFacts.v
Options.v
OptionsFacts.v
Rdma.v
Sockets.v
SocketsFacts.v
Startup.v
StartupFacts.v
RdmaFacts.v
Sasl.v
