(* ===== verification/Prelude.v ===== *)
(** * LogMemcached: a verification development

    LogMemcached is a fork of memcached 1.4 in which the values live in one
    circular log instead of slabs: a store appends a record, a maintainer
    thread reclaims the oldest chunk, and a backup replays the primary's log.
    This library is a shallow embedding of its C sources (under src/) and the
    theorems that make them correct.

    ** The program and where its parts are modelled

    - Prelude.v: widths of C integers ([u8] .. [i64]), bytes and strings, the
      state-and-fault monad [M] with its weakest precondition [wp], loops
      ([loop], [iterate]) and their rules.  Mem.v: byte-addressed memory.
      Util.v: util.c and the printf and strtol behaviour the program uses.
      Hash.v: jenkins_hash.c, murmur3_hash.c and hash.c.
    - Item.v: the layout of a record of the log ([item_data] and the ITEM_
      macros of memcached.h) and its metadata.  State.v: the state of the
      server ([cache]): log, log positions, metadata slots, hash table,
      settings and counters, with an accessor per field.
    - Memlog.v and Clean.v: memlog.c, the allocating and the reclaiming side.
    - Assoc.v, AssocFacts.v: assoc.c; the table refines a finite map, also
      while it is being expanded step by step.
    - Items.v: items.c and the item functions of thread.c; ItemFacts.v the
      invariant [cache_ok] of log, metadata, free list and table; ItemSpec.v,
      ItemClaims.v its specifications.
    - Store.v, StoreFacts.v, StoreClaims.v: do_store_item, do_add_delta and
      realtime of memcached.c.
    - Replication.v: do_store_replication of memcached.c, the replay of a log.
    - Bip.v: bipbuffer.c.  Pool.v: cache.c (the pool of suffix buffers).
      Prefix.v: the per-prefix statistics of stats.c.
    - Conn.v, ConnOps.v: struct conn, its output lists and its life
      (memcached.c, memcached.h, protocol_binary.h).  The state of connection
      code is a [world]: one connection, the [cache], the prefix table, the
      suffix pool and an environment [env] that lists what malloc, read,
      sendmsg, accept and the event library will answer and records what was
      sent.
    - Ascii.v, Binary.v: the commands of the two protocols.  Stats.v: the stats
      replies.  Net.v: try_read_*, transmit and drive_machine; one definition
      per state ([step_*]), [drive_body] is one turn.
    - IoFacts.v: proof rules for connection code.  IovFacts.v, Tokens.v,
      GetFacts.v, StatsFacts.v, TxFacts.v, RxFacts.v, NetFacts.v: theorems.
    - Thread.v: thread.c and the idle-connection thread of memcached.c.  The
      state is a [system]: the workers with their queues and pipes, the items
      of the queues in memory, and the [world].  ThreadFacts.v: the hand-over
      of connections; PauseFacts.v: pausing as a step relation, item locks.
    - Logger.v, LoggerFacts.v, LoggerClaims.v, LogEntry.v: logger.c; the
      threads' ring buffers are those of Bip.v.
    - Crawler.v, CrawlerFacts.v: crawler.c.
    - Settings.v, Options.v, OptionsFacts.v: the command line of [main] with
      getopt, getsubopt and the checks that follow.  Sockets.v,
      SocketsFacts.v: listening sockets and the clock.  Startup.v,
      StartupFacts.v: [main] up to its event loop, with the start of the
      replication (Rdma.v) as its last step.
    - Rdma.v, RdmaFacts.v: backup_rdma.c; the calls of the verbs library are
      recorded, its answers are inputs.  Sasl.v: sasl_defs.c.

    ** Conventions

    A C function is a definition of the same name in the monad; a pure one is a
    Rocq function.  Unsigned arithmetic is written with its wrap-around.  A
    pointer into the log is its offset from the base; other pointers of
    connection code are a region and an offset ([ptr]).  Assertions are those
    of the debug build: a failing one is the fault [AssertFailed]; reading a
    null pointer or freed memory, dividing by zero, leaving a buffer (such as
    snum[10] of memory_allocate), locking a held mutex and exiting are faults
    too, so a theorem that an operation returns [Ok] says that none of them
    happens.  Locks otherwise only delimit
    atomic steps: every operation is executed by one thread at a time, and the
    maintainer threads are steps of their own ([maintenance_turn],
    [do_memlog_clean]).

    Loops run [loop FUEL body]: at most [2 ^ 64] turns, more than any counter of
    the program can count, evaluated lazily.  Theorems on what an operation
    computes are total: they prove that the result is reached ([loop_rule]
    needs a variant below the bound), and a loop that does not end is proved to
    be one ([loop_diverges]); [loop_outcome] covers every way a loop can end.  Invariants of whole runs ([main_establishes],
    [options_checked], [reads_inside], [large_record_stalls]) speak of every
    run that gets as far as they say, with a run that does as witness.  The
    mutual recursion of add_iov and add_msghdr is unfolded three levels, that
    of out_of_memory and add_bin_header two; the theorems on them show that
    this is enough.

    ** What the theorems show

    - Storage: every storage command stores, refuses and replies as its
      contract says and releases the item it replaces
      ([do_store_item_correct]), a stored value is what get
      returns ([set_get_roundtrip]); allocation, linking, lookup and unlinking
      preserve [cache_ok] on every branch (ItemClaims.v); an item is
      allocated exactly when the log has room for it
      ([do_item_alloc_correct]); the allocator hands out blocks inside the log
      that overlap no live record ([memory_allocate_safe]) and reclaiming removes exactly the items of the
      freed chunk ([memlog_clean_correct]).
    - Tables and containers: refinement of assoc.c to a finite map, of
      bipbuffer.c to a queue, disjointness of pool objects, the prefix counters.
    - Protocols: the tokenizer is the splitting into words, get replies byte
      for byte with the items asked for, stats with its lines, the binary
      errors with a header that decodes to the opcode and opaque of the
      request, the status and the connection's cas.
    - Network: the bytes queued are the bytes sent, once and in order, for any
      behaviour of the socket ([transmit_correct], [reply_delivered],
      [add_iov_correct], [build_udp_headers_correct]); the input is consumed in
      order and exactly ([try_read_network_correct], [read_value_correct],
      [swallow_exact]).
    - Replication: the exchange of addresses pairs the backup with the primary
      ([exchange_pairs]), every read stays inside the log ([reads_inside]); a
      replay applies the complete records in order, up to the first incomplete
      or cycle record ([replication_boundary]).
    - Authentication: a password without NUL and newline is accepted exactly
      when the user's first entry holds it ([checkpass_correct]).
    - Threads: connections reach the workers in turn, each once and in order,
      through queues that refine one FIFO per worker ([handover_refines]); when
      [pause_threads] returns every worker is parked ([pause_safe]); an item's
      lock covers its bucket ([lock_covers_bucket]).
    - Logger: a turn of its thread gives every watcher, in order, the entries
      it asked for, except those for which its buffer had no room
      ([logger_turn_tells]); what is logged is what is parsed
      ([logger_log_correct]); watchers register within bounds
      ([add_watcher_correct]).
    - Crawler: a crawl whose allocations succeed ends, with the connection it
      borrowed given back ([crawl_completes]).
    - Start-up: the settings the options leave have passed exactly the checks
      of the source ([options_checked]), exactly the interfaces listed are opened
      ([server_sockets_asks]), and the server that reaches its event loop has
      the invariants the theorems above assume ([main_establishes]: the steps
      of the main thread; the workers, whose sockets are open by then, take
      none meanwhile).
    - Defects, as theorems: [oversized_request_hangs], [pause_deadlock],
      [crawl_twice_hangs], [replay_before_completion], [large_record_stalls],
      [slabs_never_start], [item_alloc_flag_128],
      [safe_strtoul_truncates], [prefixes_conflated], [server_stats_deadlock],
      [spaces_overread], [replayed_item_keeps_reference], [index_wraps],
      [newline_accepted], [stale_accepted].

    Each theorem's comment states the side conditions it needs: most often
    that no allocation fails, that reference counts stay below 65535 (the
    field is 16 bits wide and wraps), or that the detailed
    statistics and the LRU log are off.

    ** Not modelled

    The verbs library, the SASL library (class [sasl_lib] in Binary.v), libevent
    and pthreads, signals, the pid file, daemonize and privileges; the tools,
    the test programs and the benchmark build of the replication.  The text
    commands of the logger and the crawler take their results as parameters
    (class [background] in Ascii.v); the operations themselves are those of
    Logger.v and Crawler.v.  What sockets, the
    resolver and the clocks answer are inputs; so are process times, the pid
    and peer addresses in the statistics ([stat_inputs]).  Threads sleep for
    no time.  Diagnostics on stderr and DTrace probes have no effect in the
    model.  The size of a connection's buffers and the byte count of a message
    (msgbytes) are not wrapped at 31 bits.

    ** Plan

    Further steps: the text update commands end to end (line, value, store,
    reply), the replay of a log against the primary's table, the binary get. *)
From Stdlib Require Import ZArith Lia.
From stdpp Require Import prelude gmap list strings.

#[global] Open Scope Z_scope.

(** ** Scope, hint databases *)
Declare Scope c_scope.
Delimit Scope c_scope with c.
Create HintDb mc.
Create Rewrite HintDb mc_wrap.

(** ** Machine integers

    A C integer of width [w] is a [Z]; every conversion the source performs is
    one of the functions below. *)
Definition u8 (x : Z) : Z := x mod 2 ^ 8.
Definition u16 (x : Z) : Z := x mod 2 ^ 16.
Definition u32 (x : Z) : Z := x mod 2 ^ 32.
Definition u64 (x : Z) : Z := x mod 2 ^ 64.
Definition i32 (x : Z) : Z := (x + 2 ^ 31) mod 2 ^ 32 - 2 ^ 31.
Definition i64 (x : Z) : Z := (x + 2 ^ 63) mod 2 ^ 64 - 2 ^ 63.

Definition INT_MAX : Z := 2 ^ 31 - 1.

Lemma u8_range x : 0 ≤ u8 x < 2 ^ 8.
Proof. apply Z.mod_pos_bound; lia. Qed.
Lemma u16_range x : 0 ≤ u16 x < 2 ^ 16.
Proof. apply Z.mod_pos_bound; lia. Qed.
Lemma u32_range x : 0 ≤ u32 x < 2 ^ 32.
Proof. apply Z.mod_pos_bound; lia. Qed.
Lemma u64_range x : 0 ≤ u64 x < 2 ^ 64.
Proof. apply Z.mod_pos_bound; lia. Qed.
Lemma i32_range x : - 2 ^ 31 ≤ i32 x < 2 ^ 31.
Proof. unfold i32. pose proof (Z.mod_pos_bound (x + 2 ^ 31) (2 ^ 32)). lia. Qed.
Lemma i64_range x : - 2 ^ 63 ≤ i64 x < 2 ^ 63.
Proof. unfold i64. pose proof (Z.mod_pos_bound (x + 2 ^ 63) (2 ^ 64)). lia. Qed.

Lemma u8_small x : 0 ≤ x < 256 → u8 x = x.
Proof. intros. apply Z.mod_small. lia. Qed.
Lemma u16_small x : 0 ≤ x < 65536 → u16 x = x.
Proof. intros. apply Z.mod_small. lia. Qed.
Lemma u32_small x : 0 ≤ x < 4294967296 → u32 x = x.
Proof. intros. apply Z.mod_small. lia. Qed.
Lemma u64_small x : 0 ≤ x < 18446744073709551616 → u64 x = x.
Proof. intros. apply Z.mod_small. lia. Qed.
Lemma i32_small x : -2147483648 ≤ x < 2147483648 → i32 x = x.
Proof. intros. unfold i32. rewrite Z.mod_small; lia. Qed.
Lemma i64_small x : -9223372036854775808 ≤ x < 9223372036854775808 → i64 x = x.
Proof. intros. unfold i64. rewrite Z.mod_small; lia. Qed.

#[global] Arguments u8 : simpl never.
#[global] Arguments u16 : simpl never.
#[global] Arguments u32 : simpl never.
#[global] Arguments u64 : simpl never.
#[global] Arguments i32 : simpl never.
#[global] Arguments i64 : simpl never.
#[export] Hint Resolve u8_range u16_range u32_range u64_range i32_range i64_range : mc.
#[export] Hint Rewrite u8_small u16_small u32_small u64_small i32_small i64_small
  using lia : mc_wrap.

(** Wrap-arounds of values known to fit disappear. *)
Ltac wrap_small := autorewrite with mc_wrap in *.

(** Booleans of the C conditions to propositions, both in hypotheses and in the
    goal. *)
Ltac reflect_bools :=
  repeat match goal with
  | H : (_ && _) = true |- _ => apply andb_true_iff in H as [? ?]
  | H : (_ && _) = false |- _ => apply andb_false_iff in H
  | H : (_ || _) = true |- _ => apply orb_true_iff in H
  | H : (_ || _) = false |- _ => apply orb_false_iff in H as [? ?]
  | H : negb _ = true |- _ => apply negb_true_iff in H
  | H : negb _ = false |- _ => apply negb_false_iff in H
  | H : (_ =? _) = true |- _ => apply Z.eqb_eq in H
  | H : (_ =? _) = false |- _ => apply Z.eqb_neq in H
  | H : (_ <? _) = true |- _ => apply Z.ltb_lt in H
  | H : (_ <? _) = false |- _ => apply Z.ltb_ge in H
  | H : (_ <=? _) = true |- _ => apply Z.leb_le in H
  | H : (_ <=? _) = false |- _ => apply Z.leb_gt in H
  | H : (_ >? _) = _ |- _ => rewrite Z.gtb_ltb in H
  | H : (_ >=? _) = _ |- _ => rewrite Z.geb_leb in H
  | H : bool_decide _ = true |- _ => apply bool_decide_eq_true in H
  | H : bool_decide _ = false |- _ => apply bool_decide_eq_false in H
  end.

(** Destruct the boolean or option scrutinised by the innermost conditional of
    the goal, keeping its equation, and clean up. *)
Ltac case_if :=
  match goal with
  | |- context [if ?b then _ else _] =>
      lazymatch b with
      | context [if _ then _ else _] => fail
      | context [match _ with _ => _ end] => fail
      | _ => let E := fresh "E" in destruct b eqn:E
      end
  end; reflect_bools.



(** ** Bytes and little-endian words *)
Abbreviation byte := Z (only parsing).
Definition is_byte (b : Z) : Prop := 0 ≤ b < 256.

Fixpoint le_decode (bs : list Z) : Z :=
  match bs with
  | [] => 0
  | b :: bs => b + 256 * le_decode bs
  end.

Fixpoint le_encode (n : nat) (v : Z) : list Z :=
  match n with
  | O => []
  | S n => v mod 256 :: le_encode n (v / 256)
  end.

Lemma le_encode_length n v : length (le_encode n v) = n.
Proof. revert v; induction n as [|n IH]; intros v; simpl; [done|]. by rewrite IH. Qed.

Lemma le_encode_bytes n v : Forall is_byte (le_encode n v).
Proof.
  revert v; induction n as [|n IH]; intros v; simpl; constructor; [|done].
  apply Z.mod_pos_bound; lia.
Qed.

Lemma le_decode_encode n v : le_decode (le_encode n v) = v mod 256 ^ Z.of_nat n.
Proof.
  revert v; induction n as [|n IH]; intros v.
  - cbn. by rewrite Z.mod_1_r.
  - cbn [le_encode le_decode]. rewrite IH.
    rewrite Nat2Z.inj_succ, Z.pow_succ_r by lia.
    rewrite Z.rem_mul_r by lia. lia.
Qed.

Lemma le_decode_range bs :
  Forall is_byte bs → 0 ≤ le_decode bs < 256 ^ Z.of_nat (length bs).
Proof.
  induction 1 as [|b bs Hb _ IH]; [cbn; lia|].
  cbn [le_decode length]. unfold is_byte in Hb.
  rewrite Nat2Z.inj_succ, Z.pow_succ_r by lia. lia.
Qed.

#[export] Hint Resolve le_encode_bytes : mc.

(** ASCII text of a C string literal, as bytes. *)
Definition str (s : string) : list Z :=
  (fix go s := match s with
   | EmptyString => []
   | String c s => Z.of_N (Ascii.N_of_ascii c) :: go s
   end) s.

#[global] Arguments str s%_string_scope.
Lemma str_bytes s : Forall is_byte (str s).
Proof.
  induction s as [|c s IH]; constructor; [|exact IH]. unfold is_byte.
  pose proof (Ascii.N_ascii_bounded c). lia.
Qed.
#[export] Hint Resolve str_bytes : mc.

Definition CR : Z := 13.
Definition LF : Z := 10.
Definition SP : Z := 32.
Definition crlf : list Z := [CR; LF].

(** ** Results, faults and the state monad of the C code *)
Inductive fault : Set :=
  | AssertFailed        (* a failing assert(), in the build without NDEBUG *)
  | NullDeref           (* dereference of a null pointer *)
  | OutOfBounds         (* access outside an allocated array or buffer *)
  | OutOfFuel           (* a loop did not finish within the iteration bound *)
  | UseAfterFree        (* access to an object that was freed *)
  | DivByZero           (* an integer division by zero *)
  | Deadlock            (* a thread locks a mutex it already holds *)
  | Exited (code : Z).  (* exit(code) / abort() *)

Inductive result (A : Type) : Type :=
  | Ok (a : A)
  | Fault (f : fault).
Arguments Ok {A} a.
Arguments Fault {A} f.

Definition M (S A : Type) : Type := S → result (A * S).

#[global] Instance M_ret {S} : MRet (M S) := λ A a s, Ok (a, s).
#[global] Instance M_bind {S} : MBind (M S) := λ A B k m s,
  match m s with
  | Ok (a, s') => k a s'
  | Fault f => Fault f
  end.

Definition fail {S A} (f : fault) : M S A := λ _, Fault f.
Definition gets {S A} (f : S → A) : M S A := λ s, Ok (f s, s).
Definition modify {S} (f : S → S) : M S unit := λ s, Ok (tt, f s).
(** [assert(b)] *)
Definition assert_ {S} (b : bool) : M S unit := if b then mret tt else fail AssertFailed.
(** [if (b) m;] *)
Definition when {S} (b : bool) (m : M S unit) : M S unit := if b then m else mret tt.

(** Run a component operation on a part of the state. *)
Definition zoom {S T A} (get : S → T) (set : T → S → S) (m : M T A) : M S A := λ s,
  match m (get s) with
  | Ok (a, t) => Ok (a, set t s)
  | Fault f => Fault f
  end.

Lemma bind_Ok {S A B} (m : M S A) (k : A → M S B) s a s' :
  m s = Ok (a, s') → (m ≫= k) s = k a s'.
Proof. intros H. unfold mbind, M_bind. by rewrite H. Qed.
Lemma bind_Fault {S A B} (m : M S A) (k : A → M S B) s f :
  m s = Fault f → (m ≫= k) s = Fault f.
Proof. intros H. unfold mbind, M_bind. by rewrite H. Qed.
Lemma bind_inv {S A B} (m : M S A) (k : A → M S B) s b s' :
  (m ≫= k) s = Ok (b, s') → ∃ a s1, m s = Ok (a, s1) ∧ k a s1 = Ok (b, s').
Proof.
  unfold mbind, M_bind. destruct (m s) as [[a s1]|f]; [|done]. eauto.
Qed.

(** ** Weakest preconditions (total correctness) *)
Definition wp {S A} (m : M S A) (s : S) (Q : A → S → Prop) : Prop :=
  ∃ a s', m s = Ok (a, s') ∧ Q a s'.

Section wp_rules.
Context {S A B : Type}.
Implicit Types (m : M S A) (k : A → M S B).

Lemma wp_ret (a : A) s (Q : A → S → Prop) : Q a s → wp (mret a) s Q.
Proof. intros. eexists _, _. eauto. Qed.
Lemma wp_bind m k s (Q : B → S → Prop) :
  wp m s (λ a s', wp (k a) s' Q) → wp (m ≫= k) s Q.
Proof.
  intros (a & s' & Hm & b & s2 & Hk & HQ). exists b, s2. split; [|done].
  by rewrite (bind_Ok _ _ _ _ _ Hm).
Qed.
Lemma wp_gets (f : S → A) s (Q : A → S → Prop) : Q (f s) s → wp (gets f) s Q.
Proof. intros. eexists _, _. eauto. Qed.
Lemma wp_modify (f : S → S) s (Q : unit → S → Prop) : Q tt (f s) → wp (modify f) s Q.
Proof. intros. eexists _, _. eauto. Qed.
Lemma wp_assert b s (Q : unit → S → Prop) : b = true → Q tt s → wp (assert_ b) s Q.
Proof. intros -> HQ. eexists _, _. eauto. Qed.
Lemma wp_mono m s (Q Q' : A → S → Prop) :
  (∀ a s', Q a s' → Q' a s') → wp m s Q → wp m s Q'.
Proof. intros HQ (a & s' & Hm & H). exists a, s'. auto. Qed.
Lemma wp_Ok m s (Q : A → S → Prop) : wp m s Q → ∃ a s', m s = Ok (a, s') ∧ Q a s'.
Proof. done. Qed.
Lemma wp_eq m s a s' (Q : A → S → Prop) : m s = Ok (a, s') → Q a s' → wp m s Q.
Proof. intros. eexists _, _. eauto. Qed.
End wp_rules.

(** The state an operation leaves, for building concrete states. *)
Definition final {S A} (m : M S A) (s : S) : S :=
  match m s with Ok (_, s') => s' | Fault _ => s end.
Lemma wp_final {S A} (m : M S A) s (Q : A → S → Prop) : wp m s Q → ∃ a, Q a (final m s).
Proof. intros (a & s' & Hm & HQ). exists a. unfold final. by rewrite Hm. Qed.

(** ** Loops

    A C loop is a body from loop variables to either new loop variables or the
    value the loop is left with.  [iterate n] runs the body at most [2 ^ n]
    times, so an iteration bound of [2 ^ 64] costs 64 levels of recursion and
    only the iterations really performed are computed. *)
Section loops.
Context {S X R : Type}.

Fixpoint iterate (n : nat) (body : X → M S (X + R)) (x : X) : M S (X + R) :=
  match n with
  | O => body x
  | Datatypes.S k =>
      r ← iterate k body x;
      match r with
      | inl x' => iterate k body x'
      | inr v => mret (inr v)
      end
  end.

Definition loop (n : nat) (body : X → M S (X + R)) (x : X) : M S R :=
  r ← iterate n body x;
  match r with
  | inl _ => fail OutOfFuel
  | inr v => mret v
  end.

(** [I k x s]: the loop variables [x] and the state [s] are inside the
    invariant with at most [k] iterations left. *)
Lemma iterate_rule n body (I : Z → X → S → Prop) (Q : R → S → Prop) :
  (∀ k x s, I k x s → wp (body x) s (λ r s', match r with
     | inl x' => ∃ k', 0 ≤ k' < k ∧ I k' x' s'
     | inr v => Q v s'
     end)) →
  ∀ k x s, I k x s →
  wp (iterate n body x) s (λ r s', match r with
     | inl x' => ∃ k', 0 ≤ k' ∧ k' + 2 ^ Z.of_nat n ≤ k ∧ I k' x' s'
     | inr v => Q v s'
     end).
Proof.
  intros Hbody. induction n as [|n IH]; intros k x s HI.
  - cbn [iterate]. eapply wp_mono; [|by apply Hbody].
    intros [x'|v] s'; [|done]. intros (k' & ? & ?). exists k'. cbn. split_and!; (done || lia).
  - cbn [iterate]. apply wp_bind. eapply wp_mono; [|by apply IH].
    intros [x'|v] s'; cbn beta iota; [|by intros; apply wp_ret].
    intros (k' & Hk' & Hle & HI'). eapply wp_mono; [|by apply (IH k')].
    intros [x2|v] s2; [|done]. intros (k2 & ? & ? & ?). exists k2.
    rewrite Nat2Z.inj_succ, Z.pow_succ_r by lia. split_and!; (done || lia).
Qed.

(** Total correctness of a loop from an invariant with a variant below the
    iteration bound. *)
Lemma loop_rule n body (I : Z → X → S → Prop) (Q : R → S → Prop) k x s :
  (∀ k x s, I k x s → wp (body x) s (λ r s', match r with
     | inl x' => ∃ k', 0 ≤ k' < k ∧ I k' x' s'
     | inr v => Q v s'
     end)) →
  I k x s → k < 2 ^ Z.of_nat n →
  wp (loop n body x) s Q.
Proof.
  intros Hbody HI Hk. unfold loop. apply wp_bind.
  eapply wp_mono; [|by eapply (iterate_rule n _ I Q)].
  intros [x'|v] s'; cbn beta iota; [intros (k' & ? & ? & _); lia|]. apply wp_ret.
Qed.

(** A loop left in its first turn. *)
Lemma loop_first n body x (s : S) (v : R) s' :
  body x s = Ok (inr v, s') → loop n body x s = Ok (v, s').
Proof.
  intros Hb. assert (iterate n body x s = Ok (inr v, s')) as Hi.
  { induction n as [|n IH]; cbn [iterate]; [done|]. by rewrite (bind_Ok _ _ _ _ _ IH). }
  unfold loop. by rewrite (bind_Ok _ _ _ _ _ Hi).
Qed.

(** A loop whose body always continues inside an invariant never returns,
    whatever the bound. *)
Lemma loop_diverges n body (I : X → S → Prop) x s :
  (∀ x s, I x s → ∃ x' s', body x s = Ok (inl x', s') ∧ I x' s') →
  I x s → loop n body x s = Fault OutOfFuel.
Proof.
  intros Hbody HI.
  assert (∀ x s, I x s → ∃ x' s', iterate n body x s = Ok (inl x', s') ∧ I x' s') as Hit.
  { clear x s HI. induction n as [|n IH]; intros x s HI; [by apply Hbody|].
    destruct (IH x s HI) as (x1 & s1 & H1 & HI1).
    destruct (IH x1 s1 HI1) as (x2 & s2 & H2 & HI2).
    exists x2, s2. split; [|done]. cbn [iterate]. by rewrite (bind_Ok _ _ _ _ _ H1). }
  destruct (Hit x s HI) as (x' & s' & H' & _). unfold loop.
  by rewrite (bind_Ok _ _ _ _ _ H').
Qed.

(** A loop that goes on inside an invariant until its body fails. *)
Lemma loop_faults n body (I : Z → X → S → Prop) f k x s :
  (∀ k x s, I k x s → body x s = Fault f ∨ ∃ x' s' k', body x s = Ok (inl x', s') ∧ 0 ≤ k' < k ∧ I k' x' s') →
  I k x s → 0 ≤ k < 2 ^ Z.of_nat n → loop n body x s = Fault f.
Proof.
  intros Hbody HI Hk.
  assert (∀ k x s, I k x s → 0 ≤ k → iterate n body x s = Fault f ∨
    ∃ x' s' k', iterate n body x s = Ok (inl x', s') ∧ 0 ≤ k' ∧ k' + 2 ^ Z.of_nat n ≤ k ∧ I k' x' s') as Hit.
  { clear k x s HI Hk. induction n as [|n IH]; intros k x s HI Hk.
    - destruct (Hbody k x s HI) as [H|(x' & s' & k' & H & Hlt & HI')]; [by left|]. right.
      exists x', s', k'. cbn. split_and!; (done || lia).
    - cbn [iterate]. destruct (IH k x s HI Hk) as [H|(x1 & s1 & k1 & H1 & Hk1 & Hle1 & HI1)].
      + left. by rewrite (bind_Fault _ _ _ _ H).
      + rewrite (bind_Ok _ _ _ _ _ H1). destruct (IH k1 x1 s1 HI1 Hk1) as [H|(x2 & s2 & k2 & H2 & Hk2 & Hle2 & HI2)].
        * by left.
        * right. exists x2, s2, k2. rewrite Nat2Z.inj_succ, Z.pow_succ_r by lia. split_and!; (done || lia). }
  unfold loop. destruct (Hit k x s HI ltac:(lia)) as [H|(x' & s' & k' & _ & Hk' & Hle & _)]; [|lia].
  by rewrite (bind_Fault _ _ _ _ H).
Qed.

(** Every outcome of a loop, faults included: the body fails inside [P], leaves
    with [P] or goes on inside the invariant with fewer iterations left, unless
    [P] holds of whatever comes. *)
Lemma loop_outcome n body (I : Z → X → S → Prop) (P : result (R * S) → Prop) k x s :
  (∀ k x s, I k x s → (∀ r, P r) ∨ match body x s with
     | Fault f => P (Fault f)
     | Ok (inr v, s') => P (Ok (v, s'))
     | Ok (inl x', s') => ∃ k', 0 ≤ k' < k ∧ I k' x' s'
     end) →
  I k x s → k < 2 ^ Z.of_nat n → P (loop n body x s).
Proof.
  intros Hbody HI Hk.
  assert (∀ k x s, I k x s → (∀ r, P r) ∨ match iterate n body x s with
     | Fault f => P (Fault f)
     | Ok (inr v, s') => P (Ok (v, s'))
     | Ok (inl x', s') => ∃ k', 0 ≤ k' ∧ k' + 2 ^ Z.of_nat n ≤ k ∧ I k' x' s'
     end) as Hit.
  { clear k x s HI Hk. induction n as [|n IH]; intros k x s HI.
    - cbn [iterate]. destruct (Hbody k x s HI) as [H|H]; [by left|right].
      destruct (body x s) as [[[x'|v] s']|f]; [|done|done].
      destruct H as (k' & Hlt & HI'). exists k'. cbn. split_and!; (done || lia).
    - cbn [iterate]. destruct (IH k x s HI) as [H|H]; [by left|]. destruct (iterate n body x s) as [[[x1|v] s1]|f] eqn:E.
      + rewrite (bind_Ok _ _ _ _ _ E). destruct H as (k1 & Hk1 & Hle1 & HI1).
        destruct (IH k1 x1 s1 HI1) as [H|H]; [by left|right]. destruct (iterate n body x1 s1) as [[[x2|v] s2]|f]; [|done|done].
        destruct H as (k2 & Hk2 & Hle2 & HI2). exists k2. rewrite Nat2Z.inj_succ, Z.pow_succ_r by lia. split_and!; (done || lia).
      + right. rewrite (bind_Ok _ _ _ _ _ E). exact H.
      + right. rewrite (bind_Fault _ _ _ _ E). exact H. }
  unfold loop. destruct (Hit k x s HI) as [H|H]; [apply H|]. destruct (iterate n body x s) as [[[x'|v] s']|f] eqn:E.
  - destruct H as (k' & Hk' & Hle & _). lia.
  - rewrite (bind_Ok _ _ _ _ _ E). exact H.
  - rewrite (bind_Fault _ _ _ _ E). exact H.
Qed.
End loops.

(** ** Outcomes: an operation returns inside [Q] or stops with a fault in [F] *)
Definition yields {S A} (F : fault → Prop) (m : M S A) (s : S) (Q : A → S → Prop) : Prop :=
  match m s with Ok (a, s') => Q a s' | Fault f => F f end.

Section outcomes.
Context {S : Type} (F : fault → Prop).

Lemma yields_wp {A} (m : M S A) s Q : wp m s Q → yields F m s Q.
Proof. intros (a & s' & E & HQ). unfold yields. by rewrite E. Qed.
Lemma yields_ret {A} (a : A) s (Q : A → S → Prop) : Q a s → yields F (mret a) s Q.
Proof. done. Qed.
Lemma yields_fail {A} e s (Q : A → S → Prop) : F e → yields F (fail e) s Q.
Proof. done. Qed.
Lemma yields_gets {A} (f : S → A) s (Q : A → S → Prop) : Q (f s) s → yields F (gets f) s Q.
Proof. done. Qed.
Lemma yields_modify (f : S → S) s (Q : unit → S → Prop) : Q tt (f s) → yields F (modify f) s Q.
Proof. done. Qed.
Lemma yields_bind {A B} (m : M S A) (k : A → M S B) s Q :
  yields F m s (λ a s', yields F (k a) s' Q) → yields F (m ≫= k) s Q.
Proof. unfold yields, mbind, M_bind. by destruct (m s) as [[a s']|]. Qed.
Lemma yields_mono {A} (m : M S A) s (Q Q' : A → S → Prop) :
  (∀ a s', Q a s' → Q' a s') → yields F m s Q → yields F m s Q'.
Proof. unfold yields. destruct (m s) as [[a s']|]; auto. Qed.
Lemma yields_inv {A} (m : M S A) s (Q : A → S → Prop) a s' : yields F m s Q → m s = Ok (a, s') → Q a s'.
Proof. unfold yields. intros H E. by rewrite E in H. Qed.

Lemma yields_frame_any {A U} (f : S → U) (m : M S A) s :
  (∀ a s', m s = Ok (a, s') → f s' = f s) → (∀ e, F e) → yields F m s (λ _ s', f s' = f s).
Proof. intros Hf HF. unfold yields. destruct (m s) as [[a s']|] eqn:E; [by apply (Hf a)|apply HF]. Qed.

(** A traversal, with what it has still to visit in the invariant. *)
Lemma yields_foldl {X A} (f : A → X → M S A) (I : list X → A → S → Prop) l m s :
  yields F m s (I l) → (∀ a x l s, I (x :: l) a s → yields F (f a x) s (I l)) →
  yields F (foldl (λ m x, a ← m; f a x) m l) s (I []).
Proof.
  intros Hm Hf. revert m Hm. induction l as [|x l IH]; intros m Hm; cbn [foldl]; [done|].
  apply IH. apply yields_bind. eapply yields_mono; [|exact Hm]. intros a s' Ha. by apply Hf.
Qed.

Lemma yields_iterate {X R} n (body : X → M S (X + R)) (I : Z → X → S → Prop) (Q : R → S → Prop) :
  (∀ k x s, I k x s → yields F (body x) s (λ r s', match r with
     | inl x' => ∃ k', 0 ≤ k' < k ∧ I k' x' s'
     | inr v => Q v s'
     end)) →
  ∀ k x s, I k x s →
  yields F (iterate n body x) s (λ r s', match r with
     | inl x' => ∃ k', 0 ≤ k' ∧ k' + 2 ^ Z.of_nat n ≤ k ∧ I k' x' s'
     | inr v => Q v s'
     end).
Proof.
  intros Hbody. induction n as [|n IH]; intros k x s HI; cbn [iterate].
  - eapply yields_mono; [|by apply Hbody].
    intros [x'|v] s'; [|done]. intros (k' & ? & ?). exists k'. cbn. split_and!; (done || lia).
  - apply yields_bind. eapply yields_mono; [|by apply IH].
    intros [x'|v] s'; cbn beta iota; [|done].
    intros (k' & Hk' & Hle & HI'). eapply yields_mono; [|by apply (IH k')].
    intros [x2|v] s2; [|done]. intros (k2 & ? & ? & ?). exists k2.
    rewrite Nat2Z.inj_succ, Z.pow_succ_r by lia. split_and!; (done || lia).
Qed.
(** A loop with a variant never runs out of fuel. *)
Lemma yields_loop {X R} n (body : X → M S (X + R)) (I : Z → X → S → Prop) (Q : R → S → Prop) k x s :
  (∀ k x s, I k x s → yields F (body x) s (λ r s', match r with
     | inl x' => ∃ k', 0 ≤ k' < k ∧ I k' x' s'
     | inr v => Q v s'
     end)) →
  I k x s → k < 2 ^ Z.of_nat n →
  yields F (loop n body x) s Q.
Proof.
  intros Hbody HI Hk. unfold loop. apply yields_bind.
  eapply yields_mono; [|by eapply (yields_iterate n _ I Q)].
  intros [x'|v] s'; cbn beta iota; [intros (k' & ? & ? & _); lia|]. done.
Qed.
End outcomes.

(** Without faults: the operation returns. *)
Lemma wp_yields {S A} (m : M S A) s Q : yields (λ _, False) m s Q → wp m s Q.
Proof. unfold yields, wp. destruct (m s) as [[a s']|]; [|done]. intros HQ. by exists a, s'. Qed.

(** ** Frames: the part [f] of the state is left alone *)
Section frames.
Context {S T : Type} (f : S → T).

Definition frame {A} (m : M S A) : Prop := ∀ s a s', m s = Ok (a, s') → f s' = f s.

Lemma frame_ret {A} (a : A) : frame (mret a).
Proof. by intros s b s' [= <- <-]. Qed.
Lemma frame_fail {A} e : frame (fail e : M S A).
Proof. by intros s b s' [=]. Qed.
Lemma frame_gets {A} (g : S → A) : frame (gets g).
Proof. by intros s b s' [= <- <-]. Qed.
Lemma frame_modify g : (∀ s, f (g s) = f s) → frame (modify g).
Proof. intros Hg s b s' [= <- <-]. apply Hg. Qed.
Lemma frame_assert b : frame (assert_ b).
Proof. destruct b; [apply frame_ret|apply frame_fail]. Qed.
Lemma frame_bind {A B} (m : M S A) (k : A → M S B) : frame m → (∀ a, frame (k a)) → frame (m ≫= k).
Proof. intros Hm Hk s b s' (a & s1 & E1 & E2)%bind_inv. rewrite (Hk _ _ _ _ E2). by apply (Hm _ _ _ E1). Qed.
Lemma frame_if {A} (b : bool) (m1 m2 : M S A) : frame m1 → frame m2 → frame (if b then m1 else m2).
Proof. by destruct b. Qed.
Lemma frame_when b m : frame m → frame (when b m).
Proof. intros Hm. apply frame_if; [done|apply frame_ret]. Qed.
Lemma frame_iterate {X R} n (body : X → M S (X + R)) x : (∀ x, frame (body x)) → frame (iterate n body x).
Proof.
  intros Hb. revert x. induction n as [|n IH]; intros x; cbn [iterate]; [apply Hb|].
  apply frame_bind; [apply IH|]. intros [x'|v]; [apply IH|apply frame_ret].
Qed.
Lemma frame_loop {X R} n (body : X → M S (X + R)) x : (∀ x, frame (body x)) → frame (loop n body x).
Proof.
  intros Hb. apply frame_bind; [by apply frame_iterate|]. intros [x'|v]; [apply frame_fail|apply frame_ret].
Qed.
Lemma frame_foldl {X B} (g : M S B → X → M S B) (m : M S B) l :
  frame m → (∀ m x, frame m → frame (g m x)) → frame (foldl g m l).
Proof. intros Hm Hg. revert m Hm. induction l as [|x l IH]; intros m Hm; cbn; auto. Qed.
End frames.

(** An operation on a component keeps what it keeps of the component, and
    everything beside the component. *)
Lemma frame_zoom {S T U A} (f : S → U) (get : S → T) (set : T → S → S) (m : M T A) (g : T → U) :
  (∀ s, f s = g (get s)) → (∀ t s, get (set t s) = t) → frame g m → frame f (zoom get set m).
Proof.
  intros Hf Hgs Hm s a s'. unfold zoom. destruct (m (get s)) as [[b t]|] eqn:E; [|done].
  intros [= <- <-]. rewrite !Hf, Hgs. by apply (Hm _ _ _ E).
Qed.
Lemma frame_zoom_out {S T U A} (f : S → U) (get : S → T) (set : T → S → S) (m : M T A) :
  (∀ t s, f (set t s) = f s) → frame f (zoom get set m).
Proof.
  intros Hf s a s'. unfold zoom. destruct (m (get s)) as [[b t]|]; [|done]. intros [= <- <-]. apply Hf.
Qed.

Create HintDb frames.
(** Decompose an operation; the leaves are found in the hint database. *)
Ltac frame_tac :=
  repeat lazymatch goal with
  | |- frame _ (let _ := _ in _) => cbv zeta
  | |- frame _ (mbind _ _) => apply frame_bind; [|intros ?]
  | |- frame _ (mret _) => apply frame_ret
  | |- frame _ (fail _) => apply frame_fail
  | |- frame _ (gets _) => apply frame_gets
  | |- frame _ (assert_ _) => apply frame_assert
  | |- frame _ (when _ _) => apply frame_when
  | |- frame _ (if ?b then _ else _) => first [apply frame_if | destruct b]
  | |- frame _ (modify _) => apply frame_modify; intros ?; reflexivity
  | |- frame _ (match ?x with _ => _ end) => destruct x
  | |- frame _ _ => solve [auto with frames nocore]
  end.

(** Iteration bound of the modelled loops: [2 ^ 64], more than any counter of
    the program can count. *)
Definition FUEL : nat := 64.

(** ** Words as byte sequences *)
Lemma le_encode_decode bs : Forall is_byte bs → le_encode (length bs) (le_decode bs) = bs.
Proof.
  induction 1 as [|b bs Hb _ IH]; [done|]. cbn [length le_decode le_encode].
  unfold is_byte in Hb.
  replace ((b + 256 * le_decode bs) mod 256) with b
    by (rewrite Z.mul_comm, Z.mod_add by lia; symmetry; apply Z.mod_small; lia).
  replace ((b + 256 * le_decode bs) / 256) with (le_decode bs)
    by (rewrite Z.mul_comm, Z.div_add, Z.div_small by lia; lia).
  by rewrite IH.
Qed.

Definition be_decode (bs : list Z) : Z := fold_left (λ v b, v * 256 + b) bs 0.

Lemma be_decode_snoc bs b : be_decode (bs ++ [b]) = be_decode bs * 256 + b.
Proof. unfold be_decode. by rewrite fold_left_app. Qed.

Lemma be_decode_rev bs : be_decode (rev bs) = le_decode bs.
Proof. induction bs as [|b bs IH]; [done|]. cbn [rev le_decode]. rewrite be_decode_snoc. lia. Qed.

(** Concatenating a byte below a value. *)
Lemma lor_shiftl_byte a b : 0 ≤ b < 256 → Z.lor (Z.shiftl a 8) b = a * 256 + b.
Proof.
  intros Hb. rewrite Z.shiftl_mul_pow2 by lia. change (2 ^ 8) with 256.
  rewrite <- Z.lxor_lor, <- Z.add_nocarry_lxor; [done|..].
  all: apply Z.bits_inj_0; intros n; rewrite Z.land_spec;
    destruct (Z.le_gt_cases 8 n) as [Hn|Hn];
    [ replace (Z.testbit b n) with false; [apply andb_false_r|];
      symmetry; rewrite <- (Z.mod_small b (2 ^ 8)) by lia;
      by apply Z.mod_pow2_bits_high
    | change 256 with (2 ^ 8); rewrite Z.mul_pow2_bits_low by lia; done ].
Qed.
