(* ===== verification/Mem.v ===== *)
(** * Byte memory

    The log of the cache is one malloc-ed chunk addressed by offsets from
    [mem_base].  Absent cells read as zero, which is what [memset] leaves. *)
From Stdlib Require Import ZArith Lia.
From stdpp Require Import prelude gmap list.
From S2P Require Import Prelude.

Abbreviation memory := (gmap Z Z).

Create Rewrite HintDb mc_mem.

Definition mget (m : memory) (a : Z) : Z := u8 (default 0 (m !! a)).

(** [memcpy(a, bs, length bs)] *)
Fixpoint store_bytes (m : memory) (a : Z) (bs : list Z) : memory :=
  match bs with
  | [] => m
  | b :: bs => <[a := u8 b]> (store_bytes m (a + 1) bs)
  end.

Fixpoint load_bytes (m : memory) (a : Z) (n : nat) : list Z :=
  match n with
  | O => []
  | S n => mget m a :: load_bytes m (a + 1) n
  end.

Definition load_le (m : memory) (a : Z) (n : nat) : Z := le_decode (load_bytes m a n).
Definition store_le (m : memory) (a : Z) (n : nat) (v : Z) : memory :=
  store_bytes m a (le_encode n v).

(** [memset(a, 0, n)] *)
Definition memset0 (m : memory) (a n : Z) : memory :=
  filter (λ kv, ¬ (a ≤ kv.1 < a + n)) m.

#[global] Arguments mget : simpl never.
#[global] Arguments load_le : simpl never.
#[global] Arguments store_le : simpl never.
#[global] Arguments memset0 : simpl never.

(** ** Reading back what was written *)
Lemma mget_byte m a : is_byte (mget m a).
Proof. apply u8_range. Qed.

Lemma load_bytes_length m a n : length (load_bytes m a n) = n.
Proof. revert a; induction n as [|n IH]; intros a; simpl; [done|]. by rewrite IH. Qed.

Lemma load_bytes_bytes m a n : Forall is_byte (load_bytes m a n).
Proof. revert a; induction n; intros a; simpl; constructor; auto using mget_byte. Qed.

#[export] Hint Resolve mget_byte load_bytes_bytes : mc.

Lemma mget_store_bytes m a bs b :
  Forall is_byte bs →
  mget (store_bytes m a bs) b =
    if bool_decide (a ≤ b < a + Z.of_nat (length bs))
    then bs !!! Z.to_nat (b - a) else mget m b.
Proof.
  intros Hbs. revert a. induction Hbs as [|x bs Hx Hbs IH]; intros a.
  - rewrite bool_decide_eq_false_2; [done|cbn; lia].
  - cbn [store_bytes length]. unfold mget at 1. rewrite lookup_insert.
    case_decide as Hab.
    + subst b. rewrite bool_decide_eq_true_2 by lia.
      rewrite Z.sub_diag. cbn. rewrite (u8_small x) by done. by apply u8_small.
    + change (mget (store_bytes m (a + 1) bs) b =
        if bool_decide (a ≤ b < a + Z.of_nat (S (length bs)))
        then (x :: bs) !!! Z.to_nat (b - a) else mget m b).
      rewrite IH. do 2 case_bool_decide; try lia; try done.
      by replace (Z.to_nat (b - a)) with (S (Z.to_nat (b - (a + 1)))) by lia.
Qed.

Lemma mget_store_bytes_out m a bs b :
  Forall is_byte bs → b < a ∨ a + Z.of_nat (length bs) ≤ b →
  mget (store_bytes m a bs) b = mget m b.
Proof. intros. rewrite mget_store_bytes by done. by rewrite bool_decide_eq_false_2 by lia. Qed.

Lemma mget_memset0 m a n b :
  mget (memset0 m a n) b = if bool_decide (a ≤ b < a + n) then 0 else mget m b.
Proof.
  unfold mget, memset0. rewrite map_lookup_filter.
  destruct (m !! b) as [v|]; cbn; [|by case_bool_decide].
  case_guard as G; case_bool_decide; cbn; try tauto; done.
Qed.

(** Two memories agree on [[a, a + n)]. *)
Definition agree (m m' : memory) (a n : Z) : Prop := ∀ b, a ≤ b < a + n → mget m b = mget m' b.

Lemma load_bytes_agree m m' a n :
  agree m m' a (Z.of_nat n) → load_bytes m a n = load_bytes m' a n.
Proof.
  revert a; induction n as [|n IH]; intros a Hag; simpl; [done|]. f_equal.
  - apply Hag. lia.
  - apply IH. intros b Hb. apply Hag. lia.
Qed.

Lemma load_le_agree m m' a n :
  agree m m' a (Z.of_nat n) → load_le m a n = load_le m' a n.
Proof. intros H. unfold load_le. by rewrite (load_bytes_agree m m'). Qed.

Lemma load_bytes_lookup m a n i :
  (i < n)%nat → load_bytes m a n !! i = Some (mget m (a + Z.of_nat i)).
Proof.
  revert a i; induction n as [|n IH]; intros a i Hi; [lia|].
  destruct i as [|i]; cbn.
  - by rewrite Z.add_0_r.
  - rewrite IH by lia. f_equal. f_equal. lia.
Qed.

Lemma load_bytes_app m a n1 n2 :
  load_bytes m a (n1 + n2) = load_bytes m a n1 ++ load_bytes m (a + Z.of_nat n1) n2.
Proof.
  revert a; induction n1 as [|n1 IH]; intros a; simpl.
  - by rewrite Z.add_0_r.
  - rewrite IH. do 3 f_equal. lia.
Qed.

Lemma load_store_bytes_eq m a bs n :
  Forall is_byte bs → n = length bs → load_bytes (store_bytes m a bs) a n = bs.
Proof.
  intros Hbs ->. apply list_eq. intros i. destruct (decide (i < length bs)%nat) as [Hi|Hi].
  - rewrite load_bytes_lookup by done. rewrite mget_store_bytes by done.
    rewrite bool_decide_eq_true_2 by lia.
    replace (Z.to_nat (a + Z.of_nat i - a)) with i by lia.
    destruct (lookup_lt_is_Some_2 bs i Hi) as [x Hx]. rewrite Hx.
    by rewrite (list_lookup_total_correct _ _ _ Hx).
  - rewrite !lookup_ge_None_2; [done|lia|rewrite load_bytes_length; lia].
Qed.

Lemma agree_store_out m a bs b n :
  Forall is_byte bs → b + n ≤ a ∨ a + Z.of_nat (length bs) ≤ b →
  agree (store_bytes m a bs) m b n.
Proof. intros Hb Hd c Hc. apply mget_store_bytes_out; [done|lia]. Qed.

Lemma agree_memset0_out m a n b k :
  b + k ≤ a ∨ a + n ≤ b → agree (memset0 m a n) m b k.
Proof. intros Hd c Hc. rewrite mget_memset0. by rewrite bool_decide_eq_false_2 by lia. Qed.

Lemma agree_trans m1 m2 m3 a n : agree m1 m2 a n → agree m2 m3 a n → agree m1 m3 a n.
Proof. intros H1 H2 b Hb. by rewrite H1, H2. Qed.
Lemma agree_sym m1 m2 a n : agree m1 m2 a n → agree m2 m1 a n.
Proof. intros H b Hb. by rewrite H. Qed.
Lemma agree_refl m a n : agree m m a n.
Proof. by intros b Hb. Qed.
Lemma agree_sub m1 m2 a n a' n' :
  agree m1 m2 a n → a ≤ a' → a' + n' ≤ a + n → agree m1 m2 a' n'.
Proof. intros H ?? b Hb. apply H. lia. Qed.

#[export] Hint Resolve agree_refl agree_sym : mc.

Lemma load_le_store_eq m a n v :
  load_le (store_le m a n v) a n = v mod 256 ^ Z.of_nat n.
Proof.
  unfold load_le, store_le.
  rewrite load_store_bytes_eq; [apply le_decode_encode|apply le_encode_bytes|by rewrite le_encode_length].
Qed.

Lemma load_le_range m a n : 0 ≤ load_le m a n < 256 ^ Z.of_nat n.
Proof.
  unfold load_le. pose proof (le_decode_range (load_bytes m a n)) as H.
  rewrite load_bytes_length in H. apply H, load_bytes_bytes.
Qed.

(** A store of [n] bytes at [a] changes nothing outside [[a, a + n)]. *)
Lemma agree_store_le_out m a n v b k :
  b + k ≤ a ∨ a + Z.of_nat n ≤ b → agree (store_le m a n v) m b k.
Proof.
  intros. apply agree_store_out; [apply le_encode_bytes|]. by rewrite le_encode_length.
Qed.

Lemma load_le_store_out m a n v b k :
  b + Z.of_nat k ≤ a ∨ a + Z.of_nat n ≤ b → load_le (store_le m a n v) b k = load_le m b k.
Proof. intros. by apply load_le_agree, agree_store_le_out. Qed.

(** ** Slices and word composition *)
Lemma load_bytes_slice m a n i j :
  take j (drop i (load_bytes m a n)) = load_bytes m (a + Z.of_nat i) (j `min` (n - i)).
Proof.
  revert a n; induction i as [|i IH]; intros a n.
  - rewrite drop_0, Z.add_0_r, Nat.sub_0_r. revert a n; induction j as [|j IHj]; intros a n; [done|].
    destruct n as [|n]; [done|]. cbn. by rewrite IHj.
  - destruct n as [|n]; [by destruct j|].
    cbn [load_bytes drop]. rewrite IH. cbn [Nat.sub]. f_equal. lia.
Qed.

Lemma load_bytes_drop m a n i : drop i (load_bytes m a n) = load_bytes m (a + Z.of_nat i) (n - i).
Proof.
  pose proof (load_bytes_slice m a n i (n - i)) as H.
  rewrite Nat.min_id in H. rewrite take_ge in H; [done|].
  rewrite length_drop, load_bytes_length. lia.
Qed.

Lemma load_le_0 m a : load_le m a 0 = 0.
Proof. done. Qed.
Lemma load_le_1 m a : load_le m a 1 = mget m a.
Proof. unfold load_le. cbn [load_bytes le_decode]. lia. Qed.
Lemma load_le_S m a n : load_le m a (S n) = mget m a + 256 * load_le m (a + 1) n.
Proof. done. Qed.

Lemma load_le_mask m a n k :
  (k ≤ n)%nat → load_le m a n mod 256 ^ Z.of_nat k = load_le m a k.
Proof.
  revert a n; induction k as [|k IH]; intros a n Hk.
  - by rewrite Z.mod_1_r.
  - destruct n as [|n]; [lia|]. rewrite !load_le_S, <- (IH (a + 1) n) by lia.
    rewrite Nat2Z.inj_succ, Z.pow_succ_r by lia.
    rewrite Z.rem_mul_r by lia. pose proof (mget_byte m a) as Hb. unfold is_byte in Hb.
    revert Hb. generalize (mget m a). intros b Hb. set (L := load_le m (a + 1) n).
    replace (b + 256 * L) with (b + L * 256) by lia.
    rewrite Z.mod_add, Z.div_add, (Z.mod_small b), (Z.div_small b) by lia. by rewrite Z.add_0_l.
Qed.

(** Bring the constant offsets of addresses together: [a + 8 + 1] to [a + 9]. *)
Ltac norm_addr :=
  repeat match goal with
  | |- context [?a + Z.pos ?p + Z.pos ?q] =>
      rewrite <- (Z.add_assoc a (Z.pos p) (Z.pos q));
      let r := eval vm_compute in (Z.pos p + Z.pos q) in
      change (Z.pos p + Z.pos q) with r
  end.
