(* ===== verification/Util.v ===== *)
(** * util.c: numeric parsing, byte order, URI encoding; printf's decimal output

    A C string is the list of its bytes before the terminating NUL. *)
From Stdlib Require Import ZArith Lia.
From stdpp Require Import prelude list.
From S2P Require Import Prelude.

(** ** <ctype.h> *)
Definition isspace (c : Z) : bool := (c =? 32) || ((9 <=? c) && (c <=? 13)).
Definition isdigit (c : Z) : bool := (48 <=? c) && (c <=? 57).
Definition isalnum (c : Z) : bool :=
  isdigit c || ((65 <=? c) && (c <=? 90)) || ((97 <=? c) && (c <=? 122)).

(** ** <stdlib.h>: strtol and its family, base 10, LP64 *)
Fixpoint take_while (p : Z → bool) (s : list Z) : list Z :=
  match s with
  | c :: s' => if p c then c :: take_while p s' else []
  | [] => []
  end.
Fixpoint drop_while (p : Z → bool) (s : list Z) : list Z :=
  match s with
  | c :: s' => if p c then drop_while p s' else s
  | [] => []
  end.

Definition digits_value (ds : list Z) : Z := fold_left (λ v d, v * 10 + (d - 48)) ds 0.

(** The subject sequence: sign, magnitude and what follows it; [None] when no
    conversion is possible (endptr = str). *)
Definition strto_scan (s : list Z) : option (bool * Z * list Z) :=
  let s1 := drop_while isspace s in
  let '(neg, s2) := match s1 with
    | c :: r => if c =? 45 then (true, r) else if c =? 43 then (false, r) else (false, s1)
    | [] => (false, [])
    end in
  match take_while isdigit s2 with
  | [] => None
  | ds => Some (neg, digits_value ds, drop_while isdigit s2)
  end.

(** Result of [strtoull]/[strtoul]: value, ERANGE flag and endptr; no
    conversion is [None]. *)
Definition strtoull (s : list Z) : option (Z * bool * list Z) :=
  match strto_scan s with
  | None => None
  | Some (neg, v, rest) =>
      if 2 ^ 64 <=? v then Some (2 ^ 64 - 1, true, rest)
      else Some (if neg then u64 (- v) else v, false, rest)
  end.

Definition strtoll (s : list Z) : option (Z * bool * list Z) :=
  match strto_scan s with
  | None => None
  | Some (neg, v, rest) =>
      let v' := if neg then - v else v in
      if 2 ^ 63 <=? v' then Some (2 ^ 63 - 1, true, rest)
      else if v' <? - 2 ^ 63 then Some (- 2 ^ 63, true, rest)
      else Some (v', false, rest)
  end.

(** [strtoul(s, NULL, 10)]: no conversion gives 0. *)
Definition strtoul_value (s : list Z) : Z :=
  match strtoull s with Some (v, _, _) => v | None => 0 end.

(** [*endptr] is white space, or the end of a non-empty conversion. *)
Definition endptr_ok (rest : list Z) : bool :=
  match rest with [] => true | c :: _ => isspace c end.

Definition has_minus (s : list Z) : bool := existsb (Z.eqb 45) s.

(** The safe_ wrappers return the success flag and the value left in [*out]. *)
Definition safe_strtoull (s : list Z) : bool * Z :=
  match strtoull s with
  | None => (false, 0)
  | Some (_, true, _) => (false, 0)
  | Some (ull, false, rest) =>
      if endptr_ok rest then
        if (i64 ull <? 0) && has_minus s then (false, 0) else (true, ull)
      else (false, 0)
  end.

Definition safe_strtoll (s : list Z) : bool * Z :=
  match strtoll s with
  | None => (false, 0)
  | Some (_, true, _) => (false, 0)
  | Some (ll, false, rest) => if endptr_ok rest then (true, ll) else (false, 0)
  end.

Definition safe_strtoul (s : list Z) : bool * Z :=
  match strtoull s with
  | None => (false, 0)
  | Some (_, true, _) => (false, 0)
  | Some (l, false, rest) =>
      if endptr_ok rest then
        if (i64 l <? 0) && has_minus s then (false, 0) else (true, u32 l)
      else (false, 0)
  end.

Definition safe_strtol (s : list Z) : bool * Z :=
  match strtoll s with
  | None => (false, 0)
  | Some (_, true, _) => (false, 0)
  | Some (l, false, rest) => if endptr_ok rest then (true, i32 l) else (false, 0)
  end.

(** ** printf's %u, %d, %llu *)
Fixpoint udec (fuel : nat) (n : Z) : list Z :=
  match fuel with
  | O => []
  | S f => if n <? 10 then [48 + n] else udec f (n / 10) ++ [48 + n mod 10]
  end.
(** 20 digits hold every 64-bit number. *)
Definition fmt_u (n : Z) : list Z := udec 20 n.
Definition fmt_d (n : Z) : list Z := if n <? 0 then 45 :: fmt_u (- n) else fmt_u n.

(** ** Byte order *)
Fixpoint swap64_loop (i : nat) (rv inp : Z) : Z :=
  match i with
  | O => rv
  | S i => swap64_loop i (u64 (Z.lor (Z.shiftl rv 8) (Z.land inp 255))) (Z.shiftr inp 8)
  end.
Definition mc_swap64 (inp : Z) : Z := swap64_loop 8 0 inp.
Definition ntohll (v : Z) : Z := mc_swap64 v.
Definition htonll (v : Z) : Z := mc_swap64 v.

(** ** URI encoding *)
Definition hexdigit (d : Z) : Z := if d <? 10 then 48 + d else 55 + d.
(** ["%%%02X"] *)
Definition fmt_pct (x : Z) : list Z := [37; hexdigit (x / 16); hexdigit (x mod 16)].

Definition unreserved (x : Z) : bool :=
  isalnum x || (x =? 45) || (x =? 46) || (x =? 95) || (x =? 126).

(** [uriencode_map] holds offsets into [uriencode_str]; both are built together. *)
Record uri_table := UriTable { uri_map : list (option nat); uri_str : list Z }.

Definition uriencode_init_step (t : uri_table) (x : nat) : uri_table :=
  if unreserved (Z.of_nat x)
  then UriTable (uri_map t ++ [None]) (uri_str t)
  else UriTable (uri_map t ++ [Some (length (uri_str t))]) (uri_str t ++ fmt_pct (Z.of_nat x)).
Definition uriencode_init : uri_table :=
  fold_left uriencode_init_step (seq 0 256) (UriTable [] []).

(** [dst] is the bytes written so far; [None] is [return false]. *)
Fixpoint uriencode_loop (t : uri_table) (src dst : list Z) (dstlen : Z) : option (list Z) :=
  match src with
  | [] => Some dst
  | c :: src =>
      if Z.of_nat (length dst) + 4 >=? dstlen then None
      else match uri_map t !! Z.to_nat (u8 c) with
           | Some (Some off) =>
               uriencode_loop t src (dst ++ take 3 (drop off (uri_str t))) dstlen
           | _ => uriencode_loop t src (dst ++ [c]) dstlen
           end
  end.
Definition uriencode (t : uri_table) (src : list Z) (dstlen : Z) : option (list Z) :=
  uriencode_loop t src [] dstlen.

(** ** Lemmas: scanning what was printed *)
Lemma take_while_app p a b c :
  forallb p a = true → p c = false → take_while p (a ++ c :: b) = a.
Proof.
  intros Ha Hc. induction a as [|x a IH]; cbn in *; [by rewrite Hc|].
  apply andb_true_iff in Ha as [Hx Ha]. rewrite Hx. by rewrite IH.
Qed.
Lemma drop_while_app p a b c :
  forallb p a = true → p c = false → drop_while p (a ++ c :: b) = c :: b.
Proof.
  intros Ha Hc. induction a as [|x a IH]; cbn in *; [by rewrite Hc|].
  apply andb_true_iff in Ha as [Hx Ha]. rewrite Hx. by rewrite IH.
Qed.
Lemma take_while_all p a : forallb p a = true → take_while p a = a.
Proof.
  induction a as [|x a IH]; cbn; [done|]. intros [Hx Ha]%andb_true_iff.
  rewrite Hx. by rewrite IH.
Qed.
Lemma drop_while_all p a : forallb p a = true → drop_while p a = [].
Proof.
  induction a as [|x a IH]; cbn; [done|]. intros [Hx Ha]%andb_true_iff.
  rewrite Hx. by rewrite IH.
Qed.

(** What may follow a number for the conversion to stop after it. *)
Definition num_end (rest : list Z) : bool :=
  match rest with [] => true | c :: _ => isspace c end.

Lemma isspace_not_digit c : isspace c = true → isdigit c = false.
Proof.
  unfold isspace, isdigit. intros H. apply not_true_iff_false. intros H'.
  apply orb_true_iff in H. reflect_bools. destruct H as [H|H]; reflect_bools; lia.
Qed.

Lemma udec_digits f n : 0 ≤ n → forallb isdigit (udec f n) = true.
Proof.
  revert n; induction f as [|f IH]; intros n Hn; [done|]. cbn [udec].
  destruct (n <? 10) eqn:E; reflect_bools.
  - unfold isdigit; cbn. rewrite !(proj2 (Z.leb_le _ _)) by lia. done.
  - rewrite forallb_app, IH by (apply Z.div_pos; lia). cbn.
    pose proof (Z.mod_pos_bound n 10 ltac:(lia)). unfold isdigit.
    by rewrite !(proj2 (Z.leb_le _ _)) by lia.
Qed.

Lemma udec_value f n : 0 ≤ n < 10 ^ Z.of_nat f → digits_value (udec f n) = n.
Proof.
  revert n; induction f as [|f IH]; intros n Hn; [cbn in *; lia|]. cbn [udec].
  destruct (n <? 10) eqn:E; reflect_bools; [cbn; lia|].
  unfold digits_value in *. rewrite fold_left_app.
  rewrite Nat2Z.inj_succ, Z.pow_succ_r in Hn by lia.
  rewrite IH by (split; [apply Z.div_pos; lia|apply Z.div_lt_upper_bound; lia]).
  cbn. pose proof (Z.div_mod n 10). lia.
Qed.

Lemma udec_nonempty f n : f ≠ O → udec f n ≠ [].
Proof.
  destruct f; [done|]. intros _. cbn [udec]. destruct (n <? 10); [done|].
  intros [_ ?]%app_eq_nil. done.
Qed.

Lemma udec_length f n : (length (udec f n) ≤ f)%nat.
Proof.
  revert n; induction f as [|f IH]; intros n; [done|]. cbn [udec].
  destruct (n <? 10); cbn; [lia|]. rewrite length_app. cbn. specialize (IH (n / 10)). lia.
Qed.

(** At most [k] digits are the numbers below [10 ^ k]. *)
Lemma udec_digits_iff f k n : (0 < k)%nat → (k < f)%nat → 0 ≤ n → (length (udec f n) ≤ k)%nat ↔ n < 10 ^ Z.of_nat k.
Proof.
  revert k n. induction f as [|f IH]; intros k n Hk Hf Hn; [lia|]. cbn [udec]. destruct (Z.ltb_spec n 10) as [Hlt|Hge].
  - cbn. split; [intros _|lia]. apply (Z.lt_le_trans _ (10 ^ 1)); [lia|]. apply Z.pow_le_mono_r; lia.
  - rewrite length_app. cbn [length]. destruct k as [|[|k]]; [lia| |].
    + split; [|cbn; lia]. intros Hl. pose proof (udec_nonempty f (n / 10) ltac:(lia)) as Hne. destruct (udec f (n / 10)); [done|cbn in Hl; lia].
    + specialize (IH (S k) (n / 10) ltac:(lia) ltac:(lia) ltac:(apply Z.div_pos; lia)).
      rewrite (Nat2Z.inj_succ (S k)), Z.pow_succ_r by lia. pose proof (Z.div_lt_upper_bound n 10 (10 ^ Z.of_nat (S k)) ltac:(lia)).
      pose proof (Z.mul_div_le n 10 ltac:(lia)). split; intros Hx.
      * assert (n / 10 < 10 ^ Z.of_nat (S k)) as Hd by (apply IH; lia). pose proof (Z.mod_pos_bound n 10 ltac:(lia)).
        pose proof (Z.div_mod n 10 ltac:(lia)). lia.
      * assert (length (udec f (n / 10)) ≤ S k)%nat by (apply IH; auto). lia.
Qed.
Lemma fmt_u_digits n (k : nat) : 0 ≤ n → (0 < k < 20)%nat → (length (fmt_u n) ≤ k)%nat ↔ n < 10 ^ Z.of_nat k.
Proof. intros Hn Hk. apply udec_digits_iff; lia. Qed.

Lemma digits_scan ds rest :
  forallb isdigit ds = true → ds ≠ [] → num_end rest = true →
  strto_scan (ds ++ rest) = Some (false, digits_value ds, rest).
Proof.
  intros Hds Hne Hrest.
  assert (take_while isdigit (ds ++ rest) = ds ∧ drop_while isdigit (ds ++ rest) = rest) as [Ht Hd].
  { destruct rest as [|c rest].
    - rewrite app_nil_r. by rewrite take_while_all, drop_while_all.
    - cbn in Hrest. apply isspace_not_digit in Hrest.
      by rewrite take_while_app, drop_while_app. }
  destruct ds as [|d ds]; [done|]. cbn in Hds. apply andb_true_iff in Hds as [Hd0 Hds].
  assert (48 ≤ d ≤ 57) as Hr by (unfold isdigit in Hd0; reflect_bools; lia).
  unfold strto_scan. cbn [app drop_while].
  replace (isspace d) with false
    by (symmetry; unfold isspace; apply orb_false_iff; split; [lia|apply andb_false_iff; lia]).
  replace (d =? 45) with false by (symmetry; apply Z.eqb_neq; lia).
  replace (d =? 43) with false by (symmetry; apply Z.eqb_neq; lia).
  cbn [app] in Ht, Hd. by rewrite Ht, Hd.
Qed.

Lemma scan_fmt_u n rest :
  0 ≤ n < 10 ^ 20 → num_end rest = true →
  strto_scan (fmt_u n ++ rest) = Some (false, n, rest).
Proof.
  intros Hn Hr. unfold fmt_u. rewrite digits_scan; [|by apply udec_digits; lia|by apply udec_nonempty|done].
  by rewrite udec_value.
Qed.

Lemma digits_no_minus ds : forallb isdigit ds = true → has_minus ds = false.
Proof.
  induction ds as [|d ds IH]; [done|]. cbn -[Z.eqb]. intros [Hd Hds]%andb_true_iff.
  unfold isdigit in Hd. reflect_bools. apply orb_false_iff. split; [|by apply IH].
  apply Z.eqb_neq. lia.
Qed.

Lemma has_minus_app a b : has_minus (a ++ b) = has_minus a || has_minus b.
Proof. apply existsb_app. Qed.

Lemma strtoull_fmt_u n rest :
  0 ≤ n < 2 ^ 64 → num_end rest = true → strtoull (fmt_u n ++ rest) = Some (n, false, rest).
Proof.
  intros Hn Hr. unfold strtoull. rewrite scan_fmt_u by (done || lia).
  by rewrite (proj2 (Z.leb_gt _ _)) by lia.
Qed.

(** Recovering a number that was printed with %u in front of white space. *)
Lemma strtoul_value_fmt_u n rest :
  0 ≤ n < 2 ^ 64 → num_end rest = true → strtoul_value (fmt_u n ++ rest) = n.
Proof. intros. unfold strtoul_value. by rewrite strtoull_fmt_u. Qed.

Lemma strto_scan_space s : strto_scan (SP :: s) = strto_scan s.
Proof. done. Qed.

Lemma fmt_u_length n : (length (fmt_u n) ≤ 20)%nat.
Proof. apply udec_length. Qed.
Lemma fmt_u_bytes n : 0 ≤ n → Forall is_byte (fmt_u n).
Proof.
  intros Hn. apply Forall_forall. intros c Hc. pose proof (udec_digits 20 n Hn) as Hd. rewrite forallb_forall in Hd.
  apply list_elem_of_In in Hc. specialize (Hd c Hc). unfold isdigit in Hd. unfold is_byte. apply andb_true_iff in Hd as [?%Z.leb_le ?%Z.leb_le]. lia.
Qed.
Lemma fmt_d_bytes n : Forall is_byte (fmt_d n).
Proof.
  unfold fmt_d. destruct (Z.ltb_spec n 0); [constructor; [done|]|]; apply fmt_u_bytes; lia.
Qed.
Lemma fmt_d_nonzero n : Forall (λ c, c ≠ 0) (fmt_d n).
Proof.
  assert (∀ k, 0 ≤ k → Forall (λ c, c ≠ 0) (fmt_u k)) as Hu.
  { intros k Hk. apply Forall_forall. intros c Hc. pose proof (udec_digits 20 k Hk) as Hd. rewrite forallb_forall in Hd.
    apply list_elem_of_In in Hc. specialize (Hd c Hc). unfold isdigit in Hd. intros ->. done. }
  unfold fmt_d. destruct (Z.ltb_spec n 0); [constructor; [done|]|]; apply Hu; lia.
Qed.
Lemma fmt_d_length n : (length (fmt_d n) ≤ 21)%nat.
Proof. unfold fmt_d. pose proof (fmt_u_length n). pose proof (fmt_u_length (- n)). destruct (n <? 0); cbn [length]; lia. Qed.

(** ** Properties *)
(** A 64-bit number printed with %llu and followed by the end of the string
    or by white space without a minus sign is read back unchanged by
    [safe_strtoull]: the printing and parsing that incr/decr rely on are
    inverse. *)
Theorem safe_strtoull_roundtrip (n : Z) (rest : list Z)
    (Hn : 0 ≤ n < 2 ^ 64) (Hrest : num_end rest = true) (Hm : has_minus rest = false) :
  safe_strtoull (fmt_u n ++ rest) = (true, n).
Proof.
  unfold safe_strtoull. rewrite strtoull_fmt_u by done.
  change (endptr_ok rest) with (num_end rest). rewrite Hrest.
  rewrite has_minus_app, Hm. unfold fmt_u. rewrite digits_no_minus by (apply udec_digits; lia).
  by rewrite andb_false_r.
Qed.

Lemma safe_strtoull_roundtrip_witness :
  safe_strtoull (fmt_u 18446744073709551615 ++ crlf) = (true, 18446744073709551615).
Proof. apply (safe_strtoull_roundtrip 18446744073709551615 crlf); [lia|reflexivity|reflexivity]. Defined.

(** [safe_strtoul] and [safe_strtol] accept what [strtoul]/[strtol] accept
    at 64 bits and then keep only the low 32 bits: a number printed in decimal
    is reported as converted and comes back modulo 2^32 (as a signed value for
    [safe_strtol]). *)
Theorem safe_strtoul_truncates (n : Z) (Hn : 0 ≤ n < 2 ^ 63) :
  safe_strtoul (fmt_u n) = (true, u32 n) ∧ safe_strtol (fmt_u n) = (true, i32 n).
Proof.
  unfold safe_strtoul, safe_strtol, strtoll.
  rewrite <- (app_nil_r (fmt_u n)), strtoull_fmt_u, scan_fmt_u by (done || lia).
  cbv zeta iota. split.
  - cbn [endptr_ok]. rewrite i64_small by lia. by rewrite (proj2 (Z.ltb_ge _ _)) by lia.
  - rewrite (proj2 (Z.leb_gt _ _)) by lia. by rewrite (proj2 (Z.ltb_ge _ _)) by lia.
Qed.

Lemma safe_strtoul_truncates_witness :
  safe_strtoul (fmt_u 4294967299) = (true, 3) ∧ safe_strtol (fmt_u 4294967299) = (true, 3).
Proof. apply (safe_strtoul_truncates 4294967299); lia. Defined.

(** ** Byte order *)
Lemma swap64_loop_spec n rv inp :
  0 ≤ inp →
  swap64_loop n rv inp mod 2 ^ 64 = fold_left (λ v b, v * 256 + b) (le_encode n inp) rv mod 2 ^ 64.
Proof.
  revert rv inp; induction n as [|n IH]; intros rv inp Hi; [done|].
  cbn [swap64_loop le_encode fold_left].
  rewrite IH by (apply Z.shiftr_nonneg; lia).
  rewrite Z.shiftr_div_pow2 by lia. change (2 ^ 8) with 256.
  change 255 with (Z.ones 8). rewrite Z.land_ones by lia. change (2 ^ 8) with 256.
  rewrite lor_shiftl_byte by (apply Z.mod_pos_bound; lia).
  generalize (le_encode n (inp / 256)). intros l.
  generalize (rv * 256 + inp mod 256). clear. unfold u64.
  induction l as [|b l IH]; intros z; cbn [fold_left].
  - by rewrite Zmod_mod.
  - rewrite <- IH, <- (IH (z * 256 + b)). do 2 f_equal.
    by rewrite Z.add_mod, Z.mul_mod_idemp_l, <- Z.add_mod by lia.
Qed.

Lemma swap64_loop_range n rv inp : 0 ≤ rv < 2 ^ 64 → 0 ≤ swap64_loop n rv inp < 2 ^ 64.
Proof.
  revert rv inp; induction n as [|n IH]; intros rv inp Hr; [done|].
  cbn [swap64_loop]. apply IH, u64_range.
Qed.

Lemma mc_swap64_range x : 0 ≤ mc_swap64 x < 2 ^ 64.
Proof. apply swap64_loop_range. lia. Qed.

Lemma be_encode_range x : 0 ≤ be_decode (le_encode 8 x) < 2 ^ 64.
Proof.
  rewrite <- (rev_involutive (le_encode 8 x)), be_decode_rev.
  pose proof (le_decode_range (rev (le_encode 8 x))) as Hb.
  rewrite length_rev, le_encode_length in Hb. change (256 ^ Z.of_nat 8) with (2 ^ 64) in Hb.
  apply Hb. apply Forall_rev. apply le_encode_bytes.
Qed.

Lemma mc_swap64_mod x : 0 ≤ x → mc_swap64 x mod 2 ^ 64 = be_decode (le_encode 8 x) mod 2 ^ 64.
Proof. exact (swap64_loop_spec 8 0 x). Qed.

Lemma mc_swap64_spec x : 0 ≤ x → mc_swap64 x = le_decode (rev (le_encode 8 x)).
Proof.
  intros Hx. rewrite <- (be_decode_rev (rev _)), rev_involutive.
  pose proof (mc_swap64_mod x Hx) as H.
  rewrite (Z.mod_small (be_decode _)) in H by apply be_encode_range.
  rewrite (Z.mod_small (mc_swap64 _)) in H by apply mc_swap64_range. exact H.
Qed.

(** [htonll] followed by [ntohll] is the identity on 64-bit words, and the
    swap is the reversal of the eight bytes of the word. *)
Lemma swap64_involutive (x : Z) (Hx : 0 ≤ x < 2 ^ 64) :
  ntohll (htonll x) = x ∧ le_encode 8 (htonll x) = rev (le_encode 8 x).
Proof.
  unfold ntohll, htonll.
  assert (le_encode 8 (mc_swap64 x) = rev (le_encode 8 x)) as Hs.
  { rewrite mc_swap64_spec by lia.
    rewrite <- (le_encode_decode (rev (le_encode 8 x))) at 2 by (apply Forall_rev, le_encode_bytes).
    by rewrite length_rev, le_encode_length. }
  split; [|done].
  rewrite mc_swap64_spec by apply mc_swap64_range.
  rewrite Hs, rev_involutive, le_decode_encode. by apply Z.mod_small.
Qed.


(** ** URI encoding *)
Definition uri_enc (c : Z) : list Z := if unreserved c then [c] else fmt_pct c.

(** Reference decoder: the inverse that a reader of the metadump applies. *)
Definition unhex (c : Z) : Z := if c <=? 57 then c - 48 else c - 55.
Fixpoint uridecode (s : list Z) : list Z :=
  match s with
  | c :: s' =>
      if c =? 37 then
        match s' with
        | h :: l :: s'' => unhex h * 16 + unhex l :: uridecode s''
        | _ => s
        end
      else c :: uridecode s'
  | [] => []
  end.

Lemma uri_table_ok x :
  (x < 256)%nat →
  match uri_map uriencode_init !! x with
  | Some (Some off) => unreserved (Z.of_nat x) = false ∧
      take 3 (drop off (uri_str uriencode_init)) = fmt_pct (Z.of_nat x)
  | Some None => unreserved (Z.of_nat x) = true
  | None => False
  end.
Proof.
  intros Hx.
  assert (forallb (λ x, match uri_map uriencode_init !! x with
    | Some (Some off) => negb (unreserved (Z.of_nat x)) &&
        bool_decide (take 3 (drop off (uri_str uriencode_init)) = fmt_pct (Z.of_nat x))
    | Some None => unreserved (Z.of_nat x)
    | None => false end) (seq 0 256) = true) as H by (vm_compute; reflexivity).
  rewrite forallb_forall in H. specialize (H x). rewrite in_seq in H. specialize (H ltac:(lia)).
  destruct (uri_map uriencode_init !! x) as [[off|]|]; [|done|done].
  reflect_bools. done.
Qed.

Lemma uriencode_loop_spec src dst dstlen :
  Forall is_byte src →
  uriencode_loop uriencode_init src dst dstlen =
    match src with
    | [] => Some dst
    | c :: src => if Z.of_nat (length dst) + 4 >=? dstlen then None
                  else uriencode_loop uriencode_init src (dst ++ uri_enc c) dstlen
    end.
Proof.
  intros Hb. destruct Hb as [|c src Hc Hb]; [done|]. cbn [uriencode_loop].
  destruct (_ >=? _); [done|]. rewrite u8_small by done.
  unfold is_byte in Hc. pose proof (uri_table_ok (Z.to_nat c) ltac:(lia)) as Ht.
  rewrite Z2Nat.id in Ht by lia. unfold uri_enc.
  destruct (uri_map uriencode_init !! Z.to_nat c) as [[off|]|]; [|by rewrite Ht|done].
  destruct Ht as [-> ->]. done.
Qed.

Lemma uri_enc_length c : (1 ≤ length (uri_enc c) ≤ 3)%nat.
Proof. unfold uri_enc. destruct (unreserved c); cbn; lia. Qed.

Lemma uridecode_enc c s : is_byte c → uridecode (uri_enc c ++ s) = c :: uridecode s.
Proof.
  intros Hc. unfold uri_enc. destruct (unreserved c) eqn:E.
  - cbn. destruct (c =? 37) eqn:E'; [|done]. reflect_bools. subst c. done.
  - cbn [app fmt_pct uridecode]. rewrite Z.eqb_refl. f_equal. unfold is_byte in Hc.
    assert (∀ d, 0 ≤ d < 16 → unhex (hexdigit d) = d) as Hh.
    { intros d Hd. unfold unhex, hexdigit. case_if; case_if; lia. }
    rewrite !Hh by (split; [apply Z.div_pos || apply Z.mod_pos_bound; lia|
      apply Z.div_lt_upper_bound || apply Z.mod_pos_bound; lia]).
    pose proof (Z.div_mod c 16). lia.
Qed.

Lemma uriencode_loop_sound src dst dstlen out :
  Forall is_byte src →
  uriencode_loop uriencode_init src dst dstlen = Some out →
  out = dst ++ flat_map uri_enc src ∧
  (Z.of_nat (length dst) < dstlen → Z.of_nat (length out) < dstlen).
Proof.
  intros Hb. revert dst. induction Hb as [|c src Hc Hb IH]; intros dst Ho.
  - cbn in *. simplify_eq. by rewrite app_nil_r.
  - rewrite uriencode_loop_spec in Ho by by constructor.
    destruct (_ >=? _) eqn:E; [done|]. reflect_bools. apply IH in Ho as [-> Hlt].
    cbn. rewrite <- app_assoc in *. split; [done|]. intros _. apply Hlt.
    rewrite length_app. pose proof (uri_enc_length c). lia.
Qed.

Lemma uriencode_loop_complete src dst dstlen :
  Forall is_byte src → Z.of_nat (length dst) + 3 * Z.of_nat (length src) + 1 < dstlen →
  is_Some (uriencode_loop uriencode_init src dst dstlen).
Proof.
  intros Hb. revert dst. induction Hb as [|c src Hc Hb IH]; intros dst Hl; [done|].
  rewrite uriencode_loop_spec by by constructor. cbn [length] in Hl.
  rewrite Z.geb_leb, (proj2 (Z.leb_gt _ _)) by lia. apply IH.
  rewrite length_app. pose proof (uri_enc_length c). lia.
Qed.

(** Whenever [uriencode] succeeds the encoded key with its NUL fits in the
    destination and decodes to the source; and it does succeed when the
    destination has three bytes per source byte and two to spare. *)
Theorem uriencode_correct (src : list Z) (dstlen : Z)
    (Hb : Forall is_byte src) (Hd : 0 < dstlen) :
  (∀ dst, uriencode uriencode_init src dstlen = Some dst →
     Z.of_nat (length dst) + 1 ≤ dstlen ∧ uridecode dst = src) ∧
  (3 * Z.of_nat (length src) + 1 < dstlen → is_Some (uriencode uriencode_init src dstlen)).
Proof.
  split.
  - intros dst Hs. apply uriencode_loop_sound in Hs as [-> Hl]; [|done]. cbn in *.
    split; [specialize (Hl Hd); lia|]. clear -Hb.
    induction Hb as [|c src Hc Hb IH]; [done|]. cbn. rewrite uridecode_enc by done. by rewrite IH.
  - intros Hl. apply uriencode_loop_complete; [done|]. cbn. lia.
Qed.

Lemma uriencode_correct_witness :
  uridecode (default [] (uriencode uriencode_init [97; 32; 37] 20)) = [97; 32; 37].
Proof.
  apply (proj1 (uriencode_correct [97; 32; 37] 20
    ltac:(repeat constructor; unfold is_byte; lia) ltac:(lia))
    [97; 37; 50; 48; 37; 50; 53]).
  vm_compute. reflexivity.
Defined.
