(* ===== verification/Hash.v ===== *)
(** * jenkins_hash.c, murmur3_hash.c, hash.c: the key hash functions

    Both functions read the key through pointers of different widths.  They
    are modelled on the memory they read; the reference functions work on the
    list of key bytes.  [hash_init] selects one of them. *)
From Stdlib Require Import ZArith Lia.
From stdpp Require Import prelude gmap list strings.
From S2P Require Import Prelude Mem.

(** ** Jenkins *)
Module Jenkins.

Definition rot (x k : Z) : Z := u32 (Z.lxor (Z.shiftl x k) (Z.shiftr x (32 - k))).

Record abc := Abc { ra : Z; rb : Z; rc : Z }.

Definition mix (s : abc) : abc :=
  let a := ra s in let b := rb s in let c := rc s in
  let a := u32 (a - c) in let a := Z.lxor a (rot c 4) in let c := u32 (c + b) in
  let b := u32 (b - a) in let b := Z.lxor b (rot a 6) in let a := u32 (a + c) in
  let c := u32 (c - b) in let c := Z.lxor c (rot b 8) in let b := u32 (b + a) in
  let a := u32 (a - c) in let a := Z.lxor a (rot c 16) in let c := u32 (c + b) in
  let b := u32 (b - a) in let b := Z.lxor b (rot a 19) in let a := u32 (a + c) in
  let c := u32 (c - b) in let c := Z.lxor c (rot b 4) in let b := u32 (b + a) in
  Abc a b c.

Definition final (s : abc) : abc :=
  let a := ra s in let b := rb s in let c := rc s in
  let c := Z.lxor c b in let c := u32 (c - rot b 14) in
  let a := Z.lxor a c in let a := u32 (a - rot c 11) in
  let b := Z.lxor b a in let b := u32 (b - rot a 25) in
  let c := Z.lxor c b in let c := u32 (c - rot b 16) in
  let a := Z.lxor a c in let a := u32 (a - rot c 4) in
  let b := Z.lxor b a in let b := u32 (b - rot a 14) in
  let c := Z.lxor c b in let c := u32 (c - rot b 24) in
  Abc a b c.

(** [a += x], and so on *)
Definition addA x s := Abc (u32 (ra s + x)) (rb s) (rc s).
Definition addB x s := Abc (ra s) (u32 (rb s + x)) (rc s).
Definition addC x s := Abc (ra s) (rb s) (u32 (rc s + x)).

Section memory_reads.
Context (m : memory).

Definition rd8 (p i : Z) : Z := load_le m (p + i) 1.
Definition rd16 (p i : Z) : Z := load_le m (p + 2 * i) 2.
Definition rd32 (p i : Z) : Z := load_le m (p + 4 * i) 4.

(** One 12-byte block, read as three words, six half-words or twelve bytes. *)
Definition block32 (k : Z) (s : abc) : abc :=
  mix (addC (rd32 k 2) (addB (rd32 k 1) (addA (rd32 k 0) s))).
Definition block16 (k : Z) (s : abc) : abc :=
  mix (addC (rd16 k 4 + Z.shiftl (rd16 k 5) 16)
      (addB (rd16 k 2 + Z.shiftl (rd16 k 3) 16)
      (addA (rd16 k 0 + Z.shiftl (rd16 k 1) 16) s))).
Definition block8 (k : Z) (s : abc) : abc :=
  mix (addC (Z.shiftl (rd8 k 11) 24) (addC (Z.shiftl (rd8 k 10) 16)
      (addC (Z.shiftl (rd8 k 9) 8) (addC (rd8 k 8)
      (addB (Z.shiftl (rd8 k 7) 24) (addB (Z.shiftl (rd8 k 6) 16)
      (addB (Z.shiftl (rd8 k 5) 8) (addB (rd8 k 4)
      (addA (Z.shiftl (rd8 k 3) 24) (addA (Z.shiftl (rd8 k 2) 16)
      (addA (Z.shiftl (rd8 k 1) 8) (addA (rd8 k 0) s)))))))))))).

(** The switch on the remaining length; [None] is [return c]. *)
Definition tail32 (k : Z) (len : nat) (s : abc) : option abc :=
  let a s := addA (rd32 k 0) s in
  let b s := addB (rd32 k 1) s in
  match len with
  | 12%nat => Some (a (b (addC (rd32 k 2) s)))
  | 11%nat => Some (a (b (addC (Z.land (rd32 k 2) 0xffffff) s)))
  | 10%nat => Some (a (b (addC (Z.land (rd32 k 2) 0xffff) s)))
  | 9%nat => Some (a (b (addC (Z.land (rd32 k 2) 0xff) s)))
  | 8%nat => Some (a (b s))
  | 7%nat => Some (a (addB (Z.land (rd32 k 1) 0xffffff) s))
  | 6%nat => Some (a (addB (Z.land (rd32 k 1) 0xffff) s))
  | 5%nat => Some (a (addB (Z.land (rd32 k 1) 0xff) s))
  | 4%nat => Some (a s)
  | 3%nat => Some (addA (Z.land (rd32 k 0) 0xffffff) s)
  | 2%nat => Some (addA (Z.land (rd32 k 0) 0xffff) s)
  | 1%nat => Some (addA (Z.land (rd32 k 0) 0xff) s)
  | _ => None
  end.

Definition tail16 (k : Z) (len : nat) (s : abc) : option abc :=
  let a s := addA (rd16 k 0 + Z.shiftl (rd16 k 1) 16) s in
  let b s := addB (rd16 k 2 + Z.shiftl (rd16 k 3) 16) s in
  match len with
  | 12%nat => Some (a (b (addC (rd16 k 4 + Z.shiftl (rd16 k 5) 16) s)))
  | 11%nat => Some (a (b (addC (rd16 k 4) (addC (Z.shiftl (rd8 k 10) 16) s))))
  | 10%nat => Some (a (b (addC (rd16 k 4) s)))
  | 9%nat => Some (a (b (addC (rd8 k 8) s)))
  | 8%nat => Some (a (b s))
  | 7%nat => Some (a (addB (rd16 k 2) (addB (Z.shiftl (rd8 k 6) 16) s)))
  | 6%nat => Some (a (addB (rd16 k 2) s))
  | 5%nat => Some (a (addB (rd8 k 4) s))
  | 4%nat => Some (a s)
  | 3%nat => Some (addA (rd16 k 0) (addA (Z.shiftl (rd8 k 2) 16) s))
  | 2%nat => Some (addA (rd16 k 0) s)
  | 1%nat => Some (addA (rd8 k 0) s)
  | _ => None
  end.

(** All cases fall through: the cases from [len] down to 1 are executed. *)
Definition tail8_case (k : Z) (i : nat) (s : abc) : abc :=
  match i with
  | 12%nat => addC (Z.shiftl (rd8 k 11) 24) s
  | 11%nat => addC (Z.shiftl (rd8 k 10) 16) s
  | 10%nat => addC (Z.shiftl (rd8 k 9) 8) s
  | 9%nat => addC (rd8 k 8) s
  | 8%nat => addB (Z.shiftl (rd8 k 7) 24) s
  | 7%nat => addB (Z.shiftl (rd8 k 6) 16) s
  | 6%nat => addB (Z.shiftl (rd8 k 5) 8) s
  | 5%nat => addB (rd8 k 4) s
  | 4%nat => addA (Z.shiftl (rd8 k 3) 24) s
  | 3%nat => addA (Z.shiftl (rd8 k 2) 16) s
  | 2%nat => addA (Z.shiftl (rd8 k 1) 8) s
  | 1%nat => addA (rd8 k 0) s
  | _ => s
  end.
Fixpoint tail8_from (k : Z) (i : nat) (s : abc) : abc :=
  match i with
  | O => s
  | S j => tail8_from k j (tail8_case k i s)
  end.
Definition tail8 (k : Z) (len : nat) (s : abc) : option abc :=
  match len with O => None | _ => Some (tail8_from k len s) end.

(** [while (length > 12)]: at most [length] iterations. *)
Fixpoint blocks (block : Z → abc → abc) (fuel : nat) (k : Z) (len : nat) (s : abc)
    : Z * nat * abc :=
  match fuel with
  | O => (k, len, s)
  | S f =>
      if (12 <? len)%nat then blocks block f (k + 12) (len - 12) (block k s)
      else (k, len, s)
  end.

Definition run (block : Z → abc → abc) (tail : Z → nat → abc → option abc)
    (p : Z) (len : nat) (s : abc) : Z :=
  let '(k, l, s) := blocks block len p len s in
  match tail k l s with
  | None => rc s
  | Some s => rc (final s)
  end.

Definition jenkins_hash (p : Z) (len : nat) : Z :=
  let i := u32 (0xdeadbeef + u32 (Z.of_nat len) + 0) in
  let s := Abc i i i in
  if Z.land p 3 =? 0 then run block32 tail32 p len s
  else if Z.land p 1 =? 0 then run block16 tail16 p len s
  else run block8 tail8 p len s.
End memory_reads.

(** ** Reference: the hash of a byte string *)
Definition word (bs : list Z) (i : nat) : Z := le_decode (take 4 (drop (4 * i) bs)).
Definition add_words (bs : list Z) (s : abc) : abc :=
  addC (word bs 2) (addB (word bs 1) (addA (word bs 0) s)).

Fixpoint ref_blocks (fuel : nat) (bs : list Z) (s : abc) : list Z * abc :=
  match fuel with
  | O => (bs, s)
  | S f =>
      if (12 <? length bs)%nat then ref_blocks f (drop 12 bs) (mix (add_words bs s))
      else (bs, s)
  end.

Definition jenkins_ref (bs : list Z) : Z :=
  let i := u32 (0xdeadbeef + u32 (Z.of_nat (length bs)) + 0) in
  let '(bs', s) := ref_blocks (length bs) bs (Abc i i i) in
  match bs' with
  | [] => rc s
  | _ => rc (final (add_words bs' s))
  end.
End Jenkins.

(** ** MurmurHash3_x86_32 *)
Module Murmur.

Definition rotl32 (x r : Z) : Z := u32 (Z.lor (Z.shiftl x r) (Z.shiftr x (32 - r))).

Definition fmix32 (h : Z) : Z :=
  let h := Z.lxor h (Z.shiftr h 16) in
  let h := u32 (h * 0x85ebca6b) in
  let h := Z.lxor h (Z.shiftr h 13) in
  let h := u32 (h * 0xc2b2ae35) in
  Z.lxor h (Z.shiftr h 16).

Definition c1 : Z := 0xcc9e2d51.
Definition c2 : Z := 0x1b873593.

Definition mix_k (k1 : Z) : Z := u32 (rotl32 (u32 (k1 * c1)) 15 * c2).
Definition body_step (h1 k1 : Z) : Z := u32 (rotl32 (Z.lxor h1 (mix_k k1)) 13 * 5 + 0xe6546b64).

Section memory_reads.
Context (m : memory).

Definition getblock32 (p i : Z) : Z := load_le m (p + 4 * i) 4.

(** [for (i = -nblocks; i; i++)] from [blocks = data + nblocks * 4] *)
Fixpoint body (blocks : Z) (n : nat) (h1 : Z) : Z :=
  match n with
  | O => h1
  | S n => body blocks n (body_step h1 (getblock32 blocks (- Z.of_nat (S n))))
  end.

Definition tail_k (p : Z) (r : nat) : Z :=
  let t i := load_le m (p + i) 1 in
  let k1 := 0 in
  let k1 := if (3 <=? r)%nat then Z.lxor k1 (Z.shiftl (t 2) 16) else k1 in
  let k1 := if (2 <=? r)%nat then Z.lxor k1 (Z.shiftl (t 1) 8) else k1 in
  if (1 <=? r)%nat then Z.lxor k1 (t 0) else k1.

Definition MurmurHash3_x86_32 (p : Z) (len : nat) : Z :=
  let nblocks := (len / 4)%nat in
  let blocks := p + Z.of_nat nblocks * 4 in
  let h1 := body blocks nblocks 0 in
  let r := (len mod 4)%nat in
  let h1 := if (1 <=? r)%nat then Z.lxor h1 (mix_k (tail_k blocks r)) else h1 in
  fmix32 (u32 (Z.lxor h1 (Z.of_nat len))).
End memory_reads.

(** Reference on byte strings *)
Fixpoint ref_body (n : nat) (bs : list Z) (h1 : Z) : Z :=
  match n with
  | O => h1
  | S n => ref_body n (drop 4 bs) (body_step h1 (le_decode (take 4 bs)))
  end.
Definition murmur_ref (bs : list Z) : Z :=
  let n := (length bs / 4)%nat in
  let h1 := ref_body n bs 0 in
  let rest := drop (4 * n) bs in
  let h1 := match rest with [] => h1 | _ => Z.lxor h1 (mix_k (le_decode rest)) end in
  fmix32 (u32 (Z.lxor h1 (Z.of_nat (length bs)))).
End Murmur.

(** ** hash.c *)
Inductive hashfunc_type := JENKINS_HASH | MURMUR3_HASH.
Definition hash_init (t : hashfunc_type) : (memory → Z → nat → Z) * string :=
  match t with
  | JENKINS_HASH => (Jenkins.jenkins_hash, "jenkins"%string)
  | MURMUR3_HASH => (Murmur.MurmurHash3_x86_32, "murmur3"%string)
  end.
Definition hash_ref (t : hashfunc_type) : list Z → Z :=
  match t with JENKINS_HASH => Jenkins.jenkins_ref | MURMUR3_HASH => Murmur.murmur_ref end.

(** ** The reads agree with the reference *)
Module JenkinsFacts.
Import Jenkins.

Lemma word_load m k len i :
  word (load_bytes m k len) i = load_le m (k + 4 * Z.of_nat i) (4 `min` (len - 4 * i)).
Proof.
  unfold word, load_le. rewrite load_bytes_slice.
  by replace (Z.of_nat (4 * i)) with (4 * Z.of_nat i) by lia.
Qed.

Definition abc_ok (s : abc) : Prop :=
  0 ≤ ra s < 2 ^ 32 ∧ 0 ≤ rb s < 2 ^ 32 ∧ 0 ≤ rc s < 2 ^ 32.

Lemma lxor_u32 a b : 0 ≤ a < 2 ^ 32 → 0 ≤ b < 2 ^ 32 → 0 ≤ Z.lxor a b < 2 ^ 32.
Proof.
  intros Ha Hb. split; [apply Z.lxor_nonneg; lia|].
  destruct (Z.eq_dec (Z.lxor a b) 0) as [->|Hn]; [lia|].
  apply Z.log2_lt_pow2; [pose proof (proj2 (Z.lxor_nonneg a b)); lia|].
  pose proof (Z.log2_lxor a b ltac:(lia) ltac:(lia)).
  assert (∀ x, 0 ≤ x < 2 ^ 32 → Z.log2 x < 32) as Hl.
  { intros x Hx. destruct (Z.eq_dec x 0) as [->|]; [done|]. apply Z.log2_lt_pow2; lia. }
  pose proof (Hl a Ha). pose proof (Hl b Hb). lia.
Qed.

Lemma rot_range x k : 0 ≤ rot x k < 2 ^ 32.
Proof. apply u32_range. Qed.
#[local] Hint Resolve u32_range rot_range lxor_u32 : core.

Lemma mix_ok s : abc_ok s → abc_ok (mix s).
Proof. intros _. unfold mix, abc_ok. cbv zeta. cbn [ra rb rc]. auto 8. Qed.
Lemma addA_ok x s : abc_ok s → abc_ok (addA x s).
Proof. unfold abc_ok, addA. cbn [ra rb rc]. intros (? & ? & ?). auto. Qed.
Lemma addB_ok x s : abc_ok s → abc_ok (addB x s).
Proof. unfold abc_ok, addB. cbn [ra rb rc]. intros (? & ? & ?). auto. Qed.
Lemma addC_ok x s : abc_ok s → abc_ok (addC x s).
Proof. unfold abc_ok, addC. cbn [ra rb rc]. intros (? & ? & ?). auto. Qed.
Lemma final_range s : 0 ≤ rc (final s) < 2 ^ 32.
Proof. apply u32_range. Qed.

Lemma u32_add_add a x y : u32 (u32 (a + x) + y) = u32 (a + (x + y)).
Proof. unfold u32. rewrite Z.add_mod_idemp_l by lia. f_equal. lia. Qed.
Lemma addA_addA x y s : addA y (addA x s) = addA (x + y) s.
Proof. unfold addA. cbn. by rewrite u32_add_add. Qed.
Lemma addB_addB x y s : addB y (addB x s) = addB (x + y) s.
Proof. unfold addB. cbn. by rewrite u32_add_add. Qed.
Lemma addC_addC x y s : addC y (addC x s) = addC (x + y) s.
Proof. unfold addC. cbn. by rewrite u32_add_add. Qed.
Lemma add_BA x y s : addB y (addA x s) = addA x (addB y s). Proof. done. Qed.
Lemma add_CA x y s : addC y (addA x s) = addA x (addC y s). Proof. done. Qed.
Lemma add_CB x y s : addC y (addB x s) = addB x (addC y s). Proof. done. Qed.
Lemma addA_0 s : abc_ok s → addA 0 s = s.
Proof. destruct s. intros (H & _). unfold addA. cbn in *. rewrite Z.add_0_r. by rewrite u32_small. Qed.
Lemma addB_0 s : abc_ok s → addB 0 s = s.
Proof. destruct s. intros (_ & H & _). unfold addB. cbn in *. rewrite Z.add_0_r. by rewrite u32_small. Qed.
Lemma addC_0 s : abc_ok s → addC 0 s = s.
Proof. destruct s. intros (_ & _ & H). unfold addC. cbn in *. rewrite Z.add_0_r. by rewrite u32_small. Qed.

Lemma land_mask x j n : n = 2 ^ j - 1 → 0 ≤ j → Z.land x n = x mod 2 ^ j.
Proof. intros -> Hj. rewrite <- Z.land_ones by done. by rewrite Z.ones_equiv. Qed.

Lemma rd32_mask m k i j n :
  n = 2 ^ (8 * Z.of_nat j) - 1 → (j ≤ 4)%nat → Z.land (rd32 m k i) n = load_le m (k + 4 * i) j.
Proof.
  intros -> Hj. rewrite (land_mask _ (8 * Z.of_nat j)) by lia.
  rewrite Z.pow_mul_r by lia. by apply load_le_mask.
Qed.

(** All additions of one word collected, all reads expanded to bytes. *)
Ltac expand_reads :=
  unfold rd8, rd16, rd32;
  change (4 * Z.of_nat 0) with 0; change (4 * Z.of_nat 1) with 4; change (4 * Z.of_nat 2) with 8;
  change (4 * 0) with 0; change (4 * 1) with 4; change (4 * 2) with 8;
  change (2 * 0) with 0; change (2 * 1) with 2; change (2 * 2) with 4;
  change (2 * 3) with 6; change (2 * 4) with 8; change (2 * 5) with 10;
  rewrite ?Z.add_0_r;
  rewrite ?load_le_S, ?load_le_0; norm_addr;
  rewrite ?Z.shiftl_mul_pow2 by lia.
Ltac collect_adds :=
  repeat first [ rewrite addC_addC | rewrite addB_addB | rewrite addA_addA
               | rewrite add_CB | rewrite add_CA | rewrite add_BA ].
Ltac same_sums :=
  change (2 ^ 8) with 256; change (2 ^ 16) with 65536; change (2 ^ 24) with 16777216;
  repeat match goal with
  | |- ?f ?x ?s = ?f ?y ?t => replace x with y by lia; apply (f_equal (f y))
  end; try reflexivity.

(** The three ways of reading a full block. *)
Lemma block_words m k s :
  block32 m k s = mix (add_words (load_bytes m k 12) s) ∧
  block16 m k s = mix (add_words (load_bytes m k 12) s) ∧
  block8 m k s = mix (add_words (load_bytes m k 12) s).
Proof.
  unfold block32, block16, block8, add_words. rewrite !word_load.
  cbn [Nat.min Nat.sub Nat.mul Nat.add Z.of_nat Pos.of_succ_nat Pos.succ].
  repeat split; f_equal; collect_adds; expand_reads; same_sums.
Qed.

(** The three ways of reading the last block. *)
Lemma tail_words m k len s :
  (0 < len ≤ 12)%nat → abc_ok s →
  tail32 m k len s = Some (add_words (load_bytes m k len) s) ∧
  tail16 m k len s = Some (add_words (load_bytes m k len) s) ∧
  tail8 m k len s = Some (add_words (load_bytes m k len) s).
Proof.
  intros Hl Hs. unfold add_words. rewrite !word_load.
  assert (len ∈ seq 1 12) as Hin by (apply elem_of_seq; lia). cbn [seq] in Hin.
  repeat (apply elem_of_cons in Hin as [->|Hin]); [..|by apply elem_of_nil in Hin];
  cbn [Nat.min Nat.sub Nat.mul Nat.add]; rewrite ?load_le_0;
  rewrite ?addC_0 by auto using addA_ok, addB_ok; rewrite ?addB_0 by auto using addA_ok;
  unfold tail32, tail16, tail8, tail8_from, tail8_case;
  (repeat split; f_equal; collect_adds;
   rewrite ?(rd32_mask m k 0 3), ?(rd32_mask m k 0 2), ?(rd32_mask m k 0 1),
     ?(rd32_mask m k 1 3), ?(rd32_mask m k 1 2), ?(rd32_mask m k 1 1),
     ?(rd32_mask m k 2 3), ?(rd32_mask m k 2 2), ?(rd32_mask m k 2 1) by (reflexivity || lia);
   expand_reads; same_sums).
Qed.

Lemma blocks_ref m (block : Z → abc → abc) fuel k len s :
  (∀ k s, block k s = mix (add_words (load_bytes m k 12) s)) → abc_ok s →
  let '(k', l', s') := blocks block fuel k len s in
  ref_blocks fuel (load_bytes m k len) s = (load_bytes m k' l', s') ∧ abc_ok s' ∧
  (len ≤ 12 + 12 * fuel → l' ≤ 12)%nat.
Proof.
  intros Hb. revert k len s; induction fuel as [|f IH]; intros k len s Hs; [cbn; split_and!; [done|done|lia]|].
  cbn [blocks ref_blocks]. rewrite load_bytes_length.
  destruct (12 <? len)%nat eqn:E.
  - apply Nat.ltb_lt in E. rewrite Hb, load_bytes_drop.
    assert (add_words (load_bytes m k len) s = add_words (load_bytes m k 12) s) as ->.
    { unfold add_words. rewrite !word_load.
      by replace (4 `min` (len - 4 * 2))%nat with 4%nat by lia;
        replace (4 `min` (len - 4 * 1))%nat with 4%nat by lia;
        replace (4 `min` (len - 4 * 0))%nat with 4%nat by lia. }
    specialize (IH (k + 12) (len - 12)%nat (mix (add_words (load_bytes m k 12) s))).
    destruct (blocks block f (k + 12) (len - 12) _) as [[k' l'] s'].
    destruct IH as (H1 & H2 & H3); [unfold add_words; auto using mix_ok, addA_ok, addB_ok, addC_ok|].
    split; [done|split; [done|]]. lia.
  - apply Nat.ltb_ge in E. split; [done|split; [done|]]. lia.
Qed.

Lemma run_ref m block tail p len s :
  (∀ k s, block k s = mix (add_words (load_bytes m k 12) s)) →
  (∀ k len s, (0 < len ≤ 12)%nat → abc_ok s →
     tail k len s = Some (add_words (load_bytes m k len) s)) →
  (∀ k s, tail k 0%nat s = None) → abc_ok s →
  run block tail p len s =
    (let '(bs', s') := ref_blocks len (load_bytes m p len) s in
     match bs' with [] => rc s' | _ => rc (final (add_words bs' s')) end).
Proof.
  intros Hb Ht H0 Hs. unfold run. pose proof (blocks_ref m block len p len s Hb Hs) as H.
  destruct (blocks block len p len s) as [[k' l'] s']. destruct H as (-> & Hs' & Hl).
  destruct l' as [|l']; [by rewrite H0|]. rewrite Ht by (lia || done). cbn [load_bytes]. reflexivity.
Qed.
End JenkinsFacts.

Import Jenkins JenkinsFacts.

Lemma jenkins_hash_ref (m : memory) (p : Z) (len : nat) :
  jenkins_hash m p len = jenkins_ref (load_bytes m p len) ∧
  0 ≤ jenkins_hash m p len < 2 ^ 32.
Proof.
  assert (jenkins_hash m p len = jenkins_ref (load_bytes m p len)) as Heq.
  { unfold jenkins_hash, jenkins_ref. rewrite load_bytes_length.
    set (i := u32 _).
    assert (abc_ok (Abc i i i)) as Hs by (repeat split; apply u32_range).
    destruct (Z.land p 3 =? 0); [|destruct (Z.land p 1 =? 0)];
      (apply run_ref;
       [ intros k s; destruct (block_words m k s) as (? & ? & ?); assumption
       | intros k l s Hl Hk; destruct (tail_words m k l s Hl Hk) as (? & ? & ?); assumption
       | reflexivity | exact Hs ]). }
  split; [done|]. rewrite Heq. unfold jenkins_ref. rewrite load_bytes_length.
  pose proof (blocks_ref m (block32 m) len p len
    (let i := u32 (0xdeadbeef + u32 (Z.of_nat len) + 0) in Abc i i i)
    (λ k s, proj1 (block_words m k s)) ltac:(repeat split; apply u32_range)) as H.
  cbv zeta in *. destruct (blocks _ _ _ _ _) as [[k' l'] s']. destruct H as (-> & (? & ? & ?) & _).
  destruct (load_bytes m k' l'); [done|apply final_range].
Qed.

(** ** Murmur: reads agree with the reference *)
Module MurmurFacts.
Import Murmur.

Lemma body_ref m n a len h :
  (4 * n ≤ len)%nat →
  body m (a + Z.of_nat n * 4) n h = ref_body n (load_bytes m a len) h.
Proof.
  revert a len h; induction n as [|n IH]; intros a len h Hl; [done|].
  cbn [body ref_body]. rewrite load_bytes_drop, <- IH by lia.
  replace (a + Z.of_nat 4 + Z.of_nat n * 4) with (a + Z.of_nat (S n) * 4) by lia.
  f_equal. f_equal. unfold getblock32.
  replace (a + Z.of_nat (S n) * 4 + 4 * - Z.of_nat (S n)) with a by lia.
  change (take 4 (load_bytes m a len)) with (take 4 (drop 0 (load_bytes m a len))).
  rewrite load_bytes_slice, Z.add_0_r. by replace (4 `min` (len - 0))%nat with 4%nat by lia.
Qed.

Lemma lxor_shiftl_byte a b : 0 ≤ b < 256 → Z.lxor (Z.shiftl a 8) b = a * 256 + b.
Proof.
  intros Hb. rewrite <- lor_shiftl_byte by done. apply Z.lxor_lor.
  apply Z.bits_inj_0. intros n. rewrite Z.land_spec.
  destruct (Z.le_gt_cases 8 n) as [Hn|Hn].
  - replace (Z.testbit b n) with false; [apply andb_false_r|].
    symmetry. rewrite <- (Z.mod_small b (2 ^ 8)) by lia. by apply Z.mod_pow2_bits_high.
  - by rewrite Z.shiftl_spec_low by lia.
Qed.

Lemma tail_k_ref m p r : (r < 4)%nat → tail_k m p r = load_le m p r.
Proof.
  intros Hr. assert (r ∈ seq 0 4) as Hin by (apply elem_of_seq; lia). cbn [seq] in Hin.
  pose proof (mget_byte m p) as H0. pose proof (mget_byte m (p + 1)) as H1.
  pose proof (mget_byte m (p + 2)) as H2. unfold is_byte in *.
  assert (Z.shiftl (mget m (p + 2)) 16 = Z.shiftl (Z.shiftl (mget m (p + 2)) 8) 8) as Hsh
    by by rewrite Z.shiftl_shiftl by lia.
  repeat (apply elem_of_cons in Hin as [->|Hin]); [..|by apply elem_of_nil in Hin];
    unfold tail_k; cbn [Nat.leb]; rewrite ?load_le_S, ?load_le_0, ?Z.add_0_r; norm_addr;
    rewrite ?Z.lxor_0_l, ?Z.mul_0_r, ?Z.add_0_r; try done.
  - rewrite lxor_shiftl_byte by done. lia.
  - rewrite Hsh, <- Z.shiftl_lxor, !lxor_shiftl_byte by done. lia.
Qed.

Lemma fmix32_range h : 0 ≤ h < 2 ^ 32 → 0 ≤ fmix32 h < 2 ^ 32.
Proof.
  intros Hh. unfold fmix32. cbv zeta. apply lxor_u32; [apply u32_range|].
  rewrite Z.shiftr_div_pow2 by lia. set (x := u32 _).
  pose proof (u32_range (Z.lxor (u32 (Z.lxor h (Z.shiftr h 16) * 0x85ebca6b))
    (Z.shiftr (u32 (Z.lxor h (Z.shiftr h 16) * 0x85ebca6b)) 13) * 0xc2b2ae35)) as Hx.
  fold x in Hx. split; [apply Z.div_pos; lia|]. apply Z.div_lt_upper_bound; lia.
Qed.
End MurmurFacts.

Lemma murmur3_hash_ref (m : memory) (p : Z) (len : nat) :
  Murmur.MurmurHash3_x86_32 m p len = Murmur.murmur_ref (load_bytes m p len) ∧
  0 ≤ Murmur.MurmurHash3_x86_32 m p len < 2 ^ 32.
Proof.
  split; [|apply MurmurFacts.fmix32_range, u32_range].
  unfold Murmur.MurmurHash3_x86_32, Murmur.murmur_ref. rewrite load_bytes_length.
  pose proof (Nat.div_mod len 4 ltac:(lia)) as Hdm.
  pose proof (Nat.mod_upper_bound len 4 ltac:(lia)) as Hm.
  rewrite (MurmurFacts.body_ref m _ p len) by lia.
  rewrite load_bytes_drop, MurmurFacts.tail_k_ref by done.
  replace (p + Z.of_nat (len / 4) * 4) with (p + Z.of_nat (4 * (len / 4))) by lia.
  replace (len - 4 * (len / 4))%nat with (len mod 4)%nat by lia.
  destruct (len mod 4)%nat as [|r]; reflexivity.
Qed.

(** ** The interface the hash table uses: a 32-bit hash of the key bytes *)
Class KeyHash (hash : list Z → Z) : Prop := {
  hash_range : ∀ key, Forall is_byte key → 0 ≤ hash key < 2 ^ 32
}.

Lemma load_of_key key : Forall is_byte key → load_bytes (store_bytes ∅ 0 key) 0 (length key) = key.
Proof. intros. by apply load_store_bytes_eq. Qed.

#[global] Instance jenkins_key_hash : KeyHash Jenkins.jenkins_ref.
Proof.
  constructor. intros key Hk. rewrite <- (load_of_key key Hk).
  destruct (jenkins_hash_ref (store_bytes ∅ 0 key) 0 (length key)) as [<- H]. exact H.
Qed.

#[global] Instance murmur_key_hash : KeyHash Murmur.murmur_ref.
Proof.
  constructor. intros key Hk. rewrite <- (load_of_key key Hk).
  destruct (murmur3_hash_ref (store_bytes ∅ 0 key) 0 (length key)) as [<- H]. exact H.
Qed.

(** ** Properties *)
(** C40: the Jenkins hash does not depend on where the key lies: whatever the
    alignment of the key, hence whichever of the word, half-word or byte reading
    loops runs and whatever bytes follow the key in memory, the result is the
    reference hash of the key bytes, a 32-bit value. *)
Theorem jenkins_hash_correct (m : memory) (p : Z) (len : nat) :
  jenkins_hash m p len = jenkins_ref (load_bytes m p len) ∧
  0 ≤ jenkins_hash m p len < 2 ^ 32.
Proof. apply jenkins_hash_ref. Qed.

(** Whichever hash algorithm [hash_init] installs, hashing a key in the read
    buffer and hashing the same key bytes in the log give the same 32-bit value,
    so the two copies of a key select the same bucket and the same item lock. *)
Theorem hash_init_correct (t : hashfunc_type) (m m' : memory) (p p' : Z) (len : nat)
    (Hkey : load_bytes m p len = load_bytes m' p' len) :
  fst (hash_init t) m p len = fst (hash_init t) m' p' len ∧
  fst (hash_init t) m p len = hash_ref t (load_bytes m p len) ∧
  0 ≤ fst (hash_init t) m p len < 2 ^ 32.
Proof.
  destruct t; cbn [hash_init hash_ref fst].
  - destruct (jenkins_hash_ref m p len) as [-> ?], (jenkins_hash_ref m' p' len) as [-> ?].
    rewrite <- Hkey in *. auto.
  - destruct (murmur3_hash_ref m p len) as [-> ?], (murmur3_hash_ref m' p' len) as [-> ?].
    rewrite <- Hkey in *. auto.
Qed.

Lemma hash_init_correct_witness :
  fst (hash_init JENKINS_HASH) (store_bytes ∅ 8 (str "user:42")) 8 7%nat =
  fst (hash_init JENKINS_HASH) (store_bytes ∅ 107 (str "user:42")) 107 7%nat.
Proof.
  refine (proj1 (hash_init_correct JENKINS_HASH (store_bytes ∅ 8 (str "user:42"))
    (store_bytes ∅ 107 (str "user:42")) 8 107 7%nat _)).
  vm_compute. reflexivity.
Defined.
