(* ===== verification/Item.v ===== *)
(** * Items: memory layout of [item_data] in the log, [item_metadata], the ITEM_ macros

    [item_data] (memcached.h) lies in the log at an offset; on LP64 its fields
    are exptime@0 (4), nbytes@4 (4, signed), nsuffix@8, it_data_flags@9,
    nkey@10 and the flexible [data] at 16 = sizeof(item_data). *)
From Stdlib Require Import ZArith Lia.
From stdpp Require Import prelude gmap list.
From S2P Require Import Prelude Mem Util.

(** ** Flags *)
Definition ITEM_LINKED : Z := 1.
Definition ITEM_CAS : Z := 2.
Definition ITEM_SLABBED : Z := 4.
Definition ITEM_STORED : Z := 8.
Definition ITEM_CYCLE : Z := 16.
Definition ITEM_DIRTY : Z := 32.
Definition ITEM_CORRUPTED : Z := 64.
Definition ITEM_DELETED : Z := 128.

(** [(f & b) != 0] *)
Definition has (f b : Z) : bool := negb (Z.land f b =? 0).
(** [f |= b], [f &= ~b] on a uint8_t *)
Definition flag_or (f b : Z) : Z := u8 (Z.lor f b).
Definition flag_clear (f b : Z) : Z := u8 (Z.land f (Z.lnot b)).

(** ** Fields of [item_data] at [it] *)
Definition SIZEOF_item_data : Z := 16.
Definition exptime (m : memory) (it : Z) : Z := load_le m it 4.
Definition nbytes (m : memory) (it : Z) : Z := i32 (load_le m (it + 4) 4).
Definition nsuffix (m : memory) (it : Z) : Z := load_le m (it + 8) 1.
Definition it_data_flags (m : memory) (it : Z) : Z := load_le m (it + 9) 1.
Definition nkey (m : memory) (it : Z) : Z := load_le m (it + 10) 1.
Definition data_off (it : Z) : Z := it + 16.

Definition set_exptime (it v : Z) (m : memory) : memory := store_le m it 4 v.
Definition set_nbytes (it v : Z) (m : memory) : memory := store_le m (it + 4) 4 v.
Definition set_nsuffix (it v : Z) (m : memory) : memory := store_le m (it + 8) 1 v.
Definition set_it_data_flags (it v : Z) (m : memory) : memory := store_le m (it + 9) 1 v.
Definition set_nkey (it v : Z) (m : memory) : memory := store_le m (it + 10) 1 v.

(** [it->it_data_flags |= b], [it->it_data_flags &= ~b] *)
Definition data_flags_or (it b : Z) (m : memory) : memory :=
  set_it_data_flags it (flag_or (it_data_flags m it) b) m.
Definition data_flags_clear (it b : Z) (m : memory) : memory :=
  set_it_data_flags it (flag_clear (it_data_flags m it) b) m.

(** ** The ITEM_ macros *)
Definition cas_size (m : memory) (it : Z) : Z := if has (it_data_flags m it) ITEM_CAS then 8 else 0.
Definition ITEM_get_cas (m : memory) (it : Z) : Z :=
  if has (it_data_flags m it) ITEM_CAS then load_le m (data_off it) 8 else 0.
Definition ITEM_set_cas (it v : Z) (m : memory) : memory :=
  if has (it_data_flags m it) ITEM_CAS then store_le m (data_off it) 8 v else m.
Definition ITEM_key (m : memory) (it : Z) : Z := data_off it + cas_size m it.
Definition ITEM_suffix (m : memory) (it : Z) : Z := data_off it + nkey m it + 1 + cas_size m it.
Definition ITEM_data (m : memory) (it : Z) : Z :=
  data_off it + nkey m it + 1 + nsuffix m it + cas_size m it.
Definition ITEM_ntotal (m : memory) (it : Z) : Z :=
  let f := it_data_flags m it in
  u64 (SIZEOF_item_data + nkey m it + 1 + nsuffix m it + nbytes m it +
       (if has f ITEM_CAS || has f ITEM_DELETED || has f ITEM_CORRUPTED || has f ITEM_CYCLE
        then 8 else 0)).

(** The key bytes of the item at [it]: what [hash], [assoc_find] and the
    replies use. *)
Definition item_key (m : memory) (it : Z) : list Z :=
  load_bytes m (ITEM_key m it) (Z.to_nat (nkey m it)).
(** The value with its terminating CRLF. *)
Definition item_value (m : memory) (it : Z) : list Z :=
  load_bytes m (ITEM_data m it) (Z.to_nat (nbytes m it)).

(** The NUL-terminated string at [a]: non-zero bytes are entries of the map, so
    one more than its size bounds the scan. *)
Definition cstring (m : memory) (a : Z) : list Z :=
  take_while (λ c, negb (c =? 0)) (load_bytes m a (S (size m))).

(** ** [item_metadata]; pointers to metadata are slot numbers of the freelist
    chunk, a null pointer is [None]; a null [item] pointer is the offset -1. *)
Record item_metadata := ItemMeta {
  next_free : option Z;
  prev_free : option Z;
  h_next : option Z;
  time : Z;
  refcount : Z;
  it_flags : Z;
  slabs_clsid : Z;
  get_count : Z;
  item : Z
}.

Definition set_next_free v x := ItemMeta v (prev_free x) (h_next x) (time x) (refcount x) (it_flags x) (slabs_clsid x) (get_count x) (item x).
Definition set_prev_free v x := ItemMeta (next_free x) v (h_next x) (time x) (refcount x) (it_flags x) (slabs_clsid x) (get_count x) (item x).
Definition set_h_next v x := ItemMeta (next_free x) (prev_free x) v (time x) (refcount x) (it_flags x) (slabs_clsid x) (get_count x) (item x).
Definition set_time v x := ItemMeta (next_free x) (prev_free x) (h_next x) v (refcount x) (it_flags x) (slabs_clsid x) (get_count x) (item x).
Definition set_refcount v x := ItemMeta (next_free x) (prev_free x) (h_next x) (time x) v (it_flags x) (slabs_clsid x) (get_count x) (item x).
Definition set_it_flags v x := ItemMeta (next_free x) (prev_free x) (h_next x) (time x) (refcount x) v (slabs_clsid x) (get_count x) (item x).
Definition set_slabs_clsid v x := ItemMeta (next_free x) (prev_free x) (h_next x) (time x) (refcount x) (it_flags x) v (get_count x) (item x).
Definition set_get_count v x := ItemMeta (next_free x) (prev_free x) (h_next x) (time x) (refcount x) (it_flags x) (slabs_clsid x) v (item x).
Definition set_item v x := ItemMeta (next_free x) (prev_free x) (h_next x) (time x) (refcount x) (it_flags x) (slabs_clsid x) (get_count x) v.

#[global] Instance item_metadata_eq_dec : EqDecision item_metadata.
Proof. solve_decision. Defined.

(** [memset] to zero of a metadata slot *)
Definition zero_meta : item_metadata := ItemMeta None None None 0 0 0 0 0 (-1).

Definition ITEM_clsid (x : item_metadata) : Z := Z.land (slabs_clsid x) (Z.lnot 192).

(** ** Header construction (items.c) *)
(** [snprintf(suffix, 40, " %u %d\r\n", flags, nbytes - 2)] *)
Definition make_suffix (flags nb : Z) : list Z :=
  [SP] ++ fmt_u flags ++ [SP] ++ fmt_d (i32 (nb - 2)) ++ crlf.

(** Returns the header size and stores the suffix and its length. *)
Definition item_make_header (nkey flags nb : Z) : Z * list Z * Z :=
  let suffix := make_suffix (u32 flags) nb in
  let nsuffix := u8 (Z.of_nat (length suffix)) in
  (u64 (SIZEOF_item_data + u8 nkey + nsuffix + nb), suffix, nsuffix).

#[global] Arguments has : simpl never.
#[global] Arguments flag_or : simpl never.
#[global] Arguments flag_clear : simpl never.
#[global] Arguments exptime : simpl never.
#[global] Arguments nbytes : simpl never.
#[global] Arguments nsuffix : simpl never.
#[global] Arguments it_data_flags : simpl never.
#[global] Arguments nkey : simpl never.
#[global] Arguments set_exptime : simpl never.
#[global] Arguments set_nbytes : simpl never.
#[global] Arguments set_nsuffix : simpl never.
#[global] Arguments set_it_data_flags : simpl never.
#[global] Arguments set_nkey : simpl never.
#[global] Arguments data_flags_or : simpl never.
#[global] Arguments data_flags_clear : simpl never.
#[global] Arguments ITEM_get_cas : simpl never.
#[global] Arguments ITEM_set_cas : simpl never.
#[global] Arguments ITEM_key : simpl never.
#[global] Arguments ITEM_suffix : simpl never.
#[global] Arguments ITEM_data : simpl never.
#[global] Arguments ITEM_ntotal : simpl never.
#[global] Arguments item_key : simpl never.
#[global] Arguments item_value : simpl never.
#[global] Arguments make_suffix : simpl never.
#[global] Arguments item_make_header : simpl never.

(** ** Flag algebra *)
Lemma has_pow2 f k : 0 ≤ k → has f (2 ^ k) = Z.testbit f k.
Proof.
  intros Hk. unfold has. destruct (Z.testbit f k) eqn:E.
  - apply negb_true_iff, Z.eqb_neq. intros H0.
    assert (Z.testbit (Z.land f (2 ^ k)) k = false) as H1 by (rewrite H0; apply Z.bits_0).
    rewrite Z.land_spec, E, Z.pow2_bits_true in H1 by done. done.
  - apply negb_false_iff, Z.eqb_eq, Z.bits_inj_0. intros n.
    rewrite Z.land_spec. destruct (Z.eq_dec n k) as [->|Hn]; [by rewrite E|].
    rewrite Z.pow2_bits_false by congruence. apply andb_false_r.
Qed.

Lemma has_flag_or f j k :
  0 ≤ j < 8 → 0 ≤ k < 8 → has (flag_or f (2 ^ j)) (2 ^ k) = has f (2 ^ k) || (j =? k).
Proof.
  intros Hj Hk. rewrite !has_pow2 by lia. unfold flag_or, u8.
  rewrite Z.mod_pow2_bits_low, Z.lor_spec by lia. by rewrite Z.pow2_bits_eqb by lia.
Qed.

Lemma has_flag_clear f j k :
  0 ≤ j < 8 → 0 ≤ k < 8 → has (flag_clear f (2 ^ j)) (2 ^ k) = has f (2 ^ k) && negb (j =? k).
Proof.
  intros Hj Hk. rewrite !has_pow2 by lia. unfold flag_clear, u8.
  rewrite Z.mod_pow2_bits_low, Z.land_spec, Z.lnot_spec by lia.
  by rewrite Z.pow2_bits_eqb by lia.
Qed.

(** Bit positions of the flags, so that the algebra applies to the constants. *)
Lemma flag_bits :
  ITEM_LINKED = 2 ^ 0 ∧ ITEM_CAS = 2 ^ 1 ∧ ITEM_SLABBED = 2 ^ 2 ∧ ITEM_STORED = 2 ^ 3 ∧
  ITEM_CYCLE = 2 ^ 4 ∧ ITEM_DIRTY = 2 ^ 5 ∧ ITEM_CORRUPTED = 2 ^ 6 ∧ ITEM_DELETED = 2 ^ 7.
Proof. done. Qed.

(** Compute the flag tests of a flag word built with [flag_or]/[flag_clear]. *)
Ltac flags_simpl :=
  destruct flag_bits as (HLi & HCa & HSl & HSt & HCy & HDi & HCo & HDe);
  rewrite ?HLi, ?HCa, ?HSl, ?HSt, ?HCy, ?HDi, ?HCo, ?HDe in *;
  clear HLi HCa HSl HSt HCy HDi HCo HDe;
  repeat first [ rewrite has_flag_or in * by lia | rewrite has_flag_clear in * by lia ];
  cbn [Z.eqb Pos.eqb negb] in *;
  rewrite ?orb_true_r, ?orb_false_r, ?andb_true_r, ?andb_false_r in *.

(** ** Field access after writes *)
Lemma exptime_range m it : 0 ≤ exptime m it < 2 ^ 32.
Proof. apply (load_le_range m it 4). Qed.
Lemma nsuffix_range m it : 0 ≤ nsuffix m it < 256.
Proof. apply (load_le_range m _ 1). Qed.
Lemma flags_range m it : 0 ≤ it_data_flags m it < 256.
Proof. apply (load_le_range m _ 1). Qed.
Lemma nkey_range m it : 0 ≤ nkey m it < 256.
Proof. apply (load_le_range m _ 1). Qed.
Lemma nbytes_range m it : -2 ^ 31 ≤ nbytes m it < 2 ^ 31.
Proof. apply i32_range. Qed.
#[export] Hint Resolve exptime_range nsuffix_range flags_range nkey_range nbytes_range : mc.

Lemma nbytes_set it v m : nbytes (set_nbytes it v m) it = i32 v.
Proof.
  unfold nbytes, set_nbytes. rewrite load_le_store_eq. change (256 ^ Z.of_nat 4) with (2 ^ 32).
  unfold i32. f_equal. by rewrite Z.add_mod_idemp_l by lia.
Qed.
Lemma nkey_set it v m : nkey (set_nkey it v m) it = u8 v.
Proof. unfold nkey, set_nkey. by rewrite load_le_store_eq. Qed.
Lemma nsuffix_set it v m : nsuffix (set_nsuffix it v m) it = u8 v.
Proof. unfold nsuffix, set_nsuffix. by rewrite load_le_store_eq. Qed.
Lemma flags_set it v m : it_data_flags (set_it_data_flags it v m) it = u8 v.
Proof. unfold it_data_flags, set_it_data_flags. by rewrite load_le_store_eq. Qed.
Lemma exptime_set it v m : exptime (set_exptime it v m) it = u32 v.
Proof. unfold exptime, set_exptime. by rewrite load_le_store_eq. Qed.

(** The header of the item at [it] is read the same in both memories. *)
Definition header_agree (m m' : memory) (it : Z) : Prop := agree m m' it 16.

Lemma header_fields m m' it :
  header_agree m m' it →
  exptime m it = exptime m' it ∧ nbytes m it = nbytes m' it ∧ nsuffix m it = nsuffix m' it ∧
  it_data_flags m it = it_data_flags m' it ∧ nkey m it = nkey m' it.
Proof.
  intros H. unfold exptime, nbytes, nsuffix, it_data_flags, nkey.
  repeat split; try (apply load_le_agree; eapply agree_sub; [exact H|lia|lia]).
  f_equal. apply load_le_agree; eapply agree_sub; [exact H|lia|lia].
Qed.

Lemma ITEM_ntotal_agree m m' it : header_agree m m' it → ITEM_ntotal m it = ITEM_ntotal m' it.
Proof.
  intros H. apply header_fields in H as (_ & Hb & Hs & Hf & Hk).
  unfold ITEM_ntotal. by rewrite Hb, Hs, Hf, Hk.
Qed.

(** Fields of a header after writes to the others, and after writes past it. *)
Create Rewrite HintDb mc_fields.
Ltac field_out :=
  unfold exptime, nbytes, nsuffix, it_data_flags, nkey, set_exptime, set_nbytes, set_nsuffix,
    set_it_data_flags, set_nkey;
  first [ by rewrite load_le_store_out by lia | f_equal; by rewrite load_le_store_out by lia ].
Section fields.
Context (m : memory) (d v : Z).
Lemma exptime_set_nbytes : exptime (set_nbytes d v m) d = exptime m d.
Proof. field_out. Qed.
Lemma exptime_set_nsuffix : exptime (set_nsuffix d v m) d = exptime m d.
Proof. field_out. Qed.
Lemma exptime_set_flags : exptime (set_it_data_flags d v m) d = exptime m d.
Proof. field_out. Qed.
Lemma exptime_set_nkey : exptime (set_nkey d v m) d = exptime m d.
Proof. field_out. Qed.
Lemma nbytes_set_exptime : nbytes (set_exptime d v m) d = nbytes m d.
Proof. field_out. Qed.
Lemma nbytes_set_nsuffix : nbytes (set_nsuffix d v m) d = nbytes m d.
Proof. field_out. Qed.
Lemma nbytes_set_flags : nbytes (set_it_data_flags d v m) d = nbytes m d.
Proof. field_out. Qed.
Lemma nbytes_set_nkey : nbytes (set_nkey d v m) d = nbytes m d.
Proof. field_out. Qed.
Lemma nsuffix_set_exptime : nsuffix (set_exptime d v m) d = nsuffix m d.
Proof. field_out. Qed.
Lemma nsuffix_set_nbytes : nsuffix (set_nbytes d v m) d = nsuffix m d.
Proof. field_out. Qed.
Lemma nsuffix_set_flags : nsuffix (set_it_data_flags d v m) d = nsuffix m d.
Proof. field_out. Qed.
Lemma nsuffix_set_nkey : nsuffix (set_nkey d v m) d = nsuffix m d.
Proof. field_out. Qed.
Lemma flags_set_exptime : it_data_flags (set_exptime d v m) d = it_data_flags m d.
Proof. field_out. Qed.
Lemma flags_set_nbytes : it_data_flags (set_nbytes d v m) d = it_data_flags m d.
Proof. field_out. Qed.
Lemma flags_set_nsuffix : it_data_flags (set_nsuffix d v m) d = it_data_flags m d.
Proof. field_out. Qed.
Lemma flags_set_nkey : it_data_flags (set_nkey d v m) d = it_data_flags m d.
Proof. field_out. Qed.
Lemma nkey_set_exptime : nkey (set_exptime d v m) d = nkey m d.
Proof. field_out. Qed.
Lemma nkey_set_nbytes : nkey (set_nbytes d v m) d = nkey m d.
Proof. field_out. Qed.
Lemma nkey_set_nsuffix : nkey (set_nsuffix d v m) d = nkey m d.
Proof. field_out. Qed.
Lemma nkey_set_flags : nkey (set_it_data_flags d v m) d = nkey m d.
Proof. field_out. Qed.
End fields.
#[export] Hint Rewrite exptime_set_nbytes exptime_set_nsuffix exptime_set_flags exptime_set_nkey nbytes_set_exptime nbytes_set_nsuffix nbytes_set_flags nbytes_set_nkey nsuffix_set_exptime nsuffix_set_nbytes nsuffix_set_flags nsuffix_set_nkey flags_set_exptime flags_set_nbytes flags_set_nsuffix flags_set_nkey nkey_set_exptime nkey_set_nbytes nkey_set_nsuffix nkey_set_flags
  exptime_set nbytes_set nsuffix_set flags_set nkey_set : mc_fields.

Lemma header_store_bytes m d a bs :
  Forall is_byte bs → d + 16 ≤ a → header_agree (store_bytes m a bs) m d.
Proof. intros Hb Ha. apply agree_store_out; [done|lia]. Qed.
Lemma fields_store_bytes m d a bs :
  Forall is_byte bs → d + 16 ≤ a →
  exptime (store_bytes m a bs) d = exptime m d ∧ nbytes (store_bytes m a bs) d = nbytes m d ∧
  nsuffix (store_bytes m a bs) d = nsuffix m d ∧
  it_data_flags (store_bytes m a bs) d = it_data_flags m d ∧ nkey (store_bytes m a bs) d = nkey m d.
Proof. intros Hb Ha. by apply header_fields, header_store_bytes. Qed.

(** Header writes stay in the header. *)
Lemma agree_header_out m d b n (f : memory → memory) :
  (∀ a, a < d ∨ d + 16 ≤ a → mget (f m) a = mget m a) →
  b + n ≤ d ∨ d + 16 ≤ b → agree (f m) m b n.
Proof. intros Hf Hb a Ha. apply Hf. lia. Qed.
Lemma mget_set_field m d off w v a :
  0 ≤ off → off + Z.of_nat w ≤ 16 → a < d ∨ d + 16 ≤ a →
  mget (store_le m (d + off) w v) a = mget m a.
Proof. intros H1 H2 Ha. apply (agree_store_le_out _ _ _ _ a 1); [lia|lia]. Qed.
