(* ===== verification/State.v ===== *)
(** * The server's state

    The static variables of memlog.c, items.c, assoc.c, thread.c and
    memcached.c as records, with one setter per field, and the primitive
    operations of the state monad over them. *)
From Stdlib Require Import ZArith Lia.
From stdpp Require Import prelude gmap list functions.
From S2P Require Import Prelude Mem Item.

(** ** Settings (memcached.h, [struct settings]) *)
Definition LOGGER_BUF_SIZE : Z := 1024 * 64.
Definition LOGGER_WATCHER_BUF_SIZE : Z := 1024 * 256.

Record settings := Settings {
  maxbytes : Z;
  maxconns : Z;
  port : Z;
  udpport : Z;
  verbose : Z;
  oldest_live : Z;
  oldest_cas : Z;
  evict_to_free : Z;
  access : Z;
  chunk_size : Z;
  num_threads : Z;
  num_threads_per_udp : Z;
  prefix_delimiter : Z;
  detail_enabled : Z;
  reqs_per_event : Z;
  use_cas : bool;
  backlog : Z;
  item_size_max : Z;
  slab_chunk_size_max : Z;
  slab_page_size : Z;
  sasl : bool;
  maxconns_fast : bool;
  lru_crawler : bool;
  lru_maintainer_thread : bool;
  slab_reassign : bool;
  slab_automove : Z;
  hashpower_init : Z;
  shutdown_command : bool;
  tail_repair_time : Z;
  flush_enabled : bool;
  lru_crawler_sleep : Z;
  lru_crawler_tocrawl : Z;
  hot_lru_pct : Z;
  warm_lru_pct : Z;
  crawls_persleep : Z;
  expirezero_does_not_evict : bool;
  idle_timeout : Z;
  logger_watcher_buf_size : Z;
  logger_buf_size : Z;
  lru_log_enabled : bool;
  lru_log_get_count : Z;
  backup_server : bool;
  backup_client : bool;
  backup_ibv_port : Z;
  backup_sgid_index : Z;
  hash : list Z → Z
}.

Definition set_verbose (v : Z) (s : settings) : settings :=
  Settings (maxbytes s) (maxconns s) (port s) (udpport s) v (oldest_live s) (oldest_cas s) (evict_to_free s) (access s) (chunk_size s) (num_threads s) (num_threads_per_udp s) (prefix_delimiter s) (detail_enabled s) (reqs_per_event s) (use_cas s) (backlog s) (item_size_max s) (slab_chunk_size_max s) (slab_page_size s) (sasl s) (maxconns_fast s) (lru_crawler s) (lru_maintainer_thread s) (slab_reassign s) (slab_automove s) (hashpower_init s) (shutdown_command s) (tail_repair_time s) (flush_enabled s) (lru_crawler_sleep s) (lru_crawler_tocrawl s) (hot_lru_pct s) (warm_lru_pct s) (crawls_persleep s) (expirezero_does_not_evict s) (idle_timeout s) (logger_watcher_buf_size s) (logger_buf_size s) (lru_log_enabled s) (lru_log_get_count s) (backup_server s) (backup_client s) (backup_ibv_port s) (backup_sgid_index s) (hash s).
Definition set_oldest_live (v : Z) (s : settings) : settings :=
  Settings (maxbytes s) (maxconns s) (port s) (udpport s) (verbose s) v (oldest_cas s) (evict_to_free s) (access s) (chunk_size s) (num_threads s) (num_threads_per_udp s) (prefix_delimiter s) (detail_enabled s) (reqs_per_event s) (use_cas s) (backlog s) (item_size_max s) (slab_chunk_size_max s) (slab_page_size s) (sasl s) (maxconns_fast s) (lru_crawler s) (lru_maintainer_thread s) (slab_reassign s) (slab_automove s) (hashpower_init s) (shutdown_command s) (tail_repair_time s) (flush_enabled s) (lru_crawler_sleep s) (lru_crawler_tocrawl s) (hot_lru_pct s) (warm_lru_pct s) (crawls_persleep s) (expirezero_does_not_evict s) (idle_timeout s) (logger_watcher_buf_size s) (logger_buf_size s) (lru_log_enabled s) (lru_log_get_count s) (backup_server s) (backup_client s) (backup_ibv_port s) (backup_sgid_index s) (hash s).
Definition set_oldest_cas (v : Z) (s : settings) : settings :=
  Settings (maxbytes s) (maxconns s) (port s) (udpport s) (verbose s) (oldest_live s) v (evict_to_free s) (access s) (chunk_size s) (num_threads s) (num_threads_per_udp s) (prefix_delimiter s) (detail_enabled s) (reqs_per_event s) (use_cas s) (backlog s) (item_size_max s) (slab_chunk_size_max s) (slab_page_size s) (sasl s) (maxconns_fast s) (lru_crawler s) (lru_maintainer_thread s) (slab_reassign s) (slab_automove s) (hashpower_init s) (shutdown_command s) (tail_repair_time s) (flush_enabled s) (lru_crawler_sleep s) (lru_crawler_tocrawl s) (hot_lru_pct s) (warm_lru_pct s) (crawls_persleep s) (expirezero_does_not_evict s) (idle_timeout s) (logger_watcher_buf_size s) (logger_buf_size s) (lru_log_enabled s) (lru_log_get_count s) (backup_server s) (backup_client s) (backup_ibv_port s) (backup_sgid_index s) (hash s).
Definition set_detail_enabled (v : Z) (s : settings) : settings :=
  Settings (maxbytes s) (maxconns s) (port s) (udpport s) (verbose s) (oldest_live s) (oldest_cas s) (evict_to_free s) (access s) (chunk_size s) (num_threads s) (num_threads_per_udp s) (prefix_delimiter s) v (reqs_per_event s) (use_cas s) (backlog s) (item_size_max s) (slab_chunk_size_max s) (slab_page_size s) (sasl s) (maxconns_fast s) (lru_crawler s) (lru_maintainer_thread s) (slab_reassign s) (slab_automove s) (hashpower_init s) (shutdown_command s) (tail_repair_time s) (flush_enabled s) (lru_crawler_sleep s) (lru_crawler_tocrawl s) (hot_lru_pct s) (warm_lru_pct s) (crawls_persleep s) (expirezero_does_not_evict s) (idle_timeout s) (logger_watcher_buf_size s) (logger_buf_size s) (lru_log_enabled s) (lru_log_get_count s) (backup_server s) (backup_client s) (backup_ibv_port s) (backup_sgid_index s) (hash s).
Definition set_lru_crawler (v : bool) (s : settings) : settings :=
  Settings (maxbytes s) (maxconns s) (port s) (udpport s) (verbose s) (oldest_live s) (oldest_cas s) (evict_to_free s) (access s) (chunk_size s) (num_threads s) (num_threads_per_udp s) (prefix_delimiter s) (detail_enabled s) (reqs_per_event s) (use_cas s) (backlog s) (item_size_max s) (slab_chunk_size_max s) (slab_page_size s) (sasl s) (maxconns_fast s) v (lru_maintainer_thread s) (slab_reassign s) (slab_automove s) (hashpower_init s) (shutdown_command s) (tail_repair_time s) (flush_enabled s) (lru_crawler_sleep s) (lru_crawler_tocrawl s) (hot_lru_pct s) (warm_lru_pct s) (crawls_persleep s) (expirezero_does_not_evict s) (idle_timeout s) (logger_watcher_buf_size s) (logger_buf_size s) (lru_log_enabled s) (lru_log_get_count s) (backup_server s) (backup_client s) (backup_ibv_port s) (backup_sgid_index s) (hash s).
Definition set_lru_maintainer_thread (v : bool) (s : settings) : settings :=
  Settings (maxbytes s) (maxconns s) (port s) (udpport s) (verbose s) (oldest_live s) (oldest_cas s) (evict_to_free s) (access s) (chunk_size s) (num_threads s) (num_threads_per_udp s) (prefix_delimiter s) (detail_enabled s) (reqs_per_event s) (use_cas s) (backlog s) (item_size_max s) (slab_chunk_size_max s) (slab_page_size s) (sasl s) (maxconns_fast s) (lru_crawler s) v (slab_reassign s) (slab_automove s) (hashpower_init s) (shutdown_command s) (tail_repair_time s) (flush_enabled s) (lru_crawler_sleep s) (lru_crawler_tocrawl s) (hot_lru_pct s) (warm_lru_pct s) (crawls_persleep s) (expirezero_does_not_evict s) (idle_timeout s) (logger_watcher_buf_size s) (logger_buf_size s) (lru_log_enabled s) (lru_log_get_count s) (backup_server s) (backup_client s) (backup_ibv_port s) (backup_sgid_index s) (hash s).
Definition set_lru_crawler_sleep (v : Z) (s : settings) : settings :=
  Settings (maxbytes s) (maxconns s) (port s) (udpport s) (verbose s) (oldest_live s) (oldest_cas s) (evict_to_free s) (access s) (chunk_size s) (num_threads s) (num_threads_per_udp s) (prefix_delimiter s) (detail_enabled s) (reqs_per_event s) (use_cas s) (backlog s) (item_size_max s) (slab_chunk_size_max s) (slab_page_size s) (sasl s) (maxconns_fast s) (lru_crawler s) (lru_maintainer_thread s) (slab_reassign s) (slab_automove s) (hashpower_init s) (shutdown_command s) (tail_repair_time s) (flush_enabled s) v (lru_crawler_tocrawl s) (hot_lru_pct s) (warm_lru_pct s) (crawls_persleep s) (expirezero_does_not_evict s) (idle_timeout s) (logger_watcher_buf_size s) (logger_buf_size s) (lru_log_enabled s) (lru_log_get_count s) (backup_server s) (backup_client s) (backup_ibv_port s) (backup_sgid_index s) (hash s).
Definition set_lru_crawler_tocrawl (v : Z) (s : settings) : settings :=
  Settings (maxbytes s) (maxconns s) (port s) (udpport s) (verbose s) (oldest_live s) (oldest_cas s) (evict_to_free s) (access s) (chunk_size s) (num_threads s) (num_threads_per_udp s) (prefix_delimiter s) (detail_enabled s) (reqs_per_event s) (use_cas s) (backlog s) (item_size_max s) (slab_chunk_size_max s) (slab_page_size s) (sasl s) (maxconns_fast s) (lru_crawler s) (lru_maintainer_thread s) (slab_reassign s) (slab_automove s) (hashpower_init s) (shutdown_command s) (tail_repair_time s) (flush_enabled s) (lru_crawler_sleep s) v (hot_lru_pct s) (warm_lru_pct s) (crawls_persleep s) (expirezero_does_not_evict s) (idle_timeout s) (logger_watcher_buf_size s) (logger_buf_size s) (lru_log_enabled s) (lru_log_get_count s) (backup_server s) (backup_client s) (backup_ibv_port s) (backup_sgid_index s) (hash s).

(** [settings_init]; the hash function is chosen by [hash_init] afterwards. *)
Definition settings_init (h : list Z → Z) : settings := {|
  maxbytes := 64 * 1024 * 1024;
  maxconns := 1024;
  port := 11211;
  udpport := 11211;
  verbose := 0;
  oldest_live := 0;
  oldest_cas := 0;
  evict_to_free := 1;
  access := 448;
  chunk_size := 48;
  num_threads := 4;
  num_threads_per_udp := 0;
  prefix_delimiter := 58;
  detail_enabled := 0;
  reqs_per_event := 20;
  use_cas := true;
  backlog := 1024;
  item_size_max := 1024 * 1024;
  slab_chunk_size_max := 1024 * 1024;
  slab_page_size := 1024 * 1024;
  sasl := false;
  maxconns_fast := false;
  lru_crawler := false;
  lru_maintainer_thread := false;
  slab_reassign := false;
  slab_automove := 0;
  hashpower_init := 0;
  shutdown_command := false;
  tail_repair_time := 0;
  flush_enabled := true;
  lru_crawler_sleep := 100;
  lru_crawler_tocrawl := 0;
  hot_lru_pct := 32;
  warm_lru_pct := 32;
  crawls_persleep := 1000;
  expirezero_does_not_evict := false;
  idle_timeout := 0;
  logger_watcher_buf_size := LOGGER_WATCHER_BUF_SIZE;
  logger_buf_size := LOGGER_BUF_SIZE;
  lru_log_enabled := false;
  lru_log_get_count := 0;
  backup_server := false;
  backup_client := false;
  backup_ibv_port := 0;
  backup_sgid_index := -1;
  hash := h
|}.

(** ** memlog.c: positions are offsets from [mem_base] *)
Record memlog := Memlog {
  mem_limit : Z;
  mem_current : Z;
  mem_avail : Z;
  mem_free_from_beginning : Z;
  mem_current_freeing : Z
}.

Definition set_mem_limit (v : Z) (s : memlog) : memlog :=
  Memlog v (mem_current s) (mem_avail s) (mem_free_from_beginning s) (mem_current_freeing s).
Definition set_mem_current (v : Z) (s : memlog) : memlog :=
  Memlog (mem_limit s) v (mem_avail s) (mem_free_from_beginning s) (mem_current_freeing s).
Definition set_mem_avail (v : Z) (s : memlog) : memlog :=
  Memlog (mem_limit s) (mem_current s) v (mem_free_from_beginning s) (mem_current_freeing s).
Definition set_mem_free_from_beginning (v : Z) (s : memlog) : memlog :=
  Memlog (mem_limit s) (mem_current s) (mem_avail s) v (mem_current_freeing s).
Definition set_mem_current_freeing (v : Z) (s : memlog) : memlog :=
  Memlog (mem_limit s) (mem_current s) (mem_avail s) (mem_free_from_beginning s) v.

(** ** assoc.c: a bucket holds the head of its chain, an absent bucket is null *)
Record assoc := Assoc {
  hashpower : Z;
  primary_hashtable : gmap Z Z;
  old_hashtable : gmap Z Z;
  hash_items : Z;
  expanding : bool;
  started_expanding : bool;
  expand_bucket : Z
}.

Definition set_hashpower (v : Z) (s : assoc) : assoc :=
  Assoc v (primary_hashtable s) (old_hashtable s) (hash_items s) (expanding s) (started_expanding s) (expand_bucket s).
Definition set_primary_hashtable (v : gmap Z Z) (s : assoc) : assoc :=
  Assoc (hashpower s) v (old_hashtable s) (hash_items s) (expanding s) (started_expanding s) (expand_bucket s).
Definition set_old_hashtable (v : gmap Z Z) (s : assoc) : assoc :=
  Assoc (hashpower s) (primary_hashtable s) v (hash_items s) (expanding s) (started_expanding s) (expand_bucket s).
Definition set_hash_items (v : Z) (s : assoc) : assoc :=
  Assoc (hashpower s) (primary_hashtable s) (old_hashtable s) v (expanding s) (started_expanding s) (expand_bucket s).
Definition set_expanding (v : bool) (s : assoc) : assoc :=
  Assoc (hashpower s) (primary_hashtable s) (old_hashtable s) (hash_items s) v (started_expanding s) (expand_bucket s).
Definition set_started_expanding (v : bool) (s : assoc) : assoc :=
  Assoc (hashpower s) (primary_hashtable s) (old_hashtable s) (hash_items s) (expanding s) v (expand_bucket s).
Definition set_expand_bucket (v : Z) (s : assoc) : assoc :=
  Assoc (hashpower s) (primary_hashtable s) (old_hashtable s) (hash_items s) (expanding s) (started_expanding s) v.

(** ** Statistics *)
Inductive stats_field : Set :=
  | total_items | total_conns | rejected_conns | malloc_fails | listen_disabled_num | slabs_moved | slab_reassign_rescues | slab_reassign_evictions_nomem | slab_reassign_inline_reclaim | slab_reassign_chunk_rescues | slab_reassign_busy_items | lru_crawler_starts | lru_maintainer_juggles | time_in_listen_disabled_us | log_worker_dropped | log_worker_written | log_watcher_skipped | log_watcher_sent | st_mem_current | st_mem_avail | st_mem_free_from_beginning | st_mem_current_freeing.
#[global] Instance stats_field_eq_dec : EqDecision stats_field.
Proof. solve_decision. Defined.
Inductive state_field : Set :=
  | curr_items | curr_bytes | curr_conns | hash_bytes | conn_structs | reserved_fds | hash_power_level.
#[global] Instance state_field_eq_dec : EqDecision state_field.
Proof. solve_decision. Defined.
Inductive flag_field : Set :=
  | hash_is_expanding | accepting_conns | slab_reassign_running | lru_crawler_running.
#[global] Instance flag_field_eq_dec : EqDecision flag_field.
Proof. solve_decision. Defined.
Inductive thread_field : Set :=
  | get_cmds | get_misses | get_expired | get_flushed | touch_cmds | touch_misses | delete_misses | incr_misses | decr_misses | cas_misses | bytes_read | bytes_written | flush_cmds | conn_yields | auth_cmds | auth_errors | idle_kicks.
#[global] Instance thread_field_eq_dec : EqDecision thread_field.
Proof. solve_decision. Defined.
Inductive slab_field : Set :=
  | set_cmds | get_hits | touch_hits | delete_hits | cas_hits | cas_badval | incr_hits | decr_hits.
#[global] Instance slab_field_eq_dec : EqDecision slab_field.
Proof. solve_decision. Defined.
Inductive itemstat_field : Set :=
  | evicted | evicted_nonzero | reclaimed | outofmemory | tailrepairs | expired_unfetched | evicted_unfetched | crawler_reclaimed | crawler_items_checked | lrutail_reflocked | moves_to_cold | moves_to_warm | moves_within_lru | direct_reclaims | evicted_time.
#[global] Instance itemstat_field_eq_dec : EqDecision itemstat_field.
Proof. solve_decision. Defined.

Record counters := Counters {
  stats : stats_field → Z;
  stats_state : state_field → Z;
  stats_flag : flag_field → bool;
  tstats : thread_field → Z;
  slab_stats : Z → slab_field → Z;
  itemstats : Z → itemstat_field → Z;
  sizes : Z → Z;
  sizes_bytes : Z → Z;
  stats_sizes_hist : option (Z → Z);
  stats_sizes_cas_min : Z;
  stats_sizes_buckets : Z
}.

Definition set_stats (v : stats_field → Z) (s : counters) : counters :=
  Counters v (stats_state s) (stats_flag s) (tstats s) (slab_stats s) (itemstats s) (sizes s) (sizes_bytes s) (stats_sizes_hist s) (stats_sizes_cas_min s) (stats_sizes_buckets s).
Definition set_stats_state (v : state_field → Z) (s : counters) : counters :=
  Counters (stats s) v (stats_flag s) (tstats s) (slab_stats s) (itemstats s) (sizes s) (sizes_bytes s) (stats_sizes_hist s) (stats_sizes_cas_min s) (stats_sizes_buckets s).
Definition set_stats_flag (v : flag_field → bool) (s : counters) : counters :=
  Counters (stats s) (stats_state s) v (tstats s) (slab_stats s) (itemstats s) (sizes s) (sizes_bytes s) (stats_sizes_hist s) (stats_sizes_cas_min s) (stats_sizes_buckets s).
Definition set_tstats (v : thread_field → Z) (s : counters) : counters :=
  Counters (stats s) (stats_state s) (stats_flag s) v (slab_stats s) (itemstats s) (sizes s) (sizes_bytes s) (stats_sizes_hist s) (stats_sizes_cas_min s) (stats_sizes_buckets s).
Definition set_slab_stats (v : Z → slab_field → Z) (s : counters) : counters :=
  Counters (stats s) (stats_state s) (stats_flag s) (tstats s) v (itemstats s) (sizes s) (sizes_bytes s) (stats_sizes_hist s) (stats_sizes_cas_min s) (stats_sizes_buckets s).
Definition set_itemstats (v : Z → itemstat_field → Z) (s : counters) : counters :=
  Counters (stats s) (stats_state s) (stats_flag s) (tstats s) (slab_stats s) v (sizes s) (sizes_bytes s) (stats_sizes_hist s) (stats_sizes_cas_min s) (stats_sizes_buckets s).
Definition set_sizes (v : Z → Z) (s : counters) : counters :=
  Counters (stats s) (stats_state s) (stats_flag s) (tstats s) (slab_stats s) (itemstats s) v (sizes_bytes s) (stats_sizes_hist s) (stats_sizes_cas_min s) (stats_sizes_buckets s).
Definition set_sizes_bytes (v : Z → Z) (s : counters) : counters :=
  Counters (stats s) (stats_state s) (stats_flag s) (tstats s) (slab_stats s) (itemstats s) (sizes s) v (stats_sizes_hist s) (stats_sizes_cas_min s) (stats_sizes_buckets s).
Definition set_stats_sizes_hist (v : option (Z → Z)) (s : counters) : counters :=
  Counters (stats s) (stats_state s) (stats_flag s) (tstats s) (slab_stats s) (itemstats s) (sizes s) (sizes_bytes s) v (stats_sizes_cas_min s) (stats_sizes_buckets s).
Definition set_stats_sizes_cas_min (v : Z) (s : counters) : counters :=
  Counters (stats s) (stats_state s) (stats_flag s) (tstats s) (slab_stats s) (itemstats s) (sizes s) (sizes_bytes s) (stats_sizes_hist s) v (stats_sizes_buckets s).
Definition set_stats_sizes_buckets (v : Z) (s : counters) : counters :=
  Counters (stats s) (stats_state s) (stats_flag s) (tstats s) (slab_stats s) (itemstats s) (sizes s) (sizes_bytes s) (stats_sizes_hist s) (stats_sizes_cas_min s) v.

(** ** The whole server state *)
Record cache := Cache {
  log : memory;
  ml : memlog;
  meta : gmap Z item_metadata;
  first_free : option Z;
  tab : assoc;
  cfg : settings;
  cnt : counters;
  cas_id : Z;
  current_time : Z;
  process_started : Z
}.

Definition set_log (v : memory) (s : cache) : cache :=
  Cache v (ml s) (meta s) (first_free s) (tab s) (cfg s) (cnt s) (cas_id s) (current_time s) (process_started s).
Definition set_ml (v : memlog) (s : cache) : cache :=
  Cache (log s) v (meta s) (first_free s) (tab s) (cfg s) (cnt s) (cas_id s) (current_time s) (process_started s).
Definition set_meta (v : gmap Z item_metadata) (s : cache) : cache :=
  Cache (log s) (ml s) v (first_free s) (tab s) (cfg s) (cnt s) (cas_id s) (current_time s) (process_started s).
Definition set_first_free (v : option Z) (s : cache) : cache :=
  Cache (log s) (ml s) (meta s) v (tab s) (cfg s) (cnt s) (cas_id s) (current_time s) (process_started s).
Definition set_tab (v : assoc) (s : cache) : cache :=
  Cache (log s) (ml s) (meta s) (first_free s) v (cfg s) (cnt s) (cas_id s) (current_time s) (process_started s).
Definition set_cfg (v : settings) (s : cache) : cache :=
  Cache (log s) (ml s) (meta s) (first_free s) (tab s) v (cnt s) (cas_id s) (current_time s) (process_started s).
Definition set_cnt (v : counters) (s : cache) : cache :=
  Cache (log s) (ml s) (meta s) (first_free s) (tab s) (cfg s) v (cas_id s) (current_time s) (process_started s).
Definition set_cas_id (v : Z) (s : cache) : cache :=
  Cache (log s) (ml s) (meta s) (first_free s) (tab s) (cfg s) (cnt s) v (current_time s) (process_started s).
Definition set_current_time (v : Z) (s : cache) : cache :=
  Cache (log s) (ml s) (meta s) (first_free s) (tab s) (cfg s) (cnt s) (cas_id s) v (process_started s).
Definition set_process_started (v : Z) (s : cache) : cache :=
  Cache (log s) (ml s) (meta s) (first_free s) (tab s) (cfg s) (cnt s) (cas_id s) (current_time s) v.

(** ** Primitive operations *)
Definition server (A : Type) : Type := M cache A.

(** Read and update the metadata a pointer designates. *)
Definition get_meta (p : Z) : server item_metadata := λ s,
  match meta s !! p with Some x => Ok (x, s) | None => Fault NullDeref end.
Definition upd_meta (p : Z) (f : item_metadata → item_metadata) : server unit := λ s,
  match meta s !! p with
  | Some x => Ok (tt, set_meta (<[p := f x]> (meta s)) s)
  | None => Fault NullDeref
  end.
Definition upd_log (f : memory → memory) : server unit := modify (λ s, set_log (f (log s)) s).
Definition upd_ml (f : memlog → memlog) : server unit := modify (λ s, set_ml (f (ml s)) s).
Definition upd_tab (f : assoc → assoc) : server unit := modify (λ s, set_tab (f (tab s)) s).
Definition upd_cfg (f : settings → settings) : server unit := modify (λ s, set_cfg (f (cfg s)) s).
Definition upd_cnt (f : counters → counters) : server unit := modify (λ s, set_cnt (f (cnt s)) s).

(** Counter updates; every counter is a uint64_t. *)
Definition stats_add (k : stats_field) (d : Z) : server unit :=
  upd_cnt (λ c, set_stats (<[k := u64 (stats c k + d)]> (stats c)) c).
Definition stats_put (k : stats_field) (v : Z) : server unit :=
  upd_cnt (λ c, set_stats (<[k := v]> (stats c)) c).
Definition state_add (k : state_field) (d : Z) : server unit :=
  upd_cnt (λ c, set_stats_state (<[k := u64 (stats_state c k + d)]> (stats_state c)) c).
Definition state_put (k : state_field) (v : Z) : server unit :=
  upd_cnt (λ c, set_stats_state (<[k := v]> (stats_state c)) c).
Definition flag_put (k : flag_field) (v : bool) : server unit :=
  upd_cnt (λ c, set_stats_flag (<[k := v]> (stats_flag c)) c).
Definition thread_add (k : thread_field) (d : Z) : server unit :=
  upd_cnt (λ c, set_tstats (<[k := u64 (tstats c k + d)]> (tstats c)) c).
Definition slab_add (id : Z) (k : slab_field) (d : Z) : server unit :=
  upd_cnt (λ c, set_slab_stats
    (<[id := <[k := u64 (slab_stats c id k + d)]> (slab_stats c id)]> (slab_stats c)) c).
Definition itemstat_add (id : Z) (k : itemstat_field) (d : Z) : server unit :=
  upd_cnt (λ c, set_itemstats
    (<[id := <[k := u64 (itemstats c id k + d)]> (itemstats c id)]> (itemstats c)) c).

(** Two states that differ in the counters only: what a client can never
    observe through get/set. *)
Definition same_but_counters (s s' : cache) : Prop := ∃ c, s' = set_cnt c s.

(** ** Symbolic execution

    One equation per primitive, on a state in constructor form. *)
Create Rewrite HintDb mc_exec.

Section exec.
Context {A B : Type} (lg : memory) (m : memlog) (me : gmap Z item_metadata) (ff : option Z)
  (tb : assoc) (cf : settings) (cn : counters) (ci ct ps : Z).
Implicit Types (k : unit → server B).

Lemma bind_ret (a : A) (k : A → server B) s : (mret a ≫= k) s = k a s.
Proof. done. Qed.
Lemma bind_assoc {C} (x : server A) (k1 : A → server C) (k2 : C → server B) s :
  ((x ≫= k1) ≫= k2) s = (x ≫= λ a, k1 a ≫= k2) s.
Proof. unfold mbind, M_bind. destruct (x s) as [[a s']|f]; done. Qed.
Lemma bind_gets (f : cache → A) (k : A → server B) s : (gets f ≫= k) s = k (f s) s.
Proof. done. Qed.
Lemma bind_modify (f : cache → cache) k s : (modify f ≫= k) s = k tt (f s).
Proof. done. Qed.
Lemma bind_fail (e : fault) (k : A → server B) s : (fail e ≫= k) s = Fault e.
Proof. done. Qed.
Lemma bind_upd_log f k : (upd_log f ≫= k) (Cache lg m me ff tb cf cn ci ct ps) = k tt (Cache (f lg) m me ff tb cf cn ci ct ps).
Proof. done. Qed.
Lemma run_upd_log f : upd_log f (Cache lg m me ff tb cf cn ci ct ps) = Ok (tt, (Cache (f lg) m me ff tb cf cn ci ct ps)).
Proof. done. Qed.
Lemma bind_upd_ml f k : (upd_ml f ≫= k) (Cache lg m me ff tb cf cn ci ct ps) = k tt (Cache lg (f m) me ff tb cf cn ci ct ps).
Proof. done. Qed.
Lemma run_upd_ml f : upd_ml f (Cache lg m me ff tb cf cn ci ct ps) = Ok (tt, (Cache lg (f m) me ff tb cf cn ci ct ps)).
Proof. done. Qed.
Lemma bind_upd_tab f k : (upd_tab f ≫= k) (Cache lg m me ff tb cf cn ci ct ps) = k tt (Cache lg m me ff (f tb) cf cn ci ct ps).
Proof. done. Qed.
Lemma run_upd_tab f : upd_tab f (Cache lg m me ff tb cf cn ci ct ps) = Ok (tt, (Cache lg m me ff (f tb) cf cn ci ct ps)).
Proof. done. Qed.
Lemma bind_upd_cfg f k : (upd_cfg f ≫= k) (Cache lg m me ff tb cf cn ci ct ps) = k tt (Cache lg m me ff tb (f cf) cn ci ct ps).
Proof. done. Qed.
Lemma run_upd_cfg f : upd_cfg f (Cache lg m me ff tb cf cn ci ct ps) = Ok (tt, (Cache lg m me ff tb (f cf) cn ci ct ps)).
Proof. done. Qed.
Lemma bind_upd_cnt f k : (upd_cnt f ≫= k) (Cache lg m me ff tb cf cn ci ct ps) = k tt (Cache lg m me ff tb cf (f cn) ci ct ps).
Proof. done. Qed.
Lemma run_upd_cnt f : upd_cnt f (Cache lg m me ff tb cf cn ci ct ps) = Ok (tt, (Cache lg m me ff tb cf (f cn) ci ct ps)).
Proof. done. Qed.
Lemma bind_get_meta p x (k : item_metadata → server B) :
  me !! p = Some x → (get_meta p ≫= k) (Cache lg m me ff tb cf cn ci ct ps) = k x (Cache lg m me ff tb cf cn ci ct ps).
Proof. intros H. unfold get_meta, mbind, M_bind; cbn. by rewrite H. Qed.
Lemma bind_upd_meta p x f k :
  me !! p = Some x → (upd_meta p f ≫= k) (Cache lg m me ff tb cf cn ci ct ps) = k tt (Cache lg m (<[p := f x]> me) ff tb cf cn ci ct ps).
Proof. intros H. unfold upd_meta, mbind, M_bind; cbn. by rewrite H. Qed.
Lemma run_upd_meta p x f :
  me !! p = Some x → upd_meta p f (Cache lg m me ff tb cf cn ci ct ps) = Ok (tt, (Cache lg m (<[p := f x]> me) ff tb cf cn ci ct ps)).
Proof. intros H. unfold upd_meta; cbn. by rewrite H. Qed.
End exec.

(** Normalise projections of a state in constructor form. *)
Ltac simpl_state :=
  cbn [log ml meta first_free tab cfg cnt cas_id current_time process_started
    set_log set_ml set_meta set_first_free set_tab set_cfg set_cnt set_cas_id
    set_current_time set_process_started
    mem_limit mem_current mem_avail mem_free_from_beginning mem_current_freeing
    set_mem_limit set_mem_current set_mem_avail set_mem_free_from_beginning
    set_mem_current_freeing
    hashpower primary_hashtable old_hashtable hash_items expanding started_expanding expand_bucket
    set_hashpower set_primary_hashtable set_old_hashtable set_hash_items set_expanding
    set_started_expanding set_expand_bucket] in *.
Ltac simpl_goal :=
  cbv beta delta [set_log set_ml set_meta set_first_free set_tab set_cfg set_cnt set_cas_id
    set_current_time set_process_started];
  cbn [log ml meta first_free tab cfg cnt cas_id current_time process_started
    mem_limit mem_current mem_avail mem_free_from_beginning mem_current_freeing].

(** One step of straight-line code. *)
Ltac step :=
  first
  [ rewrite bind_assoc
  | rewrite bind_ret
  | rewrite bind_gets; simpl_state
  | rewrite bind_upd_log
  | rewrite bind_upd_ml; simpl_state
  | rewrite bind_upd_tab; simpl_state
  | rewrite bind_upd_cfg
  | rewrite bind_upd_cnt
  | erewrite bind_get_meta by eassumption
  | erewrite bind_upd_meta by eassumption
  | rewrite bind_modify; simpl_state
  | rewrite run_upd_log
  | rewrite run_upd_ml; simpl_state
  | rewrite run_upd_tab; simpl_state
  | rewrite run_upd_cfg
  | rewrite run_upd_cnt
  | erewrite run_upd_meta by eassumption ]; cbv beta zeta.
Ltac exec :=
  unfold stats_add, stats_put, state_add, state_put, flag_put, thread_add, slab_add, itemstat_add;
  repeat step.

(** ** The same in weakest-precondition style, on any state *)
Section wp_server.
Context {A : Type}.
Lemma wp_get_meta p x s (Q : item_metadata → cache → Prop) :
  meta s !! p = Some x → Q x s → wp (get_meta p) s Q.
Proof. intros H HQ. exists x, s. split; [|done]. unfold get_meta. by rewrite H. Qed.
Lemma wp_upd_meta p x f s (Q : unit → cache → Prop) :
  meta s !! p = Some x → Q tt (set_meta (<[p := f x]> (meta s)) s) → wp (upd_meta p f) s Q.
Proof. intros H HQ. eexists _, _. split; [|exact HQ]. unfold upd_meta. by rewrite H. Qed.
Lemma wp_upd_log f s (Q : unit → cache → Prop) : Q tt (set_log (f (log s)) s) → wp (upd_log f) s Q.
Proof. intros HQ. eexists _, _. split; [reflexivity|exact HQ]. Qed.
Lemma wp_upd_ml f s (Q : unit → cache → Prop) : Q tt (set_ml (f (ml s)) s) → wp (upd_ml f) s Q.
Proof. intros HQ. eexists _, _. split; [reflexivity|exact HQ]. Qed.
Lemma wp_upd_tab f s (Q : unit → cache → Prop) : Q tt (set_tab (f (tab s)) s) → wp (upd_tab f) s Q.
Proof. intros HQ. eexists _, _. split; [reflexivity|exact HQ]. Qed.
Lemma wp_upd_cnt f s (Q : unit → cache → Prop) : Q tt (set_cnt (f (cnt s)) s) → wp (upd_cnt f) s Q.
Proof. intros HQ. eexists _, _. split; [reflexivity|exact HQ]. Qed.
Lemma wp_if (b : bool) (m1 m2 : server A) s Q :
  (b = true → wp m1 s Q) → (b = false → wp m2 s Q) → wp (if b then m1 else m2) s Q.
Proof. destruct b; auto. Qed.
Lemma wp_when (b : bool) (m : server unit) s Q :
  (b = true → wp m s Q) → (b = false → Q tt s) → wp (when b m) s Q.
Proof. destruct b; cbn; intros H1 H2; [auto|by apply wp_ret, H2]. Qed.
End wp_server.

(** Find what a slot holds after a sequence of updates. *)
Ltac meta_lookup :=
  first [ eassumption
        | cbn [meta set_log set_ml set_meta set_first_free set_tab set_cfg set_cnt set_cas_id];
          solve [ repeat first [ eassumption
                               | rewrite lookup_insert_eq; reflexivity
                               | rewrite lookup_insert_ne by (done || congruence) ] ] ].

(** One step of a weakest precondition. *)
Ltac wp_step :=
  lazymatch goal with
  | |- wp (mbind _ _) _ _ => apply wp_bind
  | |- wp (mret _) _ _ => apply wp_ret
  | |- wp (gets _) _ _ => apply wp_gets
  | |- wp (upd_log _) _ _ => apply wp_upd_log
  | |- wp (upd_ml _) _ _ => apply wp_upd_ml
  | |- wp (upd_tab _) _ _ => apply wp_upd_tab
  | |- wp (upd_cnt _) _ _ => apply wp_upd_cnt
  | |- wp (modify _) _ _ => apply wp_modify
  | |- wp (get_meta _) _ _ => eapply wp_get_meta; [meta_lookup|]
  | |- wp (upd_meta _ _) _ _ => eapply wp_upd_meta; [meta_lookup|]
  | |- wp (stats_add _ _) _ _ => apply wp_upd_cnt
  | |- wp (stats_put _ _) _ _ => apply wp_upd_cnt
  | |- wp (state_add _ _) _ _ => apply wp_upd_cnt
  | |- wp (state_put _ _) _ _ => apply wp_upd_cnt
  | |- wp (flag_put _ _) _ _ => apply wp_upd_cnt
  | |- wp (thread_add _ _) _ _ => apply wp_upd_cnt
  | |- wp (slab_add _ _ _) _ _ => apply wp_upd_cnt
  | |- wp (itemstat_add _ _ _) _ _ => apply wp_upd_cnt
  end; cbv beta zeta.
Ltac wp_steps := repeat wp_step.
(** The same on states in constructor form. *)
Ltac wp_exec := repeat (wp_step; simpl_goal).
