(* ===== verification/Memlog.v ===== *)
(** * memlog.c, allocation side: the circular log allocator

    Offsets from [mem_base] stand for the pointers.  The log is either
    _linear_ (live bytes between [mem_current_freeing] and [mem_current]) or
    _wrapped_ (live bytes everywhere but between [mem_current] and
    [mem_current_freeing]). *)
From Stdlib Require Import ZArith Lia.
From stdpp Require Import prelude gmap list functions.
From S2P Require Import Prelude Mem Util Item State.

Definition MEMLOG_DEFAULT_SIZE : Z := 1 * 1024 * 1024 * 1024.

(** [memlog_init]: [malloc_ok] tells whether malloc returned memory; the
    [memset] comes before the test of its result. *)
Definition memlog_init (malloc_ok : bool) : server unit :=
  _ ← upd_ml (set_mem_limit MEMLOG_DEFAULT_SIZE);
  if malloc_ok then
    _ ← upd_log (λ _, ∅);
    upd_ml (λ m, Memlog (mem_limit m) 0 (mem_limit m) 0 0)
  else fail NullDeref.

(** The [nbytes] of the cycle item.  In the source the subtractions of the
    header parts are written on continued lines that begin with [/], so the
    expression divides the digit count by four unsigned constants instead. *)
Definition cycle_snum (avail : Z) : list Z := fmt_d (i32 (u64 (avail - SIZEOF_item_data - (1 + 1) - 4))).
Definition cycle_nbytes (avail : Z) : Z :=
  let num := Z.of_nat (length (cycle_snum avail)) in
  i32 (u64 (avail - num / u64 (- SIZEOF_item_data) / u64 (- (1 + 1)) / u64 (- 4) / u64 (- 2))).

(** Publish the positions in the global statistics. *)
Definition publish_positions : server unit :=
  m ← gets ml;
  _ ← stats_put st_mem_current (mem_current m);
  _ ← stats_put st_mem_avail (mem_avail m);
  stats_put st_mem_free_from_beginning (mem_free_from_beginning m).

(** The ten bytes of [snum] must hold the digits and their NUL. *)
Definition SIZEOF_snum : nat := 10.
Definition snum_fits (avail : Z) : bool := (length (cycle_snum avail) <? SIZEOF_snum)%nat.

(** Near the physical end: pad with a cycle item and start from the base. *)
Definition start_cycle : server unit :=
  m ← gets ml;
  let it := mem_current m in
  _ ← upd_log (data_flags_or it ITEM_DIRTY);
  _ ← upd_log (data_flags_or it ITEM_CYCLE);
  _ ← upd_log (set_nkey it 1);
  _ ← when (negb (snum_fits (mem_avail m))) (fail OutOfBounds);
  _ ← upd_log (set_nbytes it (cycle_nbytes (mem_avail m)));
  _ ← upd_ml (set_mem_current 0);
  _ ← upd_ml (λ m, set_mem_avail (mem_free_from_beginning m) m);
  _ ← upd_ml (set_mem_free_from_beginning 0);
  _ ← publish_positions;
  _ ← upd_log (data_flags_clear it ITEM_DIRTY);
  upd_log (data_flags_or it ITEM_STORED).

(** Must the allocation of [size] bytes start a new cycle? *)
Definition near_end (m : memlog) (size : Z) : bool :=
  u64 (mem_current m + size) >? u64 (mem_limit m - 35).

Definition memory_allocate (size : Z) : server (option Z) :=
  m ← gets ml;
  _ ← when (near_end m size) start_cycle;
  m ← gets ml;
  if size >? mem_avail m then mret None
  else
    let ret := mem_current m in
    _ ← upd_ml (set_mem_current (mem_current m + size));
    _ ← upd_ml (λ m, set_mem_avail (u64 (mem_avail m - size)) m);
    _ ← publish_positions;
    mret (Some ret).

(** The block and the [*total_bytes] stored for the caller. *)
Definition do_memlog_alloc (size : Z) : server (option (Z * Z)) :=
  ptr ← memory_allocate size;
  match ptr with
  | None => mret None
  | Some p => mret (Some (p, size))
  end.

(** Under [memlog_lock]. *)
Definition memlog_alloc (size : Z) : server (option (Z * Z)) := do_memlog_alloc size.

(** ** Accessors used by the maintainer and by replication (32-bit interface) *)
Definition get_memory_limit (s : cache) : Z := u32 (mem_limit (ml s)).
Definition get_memory_available (s : cache) : Z := u32 (mem_avail (ml s)).
Definition set_memory_available (v : Z) : server unit := upd_ml (set_mem_avail (u32 v)).
Definition get_memory_free_from_beginning (s : cache) : Z := u32 (mem_free_from_beginning (ml s)).
Definition set_memory_free_from_beginning (v : Z) : server unit :=
  upd_ml (set_mem_free_from_beginning (u32 v)).
Definition get_memory_current (s : cache) : Z := mem_current (ml s).
Definition set_memory_current (v : Z) : server unit := upd_ml (set_mem_current v).

(** ** Geometry *)
Definition linear (m : memlog) : Prop :=
  0 ≤ mem_current_freeing m ≤ mem_current m ∧ mem_current m + 35 ≤ mem_limit m ∧
  mem_avail m = mem_limit m - mem_current m ∧
  mem_free_from_beginning m = mem_current_freeing m.
Definition wrapped (m : memlog) : Prop :=
  0 ≤ mem_current m ≤ mem_current_freeing m ∧ mem_current_freeing m < mem_limit m ∧
  mem_current m + 35 ≤ mem_limit m ∧
  mem_avail m = mem_current_freeing m - mem_current m ∧ mem_free_from_beginning m = 0.
(** The limit is that of a 32-bit size, as the accessors assume. *)
Definition geometry (m : memlog) : Prop :=
  35 ≤ mem_limit m < 2 ^ 31 ∧ (linear m ∨ wrapped m).

(** Bytes no live item owns. *)
Definition free_at (m : memlog) (a : Z) : Prop :=
  (linear m ∧ (mem_current m ≤ a < mem_limit m ∨ 0 ≤ a < mem_current_freeing m)) ∨
  (wrapped m ∧ mem_current m ≤ a < mem_current_freeing m).

(** The allocator's contract holds for requests that fit before the end of the
    log, or else find it linear with a rest whose length has at most nine
    digits. *)
Definition may_allocate (m : memlog) (size : Z) : Prop :=
  0 < size < 2 ^ 62 ∧ (linear m ∧ mem_avail m < 10 ^ 9 + 22 ∨ mem_current m + size ≤ mem_limit m - 35).

(** Whether the request will be served: from the rest of the log, or from its
    beginning once a new cycle is started. *)
Definition has_room (m : memlog) (size : Z) : bool :=
  size <=? (if near_end m size then mem_free_from_beginning m else mem_avail m).

(** ** Lemmas *)
Lemma fmt_d_short n : - 2 ^ 31 ≤ n < 2 ^ 31 → (length (fmt_d n) ≤ 21)%nat.
Proof.
  intros Hn. unfold fmt_d. destruct (n <? 0); cbn [length]; pose proof (fmt_u_length (-n));
    pose proof (fmt_u_length n); lia.
Qed.

Lemma cycle_nbytes_eq avail : cycle_nbytes avail = i32 (u64 avail).
Proof.
  unfold cycle_nbytes, cycle_snum. cbv zeta.
  pose proof (fmt_d_short (i32 (u64 (avail - SIZEOF_item_data - (1 + 1) - 4))) ltac:(apply i32_range)) as Hl.
  rewrite (Z.div_small (Z.of_nat _)); [|change (u64 (- SIZEOF_item_data)) with 18446744073709551600; lia].
  by rewrite !Z.div_0_l, Z.sub_0_r by done.
Qed.

(** The number printed has at most nine characters up to [10 ^ 9 + 21] bytes. *)
Lemma snum_fits_spec avail : 0 ≤ avail < 2 ^ 31 → snum_fits avail = true ↔ avail < 10 ^ 9 + 22.
Proof.
  intros Ha. unfold snum_fits, cycle_snum, SIZEOF_snum, SIZEOF_item_data. rewrite Nat.ltb_lt.
  destruct (Z.lt_ge_cases avail 22) as [Hlt|Hge].
  - assert (i32 (u64 (avail - 16 - (1 + 1) - 4)) = avail - 22) as -> by (unfold i32, u64; Z.div_mod_to_equations; lia).
    split; [lia|]. intros _. unfold fmt_d. rewrite (proj2 (Z.ltb_lt _ _)) by lia. cbn [length].
    pose proof (fmt_u_digits (- (avail - 22)) 2 ltac:(lia) ltac:(lia)). lia.
  - rewrite u64_small, i32_small by lia. unfold fmt_d. rewrite (proj2 (Z.ltb_ge _ _)) by lia.
    pose proof (fmt_u_digits (avail - 16 - (1 + 1) - 4) 9 ltac:(lia) ltac:(lia)). lia.
Qed.

(** Everything [start_cycle] writes lies in the 16 header bytes at [it]. *)
Lemma agree_set_flags_out m it v b n :
  b + n ≤ it ∨ it + 16 ≤ b → agree (set_it_data_flags it v m) m b n.
Proof. intros. apply agree_store_le_out. lia. Qed.
Lemma agree_set_nkey_out m it v b n :
  b + n ≤ it ∨ it + 16 ≤ b → agree (set_nkey it v m) m b n.
Proof. intros. apply agree_store_le_out. lia. Qed.
Lemma agree_set_nbytes_out m it v b n :
  b + n ≤ it ∨ it + 16 ≤ b → agree (set_nbytes it v m) m b n.
Proof. intros. apply agree_store_le_out. lia. Qed.

(** The memory with the header of a cycle item at [it]. *)
Definition cycle_header (it avail : Z) (m : memory) : memory :=
  data_flags_or it ITEM_STORED (data_flags_clear it ITEM_DIRTY
    (set_nbytes it (cycle_nbytes avail) (set_nkey it 1
      (data_flags_or it ITEM_CYCLE (data_flags_or it ITEM_DIRTY m))))).

Lemma cycle_header_out it avail m b n :
  b + n ≤ it ∨ it + 16 ≤ b → agree (cycle_header it avail m) m b n.
Proof.
  intros H. unfold cycle_header, data_flags_or, data_flags_clear.
  repeat first [ eapply agree_trans; [apply agree_set_flags_out; exact H|]
               | eapply agree_trans; [apply agree_set_nbytes_out; exact H|]
               | eapply agree_trans; [apply agree_set_nkey_out; exact H|]
               | apply agree_set_flags_out; exact H ].
  apply agree_refl.
Qed.

Lemma start_cycle_eq s :
  snum_fits (mem_avail (ml s)) = true →
  ∃ c, start_cycle s = Ok (tt,
    set_cnt c (set_log (cycle_header (mem_current (ml s)) (mem_avail (ml s)) (log s))
      (set_ml (Memlog (mem_limit (ml s)) 0 (mem_free_from_beginning (ml s)) 0
                 (mem_current_freeing (ml s))) s))).
Proof.
  intros Hf. unfold start_cycle. rewrite bind_gets, Hf. cbn [negb when].
  destruct s as [lg [li cu av fb fr] me ff tb cf cn ci ct ps]. cbn in Hf.
  unfold publish_positions. exec. eexists. reflexivity.
Qed.
Lemma start_cycle_overflow s : snum_fits (mem_avail (ml s)) = false → start_cycle s = Fault OutOfBounds.
Proof. intros Hf. unfold start_cycle. rewrite bind_gets, Hf. reflexivity. Qed.

(** What an allocation does to the positions, once the cycle is decided. *)
Definition alloc_ml (size : Z) (m : memlog) : memlog :=
  Memlog (mem_limit m) (mem_current m + size) (u64 (mem_avail m - size))
    (mem_free_from_beginning m) (mem_current_freeing m).
Definition cycled_ml (m : memlog) : memlog :=
  Memlog (mem_limit m) 0 (mem_free_from_beginning m) 0 (mem_current_freeing m).

(** The four outcomes of [memory_allocate]. *)
Lemma memory_allocate_eq size s :
  let m := ml s in
  let m1 := if near_end m size then cycled_ml m else m in
  let log1 := if near_end m size
    then cycle_header (mem_current m) (mem_avail m) (log s) else log s in
  (near_end m size = true → snum_fits (mem_avail m) = true) →
  ∃ c, memory_allocate size s =
    if size >? mem_avail m1 then Ok (None, set_cnt c (set_log log1 (set_ml m1 s)))
    else Ok (Some (mem_current m1), set_cnt c (set_log log1 (set_ml (alloc_ml size m1) s))).
Proof.
  cbv zeta. intros Hfit. unfold memory_allocate. rewrite (bind_Ok _ _ s (ml s) s) by done.
  assert (∀ s m1, m1 = ml s → ∃ c,
    (m ← gets ml;
     if size >? mem_avail m then mret None
     else _ ← upd_ml (set_mem_current (mem_current m + size));
          _ ← upd_ml (λ m, set_mem_avail (u64 (mem_avail m - size)) m);
          _ ← publish_positions; mret (Some (mem_current m))) s =
    if size >? mem_avail m1 then Ok (None, set_cnt c s)
    else Ok (Some (mem_current m1), set_cnt c (set_ml (alloc_ml size m1) s))) as Hrest.
  { clear s Hfit. intros s m1 ->. destruct s as [lg [li cu av fb fr] me ff tb cf cn ci ct ps].
    unfold publish_positions, alloc_ml. exec.
    destruct (size >? av); eexists; reflexivity. }
  destruct (near_end (ml s) size) eqn:E; cbn [when].
  - destruct (start_cycle_eq s (Hfit eq_refl)) as [c Hc]. rewrite (bind_Ok _ _ _ _ _ Hc).
    edestruct Hrest as [c' ->]; [reflexivity|]. exists c'.
    fold (cycled_ml (ml s)). destruct s; reflexivity.
  - rewrite (bind_Ok _ _ s tt s) by done.
    destruct (Hrest s (ml s) eq_refl) as [c ->]. exists c. destruct s; reflexivity.
Qed.

(** ** The allocator's contract *)
Lemma near_end_spec m size :
  geometry m → 0 < size < 2 ^ 62 →
  near_end m size = true ↔ mem_limit m - 35 < mem_current m + size.
Proof.
  intros (Hl & Hg) Hs. unfold near_end.
  assert (0 ≤ mem_current m < 2 ^ 31) by (destruct Hg as [Hg|Hg]; unfold linear, wrapped in Hg; lia).
  rewrite !u64_small by lia. rewrite Z.gtb_ltb, Z.ltb_lt. done.
Qed.

(** After a linear log starts a new cycle it is wrapped and its free bytes are
    those freed at the beginning. *)
Lemma cycled_wrapped m : geometry m → linear m → wrapped (cycled_ml m) ∧ geometry (cycled_ml m).
Proof.
  intros (Hl & _) H. assert (wrapped (cycled_ml m)) as Hw
    by (unfold linear, wrapped, cycled_ml in *; cbn; lia).
  split; [done|]. split; [done|by right].
Qed.

Lemma alloc_geometry m size :
  geometry m → 0 < size → mem_current m + size ≤ mem_limit m - 35 → size ≤ mem_avail m →
  geometry (alloc_ml size m).
Proof.
  intros (Hl & Hg) Hs Hc Ha. split; [done|]. unfold alloc_ml.
  destruct Hg as [Hg|Hg]; [left|right]; unfold linear, wrapped in *; cbn;
    rewrite u64_small by lia; lia.
Qed.

(** What every allocation establishes, as one relation between the states. *)
Record allocated (s : cache) (size : Z) (r : option Z) (s' : cache) : Prop := {
  al_geometry : geometry (ml s');
  al_limit : mem_limit (ml s') = mem_limit (ml s) ∧
    mem_current_freeing (ml s') = mem_current_freeing (ml s);
  al_block : ∀ p, r = Some p →
    0 ≤ p ∧ p + size ≤ mem_limit (ml s) - 35 ∧ mem_current (ml s') = p + size ∧
    ∀ a, p ≤ a < p + size → free_at (ml s) a ∧ ¬ free_at (ml s') a;
  al_frame : ∀ a, ¬ free_at (ml s) a → mget (log s') a = mget (log s) a;
  al_untouched : ∀ p, r = Some p → ∀ a, p ≤ a < p + size → mget (log s') a = mget (log s) a;
  al_free : ∀ a, free_at (ml s') a → free_at (ml s) a ∧ mget (log s') a = mget (log s) a;
  al_retry : r = None → size ≤ mem_limit (ml s) - 35 → may_allocate (ml s') size;
  al_room : bool_decide (is_Some r) = has_room (ml s) size;
  al_full : r = None → size ≤ mem_limit (ml s) - 35 → has_room (ml s') size = false;
  al_rest : meta s' = meta s ∧ first_free s' = first_free s ∧ tab s' = tab s ∧
    cfg s' = cfg s ∧ cas_id s' = cas_id s ∧ current_time s' = current_time s
}.

(** A request the rest of the log cannot serve, away from its end. *)
Lemma retry_full m size :
  geometry m → 0 < size < 2 ^ 62 → mem_current m + size ≤ mem_limit m - 35 → mem_avail m < size →
  has_room m size = false.
Proof.
  intros Hg Hs Hc Ha. unfold has_room. destruct (near_end m size) eqn:E.
  - apply near_end_spec in E; [lia|done|done].
  - apply Z.leb_gt. done.
Qed.

Lemma memory_allocate_spec size s :
  geometry (ml s) → may_allocate (ml s) size →
  wp (memory_allocate size) s (allocated s size).
Proof.
  intros Hg (Hsz & Hmay). pose proof (near_end_spec _ _ Hg Hsz) as Hne.
  assert (near_end (ml s) size = true → linear (ml s) ∧ snum_fits (mem_avail (ml s)) = true) as Hlf.
  { intros E. apply Hne in E. destruct Hmay as [[Hlin Hd]|?]; [|lia]. split; [done|].
    apply snum_fits_spec; [|done]. unfold linear in Hlin. destruct Hg; lia. }
  destruct (memory_allocate_eq size s) as [c Heq]; [intros E; apply (Hlf E)|]. cbv zeta in Heq.
  assert (has_room (ml s) size =
    (size <=? mem_avail (if near_end (ml s) size then cycled_ml (ml s) else ml s))) as Hroom
    by (unfold has_room; by destruct (near_end (ml s) size)).
  destruct (near_end (ml s) size) eqn:E.
  - destruct (Hlf eq_refl) as [Hlin _].
    destruct (cycled_wrapped _ Hg Hlin) as [Hw Hg'].
    assert (∀ a, ¬ (mem_current (ml s) ≤ a < mem_limit (ml s)) →
      mget (cycle_header (mem_current (ml s)) (mem_avail (ml s)) (log s)) a = mget (log s) a) as Hfr'.
    { intros a Ha. apply (cycle_header_out _ _ _ a 1); [|lia]. unfold linear in *. lia. }
    assert (∀ a, ¬ free_at (ml s) a →
      mget (cycle_header (mem_current (ml s)) (mem_avail (ml s)) (log s)) a = mget (log s) a) as Hfr.
    { intros a Ha. apply Hfr'. unfold free_at, linear in *. lia. }
    destruct (size >? mem_avail (cycled_ml (ml s))) eqn:E2; rewrite ?Z.gtb_ltb in E2; reflect_bools.
    + eapply wp_eq; [exact Heq|]. split; cbn; try done.
      * intros a Ha. unfold free_at, cycled_ml, linear, wrapped in *. cbn in *.
        split; [lia|]. apply Hfr'. lia.
      * intros _ Hle. split; [done|]. right. cbn. lia.
      * rewrite Hroom. symmetry. apply Z.leb_gt. done.
      * intros _ Hle. apply retry_full; cbn in *; try done; lia.
    + eapply wp_eq; [exact Heq|]. destruct Hg as (Hl & _).
      unfold cycled_ml, linear, wrapped in *. cbn in *.
      split; cbn; try done.
      5:{ rewrite Hroom. symmetry. apply Z.leb_le. done. }
      3:{ intros p [= <-] a Ha. apply Hfr'. lia. }
      3:{ intros a. unfold free_at, linear, wrapped. cbn. rewrite u64_small by lia. intros Ha.
          split; [lia|]. apply Hfr'. lia. }
      * apply alloc_geometry; try done; cbn; lia.
      * intros p [= <-]. split_and!; try lia. intros a Ha. unfold free_at, linear, wrapped. cbn.
        rewrite u64_small by lia. lia.
  - assert (¬ (mem_limit (ml s) - 35 < mem_current (ml s) + size)) as Hn
      by (intros Hx; apply Hne in Hx; done).
    destruct (size >? mem_avail (ml s)) eqn:E2; rewrite ?Z.gtb_ltb in E2; reflect_bools.
    + eapply wp_eq; [exact Heq|]. split; cbn; try done.
      * rewrite Hroom. symmetry. apply Z.leb_gt. done.
      * intros _ _. rewrite Hroom. apply Z.leb_gt. done.
    + eapply wp_eq; [exact Heq|]. split; cbn; try done.
      * apply alloc_geometry; first [done|lia].
      * destruct Hg as (Hl & Hg). intros p [= <-].
        unfold free_at. unfold linear, wrapped in *. cbn.
        rewrite u64_small by (destruct Hg; lia). split_and!; destruct Hg; lia.
      * destruct Hg as (Hl & Hg). intros a. unfold free_at. unfold linear, wrapped in *. cbn.
        rewrite u64_small by (destruct Hg; lia). intros Ha. split; [|done]. destruct Hg; lia.
      * rewrite Hroom. symmetry. apply Z.leb_le. done.
Qed.

(** C5: the log allocator's safety contract.  From consistent positions, a
    request of 1 to 2^62 bytes that either ends 35 bytes before the end of the
    log, or finds the log linear (not yet wrapped) with at most 10^9+21 bytes
    left behind the current position, succeeds exactly when the place it is
    served from (the rest of the log, or its freed beginning once a new cycle is
    started) has [size] bytes.  The block then lies inside the buffer, 35 bytes
    short of its end, and was entirely free; in every case no byte of a live
    item changes, the positions stay consistent, and items, table, settings and
    clock keep their values.  Both conditions are needed: with more bytes left
    the digits of the cycle item overflow the ten bytes of [snum], and wrapping a
    wrapped log is not guarded. *)
Theorem memory_allocate_safe (size : Z) (s : cache)
    (Hgeo : geometry (ml s)) (Hmay : may_allocate (ml s) size) :
  ∃ r s', memory_allocate size s = Ok (r, s') ∧ allocated s size r s'.
Proof. exact (memory_allocate_spec size s Hgeo Hmay). Qed.

(** A state with the given log positions and everything else empty. *)
Definition empty_counters : counters :=
  Counters (λ _, 0) (λ _, 0) (λ _, false) (λ _, 0) (λ _ _, 0) (λ _ _, 0) (λ _, 0) (λ _, 0) None 0 0.
Definition empty_table (power : Z) : assoc := Assoc power ∅ ∅ 0 false false 0.
Definition initial_cache (h : list Z → Z) (m : memlog) : cache :=
  Cache ∅ m ∅ None (empty_table 16) (settings_init h) empty_counters 0 2 0.
Definition fresh_log : memlog :=
  Memlog MEMLOG_DEFAULT_SIZE 0 MEMLOG_DEFAULT_SIZE 0 0.

Lemma fresh_linear : linear fresh_log.
Proof. unfold linear, fresh_log, MEMLOG_DEFAULT_SIZE. simpl_state. lia. Qed.
Lemma fresh_geometry : geometry fresh_log.
Proof.
  split; [unfold fresh_log, MEMLOG_DEFAULT_SIZE; simpl_state; lia|left; apply fresh_linear].
Qed.

Lemma fresh_fits size :
  size ≤ 2 ^ 30 - 35 → mem_current fresh_log + size ≤ mem_limit fresh_log - 35.
Proof. cbn [fresh_log mem_current mem_limit]. unfold MEMLOG_DEFAULT_SIZE. lia. Qed.

Lemma memory_allocate_safe_witness :
  ∃ r s', memory_allocate 100 (initial_cache (λ _, 0) fresh_log) = Ok (r, s') ∧
    allocated (initial_cache (λ _, 0) fresh_log) 100 r s'.
Proof.
  apply (memory_allocate_safe 100 (initial_cache (λ _, 0) fresh_log)).
  - exact fresh_geometry.
  - split; [lia|right; exact (fresh_fits 100 ltac:(lia))].
Defined.

(** ** Outside the contract *)
(** A request that cannot be satisfied even by an empty log still starts a
    cycle, each time it is retried. *)
Definition oversized (m : memlog) (size : Z) : Prop := mem_limit m - 35 < size < 2 ^ 62.

Lemma oversized_near_end m size : geometry m → oversized m size → near_end m size = true.
Proof.
  intros Hg Ho. unfold oversized in Ho. apply near_end_spec; [done|destruct Hg; lia|].
  destruct Hg as (_ & [Hg|Hg]); unfold linear, wrapped in Hg; lia.
Qed.

Lemma oversized_allocate size s :
  geometry (ml s) → oversized (ml s) size → snum_fits (mem_avail (ml s)) = true →
  ∃ c, memory_allocate size s = Ok (None,
    set_cnt c (set_log (cycle_header (mem_current (ml s)) (mem_avail (ml s)) (log s))
      (set_ml (cycled_ml (ml s)) s))).
Proof.
  intros Hg Ho Hf. destruct (memory_allocate_eq size s) as [c Heq]; [done|]. exists c.
  cbv zeta in Heq. rewrite (oversized_near_end _ _ Hg Ho) in Heq. unfold oversized in Ho.
  replace (size >? mem_avail (cycled_ml (ml s))) with true in Heq; [exact Heq|].
  symmetry. rewrite Z.gtb_ltb. apply Z.ltb_lt. cbn.
  destruct Hg as (_ & [Hg|Hg]); unfold linear, wrapped in Hg; lia.
Qed.

(** With ten digits to print the buffer of the cycle item's length overflows. *)
Lemma oversized_overflow size s :
  geometry (ml s) → oversized (ml s) size → snum_fits (mem_avail (ml s)) = false →
  memory_allocate size s = Fault OutOfBounds.
Proof.
  intros Hg Ho Hf. unfold memory_allocate. rewrite bind_gets, (oversized_near_end _ _ Hg Ho).
  cbn [when]. apply bind_Fault, start_cycle_overflow, Hf.
Qed.
