(* ===== verification/Assoc.v ===== *)
(** * assoc.c: the hash table

    Chains run through the [h_next] fields of the metadata.  The table refines
    a finite map from key bytes to metadata pointers, also in the middle of an
    expansion. *)
From Stdlib Require Import ZArith Lia.
From stdpp Require Import prelude gmap list functions.
From S2P Require Import Prelude Mem Util Item State.

Definition hashsize (n : Z) : Z := Z.shiftl 1 n.
Definition hashmask (n : Z) : Z := hashsize n - 1.
Definition HASHPOWER_DEFAULT : Z := 16.
Definition DEFAULT_HASH_BULK_MOVE : Z := 1.

(** [assoc_init]; [calloc_ok]: the table could be allocated. *)
Definition assoc_init (hashtable_init : Z) (calloc_ok : bool) : server unit :=
  _ ← when (negb (hashtable_init =? 0)) (upd_tab (set_hashpower hashtable_init));
  if calloc_ok then
    _ ← upd_tab (set_primary_hashtable ∅);
    t ← gets tab;
    _ ← state_put hash_power_level (hashpower t);
    state_put hash_bytes (hashsize (hashpower t) * 8)
  else fail (Exited 1).

(** The old table is used for the buckets not migrated yet. *)
Definition in_old (t : assoc) (hv : Z) : bool :=
  expanding t && (Z.land hv (hashmask (hashpower t - 1)) >=? expand_bucket t).
(** Table (old or primary) and bucket number of a hash value. *)
Definition slot (t : assoc) (hv : Z) : bool * Z :=
  if in_old t hv then (true, Z.land hv (hashmask (hashpower t - 1)))
  else (false, Z.land hv (hashmask (hashpower t))).
Definition bucket (t : assoc) (o : bool) (b : Z) : option Z :=
  if o then old_hashtable t !! b else primary_hashtable t !! b.
Definition set_bucket (o : bool) (b : Z) (v : option Z) (t : assoc) : assoc :=
  let upd (g : gmap Z Z) := match v with Some p => <[b := p]> g | None => delete b g end in
  if o then set_old_hashtable (upd (old_hashtable t)) t
  else set_primary_hashtable (upd (primary_hashtable t)) t.

(** [(nkey == it->item->nkey) && (memcmp(key, ITEM_key(it->item), nkey) == 0)] *)
Definition key_matches (lg : memory) (key : list Z) (it : Z) : bool :=
  (Z.of_nat (length key) =? nkey lg it) &&
  bool_decide (load_bytes lg (ITEM_key lg it) (length key) = key).

Definition find_body (key : list Z) (it : option Z) : server (option Z + option Z) :=
  match it with
  | None => mret (inr None)
  | Some p =>
      x ← get_meta p;
      lg ← gets log;
      if key_matches lg key (item x) then mret (inr (Some p)) else mret (inl (h_next x))
  end.

Definition assoc_find (key : list Z) (hv : Z) : server (option Z) :=
  t ← gets tab;
  let '(o, b) := slot t hv in
  loop FUEL (find_body key) (bucket t o b).

(** The address of a chain link: a bucket or the [h_next] of a metadata. *)
Inductive link := LBucket (o : bool) (b : Z) | LNext (p : Z).
Definition read_link (l : link) : server (option Z) :=
  match l with
  | LBucket o b => gets (λ s, bucket (tab s) o b)
  | LNext p => x ← get_meta p; mret (h_next x)
  end.
Definition write_link (l : link) (v : option Z) : server unit :=
  match l with
  | LBucket o b => upd_tab (set_bucket o b v)
  | LNext p => upd_meta p (set_h_next v)
  end.

Definition before_body (key : list Z) (pos : link) : server (link + link) :=
  cur ← read_link pos;
  match cur with
  | None => mret (inr pos)
  | Some p =>
      x ← get_meta p;
      lg ← gets log;
      if key_matches lg key (item x) then mret (inr pos) else mret (inl (LNext p))
  end.

Definition _hashitem_before (key : list Z) (hv : Z) : server link :=
  t ← gets tab;
  let '(o, b) := slot t hv in
  loop FUEL (before_body key) (LBucket o b).

(** [assoc_expand]; [calloc_ok]: the larger table could be allocated. *)
Definition assoc_expand (calloc_ok : bool) : server unit :=
  if calloc_ok then
    _ ← upd_tab (λ t, set_old_hashtable (primary_hashtable t) t);
    _ ← upd_tab (set_primary_hashtable ∅);
    _ ← upd_tab (λ t, set_hashpower (hashpower t + 1) t);
    _ ← upd_tab (set_expanding true);
    _ ← upd_tab (set_expand_bucket 0);
    t ← gets tab;
    _ ← state_put hash_power_level (hashpower t);
    _ ← state_add hash_bytes (hashsize (hashpower t) * 8);
    flag_put hash_is_expanding true
  else upd_tab (λ t, set_old_hashtable (primary_hashtable t) t).

(** The condition variable is signalled unless a signal is pending. *)
Definition assoc_start_expand : server unit :=
  t ← gets tab;
  if started_expanding t then mret tt else upd_tab (set_started_expanding true).

Definition assoc_insert (it : Z) (hv : Z) : server Z :=
  t ← gets tab;
  let '(o, b) := slot t hv in
  _ ← upd_meta it (set_h_next (bucket t o b));
  _ ← upd_tab (set_bucket o b (Some it));
  _ ← upd_tab (λ t, set_hash_items (u32 (hash_items t + 1)) t);
  t ← gets tab;
  _ ← when (negb (expanding t) && (hash_items t >? hashsize (hashpower t) * 3 / 2))
        assoc_start_expand;
  mret 1.

Definition assoc_delete (key : list Z) (hv : Z) : server unit :=
  before ← _hashitem_before key hv;
  cur ← read_link before;
  match cur with
  | Some p =>
      _ ← upd_tab (λ t, set_hash_items (u32 (hash_items t - 1)) t);
      x ← get_meta p;
      let nxt := h_next x in
      _ ← upd_meta p (set_h_next None);
      write_link before nxt
  | None => assert_ false
  end.

(** ** The maintenance thread *)
Definition move_body (it : option Z) : server (option Z + unit) :=
  match it with
  | None => mret (inr tt)
  | Some p =>
      x ← get_meta p;
      s ← gets id;
      let next := h_next x in
      let b := Z.land (hash (cfg s) (item_key (log s) (item x))) (hashmask (hashpower (tab s))) in
      _ ← upd_meta p (set_h_next (primary_hashtable (tab s) !! b));
      _ ← upd_tab (set_bucket false b (Some p));
      mret (inl next)
  end.

(** Migrate the bucket [expand_bucket]. *)
Definition move_bucket : server unit :=
  t ← gets tab;
  _ ← loop FUEL move_body (old_hashtable t !! expand_bucket t);
  _ ← upd_tab (set_bucket true (expand_bucket t) None);
  _ ← upd_tab (λ t, set_expand_bucket (u32 (expand_bucket t + 1)) t);
  t ← gets tab;
  if expand_bucket t =? hashsize (hashpower t - 1) then
    _ ← upd_tab (set_expanding false);
    _ ← upd_tab (set_old_hashtable ∅);
    _ ← state_add hash_bytes (- (hashsize (hashpower t - 1) * 8));
    flag_put hash_is_expanding false
  else mret tt.

(** The for loop of one pass: [locks] gives the outcome of each
    [item_trylock(expand_bucket)]; its length is [hash_bulk_move]. *)
Fixpoint move_buckets (locks : list bool) : server unit :=
  match locks with
  | [] => mret tt
  | ok :: locks =>
      t ← gets tab;
      if expanding t then
        _ ← (if ok then move_bucket else mret tt);
        move_buckets locks
      else mret tt
  end.

(** One turn of the thread's outer loop; when nothing is left to migrate it
    waits for the signal and expands, if [wake]. *)
Definition maintenance_turn (locks : list bool) (wake calloc_ok : bool) : server unit :=
  _ ← move_buckets locks;
  t ← gets tab;
  if expanding t then mret tt
  else
    _ ← upd_tab (set_started_expanding false);
    if wake then assoc_expand calloc_ok else mret tt.
