(* ===== verification/AssocFacts.v ===== *)
(** * The hash table refines a finite map from keys to metadata pointers *)
From Stdlib Require Import ZArith Lia.
From stdpp Require Import strings prelude gmap list functions.
From S2P Require Import Prelude Mem Util Item State Memlog Assoc.

(** ** Chains *)
Fixpoint chain (me : gmap Z item_metadata) (h : option Z) (l : list Z) : Prop :=
  match l with
  | [] => h = None
  | p :: l => h = Some p ∧ ∃ x, me !! p = Some x ∧ chain me (h_next x) l
  end.

Lemma chain_frame me p x h l : p ∉ l → chain me h l → chain (<[p := x]> me) h l.
Proof.
  revert h; induction l as [|q l IH]; intros h Hp; [done|].
  apply not_elem_of_cons in Hp as [Hq Hp]. intros (-> & y & Hy & Hc).
  split; [done|]. exists y. rewrite lookup_insert_ne by done. auto.
Qed.

(** Updates that keep [h_next] keep the chains. *)
Lemma chain_update me p x y h l :
  me !! p = Some x → h_next y = h_next x → chain me h l → chain (<[p := y]> me) h l.
Proof.
  intros Hx Hn. revert h; induction l as [|q l IH]; intros h; [done|].
  intros (-> & z & Hz & Hc). split; [done|].
  destruct (decide (q = p)) as [->|Hq].
  - exists y. rewrite lookup_insert_eq. split; [done|]. rewrite Hn.
    assert (z = x) as -> by congruence. auto.
  - exists z. rewrite lookup_insert_ne by done. auto.
Qed.

Lemma chain_elem me h l p : chain me h l → p ∈ l → is_Some (me !! p).
Proof.
  revert h; induction l as [|q l IH]; intros h; [by intros _ ?%elem_of_nil|].
  intros (-> & x & Hx & Hc) [->|Hp]%elem_of_cons; eauto.
Qed.

Lemma chain_length me h l :
  chain me h l → NoDup l → (length l ≤ size me)%nat.
Proof.
  intros Hc Hnd. rewrite <- size_dom, <- (size_list_to_set (C := gset Z) l) by done.
  apply subseteq_size. intros p Hp. apply elem_of_dom. eapply chain_elem; [done|].
  by apply elem_of_list_to_set in Hp.
Qed.

(** Cut the element [p] out of a chain, at its head or after [q]. *)
Lemma chain_cut_head me h p l x :
  NoDup (p :: l) → me !! p = Some x → chain me h (p :: l) →
  chain (<[p := set_h_next None x]> me) (h_next x) l.
Proof.
  intros [Hp _]%list.NoDup_cons Hx (-> & x' & Hx' & Hc).
  assert (x' = x) as -> by congruence. by apply chain_frame.
Qed.

Lemma chain_cut_after me h l1 q y p x l2 :
  NoDup (l1 ++ q :: p :: l2) → me !! p = Some x → me !! q = Some y →
  chain me h (l1 ++ q :: p :: l2) →
  chain (<[q := set_h_next (h_next x) y]> (<[p := set_h_next None x]> me)) h (l1 ++ q :: l2).
Proof.
  revert h. induction l1 as [|r l1 IH]; intros h Hnd Hx Hy; cbn [app] in *;
    intros (-> & z & Hz & Hc); apply list.NoDup_cons in Hnd as [Hr Hnd].
  - split; [done|]. exists (set_h_next (h_next x) y). rewrite lookup_insert_eq.
    split; [done|]. cbn. assert (z = y) as -> by congruence.
    apply chain_frame; [set_solver|]. eapply chain_cut_head; eauto.
  - split; [done|]. exists z. rewrite !lookup_insert_ne by set_solver. auto.
Qed.

(** ** The refinement relation *)
Definition key_of (lg : memory) (me : gmap Z item_metadata) (p : Z) : option (list Z) :=
  (λ x, item_key lg (item x)) <$> me !! p.

(** [K] is the abstract table; [C o b] the chain of bucket [b] of the old
    ([o = true]) or primary table. *)
Record assoc_repr (h : list Z → Z) (lg : memory) (me : gmap Z item_metadata) (t : assoc)
    (K : gmap (list Z) Z) (C : bool → Z → list Z) : Prop := {
  ar_power : 0 < hashpower t < 32;
  ar_expand : expanding t = true → 1 < hashpower t ∧
    0 ≤ expand_bucket t < hashsize (hashpower t - 1);
  ar_chain : ∀ o b, (o = true → expanding t = true) → chain me (bucket t o b) (C o b);
  ar_nodup : ∀ o b, NoDup (C o b);
  ar_mem : ∀ o b p, p ∈ C o b ↔ ∃ key, K !! key = Some p ∧ slot t (h key) = (o, b);
  ar_key : ∀ key p, K !! key = Some p → key_of lg me p = Some key;
  ar_heap : Z.of_nat (size me) < 2 ^ 32;
  ar_count : hash_items t = u32 (Z.of_nat (size K))
}.

Definition represents (s : cache) (K : gmap (list Z) Z) : Prop :=
  ∃ C, assoc_repr (hash (cfg s)) (log s) (meta s) (tab s) K C.

Lemma slot_old t hv o b : slot t hv = (o, b) → o = true → expanding t = true.
Proof.
  unfold slot, in_old. destruct (expanding t); [done|]. cbn. intros [= <- <-]. done.
Qed.

Section repr.
Context {h lg me t K C} (HR : assoc_repr h lg me t K C).

Lemma repr_inj key1 key2 p : K !! key1 = Some p → K !! key2 = Some p → key1 = key2.
Proof.
  intros H1 H2. apply (ar_key _ _ _ _ _ _ HR) in H1, H2. congruence.
Qed.

Lemma repr_unique o b o' b' p : p ∈ C o b → p ∈ C o' b' → (o, b) = (o', b').
Proof.
  rewrite !(ar_mem _ _ _ _ _ _ HR). intros (k & Hk & <-) (k' & Hk' & <-).
  by rewrite (repr_inj _ _ _ Hk Hk').
Qed.

Lemma repr_expanding o b p : p ∈ C o b → o = true → expanding t = true.
Proof. rewrite (ar_mem _ _ _ _ _ _ HR). intros (k & Hk & Hs). by eapply slot_old. Qed.

(** The chain a key belongs to is readable. *)
Lemma repr_chain hv o b : slot t hv = (o, b) → chain me (bucket t o b) (C o b).
Proof. intros Hs. apply HR. by apply (slot_old _ hv _ b). Qed.
End repr.

Lemma key_matches_spec lg key it :
  Forall is_byte key → key_matches lg key it = bool_decide (item_key lg it = key).
Proof.
  intros _. unfold key_matches, item_key. pose proof (nkey_range lg it).
  destruct (Z.of_nat (length key) =? nkey lg it) eqn:E; reflect_bools; cbn.
  - by replace (Z.to_nat (nkey lg it)) with (length key) by lia.
  - symmetry. apply bool_decide_eq_false. intros Hk.
    apply (f_equal length) in Hk. rewrite load_bytes_length in Hk. lia.
Qed.

(** ** Searching a chain *)
Definition is_key (lg : memory) (me : gmap Z item_metadata) (key : list Z) (p : Z) : bool :=
  bool_decide (key_of lg me p = Some key).

Fixpoint find_in (lg : memory) (me : gmap Z item_metadata) (key : list Z) (l : list Z) : option Z :=
  match l with
  | [] => None
  | p :: l => if is_key lg me key p then Some p else find_in lg me key l
  end.

Lemma find_in_Some lg me key l p :
  find_in lg me key l = Some p →
  ∃ l1 l2, l = l1 ++ p :: l2 ∧ key_of lg me p = Some key ∧ ∀ q, q ∈ l1 → key_of lg me q ≠ Some key.
Proof.
  induction l as [|q l IH]; [done|]. cbn. unfold is_key. case_bool_decide as Hq.
  - intros [= ->]. exists [], l. split_and!; [done|done|]. intros ? ?%elem_of_nil. done.
  - intros (l1 & l2 & -> & Hk & Hn)%IH. exists (q :: l1), l2. split_and!; [done|done|].
    intros r [->|Hr]%elem_of_cons; auto.
Qed.

Lemma find_in_None lg me key l :
  find_in lg me key l = None → ∀ q, q ∈ l → key_of lg me q ≠ Some key.
Proof.
  induction l as [|q l IH]; cbn; [by intros _ ? ?%elem_of_nil|].
  unfold is_key. case_bool_decide; [done|]. intros Hf r [->|Hr]%elem_of_cons; auto.
Qed.

(** The chain of a key's bucket holds exactly the abstract binding. *)
Lemma find_in_repr h lg me t K C key o b :
  assoc_repr h lg me t K C → slot t (h key) = (o, b) →
  find_in lg me key (C o b) = K !! key.
Proof.
  intros HR Hs. destruct (find_in lg me key (C o b)) as [p|] eqn:E.
  - apply find_in_Some in E as (l1 & l2 & Hl & Hk & _).
    assert (p ∈ C o b) as Hp by (rewrite Hl; set_solver).
    apply (ar_mem _ _ _ _ _ _ HR) in Hp as (k & HK & _).
    pose proof (ar_key _ _ _ _ _ _ HR _ _ HK). congruence.
  - destruct (K !! key) as [p|] eqn:HK; [|done]. exfalso.
    eapply find_in_None; [exact E| |by apply (ar_key _ _ _ _ _ _ HR)].
    apply (ar_mem _ _ _ _ _ _ HR). eauto.
Qed.

Lemma is_key_eq lg me key p x :
  Forall is_byte key → me !! p = Some x → key_matches lg key (item x) = is_key lg me key p.
Proof.
  intros Hb Hx. rewrite key_matches_spec by done. unfold is_key, key_of. rewrite Hx. cbn.
  apply bool_decide_ext. naive_solver.
Qed.


(** ** [assoc_find] *)
Lemma find_loop key s l h :
  Forall is_byte key → chain (meta s) h l → Z.of_nat (length l) < 2 ^ 64 - 1 →
  wp (loop FUEL (find_body key) h) s
    (λ r s', s' = s ∧ r = find_in (log s) (meta s) key l).
Proof.
  intros Hb Hc Hlen.
  apply (loop_rule _ _ (λ k h s', s' = s ∧ ∃ l', k = Z.of_nat (length l') + 1 ∧
    chain (meta s) h l' ∧ find_in (log s) (meta s) key l' = find_in (log s) (meta s) key l)
    _ (Z.of_nat (length l) + 1)); [|by eauto|change (2 ^ Z.of_nat FUEL) with (2 ^ 64); lia].
  intros k h' s' (-> & l' & -> & Hc' & Hf). destruct l' as [|p l'].
  - cbn in Hc'. subst h'. cbn [find_body]. apply wp_ret. by rewrite <- Hf.
  - destruct Hc' as (-> & x & Hx & Hc'). cbn [find_body find_in length] in *.
    wp_steps. rewrite (is_key_eq _ (meta s) _ p) by done.
    destruct (is_key (log s) (meta s) key p) eqn:E; wp_steps; [done|].
    exists (Z.of_nat (length l') + 1). split; [lia|]. split; [done|]. eauto.
Qed.

(** The model of [assoc_find] under the refinement relation. *)
Lemma chain_of_repr s K C hv o b :
  assoc_repr (hash (cfg s)) (log s) (meta s) (tab s) K C → slot (tab s) hv = (o, b) →
  chain (meta s) (bucket (tab s) o b) (C o b) ∧ Z.of_nat (length (C o b)) < 2 ^ 32.
Proof.
  intros HR Hs. pose proof (repr_chain HR _ _ _ Hs) as Hc. split; [done|].
  pose proof (chain_length _ _ _ Hc (ar_nodup _ _ _ _ _ _ HR o b)).
  pose proof (ar_heap _ _ _ _ _ _ HR). lia.
Qed.

Lemma assoc_find_spec s K key :
  represents s K → Forall is_byte key →
  assoc_find key (hash (cfg s) key) s = Ok (K !! key, s).
Proof.
  intros [C HR] Hb. destruct (slot (tab s) (hash (cfg s) key)) as [o b] eqn:Hs.
  destruct (chain_of_repr _ _ _ _ _ _ HR Hs) as [Hc Hl].
  unfold assoc_find. rewrite (bind_Ok _ _ s (tab s) s) by done. rewrite Hs.
  destruct (find_loop key s (C o b) _ Hb Hc ltac:(lia)) as (r & s' & -> & -> & ->).
  by rewrite (find_in_repr _ _ _ _ _ _ _ _ _ HR Hs).
Qed.

(** ** Positions in a chain *)
Definition before (o : bool) (b : Z) (l : list Z) : link := foldl (λ _ q, LNext q) (LBucket o b) l.
Lemma before_snoc o b l q : before o b (l ++ [q]) = LNext q.
Proof. unfold before. by rewrite foldl_app. Qed.

(** Read through a link that lies after [l1] in the chain [l1 ++ l2]. *)
Lemma read_before s o b l1 l2 :
  chain (meta s) (bucket (tab s) o b) (l1 ++ l2) →
  read_link (before o b l1) s = Ok (head l2, s).
Proof.
  intros Hc. destruct l1 as [|q l1 _] using rev_ind.
  - cbn. destruct l2 as [|p l2]; cbn in *; [by unfold gets; rewrite Hc|].
    destruct Hc as [Hc _]. unfold gets. by rewrite Hc.
  - rewrite before_snoc. cbn. rewrite <- app_assoc in Hc. cbn in Hc.
    assert (∃ x, meta s !! q = Some x ∧ h_next x = head l2) as (x & Hx & Hn).
    { clear - Hc. revert Hc. generalize (bucket (tab s) o b). induction l1 as [|r l1 IH]; intros h; cbn.
      - intros (-> & x & Hx & Hc). exists x. split; [done|]. destruct l2; cbn in *; [done|naive_solver].
      - intros (-> & x & Hx & Hc). eauto. }
    unfold mbind, M_bind, get_meta. by rewrite Hx, <- Hn.
Qed.

(** [_hashitem_before] stops in front of the key's item, or at the end. *)
Fixpoint prefix_before (lg : memory) (me : gmap Z item_metadata) (key : list Z) (l : list Z) : list Z :=
  match l with
  | [] => []
  | p :: l => if is_key lg me key p then [] else p :: prefix_before lg me key l
  end.

Lemma prefix_before_app lg me key l1 p l2 :
  (∀ q, q ∈ l1 → key_of lg me q ≠ Some key) → key_of lg me p = Some key →
  prefix_before lg me key (l1 ++ p :: l2) = l1.
Proof.
  induction l1 as [|q l1 IH]; intros Hn Hp; cbn; unfold is_key.
  - by rewrite bool_decide_eq_true_2.
  - rewrite bool_decide_eq_false_2 by (apply Hn; set_solver). f_equal.
    apply IH; [|done]. intros r Hr. apply Hn. set_solver.
Qed.

Lemma before_loop key s o b l :
  Forall is_byte key → chain (meta s) (bucket (tab s) o b) l → Z.of_nat (length l) < 2 ^ 64 - 1 →
  wp (loop FUEL (before_body key) (LBucket o b)) s
    (λ r s', s' = s ∧ r = before o b (prefix_before (log s) (meta s) key l)).
Proof.
  intros Hb Hc Hlen.
  apply (loop_rule _ _ (λ k pos s', s' = s ∧ ∃ l1 l2, l = l1 ++ l2 ∧ k = Z.of_nat (length l2) + 1 ∧
    pos = before o b l1 ∧
    prefix_before (log s) (meta s) key l = l1 ++ prefix_before (log s) (meta s) key l2)
    _ (Z.of_nat (length l) + 1));
    [|split; [done|]; by exists [], l|change (2 ^ Z.of_nat FUEL) with (2 ^ 64); lia].
  intros k pos s' (-> & l1 & l2 & -> & -> & -> & Hp). unfold before_body. wp_step.
  eapply wp_eq; [by apply (read_before s o b l1 l2)|]. destruct l2 as [|p l2]; cbn [head].
  - wp_steps. split; [done|]. rewrite Hp. cbn. by rewrite app_nil_r.
  - destruct (chain_elem _ _ _ p Hc ltac:(set_solver)) as [x Hx].
    wp_steps. rewrite (is_key_eq _ (meta s) _ p) by done. cbn [prefix_before] in Hp.
    destruct (is_key (log s) (meta s) key p) eqn:E; wp_steps.
    + split; [done|]. by rewrite Hp, app_nil_r.
    + exists (Z.of_nat (length l2) + 1). cbn [length]. split; [lia|]. split; [done|].
      exists (l1 ++ [p]), l2. rewrite before_snoc, <- app_assoc. split_and!; try done.
      rewrite Hp. by rewrite <- app_assoc.
Qed.

(** ** Updating the table *)
Lemma bucket_set o b v t o' b' :
  bucket (set_bucket o b v t) o' b' =
    if bool_decide ((o', b') = (o, b)) then v else bucket t o' b'.
Proof.
  destruct o, o'; cbn; case_bool_decide as E; simplify_eq; try done;
    destruct v; rewrite ?lookup_insert_eq, ?lookup_delete_eq; try done;
    rewrite ?lookup_insert_ne, ?lookup_delete_ne by congruence; done.
Qed.
Lemma set_bucket_shape o b v t :
  hashpower (set_bucket o b v t) = hashpower t ∧ expanding (set_bucket o b v t) = expanding t ∧
  expand_bucket (set_bucket o b v t) = expand_bucket t ∧
  hash_items (set_bucket o b v t) = hash_items t.
Proof. by destruct o. Qed.

(** The slot of a key depends on the size and the progress of the expansion. *)
Definition same_shape (t t' : assoc) : Prop :=
  hashpower t' = hashpower t ∧ expanding t' = expanding t ∧ expand_bucket t' = expand_bucket t.
Lemma slot_shape t t' hv : same_shape t t' → slot t' hv = slot t hv.
Proof. intros (H1 & H2 & H3). unfold slot, in_old. by rewrite H1, H2, H3. Qed.

(** The relation only reads the chains, the size and the item count. *)
Lemma repr_ext h lg me t t' K C :
  same_shape t t' → (∀ o b, (o = true → expanding t = true) → bucket t' o b = bucket t o b) →
  hash_items t' = u32 (Z.of_nat (size K)) →
  assoc_repr h lg me t K C → assoc_repr h lg me t' K C.
Proof.
  intros Hsh Hbk Hn HR. pose proof (λ hv, slot_shape _ _ hv Hsh) as Hsl.
  destruct Hsh as (H1 & H2 & H3). destruct HR as [R1 R2 R3 R4 R5 R6 R7 R8].
  split; try done; rewrite ?H1, ?H2, ?H3; try done.
  - intros o b Ho. rewrite Hbk by done. by apply R3.
  - intros o b p. rewrite R5. by setoid_rewrite Hsl.
Qed.

Section insert.
Context {h lg me t K C} (HR : assoc_repr h lg me t K C).
Context (key : list Z) (p : Z) (x : item_metadata) (o : bool) (b : Z).
Context (Hx : me !! p = Some x) (Hkey : key_of lg me p = Some key) (HK : K !! key = None).
Context (Hs : slot t (h key) = (o, b)).

Lemma insert_fresh o' b' : p ∉ C o' b'.
Proof.
  rewrite (ar_mem _ _ _ _ _ _ HR). intros (k & Hk & _).
  pose proof (ar_key _ _ _ _ _ _ HR _ _ Hk). congruence.
Qed.

Definition insert_chain (o' : bool) (b' : Z) : list Z :=
  if bool_decide ((o', b') = (o, b)) then p :: C o b else C o' b'.

Lemma repr_insert :
  assoc_repr h lg (<[p := set_h_next (bucket t o b) x]> me)
    (set_hash_items (u32 (hash_items t + 1)) (set_bucket o b (Some p) t))
    (<[key := p]> K) insert_chain.
Proof.
  set (t' := set_hash_items _ _).
  assert (same_shape t t') as Hsh by (destruct o; done).
  assert (∀ o' b', bucket t' o' b' = if bool_decide ((o', b') = (o, b)) then Some p else bucket t o' b')
    as Hbk by (intros o' b'; rewrite <- bucket_set; by destruct o, o').
  pose proof (λ hv, slot_shape _ _ hv Hsh) as Hsl. destruct Hsh as (H1 & H2 & H3).
  pose proof insert_fresh as Hf. pose proof HR as [R1 R2 R3 R4 R5 R6 R7 R8].
  assert (∀ q, key_of lg (<[p := set_h_next (bucket t o b) x]> me) q = key_of lg me q) as Hko.
  { intros q. unfold key_of. destruct (decide (q = p)) as [->|Hq].
    - by rewrite lookup_insert_eq, Hx.
    - by rewrite lookup_insert_ne. }
  split; rewrite ?H1, ?H2, ?H3; try done.
  - intros o' b' Ho. rewrite Hbk. unfold insert_chain. case_bool_decide as E; simplify_eq.
    + split; [done|]. eexists. rewrite lookup_insert_eq. split; [done|].
      apply chain_frame; [done|]. cbn. by apply R3.
    + apply chain_frame; [done|]. by apply R3.
  - intros o' b'. unfold insert_chain. case_bool_decide; [|done]. by apply list.NoDup_cons.
  - intros o' b' q. setoid_rewrite Hsl. unfold insert_chain.
    assert (q ∈ C o' b' ↔ ∃ k, k ≠ key ∧ K !! k = Some q ∧ slot t (h k) = (o', b')) as Hm.
    { rewrite R5. split; intros (k & ? & ?); exists k; [|tauto]. split_and!; congruence. }
    transitivity ((q = p ∧ (o', b') = (o, b)) ∨ q ∈ C o' b').
    { case_bool_decide as E; [|tauto]. injection E as -> ->. rewrite elem_of_cons. tauto. }
    rewrite Hm. split.
    + intros [[-> E]|(k & Hk & ? & ?)].
      * exists key. rewrite lookup_insert_eq. by rewrite E.
      * exists k. by rewrite lookup_insert_ne.
    + intros (k & Hk & Hsk). destruct (decide (k = key)) as [->|Hne].
      * left. rewrite lookup_insert_eq in Hk. split; congruence.
      * right. exists k. rewrite lookup_insert_ne in Hk by done. done.
  - intros k q Hk. rewrite Hko. destruct (decide (k = key)) as [->|Hne].
    + rewrite lookup_insert_eq in Hk. congruence.
    + rewrite lookup_insert_ne in Hk by done. by apply R6.
  - rewrite map_size_insert_Some by done. done.
  - cbn. rewrite R8. rewrite map_size_insert_None by done. unfold u32.
    rewrite Z.add_mod_idemp_l by lia. f_equal. lia.
Qed.
End insert.

(** Everything but the table and the chain links is left alone. *)
Definition hnext_only (me me' : gmap Z item_metadata) : Prop :=
  set_h_next None <$> me' = set_h_next None <$> me.
Record table_only (s s' : cache) : Prop := {
  to_log : log s' = log s;
  to_ml : ml s' = ml s;
  to_meta : hnext_only (meta s) (meta s');
  to_free : first_free s' = first_free s;
  to_cfg : cfg s' = cfg s;
  to_cas : cas_id s' = cas_id s;
  to_time : current_time s' = current_time s
}.

Lemma hnext_insert me p x v : me !! p = Some x → hnext_only me (<[p := set_h_next v x]> me).
Proof.
  intros Hx. unfold hnext_only. rewrite fmap_insert. apply insert_id.
  rewrite lookup_fmap, Hx. by destruct x.
Qed.
Lemma hnext_refl me : hnext_only me me.
Proof. done. Qed.
Lemma hnext_trans me1 me2 me3 : hnext_only me1 me2 → hnext_only me2 me3 → hnext_only me1 me3.
Proof. unfold hnext_only. congruence. Qed.
Lemma table_only_trans s1 s2 s3 : table_only s1 s2 → table_only s2 s3 → table_only s1 s3.
Proof.
  intros [] []. split; try congruence; by eapply hnext_trans.
Qed.
(** What a metadata slot holds besides its link. *)
Lemma hnext_lookup me me' p x :
  hnext_only me me' → me !! p = Some x → ∃ v, me' !! p = Some (set_h_next v x).
Proof.
  intros H Hx. apply (f_equal (lookup p)) in H. rewrite !lookup_fmap, Hx in H. cbn in H.
  destruct (me' !! p) as [y|] eqn:Hy; [|done]. exists (h_next y). f_equal.
  destruct x, y. cbn in *. by simplify_eq.
Qed.

Lemma assoc_insert_spec s K key p x :
  represents s K → meta s !! p = Some x → item_key (log s) (item x) = key → K !! key = None →
  wp (assoc_insert p (hash (cfg s) key)) s (λ r s',
    r = 1 ∧ represents s' (<[key := p]> K) ∧ table_only s s' ∧ cnt s' = cnt s ∧
    ∃ v, meta s' = <[p := set_h_next v x]> (meta s)).
Proof.
  intros [C HR] Hx Hkey HK. destruct (slot (tab s) (hash (cfg s) key)) as [o b] eqn:Hs.
  assert (key_of (log s) (meta s) p = Some key) as Hko by (unfold key_of; by rewrite Hx, <- Hkey).
  pose proof (repr_insert HR key p x o b Hx Hko HK Hs) as HR'.
  set (t' := set_hash_items _ _) in HR'. set (me' := <[p := _]> (meta s)) in HR'.
  assert (∀ t'', t'' = t' ∨ t'' = set_started_expanding true t' →
      represents (set_tab t'' (set_meta me' s)) (<[key := p]> K)) as Hrep.
  { intros t'' [-> | ->]; eexists; [exact HR'|]. eapply repr_ext; [..|exact HR']; [done| |].
    - intros [] b' _; done.
    - exact (ar_count _ _ _ _ _ _ HR'). }
  assert (∀ t'', table_only s (set_tab t'' (set_meta me' s))) as Hfr
    by (intros t''; split; try done; by apply hnext_insert).
  unfold assoc_insert. do 2 wp_step. rewrite Hs. wp_steps.
  cbn [tab set_tab set_meta].
  replace (set_hash_items (u32 (hash_items (set_bucket o b (Some p) (tab s)) + 1))
    (set_bucket o b (Some p) (tab s))) with t' by (by destruct o).
  apply wp_when; intros _.
  - unfold assoc_start_expand. wp_steps. cbn [tab set_tab]. destruct (started_expanding t'); wp_steps;
      (split; [done|]); (split; [by apply Hrep; auto|]); (split; [by apply Hfr|]); split; eauto.
  - wp_steps. split; [done|]. split; [by apply Hrep; auto|]. split; [by apply Hfr|]; split; eauto.
Qed.

(** All that an insertion writes. *)
Lemma assoc_insert_writes s p x hv :
  meta s !! p = Some x →
  wp (assoc_insert p hv) s (λ _ s', ∃ t v, s' = set_tab t (set_meta (<[p := set_h_next v x]> (meta s)) s)).
Proof.
  intros Hx. unfold assoc_insert. do 2 wp_step. destruct (slot (tab s) hv) as [o b]. wp_steps.
  apply wp_when; intros _.
  - unfold assoc_start_expand. wp_steps. destruct (started_expanding _); wp_steps; eexists _, _; reflexivity.
  - wp_steps. eexists _, _. reflexivity.
Qed.

Section delete.
Context {h lg me t K C} (HR : assoc_repr h lg me t K C).
Context (key : list Z) (p : Z) (o : bool) (b : Z) (l1 l2 : list Z).
Context (HK : K !! key = Some p) (Hs : slot t (h key) = (o, b)) (Hl : C o b = l1 ++ p :: l2).
Context (me' : gmap Z item_metadata) (t' : assoc).
Context (Hme : hnext_only me me').
Context (Hsh : same_shape t t') (Hit : hash_items t' = u32 (hash_items t - 1)).
Context (Hcut : chain me' (bucket t' o b) (l1 ++ l2)).
Context (Hother : ∀ o' b' l, (o', b') ≠ (o, b) → (∀ q, q ∈ l → q ∉ C o b) →
  chain me (bucket t o' b') l → chain me' (bucket t' o' b') l).

Definition delete_chain (o' : bool) (b' : Z) : list Z :=
  if bool_decide ((o', b') = (o, b)) then l1 ++ l2 else C o' b'.

Lemma key_of_hnext q : key_of lg me' q = key_of lg me q.
Proof.
  clear - Hme. unfold key_of. destruct (me !! q) as [x|] eqn:Hx.
  - destruct (hnext_lookup _ _ _ _ Hme Hx) as [v ->]. by destruct x.
  - unfold hnext_only in Hme. apply (f_equal (lookup q)) in Hme.
    rewrite !lookup_fmap, Hx in Hme. by destruct (me' !! q).
Qed.

Lemma repr_delete : assoc_repr h lg me' t' (delete key K) delete_chain.
Proof.
  pose proof (λ hv, slot_shape _ _ hv Hsh) as Hsl. destruct Hsh as (H1 & H2 & H3).
  pose proof HR as [R1 R2 R3 R4 R5 R6 R7 R8].
  pose proof (R4 o b) as Hnd. rewrite Hl in Hnd.
  assert ((p ∉ l1 ++ l2) ∧ NoDup (l1 ++ l2)) as [Hp Hnd'].
  { rewrite <- Permutation_middle in Hnd. by apply list.NoDup_cons in Hnd. }
  split; rewrite ?H1, ?H2, ?H3; try done.
  - intros o' b' Ho. unfold delete_chain. case_bool_decide as E; simplify_eq; [done|].
    apply Hother; [done| |by apply R3]. intros q Hq1 Hq2.
    apply E. by apply (repr_unique HR _ _ _ _ q).
  - intros o' b'. unfold delete_chain. by case_bool_decide.
  - intros o' b' q. setoid_rewrite Hsl.
    assert (q ∈ delete_chain o' b' ↔ q ≠ p ∧ q ∈ C o' b') as ->.
    { unfold delete_chain. case_bool_decide as E.
      - injection E as -> ->. rewrite Hl. set_solver.
      - split; [|tauto]. intros Hq. split; [|done]. intros ->. apply E.
        apply (repr_unique HR _ _ _ _ p); [done|]. rewrite Hl. set_solver. }
    rewrite R5. split.
    + intros (Hq & k & Hk & Hk2). exists k. rewrite lookup_delete_ne; [done|]. congruence.
    + intros (k & Hk & Hk2). apply lookup_delete_Some in Hk as [Hne Hk]. split; [|eauto].
      intros ->. apply Hne. by apply (repr_inj HR _ _ p HK Hk).
  - intros k q. rewrite lookup_delete_Some, key_of_hnext. intros [_ Hk]. by apply R6.
  - apply (f_equal size) in Hme. rewrite !map_size_fmap in Hme. by rewrite Hme.
  - rewrite Hit, R8. rewrite map_size_delete_Some by eauto.
    assert (size K ≠ 0)%nat by (intros E0%map_size_empty_inv; rewrite E0 in HK; done).
    unfold u32. rewrite Zminus_mod_idemp_l. f_equal. lia.
Qed.
End delete.

(** A write through the link in front of [p] cuts [p] out of its chain. *)
Lemma cut_effect s o b l1 p l2 x :
  NoDup (l1 ++ p :: l2) → meta s !! p = Some x →
  chain (meta s) (bucket (tab s) o b) (l1 ++ p :: l2) →
  let me1 := <[p := set_h_next None x]> (meta s) in
  wp (write_link (before o b l1) (h_next x)) (set_meta me1 s) (λ _ s',
    ∃ me' t', s' = set_tab t' (set_meta me' s) ∧ hnext_only (meta s) me' ∧
      (l1 = [] ∧ me' = me1 ∧ t' = set_bucket o b (h_next x) (tab s) ∨
       (∃ q y, q ∈ l1 ∧ me' = <[q := y]> me1) ∧ t' = tab s) ∧
      chain me' (bucket t' o b) (l1 ++ l2)).
Proof.
  cbv zeta. intros Hnd Hx Hc. destruct l1 as [|q l1 _] using rev_ind.
  - cbn [before foldl write_link]. wp_steps. eexists _, _. split; [by destruct s|].
    split; [by apply hnext_insert|]. split; [by left|].
    rewrite bucket_set, bool_decide_eq_true_2 by done. by eapply chain_cut_head.
  - rewrite before_snoc. cbn [write_link]. rewrite <- app_assoc in *. cbn [app] in *.
    destruct (chain_elem _ _ _ q Hc ltac:(set_solver)) as [y Hy].
    assert (q ≠ p) as Hqp.
    { intros ->. apply list.NoDup_app in Hnd as (_ & _ & Hnd%list.NoDup_cons). set_solver. }
    eapply (wp_upd_meta _ y); [cbn; by rewrite lookup_insert_ne|]. cbn [meta set_meta].
    exists (<[q := set_h_next (h_next x) y]> (<[p := set_h_next None x]> (meta s))), (tab s).
    split; [by destruct s|]. split.
    { eapply hnext_trans; [by apply (hnext_insert _ p)|]. apply hnext_insert.
      by rewrite lookup_insert_ne. }
    split; [right; split; [|done]; exists q; eexists; split; [set_solver|done]|].
    by apply chain_cut_after.
Qed.

Lemma assoc_delete_spec s K key :
  represents s K → Forall is_byte key → is_Some (K !! key) →
  wp (assoc_delete key (hash (cfg s) key)) s (λ _ s',
    represents s' (delete key K) ∧ table_only s s' ∧ cnt s' = cnt s ∧
    ∀ q, (∀ k, K !! k ≠ Some q) → meta s' !! q = meta s !! q).
Proof.
  intros [C HR] Hb [p HK]. destruct (slot (tab s) (hash (cfg s) key)) as [o b] eqn:Hs.
  destruct (chain_of_repr _ _ _ _ _ _ HR Hs) as [Hc Hlen].
  pose proof (find_in_repr _ _ _ _ _ _ _ _ _ HR Hs) as Hf. rewrite HK in Hf.
  apply find_in_Some in Hf as (l1 & l2 & Hl & Hkp & Hnk). rewrite Hl in Hc.
  pose proof (ar_nodup _ _ _ _ _ _ HR o b) as Hnd. rewrite Hl in Hnd.
  destruct (chain_elem _ _ _ p Hc ltac:(set_solver)) as [x Hx].
  unfold assoc_delete, _hashitem_before. do 2 wp_step. wp_step. rewrite Hs.
  eapply wp_mono; [|apply (before_loop key s o b (C o b)); [done|by rewrite Hl|lia]].
  intros pos s' (-> & ->). rewrite Hl, prefix_before_app by done. wp_step.
  eapply wp_eq; [by apply (read_before s o b l1 (p :: l2))|]. cbn [head].
  do 5 wp_step.
  eapply wp_upd_meta; [exact Hx|]. set (t1 := set_hash_items _ _). set (s1 := set_tab t1 s).
  eapply wp_mono; [|apply (cut_effect s1 o b l1 p l2 x Hnd Hx)].
  2:{ unfold s1, t1. by destruct o. }
  intros _ s' (me' & t' & -> & Hme & Hch & Hcut).
  assert (same_shape (tab s) t' ∧ hash_items t' = u32 (hash_items (tab s) - 1)) as [Hsh Hit].
  { destruct Hch as [(_ & _ & ->)|(_ & ->)]; unfold s1, t1; by destruct o. }
  split; [|split; [|split; [by destruct s|]]].
  - exists (delete_chain (C := C) o b l1 l2).
    replace (hash (cfg (set_tab t' (set_meta me' s1)))) with (hash (cfg s)) by by destruct s.
    replace (log (set_tab t' (set_meta me' s1))) with (log s) by by destruct s.
    cbn [tab meta set_tab set_meta].
    eapply (repr_delete HR key p o b l1 l2); try done.
    intros o' b' l Hne Hd Hcl. destruct Hch as [(_ & -> & ->)|((q & y & Hq & ->) & ->)].
    + rewrite bucket_set, bool_decide_eq_false_2 by done.
      apply chain_frame; [intros ?%Hd; rewrite Hl in *; set_solver|]. unfold s1, t1. by destruct o'.
    + repeat (apply chain_frame; [intros ?%Hd; rewrite Hl in *; set_solver|]).
      unfold s1, t1. by destruct o'.
  - split; try by destruct s.
  - assert (∀ r, r ∈ l1 ++ p :: l2 → ∃ k, K !! k = Some r) as Hin.
    { intros r. rewrite <- Hl. rewrite (ar_mem _ _ _ _ _ _ HR). naive_solver. }
    intros r Hr. cbn [meta set_tab set_meta].
    assert (r ∉ l1 ++ p :: l2) as Hout by (intros [k ?]%Hin; by eapply Hr).
    destruct Hch as [(_ & -> & _)|((q & y & Hq & ->) & _)];
      rewrite ?lookup_insert_ne by set_solver; done.
Qed.

Lemma assoc_delete_missing s K key :
  represents s K → Forall is_byte key → K !! key = None →
  assoc_delete key (hash (cfg s) key) s = Fault AssertFailed.
Proof.
  intros [C HR] Hb HK. destruct (slot (tab s) (hash (cfg s) key)) as [o b] eqn:Hs.
  destruct (chain_of_repr _ _ _ _ _ _ HR Hs) as [Hc Hlen].
  pose proof (find_in_repr _ _ _ _ _ _ _ _ _ HR Hs) as Hf. rewrite HK in Hf.
  assert (prefix_before (log s) (meta s) key (C o b) = C o b) as Hp.
  { clear - Hf. induction (C o b) as [|q l IH]; [done|]. cbn in *.
    destruct (is_key _ _ key q); [done|]. by rewrite IH. }
  destruct (before_loop key s o b (C o b) Hb Hc ltac:(lia)) as (r & s' & He & -> & ->).
  unfold assoc_delete, _hashitem_before.
  rewrite bind_assoc, bind_gets, Hs, (bind_Ok _ _ _ _ _ He), Hp.
  pose proof (read_before s o b (C o b) []) as Hr. rewrite app_nil_r in Hr.
  by rewrite (bind_Ok _ _ _ _ _ (Hr Hc)).
Qed.

(** ** Expansion *)
Lemma hashsize_pos n : 0 ≤ n → 0 < hashsize n.
Proof. intros. unfold hashsize. rewrite Z.shiftl_mul_pow2 by lia. lia. Qed.
Lemma hashsize_lt n : 0 ≤ n < 32 → hashsize n ≤ 2 ^ 31.
Proof.
  intros. unfold hashsize. rewrite Z.shiftl_mul_pow2 by lia.
  pose proof (Z.pow_le_mono_r 2 n 31). lia.
Qed.
Lemma land_mask_range n hv : 0 ≤ n → 0 ≤ Z.land hv (hashmask n) < hashsize n.
Proof.
  intros Hn. unfold hashmask, hashsize. rewrite Z.shiftl_mul_pow2, Z.mul_1_l by lia.
  replace (2 ^ n - 1) with (Z.ones n) by (rewrite Z.ones_equiv; lia).
  rewrite Z.land_ones by lia. apply Z.mod_pos_bound. lia.
Qed.

Definition expanded (t : assoc) : assoc :=
  Assoc (hashpower t + 1) ∅ (primary_hashtable t) (hash_items t) true (started_expanding t) 0.

Lemma repr_expand h lg me t K C :
  assoc_repr h lg me t K C → expanding t = false → hashpower t < 31 →
  assoc_repr h lg me (expanded t) K (λ o b, if o then C false b else []).
Proof.
  intros [R1 R2 R3 R4 R5 R6 R7 R8] He Hp.
  assert (∀ hv, slot t hv = (false, Z.land hv (hashmask (hashpower t)))) as Hsl
    by (intros; unfold slot, in_old; by rewrite He).
  assert (∀ hv, slot (expanded t) hv = (true, Z.land hv (hashmask (hashpower t)))) as Hsl'.
  { intros hv. unfold slot, in_old. cbn.
    replace (hashpower t + 1 - 1) with (hashpower t) by lia.
    pose proof (land_mask_range (hashpower t) hv ltac:(lia)).
    by replace (Z.land hv (hashmask (hashpower t)) >=? 0) with true by lia. }
  split; try done.
  - cbn. lia.
  - intros _. cbn. replace (hashpower t + 1 - 1) with (hashpower t) by lia.
    pose proof (hashsize_pos (hashpower t)). lia.
  - intros [] b _; cbn; [by apply (R3 false)|done].
  - intros [] b; [done|constructor].
  - intros o b p. setoid_rewrite Hsl'. destruct o.
    + rewrite R5. setoid_rewrite Hsl. split; intros (k & ? & ?); exists k; split; congruence.
    + split; [by intros ?%elem_of_nil|]. by intros (k & ? & ?).
Qed.

Lemma assoc_expand_spec s K ok :
  represents s K → expanding (tab s) = false → hashpower (tab s) < 31 →
  wp (assoc_expand ok) s (λ _ s', represents s' K ∧ table_only s s' ∧ expanding (tab s') = ok).
Proof.
  intros [C HR] He Hp. unfold assoc_expand. destruct ok; wp_steps.
  - split; [|split; [by split|done]]. eexists. exact (repr_expand _ _ _ _ _ _ HR He Hp).
  - split; [|split; [by split|done]]. exists C. eapply repr_ext; [..|exact HR]; [done| |apply HR].
    intros [] b Ho; [|done]. by rewrite Ho in He.
Qed.

(** *** Migrating one bucket *)
Section move.
Context (h : list Z → Z) (lg : memory) (me0 : gmap Z item_metadata) (t0 : assoc)
  (K : gmap (list Z) Z) (C : bool → Z → list Z).
Context (HR : assoc_repr h lg me0 t0 K C) (Hexp : expanding t0 = true).

(** Bucket of the larger table an item goes to. *)
Definition new_bucket (p : Z) : option Z :=
  (λ k, Z.land (h k) (hashmask (hashpower t0))) <$> key_of lg me0 p.

(** The items [moved] of bucket [expand_bucket] are in the primary table, the
    chain [rest] is still to do. *)
Record moving (moved rest : list Z) (it : option Z) (me : gmap Z item_metadata) (t : assoc) : Prop := {
  mv_split : C true (expand_bucket t0) = moved ++ rest;
  mv_hnext : hnext_only me0 me;
  mv_shape : same_shape t0 t ∧ hash_items t = hash_items t0 ∧ old_hashtable t = old_hashtable t0;
  mv_rest : chain me it rest;
  mv_old : ∀ b, b ≠ expand_bucket t0 → chain me (old_hashtable t0 !! b) (C true b);
  mv_new : ∃ D, (∀ b, chain me (primary_hashtable t !! b) (D b)) ∧ (∀ b, NoDup (D b)) ∧
    ∀ b p, p ∈ D b ↔ p ∈ C false b ∨ p ∈ moved ∧ new_bucket p = Some b
}.

Lemma moving_start :
  moving [] (C true (expand_bucket t0)) (old_hashtable t0 !! expand_bucket t0) me0 t0.
Proof.
  pose proof HR as [R1 R2 R3 R4 R5 R6 R7 R8].
  split; try done; try (intros; by apply (R3 true)).
  exists (C false). split_and!; [intros; by apply (R3 false)|done|]. intros b p. set_solver.
Qed.

Lemma moving_step moved p rest it me t x :
  moving moved (p :: rest) it me t → me !! p = Some x →
  let b := Z.land (h (item_key lg (item x))) (hashmask (hashpower t)) in
  it = Some p ∧
  moving (moved ++ [p]) rest (h_next x) (<[p := set_h_next (primary_hashtable t !! b) x]> me)
    (set_bucket false b (Some p) t).
Proof.
  cbv zeta. intros [M1 M2 M3 M4 M5 (D & D1 & D2 & D3)] Hx.
  destruct M4 as (-> & x' & Hx' & M4). assert (x' = x) as -> by congruence.
  split; [done|]. set (b := Z.land _ _).
  pose proof (ar_nodup _ _ _ _ _ _ HR true (expand_bucket t0)) as Hnd. rewrite M1 in Hnd.
  apply list.NoDup_app in Hnd as (_ & Hnd1 & [Hnd2 _]%list.NoDup_cons).
  assert (p ∈ C true (expand_bucket t0)) as Hin by (rewrite M1; set_solver).
  assert (∀ o b', (o, b') ≠ (true, expand_bucket t0) → p ∉ C o b') as Hout.
  { intros o b' Hne Hp. apply Hne. by apply (repr_unique HR _ _ _ _ p). }
  assert (∀ b', p ∉ D b') as HD.
  { intros b'. rewrite D3. intros [Hp|[Hp _]]; [by apply (Hout false b')|].
    apply (Hnd1 p Hp). set_solver. }
  assert (new_bucket p = Some b) as Hnb.
  { unfold new_bucket. erewrite <- (key_of_hnext (me := me0) me M2). unfold key_of. rewrite Hx. cbn.
    unfold b. by destruct M3 as ((-> & _) & _). }
  split; try done.
  - rewrite M1, <- app_assoc. done.
  - eapply hnext_trans; [done|]. by apply hnext_insert.
  - by apply chain_frame.
  - intros b' Hb'. apply chain_frame; [|auto]. apply Hout. congruence.
  - exists (λ b', if bool_decide (b' = b) then p :: D b' else D b'). split_and!.
    + intros b'. pose proof (bucket_set false b (Some p) t false b') as Hb. cbn [bucket] in Hb.
      rewrite Hb. case_bool_decide as E; simplify_eq.
      * rewrite bool_decide_eq_true_2 by done. split; [done|]. eexists. rewrite lookup_insert_eq.
        split; [done|]. apply chain_frame; [apply HD|]. apply D1.
      * rewrite bool_decide_eq_false_2 by congruence. by apply chain_frame.
    + intros b'. case_bool_decide; [|done]. by apply list.NoDup_cons.
    + intros b' q.
      transitivity (q = p ∧ b' = b ∨ q ∈ D b').
      { case_bool_decide; [rewrite elem_of_cons|]; tauto. }
      rewrite D3, elem_of_app, list_elem_of_singleton. split; [|naive_solver].
      intros [[-> ->]|[?|[? ?]]]; auto.
Qed.

(** The table once the bucket is done. *)
Definition bucket_done (t : assoc) : assoc :=
  set_expand_bucket (u32 (expand_bucket t0 + 1)) (set_bucket true (expand_bucket t0) None t).

Lemma slot_done hv o b :
  slot t0 hv = (o, b) →
  ∀ t', hashpower t' = hashpower t0 → expand_bucket t' = expand_bucket t0 + 1 →
  expanding t' = true ∨ expand_bucket t0 + 1 = hashsize (hashpower t0 - 1) ∧ expanding t' = false →
  slot t' hv = if bool_decide ((o, b) = (true, expand_bucket t0))
               then (false, Z.land hv (hashmask (hashpower t0))) else (o, b).
Proof.
  intros Hs t' H1 H2 H3. pose proof (ar_power _ _ _ _ _ _ HR).
  pose proof (land_mask_range (hashpower t0 - 1) hv ltac:(lia)).
  revert Hs. unfold slot, in_old. rewrite Hexp, H1, H2. cbn.
  destruct (_ >=? expand_bucket t0) eqn:E1; rewrite Z.geb_leb in E1; reflect_bools; intros [= <- <-].
  - case_bool_decide as E; simplify_eq.
    + replace (_ && _) with false; [done|]. symmetry. apply andb_false_intro2.
      rewrite Z.geb_leb. apply Z.leb_gt. lia.
    + assert (expand_bucket t0 < Z.land hv (hashmask (hashpower t0 - 1))) by
        (assert (Z.land hv (hashmask (hashpower t0 - 1)) ≠ expand_bucket t0) by congruence; lia).
      destruct H3 as [->|[? _]]; [|lia]. rewrite Z.geb_leb. by rewrite (proj2 (Z.leb_le _ _)) by lia.
  - rewrite bool_decide_eq_false_2 by done. rewrite Z.geb_leb.
    rewrite (proj2 (Z.leb_gt _ _)) by lia. by rewrite andb_false_r.
Qed.
End move.

(** The relation after the bucket has been migrated, for the table with the
    expansion still running or just finished. *)
Lemma repr_moved h lg me0 t0 K C it me t t' :
  assoc_repr h lg me0 t0 K C → expanding t0 = true →
  moving h lg me0 t0 C (C true (expand_bucket t0)) [] it me t →
  hashpower t' = hashpower t0 → expand_bucket t' = expand_bucket t0 + 1 →
  expanding t' = true ∧ expand_bucket t0 + 1 < hashsize (hashpower t0 - 1) ∨
    expand_bucket t0 + 1 = hashsize (hashpower t0 - 1) ∧ expanding t' = false →
  hash_items t' = hash_items t0 → primary_hashtable t' = primary_hashtable t →
  (expanding t' = true → old_hashtable t' = delete (expand_bucket t0) (old_hashtable t0)) →
  ∃ C', assoc_repr h lg me t' K C'.
Proof.
  intros HR He [M1 M2 M3 M4 M5 (D & D1 & D2 & D3)] H1 H2 H3 H4 H5 H6.
  assert (∀ hv o b, slot t0 hv = (o, b) →
    slot t' hv = if bool_decide ((o, b) = (true, expand_bucket t0))
                 then (false, Z.land hv (hashmask (hashpower t0))) else (o, b)) as Hsl.
  { intros hv o b Hs. eapply slot_done; eauto. tauto. }
  pose proof HR as [R1 R2 R3 R4 R5 R6 R7 R8].
  exists (λ (o : bool) (b : Z), if o then (if bool_decide (b = expand_bucket t0) then [] else C true b) else D b).
  split; rewrite ?H1, ?H4; try done.
  - intros Ht. split; [by apply R2|]. rewrite H2. specialize (R2 He). destruct H3 as [?|[_ ?]]; [lia|congruence].
  - intros [] b Ho; cbn [bucket].
    + rewrite H6 by auto. case_bool_decide as E.
      * subst. by rewrite lookup_delete_eq.
      * rewrite lookup_delete_ne by done. auto.
    + rewrite H5. auto.
  - intros [] b; [|done]. case_bool_decide; [constructor|done].
  - intros o b p.
    assert (∀ k, K !! k = Some p → new_bucket h lg me0 t0 p = Some (Z.land (h k) (hashmask (hashpower t0)))) as Hnb.
    { intros k Hk. unfold new_bucket. by rewrite (R6 _ _ Hk). }
    assert ((∃ k, K !! k = Some p ∧ slot t' (h k) = (o, b)) ↔
      (p ∈ C o b ∧ (o, b) ≠ (true, expand_bucket t0)) ∨
      (o = false ∧ p ∈ C true (expand_bucket t0) ∧ new_bucket h lg me0 t0 p = Some b)) as ->.
    { rewrite !R5. split.
      - intros (k & Hk & Hs). destruct (slot t0 (h k)) as [o0 b0] eqn:E0.
        rewrite (Hsl _ _ _ E0) in Hs. case_bool_decide as E; simplify_eq.
        + right. split; [done|]. split; [eauto|]. by apply Hnb.
        + left. eauto.
      - intros [[(k & Hk & Hs) Hne]|(-> & (k & Hk & Hs) & Hb)]; exists k; (split; [done|]);
          rewrite (Hsl _ _ _ Hs).
        + by rewrite bool_decide_eq_false_2.
        + rewrite bool_decide_eq_true_2 by done. rewrite (Hnb _ Hk) in Hb. congruence. }
    destruct o.
    + case_bool_decide; [subst; set_solver|]. split; [|naive_solver]. intros Hp. left. split; congruence.
    + rewrite D3. naive_solver.
  - intros k p Hk. rewrite (key_of_hnext _ M2). by apply R6.
  - apply (f_equal size) in M2. rewrite !map_size_fmap in M2. by rewrite M2.
Qed.

Lemma move_loop s K C :
  assoc_repr (hash (cfg s)) (log s) (meta s) (tab s) K C → expanding (tab s) = true →
  wp (loop FUEL move_body (old_hashtable (tab s) !! expand_bucket (tab s))) s (λ _ s',
    ∃ me t it, s' = set_tab t (set_meta me s) ∧
      moving (hash (cfg s)) (log s) (meta s) (tab s) C (C true (expand_bucket (tab s))) [] it me t).
Proof.
  intros HR He. set (e := expand_bucket (tab s)).
  assert (Z.of_nat (length (C true e)) < 2 ^ 32) as Hlen.
  { pose proof (chain_length _ _ _ (ar_chain _ _ _ _ _ _ HR true e ltac:(auto)) (ar_nodup _ _ _ _ _ _ HR true e)).
    pose proof (ar_heap _ _ _ _ _ _ HR). lia. }
  apply (loop_rule _ _ (λ k it s', ∃ me t moved rest, s' = set_tab t (set_meta me s) ∧
    k = Z.of_nat (length rest) + 1 ∧ moving (hash (cfg s)) (log s) (meta s) (tab s) C moved rest it me t)
    _ (Z.of_nat (length (C true e)) + 1)); [| |change (2 ^ Z.of_nat FUEL) with (2 ^ 64); lia].
  - intros k it s' (me & t & moved & rest & -> & -> & Hm). destruct rest as [|p rest].
    + pose proof (mv_rest _ _ _ _ _ _ _ _ _ _ Hm) as Hc. cbn in Hc. subst it. cbn [move_body]. wp_steps.
      exists me, t, None. split; [done|].
      pose proof (mv_split _ _ _ _ _ _ _ _ _ _ Hm) as Hsp. rewrite app_nil_r in Hsp. unfold e; by rewrite Hsp.
    + pose proof (mv_rest _ _ _ _ _ _ _ _ _ _ Hm) as (-> & x & Hx & _).
      destruct (moving_step _ _ _ _ K C HR He moved p rest (Some p) me t x Hm Hx) as [_ Hm'].
      cbn [move_body]. wp_steps.
      exists (Z.of_nat (length rest) + 1). cbn [length]. split; [lia|].
      eexists _, _, _, _. split; [|split; [reflexivity|exact Hm']].
      by destruct s.
  - exists (meta s), (tab s), [], (C true e). split; [by destruct s|]. split; [done|].
    by apply (moving_start _ _ _ _ K).
Qed.

Lemma move_bucket_spec s K :
  represents s K → expanding (tab s) = true →
  wp move_bucket s (λ _ s', represents s' K ∧ table_only s s' ∧
    hashpower (tab s') = hashpower (tab s) ∧
    (expanding (tab s') = false ∨ expanding (tab s') = true ∧ expand_bucket (tab s') = expand_bucket (tab s) + 1)).
Proof.
  intros [C HR] He. unfold move_bucket. do 2 wp_step. wp_step.
  eapply wp_mono; [|by apply (move_loop s K C)]. intros _ s' (me & t & it & -> & Hm).
  pose proof (mv_shape _ _ _ _ _ _ _ _ _ _ Hm) as ((T1 & T2 & T3) & T4 & T5).
  pose proof (mv_hnext _ _ _ _ _ _ _ _ _ _ Hm) as Hme.
  pose proof (ar_expand _ _ _ _ _ _ HR He) as [Hp Hb]. pose proof (ar_power _ _ _ _ _ _ HR).
  pose proof (hashsize_lt (hashpower (tab s) - 1) ltac:(lia)).
  wp_steps. cbn [tab set_tab set_meta hashpower expand_bucket set_bucket set_old_hashtable set_expand_bucket].
  rewrite T1, T3. rewrite (u32_small (expand_bucket (tab s) + 1)) by lia.
  destruct (_ =? _) eqn:E; reflect_bools; wp_steps.
  - split; [|split; [by split|split; [done|by left]]].
    eapply (repr_moved _ _ _ _ _ _ _ _ _ _ HR He Hm); cbn; try done.
    right. by rewrite E.
  - split; [|split; [by split|split; [done|]]].
    + eapply (repr_moved _ _ _ _ _ _ _ _ _ _ HR He Hm); cbn; try done.
      * left. split; [congruence|lia].
      * intros _. by rewrite T5.
    + right. cbn. split; [congruence|done].
Qed.

(** *** The maintenance thread *)
Lemma move_buckets_spec locks s K :
  represents s K →
  wp (move_buckets locks) s (λ _ s', represents s' K ∧ table_only s s' ∧
    hashpower (tab s') = hashpower (tab s) ∧ (expanding (tab s) = false → s' = s)).
Proof.
  revert s. induction locks as [|ok locks IH]; intros s Hr; cbn [move_buckets]; wp_steps.
  - by split_and!; [|split|..].
  - destruct (expanding (tab s)) eqn:He; [|by wp_steps; split_and!; [|split|..]].
    wp_step. assert (wp (if ok then move_bucket else mret tt) s (λ _ s', represents s' K ∧
      table_only s s' ∧ hashpower (tab s') = hashpower (tab s))) as Hmv.
    { destruct ok; [|by wp_steps; split_and!; [|split|]].
      eapply wp_mono; [|by apply (move_bucket_spec s K)]. naive_solver. }
    eapply wp_mono; [|exact Hmv]. intros _ s1 (Hr1 & Ht1 & Hp1).
    eapply wp_mono; [|exact (IH s1 Hr1)]. intros _ s2 (Hr2 & Ht2 & Hp2 & _).
    split; [done|]. split; [by eapply table_only_trans|]. split; [congruence|done].
Qed.

Lemma maintenance_turn_spec locks wake ok s K :
  represents s K → hashpower (tab s) < 31 →
  wp (maintenance_turn locks wake ok) s (λ _ s', represents s' K ∧ table_only s s').
Proof.
  intros Hr Hp. unfold maintenance_turn. wp_step.
  eapply wp_mono; [|by apply (move_buckets_spec locks s K)]. intros _ s1 (Hr1 & Ht1 & Hp1 & _).
  wp_steps. destruct (expanding (tab s1)) eqn:He; wp_steps; [done|].
  set (s2 := set_tab _ s1).
  assert (represents s2 K) as Hr2.
  { destruct Hr1 as [C HR]. exists C. eapply repr_ext; [..|exact HR]; [done|by intros [] b|apply HR]. }
  assert (table_only s s2) as Ht2 by (eapply table_only_trans; [exact Ht1|by split]).
  destruct wake; [|by wp_steps]. eapply wp_mono; [|apply (assoc_expand_spec s2 K ok); [done|done|]].
  - intros _ s3 (Hr3 & Ht3 & _). split; [done|]. by eapply table_only_trans.
  - cbn. lia.
Qed.

(** ** The contract of the table *)
(** What the item layer relies on: lookups return the bound pointer, insertion
    of a new key and removal of a bound one act as on a finite map, and nothing
    besides the table and the chain links changes. *)
Class KeyTable (find : list Z → Z → server (option Z)) (insert : Z → Z → server Z)
    (remove : list Z → Z → server unit) (rep : cache → gmap (list Z) Z → Prop) := {
  kt_find s K key : rep s K → Forall is_byte key →
    find key (hash (cfg s) key) s = Ok (K !! key, s);
  kt_insert s K key p x : rep s K → meta s !! p = Some x →
    item_key (log s) (item x) = key → K !! key = None →
    wp (insert p (hash (cfg s) key)) s (λ r s', r = 1 ∧ rep s' (<[key := p]> K) ∧
      table_only s s' ∧ cnt s' = cnt s ∧ ∃ v, meta s' = <[p := set_h_next v x]> (meta s));
  kt_remove s K key : rep s K → Forall is_byte key → is_Some (K !! key) →
    wp (remove key (hash (cfg s) key)) s (λ _ s', rep s' (delete key K) ∧
      table_only s s' ∧ cnt s' = cnt s ∧ ∀ q, (∀ k, K !! k ≠ Some q) → meta s' !! q = meta s !! q)
}.
#[export] Instance assoc_key_table : KeyTable assoc_find assoc_insert assoc_delete represents :=
  {| kt_find := assoc_find_spec; kt_insert := assoc_insert_spec; kt_remove := assoc_delete_spec |}.

(** C12: [assoc_find] computes the lookup of the finite map the table represents,
    also half-way through an expansion, and changes nothing. *)
Theorem assoc_find_refines (s : cache) (K : gmap (list Z) Z) (key : list Z)
    (Hrep : represents s K) (Hkey : Forall is_byte key) :
  assoc_find key (hash (cfg s) key) s = Ok (K !! key, s).
Proof. exact (assoc_find_spec s K key Hrep Hkey). Qed.

(** C13: [assoc_insert] of an item whose key is absent adds exactly that binding
    to the represented map, and writes nothing but the hash table's own state and
    the chain link of that one item: every other item's metadata, the log, the
    counters, the settings and the clock are the same. *)
Theorem assoc_insert_refines (s : cache) (K : gmap (list Z) Z) (p : Z) (x : item_metadata)
    (Hrep : represents s K) (Hx : meta s !! p = Some x)
    (Hnew : K !! item_key (log s) (item x) = None) :
  ∃ s', assoc_insert p (hash (cfg s) (item_key (log s) (item x))) s = Ok (1, s') ∧
    represents s' (<[item_key (log s) (item x) := p]> K) ∧ table_only s s' ∧
    ∃ t v, s' = set_tab t (set_meta (<[p := set_h_next v x]> (meta s)) s).
Proof.
  destruct (assoc_insert_spec s K _ p x Hrep Hx eq_refl Hnew) as (r & s' & He & -> & ? & ? & _).
  destruct (assoc_insert_writes s p x (hash (cfg s) (item_key (log s) (item x))) Hx) as (r & s1 & He1 & H1).
  rewrite He in He1. injection He1 as <- <-. eauto 10.
Qed.

(** C14: [assoc_delete] removes exactly the binding of the key when there is one
    and fails its assertion when there is none. *)
Theorem assoc_delete_refines (s : cache) (K : gmap (list Z) Z) (key : list Z)
    (Hrep : represents s K) (Hkey : Forall is_byte key) :
  match K !! key with
  | Some _ => ∃ s', assoc_delete key (hash (cfg s) key) s = Ok (tt, s') ∧
      represents s' (delete key K) ∧ table_only s s'
  | None => assoc_delete key (hash (cfg s) key) s = Fault AssertFailed
  end.
Proof.
  destruct (K !! key) eqn:HK.
  - destruct (assoc_delete_spec s K key Hrep Hkey ltac:(eauto)) as ([] & s' & He & ? & ? & _). eauto.
  - by apply (assoc_delete_missing s K).
Qed.

(** C15: a turn of the maintenance thread - any number of bucket migrations, with
    any outcome of the bucket locks, and possibly the start of the next
    expansion - terminates and leaves the represented map as it is. *)
Theorem maintenance_refines (locks : list bool) (wake calloc_ok : bool) (s : cache)
    (K : gmap (list Z) Z) (Hrep : represents s K) (Hpow : hashpower (tab s) < 31) :
  ∃ s', maintenance_turn locks wake calloc_ok s = Ok (tt, s') ∧ represents s' K ∧ table_only s s'.
Proof.
  destruct (maintenance_turn_spec locks wake calloc_ok s K Hrep Hpow) as ([] & s' & He & ? & ?). eauto.
Qed.

(** *** Witnesses: a table of two keys in one chain, half-way through an
    expansion *)
Lemma represents_empty h m power me lg :
  0 < power < 32 → Z.of_nat (size me) < 2 ^ 32 →
  represents (set_log lg (set_meta me (set_tab (empty_table power) (initial_cache h m)))) ∅.
Proof.
  intros Hp Hsz. exists (λ _ _, []). split; try done; cbn; try (intros; by constructor).
  - intros [] b _; cbn; by rewrite lookup_empty.
  - intros o b p. split; [by intros ?%elem_of_nil|]. intros (k & Hk & _). by rewrite lookup_empty in Hk.
Qed.

(** An item with the one-byte key [a] at offset 0, with metadata in slot 7. *)
Definition one_item_log : memory := store_bytes (set_nkey 0 1 ∅) 16 (str "a").
Definition one_item_meta : gmap Z item_metadata := {[ 7 := set_item 0 zero_meta ]}.
Definition one_item_base (h : list Z → Z) : cache :=
  set_log one_item_log (set_meta one_item_meta (set_tab (empty_table 16) (initial_cache h fresh_log))).
Definition one_item (h : list Z → Z) : cache := final (assoc_insert 7 (h (str "a"))) (one_item_base h).
Definition one_item_expanding (h : list Z → Z) : cache := final (assoc_expand true) (one_item h).

Lemma one_item_key : item_key one_item_log 0 = str "a".
Proof. vm_compute. reflexivity. Qed.
Lemma one_item_base_represents h : represents (one_item_base h) ∅.
Proof. apply represents_empty; [lia|]. vm_compute. reflexivity. Qed.
Lemma one_item_represents h : represents (one_item h) {[ str "a" := 7 ]}.
Proof.
  pose proof (assoc_insert_spec (one_item_base h) ∅ (str "a") 7 _
    (one_item_base_represents h) eq_refl one_item_key eq_refl) as Hw.
  apply wp_final in Hw as (r & _ & Hr & _). exact Hr.
Qed.
Lemma one_item_expanding_represents h : represents (one_item_expanding h) {[ str "a" := 7 ]}.
Proof.
  pose proof (assoc_expand_spec (one_item h) {[ str "a" := 7 ]} true
    (one_item_represents h) eq_refl eq_refl) as Hw.
  apply wp_final in Hw as (r & Hr & _). exact Hr.
Qed.

Lemma assoc_find_refines_witness :
  assoc_find (str "a") 5 (one_item_expanding (λ _, 5)) = Ok (Some 7, one_item_expanding (λ _, 5)).
Proof.
  exact (assoc_find_refines (one_item_expanding (λ _, 5)) {[ str "a" := 7 ]} (str "a")
    (one_item_expanding_represents _) (str_bytes _)).
Defined.
Lemma assoc_insert_refines_witness :
  ∃ s', assoc_insert 7 5 (one_item_base (λ _, 5)) = Ok (1, s') ∧
    represents s' (<[item_key one_item_log 0 := 7]> ∅) ∧ table_only (one_item_base (λ _, 5)) s' ∧
    ∃ t v, s' = set_tab t (set_meta (<[7 := set_h_next v (set_item 0 zero_meta)]>
      (meta (one_item_base (λ _, 5)))) (one_item_base (λ _, 5))).
Proof.
  exact (assoc_insert_refines (one_item_base (λ _, 5)) ∅ 7 (set_item 0 zero_meta)
    (one_item_base_represents _) eq_refl eq_refl).
Defined.
Lemma assoc_delete_refines_witness :
  ∃ s', assoc_delete (str "a") 5 (one_item_expanding (λ _, 5)) = Ok (tt, s') ∧
    represents s' (delete (str "a") {[ str "a" := 7 ]}) ∧ table_only (one_item_expanding (λ _, 5)) s'.
Proof.
  exact (assoc_delete_refines (one_item_expanding (λ _, 5)) {[ str "a" := 7 ]} (str "a")
    (one_item_expanding_represents _) (str_bytes _)).
Defined.
Lemma maintenance_refines_witness :
  ∃ s', maintenance_turn [true; false; true] true true (one_item_expanding (λ _, 5)) = Ok (tt, s') ∧
    represents s' {[ str "a" := 7 ]} ∧ table_only (one_item_expanding (λ _, 5)) s'.
Proof.
  exact (maintenance_refines [true; false; true] true true (one_item_expanding (λ _, 5))
    {[ str "a" := 7 ]} (one_item_expanding_represents _) eq_refl).
Defined.
