(* ===== verification/Items.v ===== *)
(** * items.c and the item access layer of thread.c

    The freelist of metadata slots, allocation of items in the log, linking
    and unlinking, reference counts, lookups with lazy expiration, and the
    size histogram.  The item locks serialise the operations on a key; an
    operation here is the critical section.  What is written to stderr at
    high verbosity and the lines sent to the logger are left out. *)
From Stdlib Require Import ZArith Lia.
From stdpp Require Import prelude gmap list functions.
From S2P Require Import Prelude Mem Util Item State Memlog Assoc.

Inductive store_item_type : Set := NOT_STORED | STORED | EXISTS | NOT_FOUND | TOO_LARGE | NO_MEMORY.
#[global] Instance store_item_type_eq_dec : EqDecision store_item_type.
Proof. solve_decision. Defined.

Definition ITEM_UPDATE_INTERVAL : Z := 60.
Definition SIZEOF_item_metadata : Z := 48.

(** ** The freelist *)
(** One turn of the loop of [freelist_init], for slot [x]. *)
Definition freelist_init_step (x : Z) : server unit :=
  _ ← upd_meta x (set_it_flags ITEM_SLABBED);
  _ ← upd_meta x (set_slabs_clsid 0);
  _ ← upd_meta x (set_get_count 0);
  _ ← (if x =? 0 then
         _ ← upd_meta x (set_prev_free None);
         upd_meta x (set_next_free None)
       else
         _ ← upd_meta x (set_prev_free None);
         _ ← upd_meta x (set_next_free (Some (x - 1)));
         upd_meta (x - 1) (set_prev_free (Some x)));
  modify (set_first_free (Some x)).

(** [malloc] and [memset] of the chunk: [n] zeroed slots. *)
Fixpoint zeroed_slots (n : nat) : gmap Z item_metadata :=
  match n with
  | O => ∅
  | S n => <[Z.of_nat n := zero_meta]> (zeroed_slots n)
  end.
Fixpoint freelist_init_loop (x : Z) (n : nat) : server unit :=
  match n with
  | O => mret tt
  | S n => _ ← freelist_init_step x; freelist_init_loop (x + 1) n
  end.
Definition freelist_init (limit : Z) (malloc_ok : bool) : server unit :=
  if malloc_ok then
    let n := Z.to_nat (limit / SIZEOF_item_metadata) in
    _ ← modify (set_meta (zeroed_slots n));
    freelist_init_loop 0 n
  else fail (Exited 1).

Definition do_freelist_alloc : server (option Z) :=
  ff ← gets first_free;
  match ff with
  | None => mret None
  | Some it =>
      x ← get_meta it;
      _ ← modify (set_first_free (next_free x));
      _ ← match next_free x with
          | Some nx => upd_meta nx (set_prev_free None)
          | None => mret tt
          end;
      _ ← upd_meta it (λ x, set_it_flags (flag_clear (it_flags x) ITEM_SLABBED) x);
      _ ← upd_meta it (set_refcount 1);
      _ ← upd_meta it (set_slabs_clsid 1);
      _ ← upd_meta it (set_get_count 0);
      mret (Some it)
  end.
(** Under [freelist_lock]. *)
Definition freelist_alloc : server (option Z) := do_freelist_alloc.

Definition do_freelist_free (it : Z) : server unit :=
  _ ← upd_meta it (set_it_flags ITEM_SLABBED);
  _ ← upd_meta it (set_slabs_clsid 0);
  _ ← upd_meta it (set_prev_free None);
  ff ← gets first_free;
  _ ← upd_meta it (set_next_free ff);
  _ ← match ff with
      | Some nx => upd_meta nx (set_prev_free (Some it))
      | None => mret tt
      end;
  modify (set_first_free (Some it)).
(** Under [freelist_lock]; the size and the class are only traced. *)
Definition freelist_free (it : Z) : server unit := do_freelist_free it.

(** ** Counters of the item layer *)
Definition item_stats_reset : server unit := upd_cnt (set_itemstats (λ _ _, 0)).
Definition do_item_stats_add_crawl (i reclaimed_ unfetched_ checked_ : Z) : server unit :=
  _ ← itemstat_add i crawler_reclaimed reclaimed_;
  _ ← itemstat_add i expired_unfetched unfetched_;
  itemstat_add i crawler_items_checked checked_.

Definition get_cas_id : server Z :=
  _ ← modify (λ s, set_cas_id (u64 (cas_id s + 1)) s);
  gets cas_id.

(** [item_is_flushed(it)] *)
Definition item_flushed (s : cache) (x : item_metadata) : bool :=
  let oldest_live := oldest_live (cfg s) in
  let cas := ITEM_get_cas (log s) (item x) in
  let oldest_cas := oldest_cas (cfg s) in
  if (oldest_live =? 0) || (oldest_live >? current_time s) then false
  else (time x <=? oldest_live) ||
       (negb (oldest_cas =? 0) && negb (cas =? 0) && (cas <? oldest_cas)).
Definition item_is_flushed (it : Z) : server bool :=
  x ← get_meta it; gets (λ s : cache, item_flushed s x).

(** ** Allocation *)
(** One attempt of the retry loop: no memory, a tombstone (written and done)
    or a block with its metadata. *)
Inductive attempt := NoMemory | Tombstone | Allocated (it : Z).

(** The tombstone of a deletion: key, suffix and length, no value, no CAS. *)
Definition write_tombstone (d : Z) (key : memory → list Z) (nk nb ns : Z) (suffix : list Z)
    (m : memory) : memory :=
  let m := data_flags_or d ITEM_DELETED m in
  let m := set_nkey d nk m in
  let m := set_nbytes d nb m in
  let m := store_bytes m (ITEM_key m d) (key m) in
  let m := store_bytes m (ITEM_suffix m d) (take (Z.to_nat ns) suffix) in
  let m := set_nsuffix d ns m in
  let m := data_flags_clear d ITEM_DIRTY m in
  data_flags_or d ITEM_STORED m.

(** The header of an ordinary item; the value is filled in later. *)
Definition write_header (d : Z) (key : memory → list Z) (nk et nb ns : Z) (suffix : list Z)
    (cas : bool) (m : memory) : memory :=
  let m := data_flags_or d (if cas then ITEM_CAS else 0) m in
  let m := data_flags_or d ITEM_DIRTY m in
  let m := set_nkey d nk m in
  let m := set_nbytes d nb m in
  let m := store_bytes m (ITEM_key m d) (key m) in
  let m := set_exptime d et m in
  let m := store_bytes m (ITEM_suffix m d) (take (Z.to_nat ns) suffix) in
  set_nsuffix d ns m.

Definition alloc_attempt (key : memory → list Z) (nk flags nb ntotal ns : Z) (suffix : list Z) :
    server attempt :=
  r ← memlog_alloc ntotal;
  match r with
  | None => mret NoMemory
  | Some (d, _) =>
      if has flags ITEM_DELETED then
        _ ← upd_log (write_tombstone d key nk nb ns suffix);
        mret Tombstone
      else
        it ← freelist_alloc;
        match it with
        | None => fail AssertFailed
        | Some it => _ ← upd_meta it (set_item d); mret (Allocated it)
        end
  end.

(** At most [n] more attempts, after [i] failed ones. *)
Fixpoint alloc_attempts (n : nat) (i : Z) (a : server attempt) : server (attempt * Z) :=
  match n with
  | O => mret (NoMemory, i)
  | S n =>
      r ← a;
      match r with
      | NoMemory => alloc_attempts n (i + 1) a
      | _ => mret (r, i)
      end
  end.

Definition item_ntotal (nk flags nb : Z) (cas : bool) : Z :=
  let '(hdr, _, _) := item_make_header (nk + 1) flags nb in
  u64 (hdr + if cas then 8 else 0).

(** Returns the item and [*succeed].  [key] reads the key where the caller
    has it: in its own buffer, or in the log. *)
Definition do_item_alloc (key : memory → list Z) (nk flags et nb : Z) :
    server (option Z * bool) :=
  let '(_, suffix, ns) := item_make_header (nk + 1) flags nb in
  cas ← gets (λ s : cache, use_cas (cfg s));
  let ntotal := item_ntotal nk flags nb cas in
  let id := 1 in
  '(r, i) ← alloc_attempts 3 0 (alloc_attempt key nk flags nb ntotal ns suffix);
  match r with
  | Tombstone => mret (None, true)
  | NoMemory =>
      _ ← when (i >? 0) (itemstat_add id direct_reclaims i);
      _ ← itemstat_add id outofmemory 1;
      mret (None, false)
  | Allocated it =>
      _ ← when (i >? 0) (itemstat_add id direct_reclaims i);
      _ ← upd_meta it (λ x, set_next_free None (set_prev_free None x));
      _ ← upd_meta it (set_slabs_clsid id);
      _ ← upd_meta it (λ x, set_it_flags (flag_or (it_flags x) (if cas then ITEM_CAS else 0)) x);
      x ← get_meta it;
      _ ← upd_log (write_header (item x) key nk et nb ns suffix cas);
      _ ← upd_meta it (set_h_next None);
      mret (Some it, true)
  end.

(** [item_alloc]: the client's flags as an int converted back to unsigned *)
Definition item_alloc (key : list Z) (flags et nb : Z) : server (option Z) :=
  '(it, _) ← do_item_alloc (λ _, key) (Z.of_nat (length key)) (u32 flags) et nb;
  mret it.

Definition item_free (it : Z) : server unit :=
  x ← get_meta it;
  _ ← assert_ (negb (has (it_flags x) ITEM_LINKED));
  _ ← assert_ (refcount x =? 0);
  freelist_free it.

Definition freelist_clsid (size : Z) : Z := if size =? 0 then 0 else 1.
Definition item_size_ok (s : cache) (nk flags nb : Z) : bool :=
  negb (freelist_clsid (item_ntotal nk flags nb (use_cas (cfg s))) =? 0).

(** ** The size histogram *)
Definition hist_bucket (lg : memory) (d : Z) : Z :=
  let ntotal := i32 (ITEM_ntotal lg d) in
  let b := Z.quot ntotal 32 in
  if negb (Z.rem ntotal 32 =? 0) then b + 1 else b.
Definition item_stats_sizes_bump (delta : Z) (it : Z) : server unit :=
  x ← get_meta it;
  lg ← gets log;
  c ← gets cnt;
  match stats_sizes_hist c with
  | None => mret tt
  | Some h =>
      if stats_sizes_cas_min c >? ITEM_get_cas lg (item x) then mret tt
      else
        let b := hist_bucket lg (item x) in
        when (b <? stats_sizes_buckets c)
          (upd_cnt (set_stats_sizes_hist (Some (<[b := u32 (h b + delta)]> h))))
  end.
Definition item_stats_sizes_add (it : Z) : server unit := item_stats_sizes_bump 1 it.
Definition item_stats_sizes_remove (it : Z) : server unit := item_stats_sizes_bump (-1) it.

Definition item_stats_sizes_status (s : cache) : bool :=
  match stats_sizes_hist (cnt s) with Some _ => true | None => false end.
Definition item_stats_sizes_init (calloc_ok : bool) : server unit :=
  c ← gets cnt;
  match stats_sizes_hist c with
  | Some _ => mret tt
  | None =>
      cf ← gets cfg;
      _ ← upd_cnt (set_stats_sizes_buckets (item_size_max cf / 32 + 1));
      _ ← upd_cnt (set_stats_sizes_hist (if calloc_ok then Some (λ _, 0) else None));
      id ← (if use_cas cf then get_cas_id else (mret 0 : server Z));
      upd_cnt (set_stats_sizes_cas_min id)
  end.

(** ** Linking *)
Definition refcount_incr (it : Z) : server Z :=
  _ ← upd_meta it (λ x, set_refcount (u16 (refcount x + 1)) x);
  x ← get_meta it; mret (refcount x).
Definition refcount_decr (it : Z) : server Z :=
  _ ← upd_meta it (λ x, set_refcount (u16 (refcount x - 1)) x);
  x ← get_meta it; mret (refcount x).

Definition do_item_link_q (it : Z) : server unit :=
  x ← get_meta it;
  _ ← assert_ (negb (has (it_flags x) ITEM_SLABBED));
  lg ← gets log;
  let i := slabs_clsid x in
  _ ← upd_cnt (λ c, set_sizes (<[i := u32 (sizes c i + 1)]> (sizes c)) c);
  upd_cnt (λ c, set_sizes_bytes
    (<[i := u64 (sizes_bytes c i + nbytes lg (item x))]> (sizes_bytes c)) c).
Definition do_item_unlink_q (it : Z) : server unit :=
  x ← get_meta it;
  lg ← gets log;
  let i := slabs_clsid x in
  _ ← upd_cnt (λ c, set_sizes (<[i := u32 (sizes c i - 1)]> (sizes c)) c);
  upd_cnt (λ c, set_sizes_bytes
    (<[i := u64 (sizes_bytes c i - nbytes lg (item x))]> (sizes_bytes c)) c).

(** [ITEM_set_cas(it->item, settings.use_cas ? get_cas_id() : 0)]: the macro
    evaluates its argument only for items with a CAS field. *)
Definition assign_cas (d : Z) : server unit :=
  lg ← gets log;
  if has (it_data_flags lg d) ITEM_CAS then
    cas ← gets (λ s : cache, use_cas (cfg s));
    v ← (if (cas : bool) then get_cas_id else (mret 0 : server Z));
    upd_log (ITEM_set_cas d v)
  else mret tt.

Definition do_item_link (it hv : Z) : server Z :=
  x ← get_meta it;
  _ ← assert_ (negb (has (it_flags x) (Z.lor ITEM_LINKED ITEM_SLABBED)));
  _ ← upd_meta it (λ x, set_it_flags (flag_or (it_flags x) ITEM_LINKED) x);
  now ← gets current_time;
  _ ← upd_meta it (set_time now);
  lg ← gets log;
  _ ← state_add curr_bytes (ITEM_ntotal lg (item x));
  _ ← state_add curr_items 1;
  _ ← stats_add total_items 1;
  _ ← assign_cas (item x);
  _ ← assoc_insert it hv;
  _ ← do_item_link_q it;
  _ ← refcount_incr it;
  _ ← item_stats_sizes_add it;
  mret 1.

Definition do_item_remove (it : Z) : server unit :=
  x ← get_meta it;
  _ ← assert_ (negb (has (it_flags x) ITEM_SLABBED));
  _ ← assert_ (refcount x >? 0);
  n ← refcount_decr it;
  if n =? 0 then item_free it else mret tt.

Definition do_item_unlink (it hv : Z) : server unit :=
  x ← get_meta it;
  if has (it_flags x) ITEM_LINKED then
    _ ← upd_meta it (λ x, set_it_flags (flag_clear (it_flags x) ITEM_LINKED) x);
    lg ← gets log;
    _ ← state_add curr_bytes (- ITEM_ntotal lg (item x));
    _ ← state_add curr_items (-1);
    _ ← item_stats_sizes_remove it;
    _ ← assoc_delete (item_key lg (item x)) hv;
    _ ← do_item_unlink_q it;
    do_item_remove it
  else mret tt.

(** The same text again in the source, for the maintainer. *)
Definition do_item_unlink_nolock (it hv : Z) : server unit :=
  x ← get_meta it;
  if has (it_flags x) ITEM_LINKED then
    _ ← upd_meta it (λ x, set_it_flags (flag_clear (it_flags x) ITEM_LINKED) x);
    lg ← gets log;
    _ ← state_add curr_bytes (- ITEM_ntotal lg (item x));
    _ ← state_add curr_items (-1);
    _ ← item_stats_sizes_remove it;
    _ ← assoc_delete (item_key lg (item x)) hv;
    _ ← do_item_unlink_q it;
    do_item_remove it
  else mret tt.

(** [it->time < current_time - ITEM_UPDATE_INTERVAL], on unsigned times *)
Definition needs_update (now t : Z) : bool := t <? u32 (now - ITEM_UPDATE_INTERVAL).

Definition do_item_update_nolock (it : Z) : server unit :=
  x ← get_meta it;
  now ← gets current_time;
  if needs_update now (time x) then
    _ ← assert_ (negb (has (it_flags x) ITEM_SLABBED));
    if has (it_flags x) ITEM_LINKED then
      _ ← do_item_unlink_q it;
      _ ← upd_meta it (set_time now);
      do_item_link_q it
    else mret tt
  else mret tt.

Definition do_item_replace (it new_it hv : Z) : server Z :=
  x ← get_meta it;
  _ ← assert_ (negb (has (it_flags x) ITEM_SLABBED));
  _ ← do_item_unlink it hv;
  do_item_link new_it hv.
Definition item_replace (old_it new_it hv : Z) : server Z := do_item_replace old_it new_it hv.

(** ** Lookups *)
(** Unlink a dead item found by a lookup and release the reference. *)
Definition nuke (it hv : Z) (k : thread_field) : server (option Z) :=
  _ ← do_item_unlink it hv;
  _ ← do_item_remove it;
  _ ← thread_add k 1;
  mret None.

Definition do_item_get (key : list Z) (hv : Z) : server (option Z) :=
  it ← assoc_find key hv;
  match it with
  | None => mret None
  | Some it =>
      _ ← refcount_incr it;
      flushed ← item_is_flushed it;
      x ← get_meta it;
      s ← gets id;
      let et := exptime (log s) (item x) in
      if (flushed : bool) then nuke it hv get_flushed
      else if negb (et =? 0) && (et <=? current_time s) then nuke it hv get_expired
      else mret (Some it)
  end.

(** [(uint32_t) strtoul(ITEM_suffix(it), NULL, 10)]: the client flags, read back
    from the suffix *)
Definition suffix_flags (lg : memory) (d : Z) : Z :=
  u32 (strtoul_value (cstring lg (ITEM_suffix lg d))).

(** Allocate a copy of [old] with key length [nk] and the given expiry. *)
Definition clone_item (old nk et : Z) : server (option Z) :=
  x ← get_meta old;
  lg ← gets log;
  let d := item x in
  '(new_it, _) ← do_item_alloc (λ m, load_bytes m (ITEM_key lg d) (Z.to_nat nk)) nk
                  (suffix_flags lg d) et (nbytes lg d);
  match new_it with
  | None => mret None
  | Some n =>
      y ← get_meta n;
      _ ← upd_log (λ m, store_bytes m (ITEM_data m (item y))
            (load_bytes m (ITEM_data m d) (Z.to_nat (nbytes m d))));
      mret (Some n)
  end.

(** [asm volatile("": : :"memory"); flags &= ~ITEM_DIRTY; flags |= ITEM_STORED] *)
Definition publish (it : Z) : server unit :=
  x ← get_meta it;
  _ ← upd_log (data_flags_clear (item x) ITEM_DIRTY);
  upd_log (data_flags_or (item x) ITEM_STORED).

(** Returns the new item and, when it was stored, the value of [c->cas]. *)
Definition do_item_touch (key : list Z) (et hv : Z) : server (option Z * option Z) :=
  old_it ← do_item_get key hv;
  match old_it with
  | None => mret (None, None)
  | Some old =>
      new_it ← clone_item old (Z.of_nat (length key)) et;
      match new_it with
      | None => _ ← do_item_remove old; mret (None, None)
      | Some it =>
          _ ← item_replace old it hv;
          x ← get_meta it;
          cas ← gets (λ s : cache, ITEM_get_cas (log s) (item x));
          _ ← do_item_remove old;
          _ ← do_item_remove it;
          _ ← publish it;
          mret (Some it, Some cas)
      end
  end.

(** Returns the new item and [*stored_state]. *)
Definition do_item_get_update (old hv : Z) : server (option Z * store_item_type) :=
  x ← get_meta old;
  lg ← gets log;
  new_it ← clone_item old (nkey lg (item x)) (exptime lg (item x));
  match new_it with
  | None => _ ← do_item_remove old; mret (None, NOT_STORED)
  | Some it =>
      _ ← item_replace old it hv;
      _ ← do_item_remove old;
      _ ← do_item_remove it;
      mret (Some it, STORED)
  end.

(** Hash of the key stored in an item. *)
Definition item_hv (it : Z) : server Z :=
  x ← get_meta it;
  gets (λ s : cache, hash (cfg s) (item_key (log s) (item x))).

(** [item_get_update]: called with the item lock held. *)
Definition item_get_update (it : Z) : server (option Z * store_item_type) :=
  hv ← item_hv it;
  do_item_get_update it hv.

(** Returns the new item, if a copy was made, and [*stored_state], if written. *)
Definition do_item_update (it : Z) : server (option Z * option store_item_type) :=
  x ← get_meta it;
  now ← gets current_time;
  if needs_update now (time x) then
    _ ← assert_ (negb (has (it_flags x) ITEM_SLABBED));
    if has (it_flags x) ITEM_LINKED then
      _ ← upd_meta it (set_time now);
      cf ← gets cfg;
      if lru_log_enabled cf then
        if get_count x >=? lru_log_get_count cf then
          '(new_it, st) ← item_get_update it;
          _ ← match new_it with
              | Some n => upd_meta n (set_get_count 0)
              | None => mret tt
              end;
          mret (new_it, Some st)
        else
          _ ← upd_meta it (λ x, set_get_count (u32 (get_count x + 1)) x);
          mret (None, None)
      else mret (None, None)
    else mret (None, None)
  else mret (None, None).

(** ** Item access of thread.c: hash the key, lock, operate *)
Definition item_get (key : list Z) : server (option Z) :=
  hv ← gets (λ s : cache, hash (cfg s) key);
  do_item_get key hv.
Definition item_touch (key : list Z) (et : Z) : server (option Z * option Z) :=
  hv ← gets (λ s : cache, hash (cfg s) key);
  do_item_touch key et hv.
Definition item_link (it : Z) : server Z := hv ← item_hv it; do_item_link it hv.
Definition item_remove (it : Z) : server unit := _ ← item_hv it; do_item_remove it.
Definition item_unlink (it : Z) : server unit := hv ← item_hv it; do_item_unlink it hv.
Definition item_update (it : Z) : server (option Z * option store_item_type) :=
  _ ← item_hv it; do_item_update it.
