(* ===== verification/ItemFacts.v ===== *)
(** * The item layer: freelist, reference counts, linked items

    The invariant of the item layer ties the hash table, the freelist, the
    reference counts and the log together; every operation keeps it and acts
    on the finite map from keys to items as its name says. *)
From Stdlib Require Import ZArith Lia.
From stdpp Require Import strings prelude gmap list functions.
From S2P Require Import Prelude Mem Util Item State Memlog Assoc AssocFacts Items.

(** Collapse repeated updates of a slot. *)
Ltac meta_norm := rewrite ?insert_insert_eq.

(** The counters of a state in constructor form, when nothing depends on them. *)
Ltac forget_counters :=
  match goal with |- wp _ (Cache _ _ _ _ _ _ ?c _ _ _) _ => generalize c; intros ? end.

(** ** The freelist is a doubly linked list of free slots *)
Fixpoint fchain (me : gmap Z item_metadata) (prev h : option Z) (l : list Z) : Prop :=
  match l with
  | [] => h = None
  | p :: l => h = Some p ∧ ∃ x, me !! p = Some x ∧ prev_free x = prev ∧
      it_flags x = ITEM_SLABBED ∧ fchain me (Some p) (next_free x) l
  end.

Definition freelist (me : gmap Z item_metadata) (ff : option Z) (FL : list Z) : Prop :=
  fchain me None ff FL ∧ NoDup FL.

Lemma fchain_ext me me' prev h l :
  (∀ q, q ∈ l → me' !! q = me !! q) → fchain me prev h l → fchain me' prev h l.
Proof.
  revert prev h; induction l as [|q l IH]; intros prev h Heq; [done|].
  intros (-> & x & Hx & Hp & Hf & Hc). split; [done|]. exists x.
  rewrite Heq by set_solver. split_and!; try done. apply IH; [|done]. set_solver.
Qed.

Lemma fchain_slabbed me prev h l q :
  fchain me prev h l → q ∈ l → ∃ x, me !! q = Some x ∧ it_flags x = ITEM_SLABBED.
Proof.
  revert prev h; induction l as [|p l IH]; intros prev h; [by intros _ ?%elem_of_nil|].
  intros (-> & x & Hx & _ & Hf & Hc) [->|Hq]%elem_of_cons; eauto.
Qed.

(** Change the back pointer of the head. *)
Lemma fchain_relink me prev v p l x :
  p ∉ l → me !! p = Some x → fchain me prev (Some p) (p :: l) →
  fchain (<[p := set_prev_free v x]> me) v (Some p) (p :: l).
Proof.
  intros Hp Hx (_ & y & Hy & _ & Hf & Hc). assert (y = x) as -> by congruence.
  split; [done|]. exists (set_prev_free v x). rewrite lookup_insert_eq.
  split_and!; try done. eapply fchain_ext; [|exact Hc]. intros q Hq.
  rewrite lookup_insert_ne; [done|]. set_solver.
Qed.

(** Metadata outside [P] is untouched and no slot appears or disappears. *)
Definition changes_only (P : Z → Prop) (me me' : gmap Z item_metadata) : Prop :=
  dom me' = dom me ∧ ∀ q, ¬ P q → me' !! q = me !! q.

Lemma changes_insert (P : Z → Prop) me me' p x :
  changes_only P me me' → P p → is_Some (me !! p) → changes_only P me (<[p := x]> me').
Proof.
  intros [Hd Hc] Hp Hs. split.
  - rewrite dom_insert_L, Hd. apply elem_of_dom in Hs. set_solver.
  - intros q Hq. rewrite lookup_insert_ne by (intros ->; done). auto.
Qed.
Lemma changes_refl P me : changes_only P me me.
Proof. by split. Qed.
Lemma changes_mono (P Q : Z → Prop) me me' :
  (∀ q, P q → Q q) → changes_only P me me' → changes_only Q me me'.
Proof. intros HPQ [Hd Hc]. split; [done|]. intros q Hq. apply Hc. auto. Qed.
Lemma changes_trans P me1 me2 me3 :
  changes_only P me1 me2 → changes_only P me2 me3 → changes_only P me1 me3.
Proof. intros [D1 C1] [D2 C2]. split; [congruence|]. intros q Hq. by rewrite C2, C1. Qed.
Lemma changes_size P me me' : changes_only P me me' → size me' = size me.
Proof. intros [Hd _]. by rewrite <- !size_dom, Hd. Qed.

(** What a slot holds when it leaves the freelist. *)
Definition popped (x : item_metadata) : item_metadata :=
  ItemMeta (next_free x) (prev_free x) (h_next x) (time x) 1 0 1 0 (item x).

Lemma freelist_alloc_spec s p FL :
  freelist (meta s) (first_free s) (p :: FL) →
  wp freelist_alloc s (λ r s', r = Some p ∧ ∃ me' x, meta s !! p = Some x ∧
    s' = set_first_free (head FL) (set_meta me' s) ∧ me' !! p = Some (popped x) ∧
    freelist me' (head FL) FL ∧ changes_only (λ q, q ∈ p :: FL) (meta s) me').
Proof.
  intros [Hc Hnd]. pose proof Hc as (Hff & x & Hx & Hpr & Hfl & Hc').
  apply list.NoDup_cons in Hnd as [Hp Hnd].
  assert (flag_clear ITEM_SLABBED ITEM_SLABBED = 0) as Hfc by done.
  destruct s as [lg m me ff tb cf cn ci ct ps]. simpl_state. subst ff.
  unfold freelist_alloc, do_freelist_alloc. wp_exec.
  destruct FL as [|q FL].
  - cbn in Hc'. rewrite Hc'. wp_exec. meta_norm. split; [done|].
    eexists _, x. split; [done|]. split; [reflexivity|]. split_and!.
    + rewrite lookup_insert_eq. rewrite Hfl, Hfc. done.
    + by split; [|constructor].
    + apply changes_insert; [apply changes_refl|set_solver|eauto].
  - destruct Hc' as (Hn & y & Hy & Hyp & Hyf & Hc'). rewrite Hn.
    assert (q ≠ p) by set_solver. wp_exec. meta_norm. split; [done|].
    eexists _, x. split; [done|]. split; [reflexivity|]. split_and!.
    + rewrite lookup_insert_eq. rewrite Hfl, Hfc. done.
    + split; [|done]. apply (fchain_ext (<[q := set_prev_free None y]> me)).
      { intros r Hr. rewrite lookup_insert_ne; [done|set_solver]. }
      apply (fchain_relink _ (Some p)); [by apply list.NoDup_cons in Hnd as []|done|].
      split; [done|]. eauto.
    + apply changes_insert; [|set_solver|eauto]. apply changes_insert; [apply changes_refl|set_solver|eauto].
Qed.

Lemma freelist_empty_spec s :
  freelist (meta s) (first_free s) [] → freelist_alloc s = Ok (None, s).
Proof.
  intros [Hc _]. cbn in Hc. unfold freelist_alloc, do_freelist_alloc.
  rewrite (bind_Ok _ _ s None s); [done|]. unfold gets. by rewrite Hc.
Qed.

(** What a slot holds when it enters the freelist. *)
Definition pushed (ff : option Z) (x : item_metadata) : item_metadata :=
  ItemMeta ff None (h_next x) (time x) (refcount x) ITEM_SLABBED 0 (get_count x) (item x).

Lemma freelist_free_spec s p x FL :
  freelist (meta s) (first_free s) FL → meta s !! p = Some x → p ∉ FL →
  wp (freelist_free p) s (λ _ s', ∃ me',
    s' = set_first_free (Some p) (set_meta me' s) ∧ me' !! p = Some (pushed (first_free s) x) ∧
    freelist me' (Some p) (p :: FL) ∧ changes_only (λ q, q ∈ p :: FL) (meta s) me').
Proof.
  intros [Hc Hnd] Hx Hp. destruct s as [lg m me ff tb cf cn ci ct ps]. simpl_state. unfold freelist_free, do_freelist_free. wp_exec. meta_norm.
  assert (NoDup (p :: FL)) as Hnd' by by apply list.NoDup_cons.
  destruct FL as [|q FL].
  - cbn in Hc. rewrite Hc. wp_exec. eexists. split; [reflexivity|]. split_and!.
    + by rewrite lookup_insert_eq.
    + split; [|done]. split; [done|]. eexists. by rewrite lookup_insert_eq.
    + apply changes_insert; [apply changes_refl|set_solver|eauto].
  - pose proof Hc as (-> & y & Hy & Hyp & Hyf & Hc'). assert (p ≠ q) by set_solver. wp_exec. meta_norm.
    eexists. split; [reflexivity|]. split_and!.
    + by rewrite lookup_insert_ne, lookup_insert_eq.
    + split; [|done]. split; [done|]. eexists. rewrite lookup_insert_ne, lookup_insert_eq by done.
      split_and!; [done..|]. cbn [next_free pushed].
      eapply (fchain_ext (<[q := set_prev_free (Some p) y]> me)).
      { intros r Hr. destruct (decide (r = q)) as [->|]; [by rewrite !lookup_insert_eq|].
        rewrite !lookup_insert_ne; [done|set_solver..]. }
      apply (fchain_relink _ None); [by apply list.NoDup_cons in Hnd as []|done|]. done.
    + apply changes_insert; [|set_solver|eauto]. apply changes_insert; [apply changes_refl|set_solver|eauto].
Qed.

(** ** Items in the log *)
Lemma ntotal_exact lg d :
  0 ≤ nbytes lg d →
  ITEM_ntotal lg d = 16 + nkey lg d + 1 + nsuffix lg d + nbytes lg d +
    (if has (it_data_flags lg d) ITEM_CAS || has (it_data_flags lg d) ITEM_DELETED ||
        has (it_data_flags lg d) ITEM_CORRUPTED || has (it_data_flags lg d) ITEM_CYCLE then 8 else 0).
Proof.
  intros Hb. unfold ITEM_ntotal, SIZEOF_item_data. rewrite u64_small; [done|].
  pose proof (nkey_range lg d). pose proof (nsuffix_range lg d). pose proof (nbytes_range lg d).
  destruct (_ || _); lia.
Qed.

Lemma cas_size_le lg d : 0 ≤ nbytes lg d →
  16 + cas_size lg d + nkey lg d + 1 + nsuffix lg d + nbytes lg d ≤ ITEM_ntotal lg d.
Proof.
  intros Hb. rewrite ntotal_exact by done. unfold cas_size.
  destruct (has (it_data_flags lg d) ITEM_CAS); cbn; [lia|]. destruct (_ || _); lia.
Qed.
Lemma cas_size_range lg d : 0 ≤ cas_size lg d ≤ 8.
Proof. unfold cas_size. destruct (has _ _); lia. Qed.

(** Both memories hold the same item at [d]. *)
Definition item_agree (m m' : memory) (d : Z) : Prop := agree m m' d (ITEM_ntotal m d).

Lemma item_agree_header m m' d : 0 ≤ nbytes m d → item_agree m m' d → header_agree m m' d.
Proof.
  intros Hb H. eapply agree_sub; [exact H|lia|]. pose proof (cas_size_le m d Hb).
  pose proof (nkey_range m d). pose proof (nsuffix_range m d). pose proof (cas_size_range m d). lia.
Qed.

Lemma cas_size_agree m m' d : header_agree m m' d → cas_size m d = cas_size m' d.
Proof. intros H. apply header_fields in H as (_ & _ & _ & Hf & _). unfold cas_size. by rewrite Hf. Qed.

Lemma item_agree_fields m m' d :
  0 ≤ nbytes m d → item_agree m m' d →
  item_key m' d = item_key m d ∧ item_value m' d = item_value m d ∧
  ITEM_get_cas m' d = ITEM_get_cas m d ∧ exptime m' d = exptime m d ∧
  ITEM_ntotal m' d = ITEM_ntotal m d ∧ nbytes m' d = nbytes m d.
Proof.
  intros Hb H. pose proof (item_agree_header m m' d Hb H) as Hh.
  pose proof (cas_size_agree _ _ _ Hh) as Hcs. pose proof (ITEM_ntotal_agree _ _ _ Hh) as Hnt.
  pose proof (cas_size_le m d Hb) as Hle. pose proof (cas_size_range m d).
  pose proof (nkey_range m d). pose proof (nsuffix_range m d).
  pose proof Hh as Hh'. apply header_fields in Hh' as (He & Hn & Hs & Hf & Hk).
  unfold item_key, item_value, ITEM_get_cas, ITEM_key, ITEM_data, data_off in *.
  rewrite <- Hcs, <- Hn, <- Hs, <- Hf, <- Hk. split_and!; try done.
  - apply load_bytes_agree. apply agree_sym. eapply agree_sub; [exact H|lia|lia].
  - apply load_bytes_agree. apply agree_sym. eapply agree_sub; [exact H|lia|lia].
  - destruct (has _ ITEM_CAS) eqn:E; [|done]. apply load_le_agree, agree_sym.
    unfold cas_size in *. rewrite E in *. eapply agree_sub; [exact H|lia|lia].
Qed.

(** The item lies in the log, in bytes the allocator considers live. *)
Record live (lg : memory) (m : memlog) (d : Z) : Prop := {
  live_pos : 0 ≤ d;
  live_nbytes : 0 ≤ nbytes lg d;
  live_end : d + ITEM_ntotal lg d ≤ mem_limit m;
  live_owned : ∀ a, d ≤ a < d + ITEM_ntotal lg d → ¬ free_at m a
}.
Definition apart (lg : memory) (d e : Z) : Prop :=
  d + ITEM_ntotal lg d ≤ e ∨ e + ITEM_ntotal lg e ≤ d.

Lemma live_agree lg lg' m d : item_agree lg lg' d → live lg m d → live lg' m d.
Proof.
  intros Ha [H1 H2 H3 H4].
  pose proof (item_agree_fields lg lg' d H2 Ha) as (_ & _ & _ & _ & Hn & Hb).
  split; rewrite ?Hn, ?Hb; done.
Qed.
Lemma apart_agree lg lg' d e :
  0 ≤ nbytes lg d → 0 ≤ nbytes lg e → item_agree lg lg' d → item_agree lg lg' e →
  apart lg d e → apart lg' d e.
Proof.
  intros H1 H2 Ha Hb. unfold apart.
  pose proof (item_agree_fields lg lg' d H1 Ha) as (_ & _ & _ & _ & -> & _).
  by pose proof (item_agree_fields lg lg' e H2 Hb) as (_ & _ & _ & _ & -> & _).
Qed.
Lemma apart_sym lg d e : apart lg d e → apart lg e d.
Proof. unfold apart. tauto. Qed.

(** ** The invariant of the item layer *)
Definition is_linked (x : item_metadata) : Prop := has (it_flags x) ITEM_LINKED = true.
Definition is_slabbed (x : item_metadata) : Prop := has (it_flags x) ITEM_SLABBED = true.

(** [K]: key to slot of the linked item; [FL]: the freelist. *)
Record cache_ok (s : cache) (K : gmap (list Z) Z) (FL : list Z) : Prop := {
  ok_rep : represents s K;
  ok_free : freelist (meta s) (first_free s) FL;
  ok_linked : ∀ key p, K !! key = Some p → ∃ x, meta s !! p = Some x ∧ is_linked x ∧
    ¬ is_slabbed x ∧ 1 ≤ refcount x < 2 ^ 16;
  ok_table : ∀ p x, meta s !! p = Some x → is_linked x → K !! item_key (log s) (item x) = Some p;
  ok_live : ∀ p x, meta s !! p = Some x → is_linked x → live (log s) (ml s) (item x);
  ok_apart : ∀ p q x y, meta s !! p = Some x → meta s !! q = Some y → is_linked x → is_linked y →
    p ≠ q → apart (log s) (item x) (item y);
  ok_geo : geometry (ml s);
  ok_zero : ∀ a, free_at (ml s) a → mget (log s) a = 0
}.

(** An item its owner may still write to: allocated, not linked. *)
Record in_flight (s : cache) (p : Z) (x : item_metadata) : Prop := {
  if_meta : meta s !! p = Some x;
  if_unlinked : ¬ is_linked x;
  if_unslabbed : ¬ is_slabbed x;
  if_ref : 1 ≤ refcount x < 2 ^ 16 - 1;
  if_live : live (log s) (ml s) (item x);
  if_apart : ∀ q y, meta s !! q = Some y → is_linked y → apart (log s) (item x) (item y)
}.

Lemma not_true_false b : b ≠ true ↔ b = false.
Proof. by destruct b. Qed.

Lemma slabbed_not_linked x : it_flags x = ITEM_SLABBED → is_slabbed x ∧ ¬ is_linked x.
Proof. unfold is_slabbed, is_linked. intros ->. done. Qed.

Lemma free_slot s K FL p x :
  cache_ok s K FL → meta s !! p = Some x → ¬ is_slabbed x → p ∉ FL.
Proof.
  intros H Hx Hs Hp. destruct (ok_free _ _ _ H) as [Hc _].
  destruct (fchain_slabbed _ _ _ _ _ Hc Hp) as (y & Hy & Hf).
  assert (y = x) as -> by congruence. by destruct (slabbed_not_linked _ Hf).
Qed.

(** The table is insensitive to updates that keep links, items and keys. *)
Lemma repr_frame h lg lg' me me' t K C :
  (∀ key p x, K !! key = Some p → me !! p = Some x → ∃ x', me' !! p = Some x' ∧
    h_next x' = h_next x ∧ item x' = item x ∧ item_key lg' (item x) = item_key lg (item x)) →
  size me' = size me →
  assoc_repr h lg me t K C → assoc_repr h lg' me' t K C.
Proof.
  intros Hf Hsz [R1 R2 R3 R4 R5 R6 R7 R8].
  assert (∀ o b hd l, (∀ q, q ∈ l → q ∈ C o b) → chain me hd l → chain me' hd l) as Hch.
  { intros o b hd l. revert hd. induction l as [|q l IH]; intros hd Hin; [done|].
    intros (-> & x & Hx & Hc). split; [done|].
    destruct (proj1 (R5 o b q) ltac:(apply Hin; set_solver)) as (k & Hk & _).
    destruct (Hf _ _ _ Hk Hx) as (x' & Hx' & Hn & _). exists x'. split; [done|].
    rewrite Hn. apply IH; [|done]. intros; apply Hin; set_solver. }
  split; try done; try congruence.
  - intros o b Ho. apply (Hch o b); [done|]. by apply R3.
  - intros key p Hk. pose proof (R6 _ _ Hk) as Hko. unfold key_of in *.
    destruct (me !! p) as [x|] eqn:Hx; [|done]. destruct (Hf _ _ _ Hk Hx) as (x' & -> & _ & Hi & Hki).
    cbn in *. by rewrite Hi, Hki.
Qed.

(** ** Releasing a reference *)
(** A slot update that keeps the link flag, the chain link and the item. *)
Definition same_role (x x' : item_metadata) : Prop :=
  it_flags x' = it_flags x ∧ h_next x' = h_next x ∧ item x' = item x.

(** Replace the metadata of a slot that keeps its role. *)
Lemma ok_upd_meta s K FL p x x' :
  cache_ok s K FL → meta s !! p = Some x → ¬ is_slabbed x → same_role x x' →
  (is_linked x → 1 ≤ refcount x' < 2 ^ 16) →
  cache_ok (set_meta (<[p := x']> (meta s)) s) K FL.
Proof.
  intros Hok Hx Hns (Hfl & Hn & Hi) Hrc. pose proof (free_slot _ _ _ _ _ Hok Hx Hns) as Hfs.
  destruct Hok as [[C HR] [Hc Hnd] Hl Ht Hv Ha Hg Hz].
  assert (is_linked x' ↔ is_linked x) as Hlk by (unfold is_linked; by rewrite Hfl).
  assert (∀ q y, <[p := x']> (meta s) !! q = Some y → ∃ y0, meta s !! q = Some y0 ∧
    item y = item y0 ∧ (is_linked y ↔ is_linked y0)) as Hinv.
  { intros q y. destruct (decide (q = p)) as [->|Hq].
    - rewrite lookup_insert_eq. intros [= <-]. eauto.
    - rewrite lookup_insert_ne by done. eauto. }
  split; cbn [meta log ml cfg tab first_free set_meta]; try done.
  - exists C. eapply repr_frame; [| |exact HR]; cbn [meta log set_meta].
    + intros key q y Hk Hy. destruct (decide (q = p)) as [->|Hq].
      * exists x'. rewrite lookup_insert_eq. assert (y = x) as -> by congruence. done.
      * exists y. by rewrite lookup_insert_ne.
    + apply map_size_insert_Some. eauto.
  - split; [|done]. eapply fchain_ext; [|exact Hc]. intros q Hq. rewrite lookup_insert_ne; [done|set_solver].
  - intros key q Hk. destruct (Hl _ _ Hk) as (y & Hy & H1 & H2 & H3).
    destruct (decide (q = p)) as [->|Hq].
    + exists x'. rewrite lookup_insert_eq. assert (y = x) as -> by congruence.
      split; [done|]. split; [by apply Hlk|]. split; [|by apply Hrc]. unfold is_slabbed. by rewrite Hfl.
    + exists y. by rewrite lookup_insert_ne.
  - intros q y Hy Hly. destruct (Hinv _ _ Hy) as (y0 & Hy0 & -> & Hyl). apply Ht; [done|tauto].
  - intros q y Hy Hly. destruct (Hinv _ _ Hy) as (y0 & Hy0 & -> & Hyl). apply (Hv q); [done|tauto].
  - intros q r y z Hy Hz' Hly Hlz Hqr. destruct (Hinv _ _ Hy) as (y0 & Hy0 & -> & Hyl).
    destruct (Hinv _ _ Hz') as (z0 & Hz0 & -> & Hzl). apply (Ha q r); tauto.
Qed.

(** The invariant does not look at the counters. *)
Lemma ok_cnt s K FL c : cache_ok s K FL → cache_ok (set_cnt c s) K FL.
Proof. intros [[C HR] ???????]. split; try done. by exists C. Qed.

(** Put an unlinked slot on the freelist. *)
Lemma ok_freelist_free s K FL p x :
  cache_ok s K FL → meta s !! p = Some x → ¬ is_linked x → ¬ is_slabbed x →
  wp (freelist_free p) s (λ _ s', cache_ok s' K (p :: FL) ∧
    ∃ me', s' = set_first_free (Some p) (set_meta me' s) ∧
      changes_only (λ q, q ∈ p :: FL) (meta s) me').
Proof.
  intros Hok Hx Hnl Hns. pose proof (free_slot _ _ _ _ _ Hok Hx Hns) as Hfs.
  eapply wp_mono; [|by apply (freelist_free_spec s p x FL); [apply Hok|..]].
  intros _ s' (me' & -> & Hp & Hfr & Hch). split; [|eauto].
  destruct Hok as [[C HR] [Hc Hnd] Hl Ht Hv Ha Hg Hz].
  assert (∀ q y, meta s !! q = Some y → is_linked y → q ∉ p :: FL) as Hout.
  { intros q y Hy Hly [->|Hq]%elem_of_cons; [congruence|].
    destruct (fchain_slabbed _ _ _ _ _ Hc Hq) as (z & Hz' & Hf).
    assert (z = y) as -> by congruence. by destruct (slabbed_not_linked _ Hf). }
  assert (∀ q y, me' !! q = Some y → is_linked y → meta s !! q = Some y) as Hback.
  { intros q y Hy Hly. destruct (decide (q ∈ p :: FL)) as [Hq|Hq].
    - destruct (fchain_slabbed _ _ _ _ _ (proj1 Hfr) Hq) as (z & Hz' & Hf).
      assert (z = y) as -> by congruence. by destruct (slabbed_not_linked _ Hf).
    - by rewrite <- (proj2 Hch q Hq). }
  split; cbn [meta log ml cfg tab first_free set_meta set_first_free]; try done.
  - exists C. eapply repr_frame; [| |exact HR]; cbn [meta log set_meta set_first_free];
      [|by eapply changes_size].
    intros key q y Hk Hy. destruct (Hl _ _ Hk) as (y' & Hy' & Hly & _).
    exists y. assert (y' = y) as -> by congruence. rewrite (proj2 Hch) by eauto. done.
  - intros key q Hk. destruct (Hl _ _ Hk) as (y & Hy & H1 & H2 & H3). exists y.
    rewrite (proj2 Hch) by eauto. done.
  - eauto.
  - eauto.
  - eauto.
Qed.

Lemma is_linked_false x : ¬ is_linked x → has (it_flags x) ITEM_LINKED = false.
Proof. unfold is_linked. by destruct (has _ _). Qed.
Lemma is_slabbed_false x : ¬ is_slabbed x → has (it_flags x) ITEM_SLABBED = false.
Proof. unfold is_slabbed. by destruct (has _ _). Qed.

(** Only metadata slots in [P] and the freelist head may differ. *)
Definition meta_frame (P : Z → Prop) (s s' : cache) : Prop :=
  ∃ me' ff, s' = set_first_free ff (set_meta me' s) ∧ changes_only P (meta s) me'.

Lemma do_item_remove_spec s K FL p x :
  cache_ok s K FL → meta s !! p = Some x → ¬ is_slabbed x → 1 ≤ refcount x < 2 ^ 16 →
  (refcount x = 1 → ¬ is_linked x) →
  wp (do_item_remove p) s (λ _ s', meta_frame (λ q, q ∈ p :: FL) s s' ∧
    if refcount x =? 1 then cache_ok s' K (p :: FL)
    else cache_ok s' K FL ∧ s' = set_meta (<[p := set_refcount (refcount x - 1) x]> (meta s)) s).
Proof.
  intros Hok Hx Hns Hrc Hnl. unfold do_item_remove.
  wp_step. wp_step. wp_step. apply wp_assert; [by rewrite is_slabbed_false|].
  wp_step. apply wp_assert; [apply Z.gtb_lt; lia|]. wp_step. unfold refcount_decr. wp_steps.
  cbn [refcount set_refcount]. rewrite u16_small by lia.
  assert (changes_only (λ q, q ∈ p :: FL) (meta s) (<[p := set_refcount (refcount x - 1) x]> (meta s))) as Hch
    by (apply changes_insert; [apply changes_refl|set_solver|eauto]).
  set (s1 := set_meta _ s).
  assert (cache_ok s1 K FL) as Hok1.
  { eapply ok_upd_meta; try done. intros Hl. cbn. assert (refcount x ≠ 1) by tauto. lia. }
  destruct (refcount x =? 1) eqn:E; reflect_bools.
  - replace (refcount x - 1 =? 0) with true by lia. unfold item_free.
    assert (meta s1 !! p = Some (set_refcount (refcount x - 1) x)) as Hx1 by apply lookup_insert_eq.
    wp_step. eapply wp_get_meta; [exact Hx1|]. wp_step.
    apply wp_assert; [cbn; by rewrite is_linked_false by auto|]. wp_step.
    apply wp_assert; [cbn; by rewrite E|].
    eapply wp_mono; [|apply (ok_freelist_free s1 K FL p _ Hok1 Hx1); [by apply Hnl|done]].
    intros _ s' (Hok' & me' & -> & Hch'). split; [|done].
    exists me', (Some p). split; [done|]. eapply changes_trans; [exact Hch|exact Hch'].
  - replace (refcount x - 1 =? 0) with false by lia. wp_steps. split; [|done].
    exists (<[p := set_refcount (refcount x - 1) x]> (meta s)), (first_free s). by destruct s.
Qed.

(** ** Linking *)
(** Memories that differ in the CAS field of the item at [d] at most. *)
Definition cas_only (lg lg' : memory) (d : Z) : Prop :=
  ∀ a, a < d + 16 ∨ d + 24 ≤ a ∨ has (it_data_flags lg d) ITEM_CAS = false → mget lg' a = mget lg a.

Lemma cas_only_fields lg lg' d :
  0 ≤ nbytes lg d → cas_only lg lg' d →
  header_agree lg lg' d ∧ item_key lg' d = item_key lg d ∧ item_value lg' d = item_value lg d ∧
  ITEM_ntotal lg' d = ITEM_ntotal lg d ∧ nbytes lg' d = nbytes lg d ∧ exptime lg' d = exptime lg d.
Proof.
  intros Hb Hc. assert (header_agree lg lg' d) as Hh by (intros a Ha; symmetry; apply Hc; lia).
  split; [done|]. pose proof (cas_size_agree _ _ _ Hh) as Hcs. pose proof (ITEM_ntotal_agree _ _ _ Hh) as Hnt.
  pose proof (header_fields _ _ _ Hh) as (He & Hn & Hs & Hf & Hk).
  pose proof (nkey_range lg d). pose proof (nsuffix_range lg d).
  assert (∀ b n, d + 16 + cas_size lg d ≤ b → agree lg' lg b n) as Hag.
  { intros b n Hbb a Ha. apply Hc. unfold cas_size in Hbb.
    destruct (has (it_data_flags lg d) ITEM_CAS) eqn:E; [lia|tauto]. }
  unfold item_key, item_value, ITEM_key, ITEM_data, data_off.
  rewrite <- Hcs, <- Hn, <- Hs, <- Hk. split_and!; try done; apply load_bytes_agree, Hag; lia.
Qed.

Lemma cas_only_apart lg lg' d e :
  0 ≤ nbytes lg d → 0 ≤ nbytes lg e → cas_only lg lg' d → apart lg d e → item_agree lg lg' e.
Proof.
  intros Hd He Hc Ha a Hr. symmetry. apply Hc. pose proof (cas_size_le lg d Hd) as Hle.
  pose proof (cas_size_le lg e He). pose proof (nkey_range lg d). pose proof (nsuffix_range lg d).
  unfold apart, cas_size in *. destruct (has (it_data_flags lg d) ITEM_CAS); [|tauto]. lia.
Qed.

Lemma assign_cas_spec s d :
  wp (assign_cas d) s (λ _ s', ∃ lg' n, s' = set_cas_id n (set_log lg' s) ∧ cas_only (log s) lg' d ∧
    (has (it_data_flags (log s) d) ITEM_CAS = true → use_cas (cfg s) = true →
      n = u64 (cas_id s + 1) ∧ ITEM_get_cas lg' d = n)).
Proof.
  unfold assign_cas. wp_step. wp_step. destruct (has _ ITEM_CAS) eqn:E.
  - wp_step. wp_step. wp_step.
    assert (∀ v, cas_only (log s) (ITEM_set_cas d v (log s)) d) as Hc.
    { intros v a Ha. unfold ITEM_set_cas. rewrite E. apply (agree_store_le_out _ _ _ _ a 1); [|lia].
      unfold data_off. rewrite E in Ha. destruct Ha as [?|[?|?]]; [lia|lia|done]. }
    assert (∀ v, ITEM_get_cas (ITEM_set_cas d v (log s)) d = u64 v) as Hg.
    { intros v. unfold ITEM_get_cas. assert (header_agree (log s) (ITEM_set_cas d v (log s)) d) as Hh
        by (intros a Ha; symmetry; apply Hc; lia).
      destruct (header_fields _ _ _ Hh) as (_ & _ & _ & Hf & _). rewrite <- Hf, E.
      unfold ITEM_set_cas. rewrite E. by rewrite load_le_store_eq. }
    destruct (use_cas (cfg s)).
    + unfold get_cas_id. wp_steps.
      exists (ITEM_set_cas d (u64 (cas_id s + 1)) (log s)), (u64 (cas_id s + 1)).
      split; [reflexivity|]. split; [apply Hc|]. intros _ _.
      split; [done|]. rewrite Hg. apply u64_small. apply u64_range.
    + wp_steps. exists (ITEM_set_cas d 0 (log s)), (cas_id s). split; [by destruct s|]. by split; [apply Hc|].
  - wp_steps. exists (log s), (cas_id s). split; [by destruct s|]. split; [by intros a|]. done.
Qed.

(** The invariant of the state in which an in-flight item has been linked. *)
Lemma link_ok s s' K FL p x x' :
  cache_ok s K FL → in_flight s p x →
  represents s' (<[item_key (log s) (item x) := p]> K) →
  meta s' = <[p := x']> (meta s) → item x' = item x → is_linked x' → ¬ is_slabbed x' →
  1 ≤ refcount x' < 2 ^ 16 → cas_only (log s) (log s') (item x) →
  ml s' = ml s → first_free s' = first_free s →
  K !! item_key (log s) (item x) = None →
  cache_ok s' (<[item_key (log s) (item x) := p]> K) FL.
Proof.
  intros Hok [F1 F2 F3 F4 F5 F6] Hrep Hme Hi Hl' Hs' Hrc Hc Hml Hff HK.
  pose proof (free_slot _ _ _ _ _ Hok F1 F3) as Hfs.
  destruct Hok as [_ [Hch Hnd] Hl Ht Hv Ha Hg Hz].
  pose proof (cas_only_fields _ _ _ (live_nbytes _ _ _ F5) Hc) as (Hh & Hk & _ & Hnt & Hnb & _).
  assert (∀ q y, q ≠ p → meta s !! q = Some y → is_linked y → item_agree (log s) (log s') (item y)) as Hag.
  { intros q y Hq Hy Hly. eapply cas_only_apart; [apply F5|by eapply live_nbytes, Hv|done|by eapply F6]. }
  assert (live (log s') (ml s') (item x)) as Hlive.
  { rewrite Hml. destruct F5. split; rewrite ?Hnt, ?Hnb; done. }
  split; rewrite ?Hml, ?Hff; try done.
  - split; [|done]. eapply fchain_ext; [|exact Hch]. intros q Hq. rewrite Hme, lookup_insert_ne; [done|set_solver].
  - intros key q. rewrite lookup_insert_Some. rewrite Hme. intros [[<- <-]|[Hne Hkq]].
    + exists x'. by rewrite lookup_insert_eq.
    + destruct (Hl _ _ Hkq) as (y & Hy & Hly & ?). exists y. rewrite lookup_insert_ne; [done|].
      intros <-. congruence.
  - intros q y. rewrite Hme. destruct (decide (q = p)) as [->|Hq].
    + rewrite lookup_insert_eq. intros [= <-] _. rewrite Hi, Hk. apply lookup_insert_eq.
    + rewrite lookup_insert_ne by done. intros Hy Hly.
      pose proof (item_agree_fields _ _ _ (live_nbytes _ _ _ (Hv _ _ Hy Hly)) (Hag _ _ Hq Hy Hly)) as (-> & _).
      rewrite lookup_insert_ne; [by apply Ht|]. intros E. pose proof (Ht _ _ Hy Hly). congruence.
  - intros q y. rewrite Hme. destruct (decide (q = p)) as [->|Hq].
    + rewrite lookup_insert_eq. intros [= <-] _. rewrite Hi, <- Hml. done.
    + rewrite lookup_insert_ne by done. intros Hy Hly. eapply live_agree; [by eapply Hag|by eapply Hv].
  - intros q r y z. rewrite Hme.
    assert (∀ r z, r ≠ p → meta s !! r = Some z → is_linked z → apart (log s') (item x) (item z)) as Hap.
    { intros r' z' Hr Hz' Hlz. pose proof (F6 _ _ Hz' Hlz) as Hap. unfold apart in *. rewrite Hnt.
      pose proof (item_agree_fields _ _ _ (live_nbytes _ _ _ (Hv _ _ Hz' Hlz)) (Hag _ _ Hr Hz' Hlz)) as (_ & _ & _ & _ & -> & _).
      done. }
    destruct (decide (q = p)) as [->|Hq], (decide (r = p)) as [->|Hr];
      rewrite ?lookup_insert_eq, ?lookup_insert_ne by done; try done.
    + intros [= <-] Hz' _ Hlz _. rewrite Hi. eauto.
    + intros Hy [= <-] Hly _ _. rewrite Hi. apply apart_sym. eauto.
    + intros Hy Hz' Hly Hlz Hqr. eapply apart_agree; [..|by eapply (Ha q r)].
      * eapply live_nbytes, (Hv q y); done.
      * eapply live_nbytes, (Hv r z); done.
      * apply (Hag q y); done.
      * apply (Hag r z); done.
  - intros a Hfa. rewrite Hc; [by apply Hz|].
    assert (¬ (item x ≤ a < item x + ITEM_ntotal (log s) (item x))) as Hna
      by (intros Hr; by eapply (live_owned _ _ _ F5)).
    pose proof (cas_size_le _ _ (live_nbytes _ _ _ F5)). pose proof (nkey_range (log s) (item x)).
    pose proof (nsuffix_range (log s) (item x)). pose proof (live_nbytes _ _ _ F5).
    unfold cas_size in *. destruct (has _ ITEM_CAS); [lia|tauto].
Qed.

Lemma sizes_bump_spec s p x delta :
  meta s !! p = Some x → wp (item_stats_sizes_bump delta p) s (λ _ s', ∃ c, s' = set_cnt c s).
Proof.
  intros Hx. unfold item_stats_sizes_bump. wp_steps.
  assert (∃ c, s = set_cnt c s) as Hid by (exists (cnt s); by destruct s).
  destruct (stats_sizes_hist (cnt s)); [|by wp_steps].
  destruct (_ >? _); [by wp_steps|]. apply wp_when; intros _; wp_steps; eauto.
Qed.
Lemma link_q_spec s p x :
  meta s !! p = Some x → ¬ is_slabbed x → wp (do_item_link_q p) s (λ _ s', ∃ c, s' = set_cnt c s).
Proof.
  intros Hx Hs. unfold do_item_link_q. do 3 wp_step. apply wp_assert; [by rewrite is_slabbed_false|].
  wp_steps. by eexists.
Qed.
Lemma unlink_q_spec s p x :
  meta s !! p = Some x → wp (do_item_unlink_q p) s (λ _ s', ∃ c, s' = set_cnt c s).
Proof. intros Hx. unfold do_item_unlink_q. wp_steps. by eexists. Qed.

(** The metadata of an item once linked. *)
Definition linked_meta (now : Z) (v : option Z) (x : item_metadata) : item_metadata :=
  set_refcount (refcount x + 1) (set_h_next v (set_time now
    (set_it_flags (flag_or (it_flags x) ITEM_LINKED) x))).

Lemma has_lor f a b : has f (Z.lor a b) = has f a || has f b.
Proof.
  unfold has. rewrite Z.land_lor_distr_r.
  destruct (Z.land f a =? 0) eqn:E1, (Z.land f b =? 0) eqn:E2; reflect_bools; cbn.
  - by rewrite E1, E2.
  - rewrite E1. cbn. by apply negb_true_iff, Z.eqb_neq.
  - apply negb_true_iff, Z.eqb_neq. intros [? _]%Z.lor_eq_0_iff. done.
  - apply negb_true_iff, Z.eqb_neq. intros [? _]%Z.lor_eq_0_iff. done.
Qed.

Lemma linked_meta_flags now v x :
  ¬ is_slabbed x → is_linked (linked_meta now v x) ∧ ¬ is_slabbed (linked_meta now v x).
Proof.
  unfold is_linked, is_slabbed. cbn. intros Hs. flags_simpl. split; [done|].
  by destruct (has (it_flags x) (2 ^ 2)).
Qed.

Lemma do_item_link_spec s K FL p x :
  cache_ok s K FL → in_flight s p x → K !! item_key (log s) (item x) = None →
  let key := item_key (log s) (item x) in
  wp (do_item_link p (hash (cfg s) key)) s (λ r s', r = 1 ∧ cache_ok s' (<[key := p]> K) FL ∧
    (∃ v, meta s' = <[p := linked_meta (current_time s) v x]> (meta s)) ∧
    cas_only (log s) (log s') (item x) ∧ ml s' = ml s ∧ cfg s' = cfg s ∧
    current_time s' = current_time s).
Proof.
  intros Hok Hif HK key. pose proof Hif as [F1 F2 F3 F4 F5 F6].
  destruct s as [lg m me ff tb cf cn ci ct ps]. simpl_state.
  unfold do_item_link. do 3 (wp_step; simpl_goal).
  apply wp_assert; [by rewrite has_lor, is_linked_false, is_slabbed_false|].
  wp_exec. meta_norm. forget_counters. eapply wp_mono; [|apply assign_cas_spec].
  intros _ s1 (lg' & n & -> & Hc & _). simpl_state.
  pose proof (cas_only_fields _ _ _ (live_nbytes _ _ _ F5) Hc) as (_ & Hk & _).
  set (x1 := set_time _ _). wp_step. simpl_goal.
  assert (∀ q y, me !! q = Some y → is_linked y → q ≠ p) as Hqp by (intros q y Hy Hl ->; congruence).
  match goal with |- wp _ ?st _ => set (s1 := st) end.
  assert (represents s1 K) as Hrep.
  { destruct Hok as [[C HR] _ Hl Ht Hv Ha Hg Hz]. simpl_state. exists C.
    eapply repr_frame; [| |exact HR]; unfold s1; simpl_goal; [|apply map_size_insert_Some; eauto].
    intros k q y Hkq Hy. destruct (Hl _ _ Hkq) as (y' & Hy' & Hly & _).
    assert (y' = y) as -> by congruence. exists y.
    rewrite lookup_insert_ne by (intros <-; by eapply Hqp). split_and!; try done.
    assert (item_agree lg lg' (item y)) as Hag.
    { eapply cas_only_apart; [apply F5|by eapply live_nbytes, Hv|done|by eapply F6]. }
    eapply item_agree_fields; [|exact Hag]. by eapply live_nbytes, Hv. }
  pose proof (assoc_insert_spec s1 K key p x1 Hrep (lookup_insert_eq _ _ _) Hk HK) as Hins.
  cbn [cfg] in Hins. eapply wp_mono; [|exact Hins].
  intros _ s2 (_ & Hrep2 & T & _ & v & Hme2). destruct T as [T1 T2 T3 T4 T5 T6 T7].
  destruct s2 as [lg2 m2 me2 ff2 tb2 cf2 cn2 ci2 ct2 ps2]. unfold s1 in *. simpl_state. subst.
  rewrite insert_insert_eq in *.
  assert (¬ is_slabbed (set_h_next v x1)) as Hs1 by by apply (linked_meta_flags ct v x).
  wp_step. eapply wp_mono; [|eapply (link_q_spec _ p); [apply lookup_insert_eq|done]].
  intros _ s3 (c3 & ->). simpl_goal. wp_step. unfold refcount_incr. wp_exec. meta_norm.
  eapply wp_mono; [|eapply (sizes_bump_spec _ p); apply lookup_insert_eq].
  intros _ s4 (c4 & ->). simpl_goal. wp_exec.
  replace (set_refcount _ _) with (linked_meta ct v x)
    by (unfold linked_meta; cbn; by rewrite u16_small by lia).
  destruct (linked_meta_flags ct v x F3) as [Hl' Hs'].
  split; [done|]. split; [|by eauto 10].
  apply (link_ok _ _ K FL p x (linked_meta ct v x) Hok Hif); try done.
  - destruct Hrep2 as [C HR]. exists C. simpl_state. eapply repr_frame; [| |exact HR].
    + intros k q y _ Hy. destruct (decide (q = p)) as [->|Hq].
      * rewrite lookup_insert_eq in Hy. injection Hy as <-. exists (linked_meta ct v x).
        by rewrite lookup_insert_eq.
      * rewrite lookup_insert_ne in Hy by done. exists y. by rewrite lookup_insert_ne.
    + by rewrite !map_size_insert_Some by eauto.
  - cbn. lia.
Qed.

(** ** Unlinking *)
Definition unlinked_meta (v : option Z) (x : item_metadata) : item_metadata :=
  set_h_next v (set_it_flags (flag_clear (it_flags x) ITEM_LINKED) x).
Lemma unlinked_meta_flags v x :
  ¬ is_slabbed x → ¬ is_linked (unlinked_meta v x) ∧ ¬ is_slabbed (unlinked_meta v x).
Proof.
  unfold is_linked, is_slabbed. cbn. intros Hs. flags_simpl. split; [done|].
  by destruct (has (it_flags x) (2 ^ 2)).
Qed.

(** The state in which a linked item has left the table. *)
Lemma unlink_ok s s' K FL key p x v :
  cache_ok s K FL → meta s !! p = Some x → K !! key = Some p →
  represents s' (delete key K) →
  hnext_only (<[p := unlinked_meta v x]> (meta s)) (meta s') →
  log s' = log s → ml s' = ml s → first_free s' = first_free s →
  (∀ q, q ∈ FL → meta s' !! q = meta s !! q) →
  cache_ok s' (delete key K) FL.
Proof.
  intros Hok Hx HK Hrep Hme Hlg Hml Hff HFL.
  destruct (ok_linked _ _ _ Hok _ _ HK) as (x' & Hx' & Hlx & Hsx & Hrx).
  assert (x' = x) as -> by congruence.
  destruct (unlinked_meta_flags v x Hsx) as [Hul _].
  destruct Hok as [[C HR] [Hc Hnd] Hl Ht Hv Ha Hg Hz].
  assert (∀ q y', meta s' !! q = Some y' → is_linked y' →
    q ≠ p ∧ ∃ y, meta s !! q = Some y ∧ item y' = item y ∧ is_linked y) as Hback.
  { intros q y' Hy' Hly'. pose proof (f_equal (lookup q) Hme) as Hq. rewrite !lookup_fmap, Hy' in Hq. cbn in Hq.
    destruct (decide (q = p)) as [->|Hne].
    - rewrite lookup_insert_eq in Hq. cbn in Hq. injection Hq as _ _ _ _ Hfl _ _ _.
      exfalso. apply Hul. unfold is_linked in *. cbn. by rewrite <- Hfl.
    - split; [done|]. rewrite lookup_insert_ne in Hq by done. destruct (meta s !! q) as [y|] eqn:Hy; [|done].
      exists y. cbn in Hq. injection Hq as _ _ _ _ Hfl _ _ Hit. unfold is_linked in *. rewrite <- Hfl. done. }
  split; rewrite ?Hlg, ?Hml, ?Hff; try done.
  - split; [|done]. eapply fchain_ext; [|exact Hc]. done.
  - intros k q [Hne Hkq]%lookup_delete_Some. destruct (Hl _ _ Hkq) as (y & Hy & Hly & Hsy & Hry).
    assert (q ≠ p) as Hqp by (intros ->; by apply Hne, (repr_inj HR _ _ p)).
    destruct (hnext_lookup _ _ q y Hme) as [w Hw]; [by rewrite lookup_insert_ne|].
    exists (set_h_next w y). done.
  - intros q y' Hy' Hly'. destruct (Hback _ _ Hy' Hly') as (Hq & y & Hy & -> & Hly).
    apply lookup_delete_Some. split; [|by apply Ht]. intros E. pose proof (Ht _ _ Hy Hly). congruence.
  - intros q y' Hy' Hly'. destruct (Hback _ _ Hy' Hly') as (Hq & y & Hy & -> & Hly). by apply (Hv q).
  - intros q r y' z' Hy' Hz' Hly' Hlz' Hqr.
    destruct (Hback _ _ Hy' Hly') as (_ & y & Hy & -> & Hly).
    destruct (Hback _ _ Hz' Hlz') as (_ & z & Hz0 & -> & Hlz). by apply (Ha q r).
Qed.

Lemma item_key_bytes lg d : Forall is_byte (item_key lg d).
Proof. apply load_bytes_bytes. Qed.

(** What an operation on slot [p] leaves: the log and the settings, and every
    other used slot up to its chain link. *)
Record slot_frame (p : Z) (FL : list Z) (s s' : cache) : Prop := {
  sf_log : log s' = log s;
  sf_ml : ml s' = ml s;
  sf_cfg : cfg s' = cfg s;
  sf_time : current_time s' = current_time s;
  sf_cas : cas_id s' = cas_id s;
  sf_meta : ∀ q y, q ≠ p → q ∉ FL → meta s !! q = Some y → ∃ v, meta s' !! q = Some (set_h_next v y)
}.

Lemma meta_frame_slot p FL s s' :
  meta_frame (λ q, q ∈ p :: FL) s s' → slot_frame p FL s s'.
Proof.
  intros (me' & ff & -> & _ & Hc). split; try done. intros q y Hq HF Hy. exists (h_next y).
  cbn. rewrite Hc by set_solver. rewrite Hy. by destruct y.
Qed.

(** The whole critical section of an unlink up to the release. *)
Lemma do_item_unlink_spec s K FL key p x :
  cache_ok s K FL → K !! key = Some p → meta s !! p = Some x →
  wp (do_item_unlink p (hash (cfg s) key)) s (λ _ s', slot_frame p FL s s' ∧
    if refcount x =? 1 then cache_ok s' (delete key K) (p :: FL)
    else cache_ok s' (delete key K) FL ∧
      ∃ v, meta s' !! p = Some (set_refcount (refcount x - 1) (unlinked_meta v x))).
Proof.
  intros Hok HK Hx. destruct (ok_linked _ _ _ Hok _ _ HK) as (x' & Hx' & Hlx & Hsx & Hrx).
  assert (x' = x) as -> by congruence. pose proof (free_slot _ _ _ _ _ Hok Hx Hsx) as Hfs.
  assert (item_key (log s) (item x) = key) as Hkey.
  { destruct (ok_rep _ _ _ Hok) as [C HR]. pose proof (ok_table _ _ _ Hok _ _ Hx Hlx) as Ht.
    by apply (repr_inj HR _ _ p). }
  pose proof (item_key_bytes (log s) (item x)) as Hbytes. rewrite Hkey in Hbytes.
  destruct s as [lg m me ff tb cf cn ci ct ps]. simpl_state.
  unfold do_item_unlink. wp_exec. rewrite Hlx. wp_exec. forget_counters.
  eapply wp_mono; [|eapply (sizes_bump_spec _ p); apply lookup_insert_eq].
  intros _ s1 (c1 & ->). simpl_goal. rewrite Hkey.
  set (x1 := set_it_flags _ x). wp_step.
  match goal with |- wp _ ?st _ => set (s1 := st) end.
  assert (represents s1 K) as Hrep.
  { destruct (ok_rep _ _ _ Hok) as [C HR]. simpl_state. exists C.
    eapply repr_frame; [| |exact HR]; unfold s1; simpl_goal; [|apply map_size_insert_Some; eauto].
    intros k q y _ Hy. destruct (decide (q = p)) as [->|Hq].
    - exists x1. rewrite lookup_insert_eq. assert (y = x) as -> by congruence. done.
    - exists y. by rewrite lookup_insert_ne. }
  eapply wp_mono; [|apply (assoc_delete_spec s1 K key Hrep Hbytes); eauto].
  intros _ s2 (Hrep2 & [T1 T2 T3 T4 T5 T6 T7] & _ & Hunch).
  destruct s2 as [lg2 m2 me2 ff2 tb2 cf2 cn2 ci2 ct2 ps2]. unfold s1 in *. simpl_state. subst.
  destruct (hnext_lookup _ _ p x1 T3 (lookup_insert_eq _ _ _)) as [v Hv].
  wp_step. eapply wp_mono; [|eapply (unlink_q_spec _ p); exact Hv].
  intros _ s3 (c3 & ->). simpl_goal.
  match goal with |- wp _ ?st _ => set (s3 := st) end.
  assert (cache_ok s3 (delete (item_key lg (item x)) K) FL) as Hok3.
  { eapply (unlink_ok _ s3 K FL _ p x (h_next x1) Hok Hx HK); try done.
    intros q Hq. unfold s3. simpl_goal. rewrite Hunch.
    - rewrite lookup_insert_ne; [done|]. set_solver.
    - intros k Hk. destruct (ok_linked _ _ _ Hok _ _ Hk) as (y & Hy & _ & Hsy & _).
        by apply (free_slot _ _ _ _ _ Hok Hy Hsy). }
  assert (¬ is_slabbed (set_h_next v x1) ∧ ¬ is_linked (set_h_next v x1)) as [Hs1 Hl1].
  { by destruct (unlinked_meta_flags v x Hsx). }
  eapply wp_mono; [|apply (do_item_remove_spec s3 _ FL p (set_h_next v x1) Hok3 Hv); [done|done|by intros _]].
  intros _ s4 [Hmf Hc]. cbn [refcount set_h_next] in Hc.
  pose proof (meta_frame_slot _ _ _ _ Hmf) as [M1 M2 M3 M4 M5 M6]. split.
  - split; try done. intros q y Hq HF Hy.
    destruct (hnext_lookup _ _ q y T3) as [w Hw]; [by rewrite lookup_insert_ne|].
    destruct (M6 _ _ Hq HF Hw) as [w' Hw']. exists w'. rewrite Hw'. by destruct y.
  - change (refcount x1) with (refcount x) in Hc. destruct (refcount x =? 1); [done|].
    destruct Hc as [Hc ->]. split; [done|]. exists v. unfold s3. simpl_goal. rewrite lookup_insert_eq. done.
Qed.

Lemma do_item_unlink_nolock_eq it hv : do_item_unlink_nolock it hv = do_item_unlink it hv.
Proof. reflexivity. Qed.

(** Unlinking an item that is not linked does nothing. *)
Lemma do_item_unlink_noop s p x hv :
  meta s !! p = Some x → ¬ is_linked x → do_item_unlink p hv s = Ok (tt, s).
Proof.
  intros Hx Hl. unfold do_item_unlink, mbind, M_bind, get_meta. rewrite Hx.
  by rewrite (is_linked_false x Hl).
Qed.
