(* ===== verification/ItemSpec.v ===== *)
(** * Lookups and allocation of items against the abstract table *)
From Stdlib Require Import ZArith Lia.
From stdpp Require Import strings prelude gmap list functions.
From S2P Require Import Prelude Mem Util Item State Memlog Assoc AssocFacts Items ItemFacts.

(** ** [do_item_get] *)
(** Flushed, or expired. *)
Definition dead (s : cache) (x : item_metadata) : bool :=
  item_flushed s x ||
  (negb (exptime (log s) (item x) =? 0) && (exptime (log s) (item x) <=? current_time s)).

Lemma slot_frame_trans p FL s1 s2 s3 :
  slot_frame p FL s1 s2 → slot_frame p FL s2 s3 → slot_frame p FL s1 s3.
Proof.
  intros [] []. split; try congruence. intros q y Hq HF Hy.
  destruct (sf_meta q y Hq HF Hy) as [v Hv]. destruct (sf_meta0 _ _ Hq HF Hv) as [w Hw].
  exists w. rewrite Hw. by destruct y.
Qed.

(** Slot [p] left the table and lost one reference: with its last one it is
    pushed on the freelist, otherwise it stays with its other owners. *)
Definition let_go (p : Z) (x : item_metadata) (FL : list Z) (s' : cache) (FL' : list Z) : Prop :=
  if refcount x =? 1 then FL' = p :: FL
  else FL' = FL ∧ ∃ v, meta s' !! p = Some (set_refcount (refcount x - 1) (unlinked_meta v x)).

Lemma nuke_spec s K FL key p x k :
  cache_ok s K FL → K !! key = Some p → meta s !! p = Some x → 1 < refcount x →
  wp (nuke p (hash (cfg s) key) k) s (λ r s', r = None ∧ slot_frame p FL s s' ∧
    cache_ok s' (delete key K) (if refcount x =? 2 then p :: FL else FL) ∧
    (refcount x ≠ 2 → ∃ v, meta s' !! p = Some (set_refcount (refcount x - 2) (unlinked_meta v x)))).
Proof.
  intros Hok HK Hx Hrc. unfold nuke. wp_step.
  destruct (ok_linked _ _ _ Hok _ _ HK) as (x' & Hx' & Hlx & Hsx & Hrx).
  assert (x' = x) as -> by congruence.
  eapply wp_mono; [|by apply (do_item_unlink_spec s K FL key p x)].
  intros _ s1 [Hf1 Hc1]. replace (refcount x =? 1) with false in Hc1 by lia.
  destruct Hc1 as [Hok1 [v Hp1]]. wp_step.
  destruct (unlinked_meta_flags v x Hsx) as [Hul Hus].
  eapply wp_mono; [|apply (do_item_remove_spec s1 _ FL p _ Hok1 Hp1)]; [|done|cbn; lia|done].
  intros _ s2 [Hmf Hc2]. cbn [refcount set_refcount] in Hc2.
  replace (refcount x - 1 =? 1) with (refcount x =? 2) in Hc2 by lia.
  wp_steps. split; [done|]. split.
  - eapply slot_frame_trans; [exact Hf1|]. apply meta_frame_slot in Hmf. by destruct Hmf.
  - destruct (refcount x =? 2) eqn:E; reflect_bools.
    + split; [by apply ok_cnt|done].
    + destruct Hc2 as [? ->]. split; [by apply ok_cnt|]. intros _. exists v. cbn [meta set_cnt set_meta].
      rewrite lookup_insert_eq. unfold set_refcount. do 2 f_equal. cbn. lia.
Qed.

Lemma do_item_get_spec s K FL key :
  cache_ok s K FL → Forall is_byte key →
  (∀ p x, K !! key = Some p → meta s !! p = Some x → refcount x < 2 ^ 16 - 1) →
  wp (do_item_get key (hash (cfg s) key)) s (λ r s',
    match K !! key with
    | None => r = None ∧ s' = s
    | Some p => ∃ x, meta s !! p = Some x ∧
        if dead s x then r = None ∧ slot_frame p FL s s' ∧
          cache_ok s' (delete key K) (if refcount x =? 1 then p :: FL else FL) ∧
          let_go p x FL s' (if refcount x =? 1 then p :: FL else FL)
        else r = Some p ∧ cache_ok s' K FL ∧
          s' = set_meta (<[p := set_refcount (refcount x + 1) x]> (meta s)) s
    end).
Proof.
  intros Hok Hb Href. unfold do_item_get. wp_step.
  eapply wp_eq; [by apply (assoc_find_spec s K); [apply Hok|]|].
  destruct (K !! key) as [p|] eqn:HK; [|by wp_steps].
  destruct (ok_linked _ _ _ Hok _ _ HK) as (x & Hx & Hlx & Hsx & Hrx).
  specialize (Href p x eq_refl Hx).
  unfold refcount_incr, item_is_flushed. wp_steps. cbn [refcount set_refcount].
  rewrite u16_small by lia. set (x1 := set_refcount (refcount x + 1) x). set (s1 := set_meta _ s).
  assert (cache_ok s1 K FL) as Hok1 by (eapply ok_upd_meta; [done..|]; intros _; cbn; lia).
  assert (meta s1 !! p = Some x1) as Hx1 by apply lookup_insert_eq.
  assert (∀ k, wp (nuke p (hash (cfg s) key) k) s1 (λ r s', r = None ∧ slot_frame p FL s s' ∧
    cache_ok s' (delete key K) (if refcount x =? 1 then p :: FL else FL) ∧
    let_go p x FL s' (if refcount x =? 1 then p :: FL else FL))) as Hnuke.
  { intros k. eapply wp_mono; [|apply (nuke_spec s1 K FL key p x1 k Hok1 HK Hx1); cbn; lia].
    intros r s' (-> & Hf & Hok' & Hgo). split; [done|]. split; [|split].
    - eapply slot_frame_trans; [|exact Hf]. split; try done. intros q y Hq HF Hy.
      exists (h_next y). cbn. rewrite lookup_insert_ne by done. rewrite Hy. by destruct y.
    - cbn in Hok'. by replace (refcount x + 1 =? 2) with (refcount x =? 1) in Hok' by lia.
    - unfold let_go. destruct (refcount x =? 1) eqn:E; reflect_bools; [done|]. split; [done|].
      destruct Hgo as [v Hv]; [cbn; lia|]. exists v. rewrite Hv. unfold x1, unlinked_meta, set_refcount. do 2 f_equal. cbn. lia. }
  change (item_flushed s1 x1) with (item_flushed s x).
  change (log (id s1)) with (log s). change (current_time (id s1)) with (current_time s).
  change (item x1) with (item x).
  destruct (item_flushed s x) eqn:E1.
  { eapply wp_mono; [|apply Hnuke]. intros r s' H. exists x. split; [done|].
    unfold dead. rewrite E1. exact H. }
  destruct (_ && _) eqn:E2.
  { eapply wp_mono; [|apply Hnuke]. intros r s' H. exists x. split; [done|].
    unfold dead. rewrite E1, E2. exact H. }
  wp_steps. exists x. split; [done|]. unfold dead. rewrite E1, E2. done.
Qed.

(** ** [do_item_alloc] *)
(** Bytes outside [[d, d + n)] are the same. *)
Definition same_outside (m m' : memory) (d n : Z) : Prop :=
  ∀ a, a < d ∨ d + n ≤ a → mget m' a = mget m a.

Lemma same_outside_trans m1 m2 m3 d n :
  same_outside m1 m2 d n → same_outside m2 m3 d n → same_outside m1 m3 d n.
Proof. intros H1 H2 a Ha. by rewrite H2, H1. Qed.
Lemma same_outside_mono m m' d n d' n' :
  same_outside m m' d' n' → d ≤ d' → d' + n' ≤ d + n → same_outside m m' d n.
Proof. intros H ?? a Ha. apply H. lia. Qed.
Lemma same_outside_field m d off w v n :
  0 ≤ off → off + Z.of_nat w ≤ 16 → 16 ≤ n → same_outside m (store_le m (d + off) w v) d n.
Proof. intros. intros a Ha. apply mget_set_field; lia. Qed.
Lemma same_outside_bytes m d n a bs :
  Forall is_byte bs → d ≤ a → a + Z.of_nat (length bs) ≤ d + n →
  same_outside m (store_bytes m a bs) d n.
Proof. intros Hb ?? c Hc. apply mget_store_bytes_out; [done|lia]. Qed.

Definition header_flags (cas : bool) : Z := if cas then 34 else 32.
Definition cas_bytes (cas : bool) : Z := if cas then 8 else 0.

Lemma cas_bytes_range cas : 0 ≤ cas_bytes cas ≤ 8.
Proof. unfold cas_bytes. destruct cas; lia. Qed.
Lemma header_flags_cas cas : has (header_flags cas) ITEM_CAS = cas.
Proof. by destruct cas. Qed.

Lemma header_flags_only_cas cas :
  has (header_flags cas) ITEM_CAS || has (header_flags cas) ITEM_DELETED ||
  has (header_flags cas) ITEM_CORRUPTED || has (header_flags cas) ITEM_CYCLE = cas.
Proof. by destruct cas. Qed.

Section write_header.
Context (m : memory) (d : Z) (key : memory → list Z) (kb : list Z) (nk et nb ns : Z)
  (suffix : list Z) (cas : bool).
Context (Hzero : it_data_flags m d = 0) (Hkb : Forall is_byte kb)
  (Hnk : nk = Z.of_nat (length kb)) (Hnk' : nk < 256)
  (Het : 0 ≤ et < 2 ^ 32) (Hnb : 0 ≤ nb < 2 ^ 31)
  (Hns : ns = Z.of_nat (length suffix)) (Hns' : ns < 256) (Hsb : Forall is_byte suffix).
Let n := 16 + cas_bytes cas + nk + 1 + ns.
Context (Hkey : ∀ m', same_outside m m' d n → key m' = kb).

Let m1 := set_nbytes d nb (set_nkey d nk
  (data_flags_or d ITEM_DIRTY (data_flags_or d (if cas then ITEM_CAS else 0) m))).

Lemma m1_outside : same_outside m m1 d n.
Proof.
  pose proof (cas_bytes_range cas). unfold m1, data_flags_or, set_nbytes, set_nkey, set_it_data_flags.
  repeat (eapply same_outside_trans; [|apply same_outside_field; lia]). by intros a.
Qed.
Lemma m1_flags : it_data_flags m1 d = header_flags cas.
Proof.
  unfold m1, data_flags_or. autorewrite with mc_fields. rewrite Hzero. by destruct cas.
Qed.
Lemma write_header_spec :
  let m' := write_header d key nk et nb ns suffix cas m in
  same_outside m m' d n ∧ it_data_flags m' d = header_flags cas ∧ nkey m' d = nk ∧
  nbytes m' d = nb ∧ exptime m' d = et ∧ nsuffix m' d = ns ∧ item_key m' d = kb ∧
  load_bytes m' (ITEM_suffix m' d) (length suffix) = suffix.
Proof.
  pose proof (cas_bytes_range cas) as Hcb. pose proof m1_outside as Ho1.
  unfold write_header. cbv zeta. fold m1. rewrite (Hkey m1 Ho1).
  assert (nkey m1 d = nk) as Hk1.
  { unfold m1, data_flags_or. autorewrite with mc_fields. apply u8_small; lia. }
  assert (nbytes m1 d = nb) as Hb1.
  { unfold m1, data_flags_or. autorewrite with mc_fields. apply i32_small. lia. }
  assert (ITEM_key m1 d = d + 16 + cas_bytes cas) as ->.
  { unfold ITEM_key, data_off, cas_size. rewrite m1_flags, header_flags_cas. done. }
  set (m2 := store_bytes m1 _ kb). set (m3 := set_exptime d et m2).
  destruct (fields_store_bytes m1 d (d + 16 + cas_bytes cas) kb Hkb ltac:(lia)) as (_ & B2 & _ & F2 & K2).
  fold m2 in B2, F2, K2. rewrite m1_flags in F2. rewrite Hb1 in B2. rewrite Hk1 in K2.
  assert (it_data_flags m3 d = header_flags cas ∧ nkey m3 d = nk ∧ nbytes m3 d = nb ∧ exptime m3 d = et)
    as (F3 & K3 & B3 & E3).
  { unfold m3. autorewrite with mc_fields. rewrite F2, K2, B2. split_and!; try done. apply u32_small. lia. }
  assert (ITEM_suffix m3 d = d + 16 + nk + 1 + cas_bytes cas) as ->.
  { unfold ITEM_suffix, data_off, cas_size. rewrite F3, K3, header_flags_cas. done. }
  rewrite take_ge by lia. set (m4 := store_bytes m3 _ suffix).
  destruct (fields_store_bytes m3 d (d + 16 + nk + 1 + cas_bytes cas) suffix Hsb ltac:(lia))
    as (E4 & B4 & _ & F4 & K4). fold m4 in E4, B4, F4, K4.
  assert (same_outside m2 m3 d 16) as Ho3.
  { unfold m3, set_exptime. pose proof (same_outside_field m2 d 0 4 et 16) as H.
    rewrite Z.add_0_r in H. apply H; lia. }
  assert (same_outside m4 (set_nsuffix d ns m4) d 16) as Ho5 by (apply same_outside_field; lia).
  set (m5 := set_nsuffix d ns m4) in *.
  assert (it_data_flags m5 d = header_flags cas ∧ nkey m5 d = nk ∧ nbytes m5 d = nb ∧
    exptime m5 d = et ∧ nsuffix m5 d = ns) as (F5 & K5 & B5 & E5 & S5).
  { unfold m5. autorewrite with mc_fields. rewrite F4, K4, B4, E4, F3, K3, B3, E3.
    split_and!; try done. apply u8_small. lia. }
  split_and!; try done.
  - eapply same_outside_trans; [exact Ho1|].
    eapply same_outside_trans; [apply (same_outside_bytes m1 d n (d + 16 + cas_bytes cas) kb Hkb); unfold n; lia|].
    fold m2. eapply same_outside_trans; [eapply same_outside_mono; [exact Ho3|lia|unfold n; lia]|].
    eapply same_outside_trans; [apply (same_outside_bytes m3 d n (d + 16 + nk + 1 + cas_bytes cas) suffix Hsb); unfold n; lia|].
    eapply same_outside_mono; [exact Ho5|lia|unfold n; lia].
  - unfold item_key, ITEM_key, data_off, cas_size. rewrite F5, K5, header_flags_cas.
    fold (cas_bytes cas). rewrite Hnk, Nat2Z.id.
    rewrite (load_bytes_agree _ m2).
    + by apply load_store_bytes_eq.
    + intros a Ha. rewrite Ho5 by lia. unfold m4. rewrite mget_store_bytes_out; [|done|lia]. apply Ho3. lia.
  - unfold ITEM_suffix, data_off, cas_size. rewrite F5, K5, header_flags_cas. fold (cas_bytes cas).
    rewrite (load_bytes_agree _ m4); [by apply load_store_bytes_eq|].
    intros a Ha. apply Ho5. lia.
Qed.
End write_header.

(** *** Sizes and suffixes *)
Lemma make_suffix_bytes flags nb : 0 ≤ flags → Forall is_byte (make_suffix flags nb).
Proof.
  intros Hf. unfold make_suffix, crlf. repeat (apply Forall_app; split); auto using fmt_u_bytes, fmt_d_bytes;
    by repeat constructor.
Qed.
Lemma make_suffix_length flags nb : (length (make_suffix flags nb) < 60)%nat.
Proof.
  unfold make_suffix, crlf. rewrite !length_app. cbn [length].
  pose proof (fmt_u_length flags).
  pose proof (fmt_d_short (i32 (nb - 2)) (i32_range _)). lia.
Qed.

Definition suffix_of (flags nb : Z) : list Z := make_suffix (u32 flags) nb.
Definition nsuffix_of (flags nb : Z) : Z := Z.of_nat (length (suffix_of flags nb)).

Lemma make_header_eq nk flags nb :
  0 ≤ nk < 255 → 0 ≤ nb < 2 ^ 31 →
  item_make_header (nk + 1) flags nb =
    (16 + (nk + 1) + nsuffix_of flags nb + nb, suffix_of flags nb, nsuffix_of flags nb).
Proof.
  intros Hk Hb. unfold item_make_header, nsuffix_of, suffix_of, SIZEOF_item_data.
  pose proof (make_suffix_length (u32 flags) nb).
  rewrite (u8_small (Z.of_nat _)), (u8_small (nk + 1)), u64_small by lia. done.
Qed.
Lemma nsuffix_of_range flags nb : 0 ≤ nsuffix_of flags nb < 60.
Proof. unfold nsuffix_of, suffix_of. pose proof (make_suffix_length (u32 flags) nb). lia. Qed.
Lemma item_ntotal_eq nk flags nb cas :
  0 ≤ nk < 255 → 0 ≤ nb < 2 ^ 31 →
  item_ntotal nk flags nb cas = 16 + (nk + 1) + nsuffix_of flags nb + nb + cas_bytes cas.
Proof.
  intros Hk Hb. unfold item_ntotal. rewrite make_header_eq by done.
  pose proof (nsuffix_of_range flags nb). apply u64_small. unfold cas_bytes. destruct cas; lia.
Qed.

(** *** The allocator under the item layer's invariant *)
Lemma allocated_agree s size r s' d :
  allocated s size r s' → live (log s) (ml s) d → item_agree (log s) (log s') d.
Proof.
  intros Ha Hl a Hr. symmetry. apply (al_frame _ _ _ _ Ha). by eapply live_owned.
Qed.
Lemma allocated_live s size r s' d :
  allocated s size r s' → live (log s) (ml s) d → live (log s') (ml s') d.
Proof.
  intros Ha Hl. pose proof (allocated_agree _ _ _ _ _ Ha Hl) as Hag.
  apply (live_agree _ _ _ _ Hag). destruct Hl as [L1 L2 L3 L4].
  split; try done; [by rewrite (proj1 (al_limit _ _ _ _ Ha))|].
  intros a Hr Hf. by apply (L4 a Hr), (al_free _ _ _ _ Ha).
Qed.

Lemma allocated_ok s size r s' K FL :
  cache_ok s K FL → allocated s size r s' → cache_ok s' K FL.
Proof.
  intros [[C HR] Hf Hl Ht Hv Hap Hg Hz] Ha. pose proof (al_rest _ _ _ _ Ha) as (R1 & R2 & R3 & R4 & _).
  assert (∀ p x, meta s !! p = Some x → is_linked x →
    item_key (log s') (item x) = item_key (log s) (item x)) as Hk.
  { intros p x Hx Hlx. pose proof (Hv _ _ Hx Hlx) as L.
    by eapply item_agree_fields; [apply L|apply (allocated_agree _ _ _ _ _ Ha L)]. }
  split; rewrite ?R1, ?R2; try done.
  - exists C. rewrite R3, R4. eapply repr_frame; [| |exact HR]; [|by rewrite R1].
    intros key p x Hkp Hx. exists x. rewrite R1. split_and!; try done.
    destruct (Hl _ _ Hkp) as (x' & Hx' & Hlx & _). assert (x' = x) as -> by congruence. eauto.
  - intros p x Hx Hlx. rewrite (Hk p) by done. eauto.
  - intros p x Hx Hlx. eapply allocated_live; eauto.
  - intros p q x y Hx Hy Hlx Hly Hpq. eapply (apart_agree (log s)).
    + by eapply live_nbytes, (Hv p).
    + by eapply live_nbytes, (Hv q).
    + eapply allocated_agree; eauto.
    + eapply allocated_agree; eauto.
    + eauto.
  - apply Ha.
  - intros a Hfa. destruct (al_free _ _ _ _ Ha a Hfa) as [Hfa' ->]. eauto.
Qed.

(** A block that was free is apart from every live item. *)
Lemma free_block_apart lg m d size e :
  0 < size → (∀ a, d ≤ a < d + size → free_at m a) → live lg m e →
  d + size ≤ e ∨ e + ITEM_ntotal lg e ≤ d.
Proof.
  intros Hs Hf [L1 L2 L3 L4]. pose proof (cas_size_le lg e L2). pose proof (cas_size_range lg e).
  pose proof (nkey_range lg e). pose proof (nsuffix_range lg e).
  destruct (decide (d + size ≤ e)); [tauto|]. destruct (decide (e + ITEM_ntotal lg e ≤ d)); [tauto|].
  exfalso. apply (L4 (Z.max d e)); [lia|]. apply Hf. lia.
Qed.

(** What an allocation attempt keeps: live bytes, the metadata and the table. *)
Record log_step (s s' : cache) : Prop := {
  ls_keep : ∀ a, ¬ free_at (ml s) a → mget (log s') a = mget (log s) a ∧ ¬ free_at (ml s') a;
  ls_limit : mem_limit (ml s') = mem_limit (ml s);
  ls_rest : meta s' = meta s ∧ first_free s' = first_free s ∧ tab s' = tab s ∧
    cfg s' = cfg s ∧ cas_id s' = cas_id s ∧ current_time s' = current_time s
}.
Lemma log_step_refl s : log_step s s.
Proof. by split. Qed.
Lemma log_step_trans s1 s2 s3 : log_step s1 s2 → log_step s2 s3 → log_step s1 s3.
Proof.
  intros [A1 A2 (A3 & A4 & A5 & A6 & A7 & A8)] [B1 B2 (B3 & B4 & B5 & B6 & B7 & B8)].
  split; [|congruence|split_and!; congruence]. intros a Ha. destruct (A1 a Ha) as [E1 N1].
  destruct (B1 a N1) as [E2 N2]. split; [congruence|done].
Qed.
Lemma allocated_log_step s size r s' : allocated s size r s' → log_step s s'.
Proof.
  intros Ha. split; [|apply Ha|apply Ha]. intros a Hn. split; [by apply (al_frame _ _ _ _ Ha)|].
  intros Hf. by apply Hn, (al_free _ _ _ _ Ha).
Qed.
Lemma log_step_live s s' d : log_step s s' → live (log s) (ml s) d →
  item_agree (log s) (log s') d ∧ live (log s') (ml s') d.
Proof.
  intros H Hl. assert (item_agree (log s) (log s') d) as Hag.
  { intros a Ha. symmetry. apply (ls_keep _ _ H). by eapply live_owned. }
  split; [done|]. apply (live_agree _ _ _ _ Hag). destruct Hl as [L1 L2 L3 L4].
  split; try done; [by rewrite (ls_limit _ _ H)|]. intros a Hr. apply (ls_keep _ _ H). auto.
Qed.

Lemma set_counters_id s : ∃ c, s = set_cnt c s.
Proof. exists (cnt s). by destruct s. Qed.

Section attempts.
Context (key : memory → list Z) (nk flags nb size ns : Z) (suffix : list Z).
Context (Hdel : has flags ITEM_DELETED = false).

(** The state after a successful attempt from [s]. *)
Definition attempted (s : cache) (p : Z) (FL : list Z) (s' : cache) : Prop :=
  ∃ d s1 me' x, allocated s size (Some d) s1 ∧ meta s !! p = Some x ∧
    s' = set_first_free (head FL) (set_meta me' s1) ∧ me' !! p = Some (set_item d (popped x)) ∧
    freelist me' (head FL) FL ∧ changes_only (λ q, q ∈ p :: FL) (meta s) me'.

Lemma alloc_attempt_spec s K p FL :
  cache_ok s K (p :: FL) → may_allocate (ml s) size → size ≤ mem_limit (ml s) - 35 →
  wp (alloc_attempt key nk flags nb size ns suffix) s (λ r s',
    match r with
    | NoMemory => allocated s size None s' ∧ may_allocate (ml s') size
    | Tombstone => False
    | Allocated it => it = p ∧ has_room (ml s) size = true ∧ attempted s p FL s'
    end).
Proof.
  intros Hok Hmay Hle. unfold alloc_attempt, memlog_alloc, do_memlog_alloc. do 2 wp_step.
  eapply wp_mono; [|apply (memory_allocate_spec size s); [apply Hok|done]].
  intros r s1 Ha. destruct r as [d|]; wp_steps; [|split; [done|by apply (al_retry _ _ _ _ Ha)]].
  rewrite Hdel. wp_step. pose proof (al_rest _ _ _ _ Ha) as (R1 & R2 & _).
  eapply wp_mono; [|apply (freelist_alloc_spec s1 p FL); rewrite R1, R2; apply Hok].
  intros r s2 (-> & me' & x & Hx & -> & Hp & Hfl & Hch). wp_steps. split; [done|].
  split; [by rewrite <- (al_room _ _ _ _ Ha)|]. rewrite R1 in Hx, Hch.
  exists d, s1, (<[p := set_item d (popped x)]> me'), x. split_and!; try done.
  - by rewrite lookup_insert_eq.
  - destruct Hfl as [Hfc Hnd]. split; [|done]. eapply fchain_ext; [|exact Hfc].
    intros q Hq. rewrite lookup_insert_ne; [done|].
    destruct (ok_free _ _ _ Hok) as [_ Hnd0]. apply list.NoDup_cons in Hnd0 as [Hp0 _]. set_solver.
  - apply changes_insert; [done|set_solver|eauto].
Qed.

Lemma alloc_attempts_spec n i s K p FL :
  0 ≤ i → cache_ok s K (p :: FL) → may_allocate (ml s) size → size ≤ mem_limit (ml s) - 35 →
  wp (alloc_attempts n i (alloc_attempt key nk flags nb size ns suffix)) s (λ '(r, j) s',
    match r with
    | NoMemory => log_step s s' ∧ cache_ok s' K (p :: FL) ∧ (n ≠ 0%nat → has_room (ml s) size = false)
    | Tombstone => False
    | Allocated it => it = p ∧ has_room (ml s) size = true ∧ ∃ s0, log_step s s0 ∧ cache_ok s0 K (p :: FL) ∧ attempted s0 p FL s'
    end).
Proof.
  revert i s. induction n as [|n IH]; intros i s Hi Hok Hmay Hle; cbn [alloc_attempts]; wp_step.
  - split_and!; [apply log_step_refl|done|done].
  - eapply wp_mono; [|by apply (alloc_attempt_spec s K p FL)].
    intros [| |it] s1; [|done|]; intros H.
    + destruct H as [Ha Hmay1]. pose proof (allocated_ok _ _ _ _ _ _ Hok Ha) as Hok1.
      pose proof (allocated_log_step _ _ _ _ Ha) as Hls.
      eapply wp_mono; [|apply (IH (i + 1) s1); [lia|done|done|by rewrite (ls_limit _ _ Hls)]].
      intros [[| |it] j] s2; [|done|].
      * intros (? & ? & _). split; [by eapply log_step_trans|split; [done|]].
        intros _. by rewrite <- (al_room _ _ _ _ Ha).
      * intros (_ & Hroom & _). by rewrite (al_full _ _ _ _ Ha eq_refl Hle) in Hroom.
    + destruct H as (-> & Hroom & H). wp_steps. split; [done|]. split; [done|]. exists s. split; [apply log_step_refl|done].
Qed.
End attempts.

(** Take the first slot off the freelist and write to a block no linked item
    owns. *)
Lemma take_slot_ok s K p FL me' lg' x' d size c :
  cache_ok s K (p :: FL) → freelist me' (head FL) FL →
  changes_only (λ q, q ∈ p :: FL) (meta s) me' → me' !! p = Some x' → ¬ is_linked x' →
  same_outside (log s) lg' d size → (∀ a, d ≤ a < d + size → ¬ free_at (ml s) a) →
  (∀ q y, meta s !! q = Some y → is_linked y →
    d + size ≤ item y ∨ item y + ITEM_ntotal (log s) (item y) ≤ d) →
  cache_ok (set_cnt c (set_log lg' (set_first_free (head FL) (set_meta me' s)))) K FL.
Proof.
  intros [[C HR] [Hc Hnd] Hl Ht Hv Hap Hg Hz] Hfl Hch Hp Hnl Hout Hown Hdis.
  assert (∀ q y, meta s !! q = Some y → is_linked y → q ∉ p :: FL) as Hlo.
  { intros q y Hy Hly Hq. destruct (fchain_slabbed _ _ _ _ _ Hc Hq) as (z & Hz' & Hf).
    assert (z = y) as -> by congruence. by destruct (slabbed_not_linked _ Hf). }
  assert (∀ q y, me' !! q = Some y → is_linked y → meta s !! q = Some y) as Hback.
  { intros q y Hy Hly. destruct (decide (q ∈ p :: FL)) as [Hq|Hq]; [|by rewrite <- (proj2 Hch q Hq)].
    exfalso. apply elem_of_cons in Hq as [->|Hq]; [congruence|].
    destruct (fchain_slabbed _ _ _ _ _ (proj1 Hfl) Hq) as (z & Hz' & Hf).
    assert (z = y) as -> by congruence. by destruct (slabbed_not_linked _ Hf). }
  assert (∀ q y, meta s !! q = Some y → is_linked y → item_agree (log s) lg' (item y)) as Hag.
  { intros q y Hy Hly a Ha. symmetry. apply Hout. destruct (Hdis _ _ Hy Hly); lia. }
  split; cbn [meta log ml cfg tab first_free set_cnt set_log set_first_free set_meta]; try done.
  - exists C. eapply repr_frame; [| |exact HR]; cbn [meta log set_cnt set_log set_first_free set_meta].
    + intros key q y Hk Hy. destruct (Hl _ _ Hk) as (y' & Hy' & Hly & _).
      assert (y' = y) as -> by congruence. exists y. rewrite (proj2 Hch) by eauto. split_and!; try done.
      by eapply item_agree_fields; [apply (Hv _ _ Hy Hly)|eauto].
    + by eapply changes_size.
  - intros key q Hk. destruct (Hl _ _ Hk) as (y & Hy & Hly & ?). exists y.
    rewrite (proj2 Hch) by eauto. done.
  - intros q y Hy Hly. pose proof (Hback _ _ Hy Hly) as Hy0.
    pose proof (item_agree_fields _ _ _ (live_nbytes _ _ _ (Hv _ _ Hy0 Hly)) (Hag _ _ Hy0 Hly)) as (-> & _).
    by apply Ht.
  - intros q y Hy Hly. eapply live_agree; eauto.
  - intros q r y z Hy Hz' Hly Hlz Hqr. eapply (apart_agree (log s)); [..|by eauto].
    + by eapply live_nbytes, (Hv q); eauto.
    + by eapply live_nbytes, (Hv r); eauto.
    + eauto.
    + eauto.
  - intros a Hfa. rewrite Hout; [by apply Hz|].
    destruct (decide (d ≤ a < d + size)) as [Hr|]; [by destruct (Hown a Hr)|lia].
Qed.

(** A fresh item as its allocator leaves it: header and key written, the value
    still to come. *)
Record fresh_item (lg : memory) (d : Z) (kb : list Z) (flags et nb : Z) (cas : bool) : Prop := {
  fi_flags : it_data_flags lg d = header_flags cas;
  fi_key : item_key lg d = kb;
  fi_nkey : nkey lg d = Z.of_nat (length kb);
  fi_nbytes : nbytes lg d = nb;
  fi_exptime : exptime lg d = et;
  fi_nsuffix : nsuffix lg d = nsuffix_of flags nb;
  fi_suffix : load_bytes lg (ITEM_suffix lg d) (length (suffix_of flags nb)) = suffix_of flags nb;
  fi_ntotal : ITEM_ntotal lg d = item_ntotal (Z.of_nat (length kb)) flags nb cas
}.

Definition fresh_meta (cas : bool) (t d : Z) : item_metadata :=
  ItemMeta None None None t 1 (if cas then ITEM_CAS else 0) 1 0 d.
Lemma fresh_meta_flags cas t d : ¬ is_linked (fresh_meta cas t d) ∧ ¬ is_slabbed (fresh_meta cas t d).
Proof. by destruct cas. Qed.

(** The straight-line end of [do_item_alloc]. *)
Lemma alloc_tail key nk et nb ns suffix cas s p d x :
  meta s !! p = Some (set_item d (popped x)) →
  (_ ← upd_meta p (λ x, set_next_free None (set_prev_free None x));
   _ ← upd_meta p (set_slabs_clsid 1);
   _ ← upd_meta p (λ x, set_it_flags (flag_or (it_flags x) (if cas then ITEM_CAS else 0)) x);
   x ← get_meta p;
   _ ← upd_log (write_header (item x) key nk et nb ns suffix cas);
   _ ← upd_meta p (set_h_next None);
   mret (Some p, true)) s =
  Ok ((Some p, true), set_log (write_header d key nk et nb ns suffix cas (log s))
    (set_meta (<[p := fresh_meta cas (time x) d]> (meta s)) s)).
Proof.
  intros Hp. destruct s as [lg m me ff tb cf cn ci ct ps]. simpl_state.
  erewrite bind_upd_meta by exact Hp.
  erewrite bind_upd_meta by apply lookup_insert_eq.
  erewrite bind_upd_meta by apply lookup_insert_eq.
  erewrite bind_get_meta by apply lookup_insert_eq.
  rewrite bind_upd_log.
  erewrite bind_upd_meta by apply lookup_insert_eq. rewrite !insert_insert_eq.
  cbn [item set_it_flags set_slabs_clsid set_next_free set_prev_free set_item popped].
  unfold mret, M_ret. do 3 f_equal. destruct x, cas; reflexivity.
Qed.

Lemma when_counter b id k v s :
  wp (when b (itemstat_add id k v)) s (λ _ s', ∃ c, s' = set_cnt c s).
Proof. apply wp_when; intros _; wp_steps; [by eexists|apply set_counters_id]. Qed.

Section alloc.
Context (key : memory → list Z) (kb : list Z) (flags et nb : Z).
Context (Hkb : Forall is_byte kb) (Hlen : (length kb < 255)%nat) (Het : 0 ≤ et < 2 ^ 32)
  (Hnb : 0 ≤ nb < 2 ^ 31) (Hdel : has flags ITEM_DELETED = false).
Let nk := Z.of_nat (length kb).

(** Every item that was live still is, with the same bytes. *)
Definition keeps_items (s s' : cache) : Prop :=
  ∀ e, live (log s) (ml s) e → item_agree (log s) (log s') e ∧ live (log s') (ml s') e.
Definition rest_same (s s' : cache) : Prop :=
  tab s' = tab s ∧ cfg s' = cfg s ∧ cas_id s' = cas_id s ∧ current_time s' = current_time s.

(** A successful attempt: [s0] is the state it started from, [s1] the log after
    it, [me'] the metadata with the slot [p] taken. *)
Section block.
Context (s s0 s1 : cache) (K : gmap (list Z) Z) (p : Z) (FL : list Z) (d : Z).
Context (me' : gmap Z item_metadata) (x : item_metadata).
Let cas := use_cas (cfg s).
Let size := item_ntotal nk flags nb cas.
Context (Hls : log_step s s0) (Hok0 : cache_ok s0 K (p :: FL)) (Ha : allocated s0 size (Some d) s1).
Context (Hkey : ∀ m', (∀ a, ¬ free_at (ml s) a → mget m' a = mget (log s) a) → key m' = kb).
Let lg' := write_header d key nk et nb (nsuffix_of flags nb) (suffix_of flags nb) cas (log s1).

Lemma block_size : size = 16 + (nk + 1) + nsuffix_of flags nb + nb + cas_bytes cas.
Proof. unfold size, nk. apply item_ntotal_eq; lia. Qed.

Lemma block_log_step : log_step s s1.
Proof. eapply log_step_trans; [exact Hls|by eapply allocated_log_step]. Qed.

(** The header in the block, and nothing else, is written. *)
Lemma block_header : same_outside (log s1) lg' d size ∧ fresh_item lg' d kb flags et nb cas.
Proof.
  pose proof block_size as Hsize. pose proof (nsuffix_of_range flags nb) as Hnsr.
  pose proof (cas_bytes_range cas) as Hcbr. destruct (al_block _ _ _ _ Ha d eq_refl) as (Hd0 & Hdl & _ & Hblk).
  assert (it_data_flags (log s1) d = 0) as Hz.
  { unfold it_data_flags. rewrite load_le_1. rewrite (al_untouched _ _ _ _ Ha d eq_refl) by lia.
    apply (ok_zero _ _ _ Hok0). apply Hblk. lia. }
  destruct (write_header_spec (log s1) d key kb nk et nb (nsuffix_of flags nb) (suffix_of flags nb) cas
    Hz Hkb eq_refl ltac:(lia) Het Hnb eq_refl ltac:(lia)
    (make_suffix_bytes _ _ (proj1 (u32_range flags)))) as (W1 & W2 & W3 & W4 & W5 & W6 & W7 & W8).
  { intros m' Hm'. apply Hkey. intros a Hna. destruct (ls_keep _ _ block_log_step a Hna) as [<- _].
    apply Hm'. destruct (decide (d ≤ a < d + size)) as [Hr|]; [|lia].
    exfalso. by apply (ls_keep _ _ Hls a Hna), Hblk. }
  fold lg' in W1, W2, W3, W4, W5, W6, W7, W8.
  split; [eapply same_outside_mono; [exact W1|lia|lia]|]. split; try done. fold nk size.
  rewrite ntotal_exact by lia. rewrite W2, W3, W4, W6, header_flags_only_cas, Hsize. unfold cas_bytes. lia.
Qed.

(** Live items lie elsewhere and keep their bytes. *)
Lemma block_live e :
  live (log s0) (ml s0) e → item_agree (log s1) lg' e ∧ ITEM_ntotal (log s1) e = ITEM_ntotal (log s0) e ∧
    (d + size ≤ e ∨ e + ITEM_ntotal (log s0) e ≤ d) ∧ apart lg' d e.
Proof.
  intros He. destruct (al_block _ _ _ _ Ha d eq_refl) as (_ & _ & _ & Hblk). destruct block_header as [Wout HF].
  pose proof block_size. pose proof (nsuffix_of_range flags nb). pose proof (cas_bytes_range cas).
  pose proof (allocated_agree _ _ _ _ _ Ha He) as Hag.
  pose proof (item_agree_fields _ _ _ (live_nbytes _ _ _ He) Hag) as (_ & _ & _ & _ & Hn & _).
  pose proof (free_block_apart (log s0) (ml s0) d size e ltac:(lia) ltac:(intros a Har; by apply Hblk) He) as Hd.
  assert (item_agree (log s1) lg' e) as Hag2 by (intros a Har; symmetry; apply Wout; lia).
  split_and!; try done. unfold apart. rewrite (fi_ntotal _ _ _ _ _ _ _ HF). fold nk size.
  pose proof (allocated_live _ _ _ _ _ Ha He) as He1.
  pose proof (item_agree_fields _ _ _ (live_nbytes _ _ _ He1) Hag2) as (_ & _ & _ & _ & -> & _). by rewrite Hn.
Qed.

Context (Hx : meta s0 !! p = Some x) (Hfl : freelist me' (head FL) FL)
  (Hch : changes_only (λ q, q ∈ p :: FL) (meta s0) me').
Let x' := fresh_meta cas (time x) d.
Let me2 := <[p := x']> me'.

Lemma block_slots : freelist me2 (head FL) FL ∧ changes_only (λ q, q ∈ p :: FL) (meta s0) me2.
Proof.
  split; [|apply changes_insert; [done|set_solver|eauto]].
  destruct Hfl as [Hfc Hnd]. split; [|done]. eapply fchain_ext; [|exact Hfc].
  intros q Hq. unfold me2. rewrite lookup_insert_ne; [done|].
  destruct (ok_free _ _ _ Hok0) as [_ [Hp0 _]%list.NoDup_cons]. set_solver.
Qed.

(** The item is in flight in the final state. *)
Lemma block_final c :
  let sF := set_cnt c (set_log lg' (set_first_free (head FL) (set_meta me2 s1))) in
  cache_ok sF K FL ∧ in_flight sF p x'.
Proof.
  intros sF. destruct (al_block _ _ _ _ Ha d eq_refl) as (Hd0 & Hdl & _ & Hblk).
  destruct block_header as [Wout HF]. destruct block_slots as [Hfl2 Hch2].
  pose proof (fi_ntotal _ _ _ _ _ _ _ HF) as Hnt. fold nk size in Hnt.
  pose proof (al_rest _ _ _ _ Ha) as (S1 & S2 & _). destruct (fresh_meta_flags cas (time x) d) as [Hnl Hns].
  assert (me2 !! p = Some x') as Hp2 by apply lookup_insert_eq. split.
  - eapply (take_slot_ok s1 K p FL me2 lg' x' d size c (allocated_ok _ _ _ _ _ _ Hok0 Ha)); try done.
    + by rewrite S1.
    + intros a Har. by apply Hblk.
    + intros q y Hy Hly. rewrite S1 in Hy. pose proof (ok_live _ _ _ Hok0 _ _ Hy Hly) as He.
      destruct (block_live _ He) as (_ & -> & Hd & _). done.
  - split; try done.
    + split; change (log sF) with lg'; cbn [item x' fresh_meta]; [done| | |].
      * change (item x') with d. rewrite (fi_nbytes _ _ _ _ _ _ _ HF). lia.
      * rewrite Hnt. change (ml sF) with (ml s1). rewrite (proj1 (al_limit _ _ _ _ Ha)). lia.
      * rewrite Hnt. intros a Har. by apply Hblk.
    + intros q y Hy Hly. apply block_live. change (meta sF) with me2 in Hy.
      assert (q ∉ p :: FL) as Hq.
      { intros [->|Hq]%elem_of_cons; [assert (y = x') by congruence; by subst y|].
        destruct (fchain_slabbed _ _ _ _ _ (proj1 Hfl2) Hq) as (z & Hz' & Hf).
        assert (z = y) as -> by congruence. by destruct (slabbed_not_linked _ Hf). }
      apply (ok_live _ _ _ Hok0 q); [|done]. by rewrite <- (proj2 Hch2 q Hq).
Qed.
End block.

Lemma do_item_alloc_spec s K p FL :
  cache_ok s K (p :: FL) → may_allocate (ml s) (item_ntotal nk flags nb (use_cas (cfg s))) →
  item_ntotal nk flags nb (use_cas (cfg s)) ≤ mem_limit (ml s) - 35 →
  (∀ m', (∀ a, ¬ free_at (ml s) a → mget m' a = mget (log s) a) → key m' = kb) →
  wp (do_item_alloc key nk flags et nb) s (λ '(r, ok) s',
    keeps_items s s' ∧ rest_same s s' ∧
    if has_room (ml s) (item_ntotal nk flags nb (use_cas (cfg s))) then
      r = Some p ∧ ok = true ∧ cache_ok s' K FL ∧
      changes_only (λ q, q ∈ p :: FL) (meta s) (meta s') ∧
      ∃ t d, in_flight s' p (fresh_meta (use_cas (cfg s)) t d) ∧
        fresh_item (log s') d kb flags et nb (use_cas (cfg s)) ∧
        ∀ e, live (log s) (ml s) e → apart (log s') d e
    else r = None ∧ ok = false ∧ cache_ok s' K (p :: FL) ∧ meta s' = meta s).
Proof.
  intros Hok Hmay Hle Hkey. unfold do_item_alloc. rewrite make_header_eq by (unfold nk; lia).
  wp_steps. eapply wp_mono; [|by apply (alloc_attempts_spec _ _ _ _ _ _ _ Hdel 3 0 s K p FL)].
  intros [[| |it] i] s9; [|done|].
  - intros (Hls & Hok1 & Hroom). rewrite Hroom by done. pose proof (ls_rest _ _ Hls) as (R1 & R2 & R3 & R4 & R5 & R6). wp_step.
    assert (∀ c, keeps_items s (set_cnt c s9) ∧ rest_same s (set_cnt c s9) ∧ cache_ok (set_cnt c s9) K (p :: FL) ∧
      meta (set_cnt c s9) = meta s) as H.
    { intros c. split; [|split; [done|split; [by apply ok_cnt|done]]]. intros e He. by apply (log_step_live s s9). }
    apply wp_when; intros _; wp_steps.
    + match goal with |- context [set_cnt ?c _] => destruct (H c) as (? & ? & ? & ?) end. eauto 10.
    + match goal with |- context [set_cnt ?c _] => destruct (H c) as (? & ? & ? & ?) end. eauto 10.
  - intros (-> & Hroom & s0 & Hls & Hok0 & d & s1 & me' & x & Ha & Hx & -> & Hp & Hfl & Hch).
    rewrite Hroom. wp_step. eapply wp_mono; [|apply when_counter]. intros _ s2 (c & ->).
    cbv zeta. pose proof (block_log_step s s0 s1 d Hls Ha) as Hls1. pose proof (ls_rest _ _ Hls) as (Q1 & _).
    destruct (block_header s s0 s1 K p FL d Hls Hok0 Ha Hkey) as [Wout HF].
    pose proof (block_live s s0 s1 K p FL d Hls Hok0 Ha Hkey) as Hdis.
    destruct (block_slots s s0 s1 K p FL d me' x Hls Hok0 Ha Hkey Hx Hfl Hch) as [_ Hch2].
    destruct (block_final s s0 s1 K p FL d me' x Hls Hok0 Ha Hkey Hx Hfl Hch c) as [Hfin Hfly].
    pose proof (ls_rest _ _ Hls1) as (R1 & R2 & R3 & R4 & R5 & R6).
    eapply wp_eq; [exact (alloc_tail key nk et nb (nsuffix_of flags nb) (suffix_of flags nb) (use_cas (cfg s))
      (set_cnt c (set_first_free (head FL) (set_meta me' s1))) p d x Hp)|].
    assert (∀ e, live (log s) (ml s) e → live (log s0) (ml s0) e) as Hl0
      by (intros e He; by apply (log_step_live s s0)).
    split; [|split; [done|]].
    { intros e He. destruct (log_step_live _ _ _ Hls1 He) as [Hag He1].
      destruct (Hdis e (Hl0 e He)) as (Hag2 & _). split; [|by apply (live_agree (log s1))].
      pose proof (item_agree_fields _ _ _ (live_nbytes _ _ _ He) Hag) as (_ & _ & _ & _ & Hn & _).
      unfold item_agree in *. eapply agree_trans; [exact Hag|]. by rewrite Hn in Hag2. }
    split; [done|]. split; [done|]. split; [done|]. split; [by rewrite <- Q1|].
    exists (time x), d. split; [done|split; [done|]]. intros e He. by apply Hdis, Hl0.
Qed.
End alloc.

(** ** The initial state *)
(** The slots [x - 1, ..., 0]. *)
Fixpoint down (n : nat) : list Z :=
  match n with O => [] | S n => Z.of_nat n :: down n end.
Lemma down_lt n q : q ∈ down n → 0 ≤ q < Z.of_nat n.
Proof.
  induction n as [|n IH]; cbn [down]; [by intros ?%elem_of_nil|].
  intros [->|Hq]%elem_of_cons; [lia|]. specialize (IH Hq). lia.
Qed.
Lemma down_nodup n : NoDup (down n).
Proof.
  induction n as [|n IH]; cbn [down]; [constructor|]. apply list.NoDup_cons. split; [|done].
  intros Hq%down_lt. lia.
Qed.
Lemma zeroed_lookup n q : 0 ≤ q < Z.of_nat n → zeroed_slots n !! q = Some zero_meta.
Proof.
  induction n as [|n IH]; [lia|]. cbn [zeroed_slots]. intros Hq.
  destruct (decide (q = Z.of_nat n)) as [->|]; [by rewrite lookup_insert_eq|].
  rewrite lookup_insert_ne by done. apply IH. lia.
Qed.

Lemma freelist_init_step_spec s n :
  freelist (meta s) (first_free s) (down n) → meta s !! Z.of_nat n = Some zero_meta →
  wp (freelist_init_step (Z.of_nat n)) s (λ _ s', ∃ me',
    s' = set_first_free (Some (Z.of_nat n)) (set_meta me' s) ∧
    freelist me' (Some (Z.of_nat n)) (down (S n)) ∧
    changes_only (λ q, q < Z.of_nat (S n)) (meta s) me').
Proof.
  intros [Hc Hnd] Hx. destruct s as [lg m me ff tb cf cn ci ct ps]. simpl_state.
  unfold freelist_init_step. wp_exec. meta_norm. destruct n as [|n].
  - cbn in Hc. subst ff. change (Z.of_nat 0) with 0 in *. rewrite Z.eqb_refl. wp_exec. meta_norm. eexists. split; [reflexivity|]. split.
    + split; [|apply (down_nodup 1)]. split; [done|]. eexists. rewrite lookup_insert_eq. done.
    + apply changes_insert; [apply changes_refl|cbn beta; lia|eauto].
  - replace (Z.of_nat (S n) =? 0) with false by (symmetry; apply Z.eqb_neq; lia).
    cbn [down fchain] in Hc. destruct Hc as (-> & y & Hy & Hyp & Hyf & Hc).
    wp_exec. replace (Z.of_nat (S n) - 1) with (Z.of_nat n) by lia.
    assert (Z.of_nat (S n) ≠ Z.of_nat n) by lia. wp_exec. meta_norm.
    eexists. split; [reflexivity|]. split.
    + split; [|apply (down_nodup (S (S n)))]. cbn [down]. split; [done|]. eexists.
      rewrite lookup_insert_ne, lookup_insert_eq by done. split_and!; [done..|]. cbn [next_free set_next_free].
      apply (fchain_ext (<[Z.of_nat n := set_prev_free (Some (Z.of_nat (S n))) y]> me)).
      { intros q Hq%(down_lt (S n)). destruct (decide (q = Z.of_nat n)) as [->|].
        - by rewrite !lookup_insert_eq.
        - rewrite !lookup_insert_ne by lia. done. }
      apply (fchain_relink _ None); [intros Hq%down_lt; lia|done|]. split; [done|]. eauto 10.
    + apply changes_insert; [|cbn beta; lia|eauto]. apply changes_insert; [apply changes_refl|cbn beta; lia|eauto].
Qed.

Lemma freelist_init_loop_spec n k s :
  freelist (meta s) (first_free s) (down k) →
  (∀ q, Z.of_nat k ≤ q < Z.of_nat (k + n) → meta s !! q = Some zero_meta) →
  wp (freelist_init_loop (Z.of_nat k) n) s (λ _ s', ∃ me' ff,
    s' = set_first_free ff (set_meta me' s) ∧ freelist me' ff (down (k + n)) ∧ dom me' = dom (meta s)).
Proof.
  revert k s; induction n as [|n IH]; intros k s Hf Hz; cbn [freelist_init_loop]; wp_step.
  - exists (meta s), (first_free s). rewrite Nat.add_0_r. by destruct s.
  - eapply wp_mono; [|apply freelist_init_step_spec; [done|apply Hz; lia]].
    intros _ s1 (me1 & -> & Hf1 & Hd1 & Hch1).
    replace (Z.of_nat k + 1) with (Z.of_nat (S k)) by lia.
    eapply wp_mono; [|apply (IH (S k)); [exact Hf1|]].
    + intros _ s2 (me2 & ff & -> & Hf2 & Hd2). exists me2, ff. split; [done|].
      replace (k + S n)%nat with (S k + n)%nat by lia. split; [done|]. cbn in Hd2. congruence.
    + intros q Hq. cbn. rewrite Hch1 by lia. apply Hz. lia.
Qed.

Lemma freelist_init_spec limit s :
  first_free s = None →
  let n := Z.to_nat (limit / SIZEOF_item_metadata) in
  wp (freelist_init limit true) s (λ _ s', ∃ me' ff,
    s' = set_first_free ff (set_meta me' s) ∧ freelist me' ff (down n) ∧ dom me' = dom (zeroed_slots n)).
Proof.
  intros Hff n. unfold freelist_init. wp_steps. fold n.
  eapply wp_mono; [|apply (freelist_init_loop_spec n 0)].
  - intros _ s' (me' & ff & -> & Hf & Hd). exists me', ff. by split_and!.
  - by split; [|constructor].
  - intros q Hq. apply zeroed_lookup. lia.
Qed.
