(* ===== verification/ItemClaims.v ===== *)
(** * The item layer: its contract, proved for every reachable shape of the state *)
From Stdlib Require Import ZArith Lia.
From stdpp Require Import strings prelude gmap list functions.
From S2P Require Import Prelude Mem Util Item State Memlog Assoc AssocFacts Items ItemFacts ItemSpec.

(** ** Start-up *)
(** The server right after [memlog_init], [assoc_init] and [freelist_init]. *)
Definition boot_with (h : list Z → Z) (m : memlog) (slots : Z) : cache :=
  final (freelist_init (slots * SIZEOF_item_metadata) true) (initial_cache h m).
Definition boot (h : list Z → Z) (slots : Z) : cache := boot_with h fresh_log slots.

Lemma zeroed_dom n : size (dom (zeroed_slots n)) = n.
Proof.
  rewrite size_dom. induction n as [|n IH]; [done|]. cbn [zeroed_slots].
  rewrite map_size_insert_None; [by rewrite IH|].
  apply not_elem_of_dom. clear IH. intros Hin.
  assert (∀ q, q ∈ dom (zeroed_slots n) → q < Z.of_nat n) as Hlt; [|specialize (Hlt _ Hin); lia].
  clear. induction n as [|n IH]; cbn [zeroed_slots]; intros q; [rewrite dom_empty_L; set_solver|].
  rewrite dom_insert_L. intros [->%elem_of_singleton|Hq%IH]%elem_of_union; lia.
Qed.

(** An empty log, an empty table and a free list of all the slots. *)
Lemma fresh_ok s n power :
  log s = ∅ → geometry (ml s) → tab s = empty_table power → 0 < power < 32 →
  freelist (meta s) (first_free s) (down n) → dom (meta s) = dom (zeroed_slots n) → Z.of_nat n < 2 ^ 32 →
  cache_ok s ∅ (down n).
Proof.
  intros Hlog Hgeo Htab Hpow Hfl Hdom Hn.
  assert (size (meta s) = n) as Hsz by (by rewrite <- size_dom, Hdom, zeroed_dom).
  assert (∀ p x, meta s !! p = Some x → p ∈ down n) as Hall.
  { intros p x Hx. assert (p ∈ dom (meta s)) as Hp by (apply elem_of_dom; eauto). rewrite Hdom in Hp.
    clear - Hp. induction n as [|n IH]; cbn [zeroed_slots down] in *; [rewrite dom_empty_L in Hp; set_solver|].
    rewrite dom_insert_L in Hp. set_solver. }
  assert (∀ p x, meta s !! p = Some x → ¬ is_linked x) as Hnl.
  { intros p x Hx. destruct (fchain_slabbed _ _ _ _ _ (proj1 Hfl) (Hall _ _ Hx)) as (y & Hy & Hf).
    assert (y = x) as -> by congruence. by destruct (slabbed_not_linked _ Hf). }
  split; try done.
  - exists (λ _ _, []). rewrite Htab. split; try done; try (intros; by constructor).
    + intros [] b _; cbn; by rewrite lookup_empty.
    + intros o b p. split; [by intros ?%elem_of_nil|]. intros (k & Hk & _). by rewrite lookup_empty in Hk.
    + lia.
  - intros p x Hx Hl. by destruct (Hnl _ _ Hx).
  - intros p x Hx Hl. by destruct (Hnl _ _ Hx).
  - intros p q x y Hx _ Hl. by destruct (Hnl _ _ Hx).
  - intros a _. by rewrite Hlog.
Qed.
Lemma boot_with_ok h m slots :
  0 ≤ slots < 2 ^ 32 → geometry m → cache_ok (boot_with h m slots) ∅ (down (Z.to_nat slots)).
Proof.
  intros Hn Hgeo. pose proof (freelist_init_spec (slots * SIZEOF_item_metadata) (initial_cache h m) eq_refl) as Hw.
  apply wp_final in Hw as (_ & me & ff & Hb & Hfl & Hdom). fold (boot_with h m slots) in Hb. rewrite Hb.
  rewrite Z.div_mul in Hfl, Hdom by done. apply (fresh_ok _ _ 16); try done. lia.
Qed.
Lemma boot_ok h slots : 0 ≤ slots < 2 ^ 32 → cache_ok (boot h slots) ∅ (down (Z.to_nat slots)).
Proof. intros Hn. by apply boot_with_ok; [|apply fresh_geometry]. Qed.

(** A successful allocation, from its computed result. *)
Lemma alloc_ok_computed kb flags et nb s K p FL :
  Forall is_byte kb → (length kb < 255)%nat → 0 ≤ et < 2 ^ 32 → 0 ≤ nb < 2 ^ 31 →
  has flags ITEM_DELETED = false → cache_ok s K (p :: FL) →
  may_allocate (ml s) (item_ntotal (Z.of_nat (length kb)) flags nb (use_cas (cfg s))) →
  item_ntotal (Z.of_nat (length kb)) flags nb (use_cas (cfg s)) ≤ mem_limit (ml s) - 35 →
  match do_item_alloc (λ _, kb) (Z.of_nat (length kb)) flags et nb s with
  | Ok ((Some _, _), _) => true | _ => false end = true →
  let s' := final (do_item_alloc (λ _, kb) (Z.of_nat (length kb)) flags et nb) s in
  cache_ok s' K FL ∧ ∃ t d, in_flight s' p (fresh_meta (use_cas (cfg s)) t d) ∧
    fresh_item (log s') d kb flags et nb (use_cas (cfg s)).
Proof.
  intros H1 H2 H3 H4 H5 Hok H6 H7 Hres.
  destruct (do_item_alloc_spec (λ _, kb) kb flags et nb H1 H2 H3 H4 H5 s K p FL Hok H6 H7 ltac:(done))
    as ([r ok] & s' & He & HQ). unfold final. rewrite He in *. cbv zeta.
  destruct HQ as (_ & _ & HQ). destruct (has_room _ _); [|by destruct HQ as (-> & _)].
  destruct HQ as (_ & _ & Hok' & _ & t & d & Hif & Hfi & _). eauto 10.
Qed.

(** A server that has allocated, and then linked, one item with key [a] and a
    value of seven bytes. *)
Definition one_hash : list Z → Z := λ _, 5.
Definition key_a : memory → list Z := λ _, str "a".
Definition allocated_one : cache := final (do_item_alloc key_a 1 0 0 7) (boot one_hash 4).
Definition linked_one : cache := final (do_item_link 3 5) allocated_one.

Lemma boot_room : may_allocate (ml (boot one_hash 4)) (item_ntotal 1 0 7 true) ∧
  item_ntotal 1 0 7 true ≤ mem_limit (ml (boot one_hash 4)) - 35.
Proof.
  rewrite item_ntotal_eq by lia. pose proof (nsuffix_of_range 0 7). unfold cas_bytes.
  change (ml (boot one_hash 4)) with fresh_log.
  split; [split; [lia|right; apply fresh_fits; lia]|]. unfold fresh_log, MEMLOG_DEFAULT_SIZE. simpl_state. lia.
Qed.

Lemma allocated_one_ok :
  cache_ok allocated_one ∅ [2; 1; 0] ∧ ∃ t d, in_flight allocated_one 3 (fresh_meta true t d) ∧
    fresh_item (log allocated_one) d (str "a") 0 0 7 true.
Proof.
  destruct boot_room as [H1 H2].
  exact (alloc_ok_computed (str "a") 0 0 7 (boot one_hash 4) ∅ 3 [2; 1; 0] (str_bytes _) ltac:(cbn; lia)
    ltac:(lia) ltac:(lia) eq_refl (boot_ok one_hash 4 ltac:(lia)) H1 H2 ltac:(vm_compute; reflexivity)).
Qed.

Lemma linked_one_ok : cache_ok linked_one {[ str "a" := 3 ]} [2; 1; 0].
Proof.
  destruct allocated_one_ok as (Hok & t & d & Hif & Hfi).
  pose proof (do_item_link_spec _ _ _ _ _ Hok Hif) as Hw. cbn [item fresh_meta] in Hw.
  rewrite (fi_key _ _ _ _ _ _ _ Hfi) in Hw. specialize (Hw eq_refl).
  change (hash (cfg allocated_one) (str "a")) with 5 in Hw.
  apply wp_final in Hw as (r & _ & H & _). exact H.
Qed.

(** C10: item allocation, for a key of at most 254 bytes, a value length below
    2^31, flags without the tombstone bit, a free metadata slot, and a size
    inside the allocator's contract (at most the log's size less 35, and wrapping
    only a linear log whose rest has at most 10^9+21 bytes).  The call succeeds
    exactly when the log has room (the rest of the log, or its freed beginning
    when a new cycle has to start).  Then the header and the key of the new item
    are written as requested into bytes apart from every live item, its metadata
    is the first slot of the freelist with one reference, and only freelist
    slots change; without room the call returns NULL and all metadata stays as it
    was.  In both cases every live item keeps its bytes and the cache its
    invariant. *)
Theorem do_item_alloc_correct (kb : list Z) (flags et nb : Z) (s : cache) (K : gmap (list Z) Z)
    (p : Z) (FL : list Z)
    (Hkb : Forall is_byte kb) (Hlen : (length kb < 255)%nat) (Het : 0 ≤ et < 2 ^ 32)
    (Hnb : 0 ≤ nb < 2 ^ 31) (Hdel : has flags ITEM_DELETED = false)
    (Hok : cache_ok s K (p :: FL))
    (Hmay : may_allocate (ml s) (item_ntotal (Z.of_nat (length kb)) flags nb (use_cas (cfg s))))
    (Hfit : item_ntotal (Z.of_nat (length kb)) flags nb (use_cas (cfg s)) ≤ mem_limit (ml s) - 35) :
  ∃ r ok s', do_item_alloc (λ _, kb) (Z.of_nat (length kb)) flags et nb s = Ok ((r, ok), s') ∧
    keeps_items s s' ∧
    if has_room (ml s) (item_ntotal (Z.of_nat (length kb)) flags nb (use_cas (cfg s))) then
      r = Some p ∧ ok = true ∧ cache_ok s' K FL ∧
      changes_only (λ q, q ∈ p :: FL) (meta s) (meta s') ∧
      ∃ t d, in_flight s' p (fresh_meta (use_cas (cfg s)) t d) ∧
        fresh_item (log s') d kb flags et nb (use_cas (cfg s)) ∧
        ∀ e, live (log s) (ml s) e → apart (log s') d e
    else r = None ∧ ok = false ∧ cache_ok s' K (p :: FL) ∧ meta s' = meta s.
Proof.
  destruct (do_item_alloc_spec (λ _, kb) kb flags et nb Hkb Hlen Het Hnb Hdel s K p FL Hok Hmay Hfit
    ltac:(done)) as ([r ok] & s' & He & Hk & _ & H).
  exists r, ok, s'. done.
Qed.

Lemma do_item_alloc_correct_witness :
  ∃ r ok s', do_item_alloc (λ _, str "a") 1 0 0 7 (boot one_hash 4) = Ok ((r, ok), s') ∧
    keeps_items (boot one_hash 4) s' ∧
    r = Some 3 ∧ ok = true ∧ cache_ok s' ∅ [2; 1; 0] ∧
    changes_only (λ q, q ∈ [3; 2; 1; 0]) (meta (boot one_hash 4)) (meta s') ∧
    ∃ t d, in_flight s' 3 (fresh_meta true t d) ∧ fresh_item (log s') d (str "a") 0 0 7 true ∧
      ∀ e, live (log (boot one_hash 4)) (ml (boot one_hash 4)) e → apart (log s') d e.
Proof.
  assert (has_room (ml (boot one_hash 4)) (item_ntotal 1 0 7 true) = true) as Hroom
    by (vm_compute; reflexivity).
  pose proof (do_item_alloc_correct (str "a") 0 0 7 (boot one_hash 4) ∅ 3 [2; 1; 0] (str_bytes _)
    ltac:(cbn; lia) ltac:(lia) ltac:(lia) eq_refl (boot_ok one_hash 4 ltac:(lia))
    (proj1 boot_room) (proj2 boot_room)) as H. change (Z.of_nat (length (str "a"))) with 1 in H.
  change (use_cas (cfg (boot one_hash 4))) with true in H. rewrite Hroom in H. exact H.
Defined.

(** Linking an item whose key is not in the cache makes the key map to it,
    adds one reference, stamps the time, leaves every other slot alone and
    changes no byte of the log but the new item's CAS field. *)
Theorem do_item_link_correct (s : cache) (K : gmap (list Z) Z) (FL : list Z) (p : Z)
    (x : item_metadata) (Hok : cache_ok s K FL) (Hfly : in_flight s p x)
    (Hnew : K !! item_key (log s) (item x) = None) :
  ∃ s', do_item_link p (hash (cfg s) (item_key (log s) (item x))) s = Ok (1, s') ∧
    cache_ok s' (<[item_key (log s) (item x) := p]> K) FL ∧
    (∃ v, meta s' = <[p := linked_meta (current_time s) v x]> (meta s)) ∧
    cas_only (log s) (log s') (item x).
Proof.
  destruct (do_item_link_spec s K FL p x Hok Hfly Hnew) as (r & s' & He & -> & H1 & H2 & H3 & _). eauto 10.
Qed.

Lemma do_item_link_correct_witness :
  ∃ x s', do_item_link 3 5 allocated_one = Ok (1, s') ∧
    cache_ok s' {[ str "a" := 3 ]} [2; 1; 0] ∧ cas_only (log allocated_one) (log s') (item x).
Proof.
  destruct allocated_one_ok as (Hok & t & d & Hif & Hfi). exists (fresh_meta true t d).
  pose proof (do_item_link_correct allocated_one ∅ [2; 1; 0] 3 (fresh_meta true t d) Hok Hif) as Hl.
  cbn [item fresh_meta] in Hl. rewrite (fi_key _ _ _ _ _ _ _ Hfi) in Hl.
  destruct (Hl eq_refl) as (s' & He & H1 & _ & H3). exists s'. split; [exact He|]. split; [exact H1|exact H3].
Defined.

(** Unlinking a linked item removes exactly its key, releases the table's
    reference and, when it was the last one, puts the slot on the freelist;
    log, settings and every other used slot stay. *)
Theorem do_item_unlink_correct (s : cache) (K : gmap (list Z) Z) (FL : list Z) (key : list Z)
    (p : Z) (x : item_metadata) (Hok : cache_ok s K FL) (HK : K !! key = Some p)
    (Hx : meta s !! p = Some x) :
  ∃ s', do_item_unlink p (hash (cfg s) key) s = Ok (tt, s') ∧ slot_frame p FL s s' ∧
    cache_ok s' (delete key K) (if refcount x =? 1 then p :: FL else FL).
Proof.
  destruct (do_item_unlink_spec s K FL key p x Hok HK Hx) as ([] & s' & He & Hf & H).
  exists s'. split; [done|]. split; [done|]. destruct (refcount x =? 1); [done|apply H].
Qed.

Lemma do_item_unlink_correct_witness :
  ∃ x s', do_item_unlink 3 5 linked_one = Ok (tt, s') ∧
    cache_ok s' (delete (str "a") {[ str "a" := 3 ]}) (if refcount x =? 1 then [3; 2; 1; 0] else [2; 1; 0]).
Proof.
  destruct (ok_linked _ _ _ linked_one_ok (str "a") 3 (lookup_singleton_eq _ _)) as (x & Hx & _).
  exists x. destruct (do_item_unlink_correct linked_one {[ str "a" := 3 ]} [2; 1; 0] (str "a") 3 x
    linked_one_ok (lookup_singleton_eq _ _) Hx) as (s' & He & _ & H). exists s'. split; [exact He|exact H].
Defined.



(** ** A client flag that is taken for a tombstone *)
Lemma tombstone_attempts n i s a (I : cache → Prop) :
  (∀ s', I s' → wp a s' (λ r s1, r = NoMemory ∧ I s1 ∨ r = Tombstone)) → I s →
  wp (alloc_attempts n i a) s (λ '(r, _) _, r = NoMemory ∨ r = Tombstone).
Proof.
  intros Ha. revert i s. induction n as [|n IH]; intros i s Hs; cbn [alloc_attempts]; wp_step.
  - by left.
  - eapply wp_mono; [|by apply Ha]. intros r s1 [(-> & ?) | ->]; [|by wp_steps; right].
    by apply IH.
Qed.

(** A request inside the allocator's contract, before and after a failed attempt. *)
Definition servable (size : Z) (s : cache) : Prop :=
  geometry (ml s) ∧ may_allocate (ml s) size ∧ size ≤ mem_limit (ml s) - 35.

(** Client flags and the tombstone bit share a parameter: an ordinary item
    stored with flag bit 128 set is never allocated (the client is told that the
    server is out of memory). *)
Theorem item_alloc_flag_128 (key : list Z) (flags et nb : Z) (s : cache)
    (Hserv : servable (item_ntotal (Z.of_nat (length key)) (u32 flags) nb (use_cas (cfg s))) s)
    (Hflag : has (u32 flags) ITEM_DELETED = true) :
  ∃ s', item_alloc key flags et nb s = Ok (None, s').
Proof.
  assert (wp (item_alloc key flags et nb) s (λ r _, r = None)) as (r & s' & He & ->); [|by exists s'].
  unfold item_alloc, do_item_alloc. wp_step.
  destruct (item_make_header _ _ _) as [[hd sf] ns]. wp_steps.
  eapply wp_mono; [|apply (tombstone_attempts 3 0 s _ (servable (item_ntotal (Z.of_nat (length key))
    (u32 flags) nb (use_cas (cfg s))))); [|done]].
  - intros [r i] s1 [-> | ->]; wp_steps; [|done].
    apply wp_when; intros _; wp_steps; done.
  - clear Hserv. intros s' (Hg & Hm & Hle). unfold alloc_attempt, memlog_alloc, do_memlog_alloc.
    do 2 wp_step. eapply wp_mono; [|by apply (memory_allocate_spec _ s')].
    intros r s1 Ha. destruct r as [d|]; wp_steps; [rewrite Hflag; wp_steps; by right|].
    left. split; [done|]. split_and!; [apply Ha|by apply Ha|by rewrite (proj1 (al_limit _ _ _ _ Ha))].
Qed.

Lemma item_alloc_flag_128_witness :
  ∃ s', item_alloc (str "a") 128 0 7 (boot one_hash 4) = Ok (None, s').
Proof.
  refine (item_alloc_flag_128 (str "a") 128 0 7 (boot one_hash 4) _ eq_refl).
  change (ml (boot one_hash 4)) with fresh_log.
  split; [exact fresh_geometry|].
  change (use_cas (cfg (boot one_hash 4))) with true. change (u32 128) with 128.
  change (Z.of_nat (length (str "a"))) with 1.
  rewrite item_ntotal_eq by lia. pose proof (nsuffix_of_range 128 7). unfold cas_bytes.
  split; [split; [lia|right; apply fresh_fits; lia]|]. change (mem_limit (ml (boot one_hash 4))) with (2 ^ 30). lia.
Defined.
