(* ===== verification/Clean.v ===== *)
(** * memlog.c, reclaiming side: the maintainer frees the oldest chunk of the log

    [memlog_free_item] frees the item the freeing position points at (and
    unlinks it if it is still the current version of its key),
    [memlog_free_chunk] an eighth of the log, [do_memlog_clean] settles the
    accounts of the allocator. *)
From Stdlib Require Import ZArith Lia.
From stdpp Require Import strings prelude gmap list functions.
From S2P Require Import Prelude Mem Util Item State Memlog Assoc AssocFacts Items ItemFacts ItemSpec ItemClaims.

(** Clear the item and step over it. *)
Definition advance (it ntotal : Z) : server Z :=
  _ ← upd_log (λ lg, memset0 lg it ntotal);
  _ ← upd_ml (λ m, set_mem_current_freeing (mem_current_freeing m + ntotal) m);
  mret ntotal.

Definition memlog_free_item : server Z :=
  m ← gets ml;
  lg ← gets log;
  let it := mem_current_freeing m in
  let ntotal := u32 (ITEM_ntotal lg it) in
  let flags := it_data_flags lg it in
  if has flags ITEM_CORRUPTED || has flags ITEM_DELETED then advance it ntotal
  else if has flags ITEM_CYCLE then advance it (u32 (nbytes lg it))
  else
    h ← gets (λ s : cache, hash (cfg s));
    let key := item_key lg it in
    let hv := h key in
    it_meta ← assoc_find key hv;
    _ ← match it_meta with
        | Some p =>
            x ← get_meta p;
            if item x =? it then do_item_unlink_nolock p hv else mret tt
        | None => mret tt
        end;
    advance it ntotal.

Definition free_chunk_body (to_free freed : Z) : server (Z + Z) :=
  if freed <? to_free then
    m ← gets ml;
    if u32 (mem_current_freeing m) >=? mem_limit m then mret (inr freed)
    else
      n ← memlog_free_item;
      mret (inl (u32 (freed + n)))
  else mret (inr freed).

Definition memlog_free_chunk : server Z :=
  m ← gets ml;
  loop FUEL (free_chunk_body (u32 (mem_limit m / 8))) 0.

(** The bookkeeping of [do_memlog_clean] for [freed] bytes. *)
Definition settle (freed : Z) (m : memlog) : memlog :=
  let m := if mem_current m <=? mem_current_freeing m
           then set_mem_avail (u64 (mem_avail m + freed)) m
           else set_mem_free_from_beginning (u64 (mem_free_from_beginning m + freed)) m in
  if mem_current_freeing m >=? mem_limit m then set_mem_current_freeing 0 m else m.

Definition do_memlog_clean : server Z :=
  freed ← memlog_free_chunk;
  _ ← when (freed >? 0)
        (_ ← upd_ml (settle freed);
         m ← gets ml;
         _ ← stats_put st_mem_avail (mem_avail m);
         _ ← stats_put st_mem_free_from_beginning (mem_free_from_beginning m);
         stats_put st_mem_current_freeing (mem_current_freeing m));
  mret freed.
Definition memlog_clean : server Z := do_memlog_clean.

(** One turn of the maintainer thread: clean when both free areas are below a
    quarter of the log. *)
Definition lru_maintainer_free : server Z :=
  s ← gets id;
  if (get_memory_limit s / 4 >=? get_memory_available s) &&
     (get_memory_limit s / 4 >=? get_memory_free_from_beginning s) then
    freed ← memlog_clean;
    mret (if freed >? 0 then 1 else 0)
  else mret 0.

(** ** Operations that do not look at the log positions *)
Definition ml_indep {A} (m : server A) : Prop := ∀ v s,
  m (set_ml v s) = match m s with Ok (a, s') => Ok (a, set_ml v s') | Fault f => Fault f end.

Section indep.
Context {A B : Type}.
Lemma indep_ret (a : A) : ml_indep (mret a).
Proof. done. Qed.
Lemma indep_fail f : ml_indep (A := A) (fail f).
Proof. done. Qed.
Lemma indep_bind (m : server A) (k : A → server B) :
  ml_indep m → (∀ a, ml_indep (k a)) → ml_indep (m ≫= k).
Proof.
  intros Hm Hk v s. unfold mbind, M_bind. rewrite Hm. destruct (m s) as [[a s']|f]; [|done]. apply Hk.
Qed.
Lemma indep_gets (f : cache → A) : (∀ v s, f (set_ml v s) = f s) → ml_indep (gets f).
Proof. intros Hf v s. unfold gets. by rewrite Hf. Qed.
Lemma indep_modify f : (∀ v s, f (set_ml v s) = set_ml v (f s)) → ml_indep (modify f).
Proof. intros Hf v s. unfold modify. by rewrite Hf. Qed.
Lemma indep_assert b : ml_indep (assert_ b).
Proof. by destruct b. Qed.
Lemma indep_when b m : ml_indep m → ml_indep (when b m).
Proof. by destruct b. Qed.
Lemma indep_get_meta p : ml_indep (get_meta p).
Proof. intros v s. unfold get_meta. cbn. by destruct (meta s !! p). Qed.
Lemma indep_upd_meta p f : ml_indep (upd_meta p f).
Proof. intros v s. unfold upd_meta. cbn. by destruct (meta s !! p). Qed.
Lemma indep_upd_log f : ml_indep (upd_log f).
Proof. done. Qed.
Lemma indep_upd_tab f : ml_indep (upd_tab f).
Proof. done. Qed.
Lemma indep_upd_cnt f : ml_indep (upd_cnt f).
Proof. done. Qed.
Lemma indep_if (b : bool) (m1 m2 : server A) : ml_indep m1 → ml_indep m2 → ml_indep (if b then m1 else m2).
Proof. by destruct b. Qed.
End indep.
Section indep_loops.
Context {A : Type}.
Lemma indep_iterate {X} n (body : X → server (X + A)) :
  (∀ x, ml_indep (body x)) → ∀ x, ml_indep (iterate n body x).
Proof.
  intros Hb. induction n as [|n IH]; intros x; cbn [iterate]; [done|].
  apply indep_bind; [done|]. by intros [x'|v].
Qed.
Lemma indep_loop {X} n (body : X → server (X + A)) x :
  (∀ x, ml_indep (body x)) → ml_indep (loop n body x).
Proof. intros Hb. apply indep_bind; [by apply indep_iterate|]. by intros [x'|v]. Qed.
End indep_loops.

Ltac indep :=
  repeat first
  [ apply indep_ret | apply indep_fail | apply indep_assert | apply indep_get_meta
  | apply indep_upd_meta | apply indep_upd_log | apply indep_upd_tab | apply indep_upd_cnt
  | apply indep_loop; intros | apply indep_bind; [|intros] | apply indep_when
  | apply indep_gets; intros; reflexivity | apply indep_modify; intros; reflexivity
  | match goal with |- ml_indep (if ?b then _ else _) => destruct b end
  | match goal with |- ml_indep (match ?b with _ => _ end) => destruct b end ].

Lemma indep_unlink p hv : ml_indep (do_item_unlink p hv).
Proof.
  unfold do_item_unlink, item_stats_sizes_remove, item_stats_sizes_bump, assoc_delete, _hashitem_before,
    before_body, read_link, write_link, do_item_unlink_q, do_item_remove, refcount_decr, item_free,
    freelist_free, do_freelist_free, state_add.
  indep.
Qed.
Lemma indep_find key hv : ml_indep (assoc_find key hv).
Proof. unfold assoc_find, find_body. indep. Qed.

Lemma indep_wp {A} (m : server A) v s Q :
  ml_indep m → wp m (set_ml v s) Q →
  wp m s (λ a s', Q a (set_ml v s') ∧ ml s' = ml s).
Proof.
  intros Hi (a & s2 & He & HQ). rewrite Hi in He. destruct (m s) as [[a' s']|f] eqn:Hm; [|done].
  injection He as <- <-. exists a', s'. split; [done|]. split; [done|].
  pose proof (Hi (ml s) s) as H2. replace (set_ml (ml s) s) with s in H2 by by destruct s.
  rewrite Hm in H2. injection H2 as H2. by rewrite H2.
Qed.

(** ** Tiles: the log is a sequence of items *)
(** What [memlog_free_item] steps over at [d]. *)
Definition tile_size (lg : memory) (d : Z) : Z :=
  let f := it_data_flags lg d in
  if has f ITEM_CORRUPTED || has f ITEM_DELETED then u32 (ITEM_ntotal lg d)
  else if has f ITEM_CYCLE then u32 (nbytes lg d)
  else u32 (ITEM_ntotal lg d).
Definition plain (lg : memory) (d : Z) : Prop :=
  has (it_data_flags lg d) ITEM_CORRUPTED || has (it_data_flags lg d) ITEM_DELETED = false ∧
  has (it_data_flags lg d) ITEM_CYCLE = false.

Fixpoint tiled (lg : memory) (a : Z) (T : list Z) (b : Z) : Prop :=
  match T with
  | [] => a = b
  | d :: T => d = a ∧ 16 ≤ tile_size lg d ∧ tiled lg (a + tile_size lg d) T b
  end.

Lemma tiled_le lg a T b : tiled lg a T b → a ≤ b.
Proof.
  revert a; induction T as [|d T IH]; intros a; cbn; [lia|]. intros (-> & H & Ht%IH). lia.
Qed.
Lemma tiled_in lg a T b d : tiled lg a T b → d ∈ T → a ≤ d ∧ d + tile_size lg d ≤ b.
Proof.
  revert a; induction T as [|e T IH]; intros a; [by intros _ ?%elem_of_nil|].
  intros (-> & H & Ht). pose proof (tiled_le _ _ _ _ Ht). intros [->|Hd]%elem_of_cons; [lia|].
  specialize (IH _ Ht Hd). lia.
Qed.
Lemma tile_size_agree m m' d : header_agree m m' d → tile_size m d = tile_size m' d.
Proof.
  intros H. unfold tile_size. rewrite (ITEM_ntotal_agree _ _ _ H).
  by apply header_fields in H as (_ & -> & _ & -> & _).
Qed.
(** Tiles only depend on the bytes they cover. *)
Lemma tiled_agree m m' a T b :
  (∀ c, a ≤ c → mget m' c = mget m c) → tiled m a T b → tiled m' a T b.
Proof.
  revert a; induction T as [|d T IH]; intros a Hag; cbn; [done|]. intros (-> & H & Ht).
  assert (tile_size m' a = tile_size m a) as ->.
  { apply tile_size_agree. intros c Hc. apply Hag. lia. }
  split_and!; try done. apply IH; [|done]. intros c Hc. apply Hag. lia.
Qed.

(** ** The accounts while a chunk is being freed *)
Section clean.
Context (m0 : memlog) (Hgeo : geometry m0).
(** The positions after [f] bytes, settled as at the end of the chunk. *)
Definition settled (f : Z) : memlog :=
  settle f (set_mem_current_freeing (mem_current_freeing m0 + f) m0).
(** End of the run of tiles in front of the freeing position. *)
Definition run_end : Z :=
  if mem_current m0 <=? mem_current_freeing m0 then mem_limit m0 else mem_current m0.
(** In a linear log the chunk must stay behind the allocation position. *)
Definition chunk_fits (f : Z) : Prop :=
  mem_current_freeing m0 + f ≤ run_end ∧
  (mem_current_freeing m0 < mem_current m0 → mem_current_freeing m0 + f < mem_current m0).

Lemma settled_cases f :
  0 ≤ f → chunk_fits f → (mem_current m0 ≤ mem_current_freeing m0 → wrapped m0) →
  geometry (settled f) ∧ mem_limit (settled f) = mem_limit m0 ∧
  mem_current (settled f) = mem_current m0 ∧
  ∀ a, free_at (settled f) a ↔ free_at m0 a ∨
    mem_current_freeing m0 ≤ a < mem_current_freeing m0 + f.
Proof.
  intros Hf [H1 H2] Hw. destruct Hgeo as [Hl Hg]. unfold settled, settle, run_end in *.
  simpl_state.
  destruct (mem_current m0 <=? mem_current_freeing m0) eqn:E; reflect_bools.
  - specialize (Hw ltac:(lia)). unfold wrapped in Hw.
    replace (mem_current m0 <=? mem_current_freeing m0 + f) with true by lia. simpl_state.
    rewrite u64_small by lia. rewrite Z.geb_leb.
    destruct (mem_limit m0 <=? mem_current_freeing m0 + f) eqn:E2; reflect_bools; simpl_state.
    + split_and!; try done.
      * split; [done|]. left. unfold linear. simpl_state. lia.
      * intros a. unfold free_at, linear, wrapped. simpl_state. lia.
    + split_and!; try done.
      * split; [done|]. right. unfold wrapped. simpl_state. lia.
      * intros a. unfold free_at, linear, wrapped. simpl_state. lia.
  - specialize (H2 ltac:(lia)). assert (linear m0) as Hlin
      by (destruct Hg as [?|Hw2]; [done|]; unfold wrapped in Hw2; lia).
    unfold linear in Hlin.
    replace (mem_current m0 <=? mem_current_freeing m0 + f) with false by lia. simpl_state.
    rewrite u64_small by lia. replace (_ >=? _) with false by (rewrite Z.geb_leb; lia). simpl_state.
    split_and!; try done.
    + split; [done|]. left. unfold linear. simpl_state. lia.
    + intros a. unfold free_at, linear, wrapped. simpl_state. lia.
Qed.
End clean.

(** No linked item is left at [d]; every other binding stays. *)
Record evicted_at (d : Z) (s : cache) (K : gmap (list Z) Z) (s1 : cache) (K1 : gmap (list Z) Z) : Prop := {
  ev_log : log s1 = log s;
  ev_ml : ml s1 = ml s;
  ev_cfg : cfg s1 = cfg s ∧ current_time s1 = current_time s;
  ev_meta : ∀ q y1, meta s1 !! q = Some y1 → is_linked y1 →
    item y1 ≠ d ∧ ∃ y, meta s !! q = Some y ∧ is_linked y ∧ item y = item y1;
  ev_table : ∀ k q, K1 !! k = Some q ↔
    K !! k = Some q ∧ ∀ y, meta s !! q = Some y → item y ≠ d
}.

Lemma evicted_none d s K FL :
  cache_ok s K FL → (∀ q y, meta s !! q = Some y → is_linked y → item y ≠ d) → evicted_at d s K s K.
Proof.
  intros Hok Hn. split; try done.
  - intros q y Hy Hl. split; [by eapply Hn|]. eauto.
  - intros k q. split; [|tauto]. intros Hk. split; [done|]. intros y Hy.
    destruct (ok_linked _ _ _ Hok _ _ Hk) as (y' & Hy' & Hl & _).
    assert (y' = y) as -> by congruence. by eapply Hn.
Qed.

(** Looking up the item at [d] and unlinking it if it is the current one. *)
Lemma evict_spec s v K FL d :
  cache_ok (set_ml v s) K FL →
  let key := item_key (log s) d in
  wp (it_meta ← assoc_find key (hash (cfg s) key);
      match it_meta with
      | Some p => x ← get_meta p;
          if item x =? d then do_item_unlink_nolock p (hash (cfg s) key) else mret tt
      | None => mret tt
      end) s (λ _ s1, ∃ K1 FL1, cache_ok (set_ml v s1) K1 FL1 ∧ evicted_at d s K s1 K1).
Proof.
  intros Hok key. wp_step.
  assert (assoc_find key (hash (cfg s) key) s = Ok (K !! key, s)) as Hfind
    by (apply assoc_find_spec; [apply (ok_rep _ _ _ Hok)|apply item_key_bytes]).
  eapply wp_eq; [exact Hfind|].
  assert (∀ q y, meta s !! q = Some y → is_linked y → item y = d → K !! key = Some q) as Hat.
  { intros q y Hy Hl <-. exact (ok_table _ _ _ Hok _ _ Hy Hl). }
  assert ((∀ q y, meta s !! q = Some y → is_linked y → item y ≠ d) →
    ∃ K1 FL1, cache_ok (set_ml v s) K1 FL1 ∧ evicted_at d s K s K1) as Hnone.
  { intros Hn. exists K, FL. split; [done|].
    destruct (evicted_none d _ _ _ Hok Hn) as [_ _ _ E4 E5]. by split. }
  destruct (K !! key) as [p|] eqn:HK.
  2:{ wp_steps. apply Hnone. intros q y Hy Hl E. by specialize (Hat _ _ Hy Hl E). }
  destruct (ok_linked _ _ _ Hok _ _ HK) as (x & Hx & Hlx & Hsx & Hrx). cbn in Hx.
  wp_steps. destruct (item x =? d) eqn:E; reflect_bools.
  2:{ wp_steps. apply Hnone. intros q y Hy Hl E'. assert (p = q) as ->
        by (specialize (Hat _ _ Hy Hl E'); congruence). congruence. }
  rewrite do_item_unlink_nolock_eq.
  pose proof (indep_wp _ v s _ (indep_unlink _ _)
    (do_item_unlink_spec (set_ml v s) K FL key p x Hok HK Hx)) as Hw.
  eapply wp_mono; [|exact Hw].
  intros _ s1 ([[F1 _ F3 F4 F5 F6] Hc] & Hml).
  cbn [log cfg meta current_time set_ml] in F1, F3, F4, F6.
  exists (delete key K), (if refcount x =? 1 then p :: FL else FL).
  assert (cache_ok (set_ml v s1) (delete key K) (if refcount x =? 1 then p :: FL else FL)) as Hok1
    by (destruct (refcount x =? 1); [done|apply Hc]).
  split; [done|].
  assert (∀ k q, delete key K !! k = Some q ↔ K !! k = Some q ∧ ∀ y, meta s !! q = Some y → item y ≠ d) as Htab.
  { intros k q. rewrite lookup_delete_Some. split.
    - intros [Hne Hk]. split; [done|]. intros y Hy Ey.
      destruct (ok_linked _ _ _ Hok _ _ Hk) as (y' & Hy' & Hly & _). cbn in Hy'.
      assert (y' = y) as -> by congruence. pose proof (Hat _ _ Hy Hly Ey) as Hpq.
      assert (p = q) as <- by congruence. destruct (ok_rep _ _ _ Hok) as [C HR].
      by apply Hne, (repr_inj HR _ _ p).
    - intros [Hk Hne]. split; [|done]. intros <-. assert (p = q) as <- by congruence.
      by apply (Hne x Hx). }
  split; try done.
  intros q y1 Hy1 Hl1.
  pose proof (ok_table _ _ _ Hok1 _ _ Hy1 Hl1) as Hk1. apply Htab in Hk1 as [Hk Hne].
  destruct (ok_linked _ _ _ Hok _ _ Hk) as (y & Hy & Hly & Hsy & _). cbn in Hy.
  assert (q ≠ p) as Hqp by (intros ->; apply (Hne x Hx); done).
  assert (q ∉ FL) as HqF by exact (free_slot _ _ _ _ _ Hok Hy Hsy).
  destruct (F6 q y Hqp HqF Hy) as [w Hw']. assert (y1 = set_h_next w y) as -> by (cbn in Hy1; congruence).
  split; [exact (Hne y Hy)|]. eauto.
Qed.

(** ** Freeing a chunk *)
Section chunk.
Context (s0 : cache) (K0 : gmap (list Z) Z) (biggest : Z).
Let m0 := ml s0.
Let fr0 := mem_current_freeing m0.
Let e := run_end m0.
Context (Hgeo : geometry m0) (Hwrap : mem_current m0 ≤ fr0 → wrapped m0).

(** After [f] bytes: the tiles [T] are still to do, the table holds the items
    that lie elsewhere, and their bytes are those of the start. *)
Record cleaning (f : Z) (s : cache) (K : gmap (list Z) Z) (FL : list Z) (T : list Z) : Prop := {
  cl_ml : ml s = set_mem_current_freeing (fr0 + f) m0;
  cl_ok : cache_ok (set_ml (settled m0 f) s) K FL;
  cl_fits : 0 ≤ f ∧ chunk_fits m0 f;
  cl_tiled : tiled (log s) (fr0 + f) T e;
  cl_small : ∀ d, d ∈ T → tile_size (log s) d ≤ biggest;
  cl_items : ∀ p x, meta s !! p = Some x → is_linked x →
    (item x ∈ T ∧ plain (log s) (item x)) ∨
    item x + ITEM_ntotal (log s) (item x) ≤ fr0 + f ∨ e ≤ item x;
  cl_same : ∀ p x, meta s !! p = Some x → is_linked x →
    ∃ x0, meta s0 !! p = Some x0 ∧ item x0 = item x ∧ 0 ≤ nbytes (log s0) (item x) ∧
      item_agree (log s0) (log s) (item x);
  cl_table : ∀ key p, K !! key = Some p ↔
    K0 !! key = Some p ∧ ∃ x0, meta s0 !! p = Some x0 ∧ ¬ (fr0 ≤ item x0 < fr0 + f);
  cl_rest : cfg s = cfg s0 ∧ current_time s = current_time s0
}.

Lemma tile_bounds f s K FL d T :
  cleaning f s K FL (d :: T) →
  d = fr0 + f ∧ 16 ≤ tile_size (log s) d ∧ d + tile_size (log s) d ≤ e ∧ 0 ≤ d.
Proof.
  intros [C1 C2 [C3 _] C4 _ _ _ _ _]. destruct C4 as (-> & Hn & Ht). pose proof (tiled_le _ _ _ _ Ht).
  assert (0 ≤ fr0) by (unfold fr0; destruct Hgeo as [_ [G|G]]; unfold linear, wrapped in G; lia).
  lia.
Qed.

(** Clearing the tile [d], at which no linked item of [s1] starts any more. *)
Section tile.
Context (f : Z) (s : cache) (K : gmap (list Z) Z) (FL : list Z) (d : Z) (T : list Z).
Context (s1 : cache) (K1 : gmap (list Z) Z) (FL1 : list Z).
Context (HC : cleaning f s K FL (d :: T)) (Hok1 : cache_ok (set_ml (settled m0 f) s1) K1 FL1).
Context (Hev : evicted_at d s K s1 K1) (Hfit : chunk_fits m0 (f + tile_size (log s) d)).
Let n := tile_size (log s) d.
Let lg' := memset0 (log s1) d n.

(** Linked items are away from the tile. *)
Lemma tile_away q y1 :
  meta s1 !! q = Some y1 → is_linked y1 → ∃ y, meta s !! q = Some y ∧ is_linked y ∧
    item y = item y1 ∧ ((item y ∈ T ∧ plain (log s) (item y) ∧ d + n ≤ item y) ∨
      item y + ITEM_ntotal (log s) (item y) ≤ d ∨ e ≤ item y).
Proof.
  destruct Hev as [E1 E2 _ E4 E5]. destruct (tile_bounds _ _ _ _ _ _ HC) as (Hd & _).
  intros Hy1 Hl1. destruct (E4 _ _ Hy1 Hl1) as (Hne & y & Hy & Hly & Hi). exists y. split_and!; try done.
  destruct (cl_items _ _ _ _ _ HC _ _ Hy Hly) as [[Hin Hpl]|[?|?]]; [|rewrite Hd; tauto|tauto].
  left. apply elem_of_cons in Hin as [?|Hin]; [congruence|].
  destruct (cl_tiled _ _ _ _ _ HC) as (_ & _ & Ht). destruct (tiled_in _ _ _ _ _ Ht Hin).
  split_and!; try done. unfold n. lia.
Qed.

Lemma tile_outside a : ¬ (d ≤ a < d + n) → mget lg' a = mget (log s) a.
Proof. intros Ha. unfold lg'. by rewrite (ev_log _ _ _ _ _ Hev), mget_memset0, bool_decide_eq_false_2. Qed.

(** So their bytes and their fields stay. *)
Lemma tile_agree q y1 :
  meta s1 !! q = Some y1 → is_linked y1 → item_agree (log s) lg' (item y1).
Proof.
  intros Hy1 Hl1 a Ha. destruct (tile_away _ _ Hy1 Hl1) as (y & Hy & Hly & Hi & Hcase).
  destruct (tile_bounds _ _ _ _ _ _ HC) as (_ & _ & Hde & _). symmetry. apply tile_outside.
  rewrite <- Hi in Ha. fold n in Hde. destruct Hcase as [(_ & _ & ?)|[?|?]]; lia.
Qed.

Lemma tile_nbytes q y1 : meta s1 !! q = Some y1 → is_linked y1 → 0 ≤ nbytes (log s) (item y1).
Proof.
  intros Hy1 Hl1. destruct (tile_away _ _ Hy1 Hl1) as (y & Hy & Hly & <- & _).
  apply (ok_live _ _ _ (cl_ok _ _ _ _ _ HC) _ _ Hy Hly).
Qed.

Lemma tile_fields q y1 :
  meta s1 !! q = Some y1 → is_linked y1 →
  item_key lg' (item y1) = item_key (log s) (item y1) ∧
  ITEM_ntotal lg' (item y1) = ITEM_ntotal (log s) (item y1).
Proof.
  intros Hy1 Hl1.
  pose proof (item_agree_fields _ _ _ (tile_nbytes _ _ Hy1 Hl1) (tile_agree _ _ Hy1 Hl1)) as (? & _ & _ & _ & ? & _).
  done.
Qed.

(** The tile is free in the settled log. *)
Lemma tile_free a :
  free_at (settled m0 (f + n)) a → free_at (settled m0 f) a ∨ d ≤ a < d + n.
Proof.
  destruct (cl_fits _ _ _ _ _ HC) as [C3 C3']. destruct (tile_bounds _ _ _ _ _ _ HC) as (Hd & Hn & _).
  fold n in Hn. unfold fr0 in Hd.
  destruct (settled_cases m0 Hgeo (f + n) ltac:(lia) Hfit Hwrap) as (_ & _ & _ & G4).
  destruct (settled_cases m0 Hgeo f C3 C3' Hwrap) as (_ & _ & _ & G4').
  intros Hfa. destruct (decide (d ≤ a < d + n)); [by right|left]. apply G4'. apply G4 in Hfa as [?|?]; [by left|].
  right. lia.
Qed.

Lemma tile_settled_ok s' :
  s' = set_log lg' (set_ml (settled m0 (f + n)) s1) → cache_ok s' K1 FL1.
Proof.
  intros ->. destruct (cl_fits _ _ _ _ _ HC) as [C3 C3']. destruct (tile_bounds _ _ _ _ _ _ HC) as (_ & Hn & Hde & _).
  fold n in Hn, Hde. pose proof (ev_log _ _ _ _ _ Hev) as E1.
  destruct (settled_cases m0 Hgeo (f + n) ltac:(lia) Hfit Hwrap) as (G1 & G2 & G3 & _).
  destruct (settled_cases m0 Hgeo f C3 C3' Hwrap) as (_ & G2' & _).
  destruct Hok1 as [[C HR] O2 O3 O4 O5 O6 O7 O8]. split; cbn [ml log meta tab cfg first_free set_ml set_log]; try done.
  - exists C. eapply repr_frame; [| |exact HR]; [|done]. intros key q y Hk Hy. exists y.
    destruct (O3 _ _ Hk) as (y' & Hy' & Hl' & _). cbn in Hy, Hy'. assert (y' = y) as -> by congruence.
    split_and!; try done. cbn. rewrite E1. by apply (tile_fields q).
  - intros q y Hy Hl. rewrite (proj1 (tile_fields _ _ Hy Hl)), <- E1. exact (O4 _ _ Hy Hl).
  - intros q y Hy Hl. pose proof (O5 _ _ Hy Hl) as L. cbn in L. rewrite E1 in L.
    apply (live_agree _ _ _ _ (tile_agree _ _ Hy Hl)). destruct L as [L1 L2 L3 L4].
    split; [done|done|by rewrite G2, <- G2'|]. intros a Ha [Hfa|Hin]%tile_free; [by apply (L4 a Ha)|].
    destruct (tile_away _ _ Hy Hl) as (y0 & Hy0 & Hly0 & Hi & Hcase). rewrite <- Hi in Ha.
    destruct Hcase as [(_ & _ & ?)|[?|?]]; lia.
  - intros q r y z Hy Hz Hly Hlz Hqr. pose proof (O6 q r y z Hy Hz Hly Hlz Hqr) as Hap. cbn in Hap.
    rewrite E1 in Hap. apply (apart_agree (log s)); eauto using tile_agree, tile_nbytes.
  - intros a Hfa. destruct (decide (d ≤ a < d + n)) as [Hin|Hno].
    { unfold lg'. rewrite mget_memset0, bool_decide_eq_true_2; done. }
    rewrite tile_outside by done. rewrite <- E1. apply O8. cbn. by destruct (tile_free a Hfa).
Qed.

(** The items that have left the table are those of the tiles done so far. *)
Lemma tile_table k q :
  K1 !! k = Some q ↔ K0 !! k = Some q ∧ ∃ x0, meta s0 !! q = Some x0 ∧ ¬ (fr0 ≤ item x0 < fr0 + (f + n)).
Proof.
  destruct (tile_bounds _ _ _ _ _ _ HC) as (Hd & Hn & Hde & _). fold n in Hn, Hde.
  pose proof HC as [_ C2 [C3 _] (_ & _ & Ht) _ C5 C6 C7 _]. fold n in Ht.
  rewrite (ev_table _ _ _ _ _ Hev), C7. split.
  - intros [[Hk (x0 & Hx0 & Hno)] Hne]. split; [done|]. exists x0. split; [done|].
    intros Hin. destruct (decide (d ≤ item x0)) as [Hge|]; [|lia].
    assert (K !! k = Some q) as HKq by (apply C7; eauto).
    destruct (ok_linked _ _ _ C2 _ _ HKq) as (y & Hy & Hly & _). cbn in Hy.
    destruct (C6 _ _ Hy Hly) as (x0' & Hx0' & Hi0 & _). assert (x0' = x0) as -> by congruence.
    specialize (Hne y Hy). destruct (C5 _ _ Hy Hly) as [[Hin' _]|[Hle|?]]; [| |lia].
    + apply elem_of_cons in Hin' as [?|Hin']; [congruence|]. destruct (tiled_in _ _ _ _ _ Ht Hin'). lia.
    + pose proof (ok_live _ _ _ C2 _ _ Hy Hly) as L. cbn in L.
      pose proof (cas_size_le _ _ (live_nbytes _ _ _ L)). pose proof (cas_size_range (log s) (item y)).
      pose proof (nkey_range (log s) (item y)). pose proof (nsuffix_range (log s) (item y)).
      pose proof (live_nbytes _ _ _ L). lia.
  - intros [Hk (x0 & Hx0 & Hno)]. split; [split; [done|]; exists x0; split; [done|lia]|].
    intros y Hy E. assert (K !! k = Some q) as HKq by (apply C7; split; [done|]; exists x0; split; [done|lia]).
    destruct (ok_linked _ _ _ C2 _ _ HKq) as (y' & Hy' & Hly & _). cbn in Hy'.
    assert (y' = y) as -> by congruence.
    destruct (C6 _ _ Hy Hly) as (x0' & Hx0' & Hi0 & _). assert (x0' = x0) as -> by congruence. lia.
Qed.

Lemma advance_spec :
  wp (advance d n) s1 (λ r s', r = n ∧ cleaning (f + n) s' K1 FL1 T).
Proof.
  destruct (tile_bounds _ _ _ _ _ _ HC) as (Hd & Hn & Hde & Hd0). fold n in Hn, Hde.
  pose proof HC as [C1 C2 [C3 C3'] (_ & _ & Ht) Csm C5 C6 C7 [C8 C8']]. fold n in Ht.
  pose proof Hev as [_ E2 [E3 E3'] _ _].
  unfold advance. wp_steps. split; [done|]. fold lg'. set (s' := set_ml _ _).
  split; change (log s') with lg'; change (meta s') with (meta s1).
  - unfold s'. cbn [ml set_ml]. change (ml (set_log lg' s1)) with (ml s1). rewrite E2, C1.
    unfold set_mem_current_freeing. cbn. f_equal. lia.
  - by apply tile_settled_ok.
  - split; [lia|done].
  - rewrite Z.add_assoc. eapply tiled_agree; [|exact Ht]. intros c Hc. apply tile_outside. lia.
  - intros d' Hd'. destruct (tiled_in _ _ _ _ _ Ht Hd') as [Hge _].
    rewrite (tile_size_agree lg' (log s)); [apply Csm; set_solver|]. intros c Hc. apply tile_outside. lia.
  - intros q y1 Hy1 Hl1. destruct (tile_away _ _ Hy1 Hl1) as (y & Hy & Hly & Hi & Hcase).
    rewrite (proj2 (tile_fields _ _ Hy1 Hl1)), <- Hi. destruct Hcase as [(Hin & Hpl & _)|[?|?]]; [left|right; lia|tauto].
    split; [done|]. unfold plain in *.
    assert (header_agree (log s) lg' (item y)) as Hh
      by (rewrite Hi; apply item_agree_header; eauto using tile_agree, tile_nbytes).
    by apply header_fields in Hh as (_ & _ & _ & <- & _).
  - intros q y1 Hy1 Hl1. destruct (tile_away _ _ Hy1 Hl1) as (y & Hy & Hly & Hi & _).
    destruct (C6 _ _ Hy Hly) as (x0 & Hx0 & Hi0 & Hb0 & Hag0). exists x0. split; [done|].
    pose proof (tile_agree _ _ Hy1 Hl1) as Hag1. rewrite <- Hi in *. split; [done|]. split; [done|].
    unfold item_agree in *. eapply agree_trans; [exact Hag0|].
    by pose proof (item_agree_fields _ _ _ Hb0 Hag0) as (_ & _ & _ & _ & <- & _).
  - apply tile_table.
  - change (cfg s1 = cfg s0 ∧ current_time s1 = current_time s0). split; congruence.
Qed.
End tile.

Lemma free_item_spec f s K FL d T :
  cleaning f s K FL (d :: T) → chunk_fits m0 (f + tile_size (log s) d) →
  wp memlog_free_item s (λ r s', r = tile_size (log s) d ∧
    ∃ K1 FL1, cleaning (f + tile_size (log s) d) s' K1 FL1 T).
Proof.
  intros HC Hfit. destruct (tile_bounds _ _ _ _ _ _ HC) as (Hd & Hn & Hde & Hd0).
  pose proof (cl_ok _ _ _ _ _ HC) as Hok.
  assert (mem_current_freeing (ml s) = d) as Hfr by (rewrite (cl_ml _ _ _ _ _ HC); by subst d).
  assert (∀ q y, meta s !! q = Some y → is_linked y → item y = d → plain (log s) d) as Hplain.
  { intros q y Hy Hl <-. destruct (cl_items _ _ _ _ _ HC _ _ Hy Hl) as [[_ ?]|[Hle|?]]; [done| |lia].
    pose proof (ok_live _ _ _ Hok _ _ Hy Hl) as L. cbn in L. pose proof (cas_size_le _ _ (live_nbytes _ _ _ L)).
    pose proof (cas_size_range (log s) (item y)). pose proof (nkey_range (log s) (item y)).
    pose proof (nsuffix_range (log s) (item y)). pose proof (live_nbytes _ _ _ L). lia. }
  assert (∀ s1 K1 FL1, cache_ok (set_ml (settled m0 f) s1) K1 FL1 → evicted_at d s K s1 K1 →
    wp (advance d (tile_size (log s) d)) s1 (λ r s', r = tile_size (log s) d ∧
      ∃ K1 FL1, cleaning (f + tile_size (log s) d) s' K1 FL1 T)) as Hadv.
  { intros s1 K1 FL1 Hok1 Hev. eapply wp_mono; [|by eapply (advance_spec f s K FL d T s1 K1 FL1)].
    intros r s' [-> ?]. eauto. }
  assert (¬ plain (log s) d → evicted_at d s K s K) as Hquiet.
  { intros Hnp. destruct (evicted_none d _ _ _ Hok) as [_ _ _ E4 E5]; [|by split].
    intros q y Hy Hl E. apply Hnp. by eapply Hplain. }
  unfold memlog_free_item. do 4 wp_step. rewrite Hfr. unfold plain in Hquiet. unfold tile_size in Hadv |- *.
  cbv zeta in Hadv |- *.
  destruct (has (it_data_flags (log s) d) ITEM_CORRUPTED || has (it_data_flags (log s) d) ITEM_DELETED) eqn:F1.
  { apply (Hadv s K FL Hok). apply Hquiet. by intros []. }
  destruct (has (it_data_flags (log s) d) ITEM_CYCLE) eqn:F2.
  { apply (Hadv s K FL Hok). apply Hquiet. by intros []. }
  do 2 wp_step.
  pose proof (evict_spec s (settled m0 f) K FL d Hok) as Hev. cbv zeta in Hev.
  apply wp_bind. destruct Hev as (u & s1 & Hrun & K1 & FL1 & Hok1 & Hev).
  apply bind_inv in Hrun as (r & s2 & Hr & Hrun). eapply wp_eq; [exact Hr|]. wp_step.
  eapply wp_eq; [exact Hrun|]. by apply (Hadv s1 K1 FL1).
Qed.

(** In a linear log the allocation position is far enough ahead. *)
Context (Hroom : fr0 < mem_current m0 → fr0 + mem_limit m0 / 8 + biggest < mem_current m0).

Lemma fr0_range : 0 ≤ fr0 < mem_limit m0 ∧ 0 ≤ mem_current m0 ∧ mem_current m0 + 35 ≤ mem_limit m0.
Proof.
  unfold fr0. destruct Hgeo as [Hl [G|G]]; unfold linear, wrapped in G; lia.
Qed.

Lemma fits_next f s K FL d T :
  cleaning f s K FL (d :: T) → f < mem_limit m0 / 8 → chunk_fits m0 (f + tile_size (log s) d).
Proof.
  intros HC Hf. destruct (tile_bounds _ _ _ _ _ _ HC) as (Hd & Hn & Hde & Hd0).
  pose proof (cl_small _ _ _ _ _ HC d ltac:(set_solver)) as Hs. fold fr0. split; fold fr0 e.
  - lia.
  - intros Hlt. specialize (Hroom Hlt). lia.
Qed.

Lemma no_tiles f s K FL : cleaning f s K FL [] → mem_limit m0 ≤ fr0 + f.
Proof.
  intros HC. pose proof (cl_tiled _ _ _ _ _ HC) as Ht. cbn in Ht.
  destruct (cl_fits _ _ _ _ _ HC) as [_ [_ Hs]]. fold fr0 in Hs. unfold e, run_end in Ht. fold fr0 in Ht.
  destruct (mem_current m0 <=? fr0) eqn:E; reflect_bools; [lia|]. specialize (Hs ltac:(lia)). lia.
Qed.

Lemma free_chunk_spec FL T :
  cleaning 0 s0 K0 FL T →
  wp memlog_free_chunk s0 (λ freed s', 0 < freed ∧
    (mem_limit m0 / 8 ≤ freed ∨ mem_limit m0 ≤ fr0 + freed) ∧
    ∃ K' FL' T', cleaning freed s' K' FL' T').
Proof.
  intros HC. pose proof fr0_range as (Hf0 & Hc0 & Hcl). destruct Hgeo as [Hl _].
  assert (0 < mem_limit m0 / 8 ≤ mem_limit m0) as H8.
  { split; [apply Z.div_str_pos; lia|]. apply Z.div_le_upper_bound; lia. }
  unfold memlog_free_chunk. do 2 wp_step. fold m0. rewrite (u32_small (mem_limit m0 / 8)) by lia.
  eapply (loop_rule _ _ (λ k f s, k = mem_limit m0 - f ∧ ∃ K FL T, cleaning f s K FL T)
    _ (mem_limit m0)); [| |change (2 ^ Z.of_nat FUEL) with (2 ^ 64); lia].
  2:{ split; [lia|]. eauto. }
  intros k f s (-> & K & FL1 & T1 & HC1). unfold free_chunk_body.
  pose proof (cl_fits _ _ _ _ _ HC1) as [Hfp [Hfe _]]. fold fr0 e in Hfe.
  assert (e ≤ mem_limit m0) as He by (unfold e, run_end; destruct (_ <=? _); lia).
  destruct (f <? mem_limit m0 / 8) eqn:E; reflect_bools.
  2:{ wp_steps. split; [lia|]. split; [by left|]. eauto. }
  wp_steps. rewrite (cl_ml _ _ _ _ _ HC1). cbn [mem_current_freeing mem_limit set_mem_current_freeing].
  rewrite u32_small by lia. rewrite Z.geb_leb.
  destruct (mem_limit m0 <=? fr0 + f) eqn:E2; reflect_bools.
  { wp_steps. split; [lia|]. split; [by right|]. eauto. }
  destruct T1 as [|d T1]; [pose proof (no_tiles _ _ _ _ HC1); lia|].
  wp_step. eapply wp_mono; [|apply (free_item_spec f s K FL1 d T1 HC1); by eapply fits_next].
  intros r s' (-> & K' & FL' & HC'). destruct (tile_bounds _ _ _ _ _ _ HC1) as (Hd & Hn & Hde & Hd0).
  wp_steps. rewrite u32_small by lia. exists (mem_limit m0 - (f + tile_size (log s) d)).
  split; [lia|]. split; [done|]. eauto.
Qed.

Lemma memlog_clean_spec FL T :
  cleaning 0 s0 K0 FL T →
  wp memlog_clean s0 (λ freed s', 0 < freed ∧
    (mem_limit m0 / 8 ≤ freed ∨ mem_limit m0 ≤ fr0 + freed) ∧
    ∃ K' FL' T' s1 c, cleaning freed s1 K' FL' T' ∧
      s' = set_cnt c (set_ml (settled m0 freed) s1)).
Proof.
  intros HC. unfold memlog_clean, do_memlog_clean. wp_step.
  eapply wp_mono; [|exact (free_chunk_spec FL T HC)].
  intros freed s1 (Hpos & Hmuch & K' & FL' & T' & HC'). wp_step. apply wp_when; [|intros E; reflect_bools; lia].
  intros _. wp_steps. split; [done|]. split; [done|]. exists K', FL', T', s1. eexists.
  split; [done|]. rewrite (cl_ml _ _ _ _ _ HC'). reflexivity.
Qed.
End chunk.

(** ** The contract of a clean *)
(** The run of items in front of the freeing position: its tiles, their largest
    size, and where linked items may lie. *)
Record oldest_run (s : cache) (T : list Z) (biggest : Z) : Prop := {
  or_tiled : tiled (log s) (mem_current_freeing (ml s)) T (run_end (ml s));
  or_small : ∀ d, d ∈ T → tile_size (log s) d ≤ biggest;
  or_items : ∀ p x, meta s !! p = Some x → is_linked x →
    (item x ∈ T ∧ plain (log s) (item x)) ∨
    item x + ITEM_ntotal (log s) (item x) ≤ mem_current_freeing (ml s) ∨ run_end (ml s) ≤ item x
}.

Lemma settled_0 m : geometry m → (mem_current m ≤ mem_current_freeing m → wrapped m) → settled m 0 = m.
Proof.
  intros [Hl Hg] Hw. unfold settled, settle. simpl_state. rewrite Z.add_0_r.
  assert (mem_current_freeing m < mem_limit m) as Hlt by (destruct Hg as [G|G]; unfold linear, wrapped in G; lia).
  destruct m as [li cu av fb fr]. simpl_state.
  destruct (cu <=? fr) eqn:E; reflect_bools; simpl_state; rewrite Z.add_0_r, Z.geb_leb;
    rewrite (proj2 (Z.leb_gt _ _)) by lia; rewrite u64_small;
    try done; destruct Hg as [G|G]; unfold linear, wrapped in G; simpl_state; lia.
Qed.

Lemma start_cleaning s K FL T biggest :
  cache_ok s K FL → (mem_current (ml s) ≤ mem_current_freeing (ml s) → wrapped (ml s)) →
  oldest_run s T biggest → cleaning s K biggest 0 s K FL T.
Proof.
  intros Hok Hw [R1 R2 R3]. pose proof (ok_geo _ _ _ Hok) as Hg.
  split; rewrite ?Z.add_0_r; try done.
  - by destruct s as [lg [] me ff tb cf cn ci ct ps].
  - rewrite settled_0 by done. replace (set_ml (ml s) s) with s by by destruct s. done.
  - split; [done|]. pose proof (tiled_le _ _ _ _ R1). split; rewrite Z.add_0_r; done.
  - intros p x Hx Hl. exists x. split_and!; try done. apply (ok_live _ _ _ Hok _ _ Hx Hl).
  - intros key p. split; [|naive_solver]. intros Hk. split; [done|].
    destruct (ok_linked _ _ _ Hok _ _ Hk) as (x & Hx & _). exists x. split; [done|]. lia.
Qed.

(** C3: reclaiming the oldest chunk.  Stated for a log whose items tile the range
    from the freeing position up to the writing position (up to the physical end
    once the log has wrapped) exactly, and, when it has not wrapped, for a range
    longer than an eighth of the log and its largest item, so that cleaning does
    not catch up with the writing position (memlog.c:160 loses its accounts
    otherwise).  Then a clean terminates, frees at least an eighth of the log (or
    everything up to its physical end), drops exactly the bindings of the items
    in the freed range, keeps the bytes of all other linked items, and leaves the
    allocator's accounts consistent: the free bytes afterwards are the old free
    bytes and the freed range. *)
Theorem memlog_clean_correct (s : cache) (K : gmap (list Z) Z) (FL T : list Z) (biggest : Z)
    (Hok : cache_ok s K FL)
    (Hwrap : mem_current (ml s) ≤ mem_current_freeing (ml s) → wrapped (ml s))
    (Hrun : oldest_run s T biggest)
    (Hroom : mem_current_freeing (ml s) < mem_current (ml s) →
      mem_current_freeing (ml s) + mem_limit (ml s) / 8 + biggest < mem_current (ml s)) :
  let fr := mem_current_freeing (ml s) in
  ∃ freed s' K' FL', memlog_clean s = Ok (freed, s') ∧
    0 < freed ∧ (mem_limit (ml s) / 8 ≤ freed ∨ mem_limit (ml s) ≤ fr + freed) ∧
    cache_ok s' K' FL' ∧
    (∀ key p, K' !! key = Some p ↔
      K !! key = Some p ∧ ∃ x, meta s !! p = Some x ∧ ¬ (fr ≤ item x < fr + freed)) ∧
    (∀ key p x, K' !! key = Some p → meta s !! p = Some x →
      item_agree (log s) (log s') (item x)) ∧
    (∀ a, free_at (ml s') a ↔ free_at (ml s) a ∨ fr ≤ a < fr + freed).
Proof.
  intros fr. pose proof (ok_geo _ _ _ Hok) as Hg.
  destruct (memlog_clean_spec s K biggest Hg Hwrap Hroom FL T (start_cleaning _ _ _ _ _ Hok Hwrap Hrun))
    as (freed & s' & He & H1 & H2 & K' & FL' & T' & s1 & c & HC & ->).
  pose proof (cl_ok _ _ _ _ _ _ _ _ HC) as Hok'. pose proof (cl_fits _ _ _ _ _ _ _ _ HC) as [Hf0 Hfit].
  exists freed, (set_cnt c (set_ml (settled (ml s) freed) s1)), K', FL'. split; [done|]. split; [done|].
  split; [done|]. split; [by apply ok_cnt|]. split; [exact (cl_table _ _ _ _ _ _ _ _ HC)|]. split.
  - intros key p x Hk Hx. destruct (ok_linked _ _ _ Hok' _ _ Hk) as (y & Hy & Hl & _). cbn in Hy.
    destruct (cl_same _ _ _ _ _ _ _ _ HC _ _ Hy Hl) as (x0 & Hx0 & Hi & _ & Hag).
    assert (x0 = x) as -> by congruence. by rewrite Hi.
  - by destruct (settled_cases (ml s) Hg freed Hf0 Hfit Hwrap) as (_ & _ & _ & ?).
Qed.

(** A log of 800 bytes with three items of 133 bytes, the first one linked. *)
Definition three_items (m : memlog) : cache :=
  final (do_item_alloc (λ _, str "c") 1 0 0 100)
    (final (do_item_alloc (λ _, str "b") 1 0 0 100)
      (final (do_item_link 3 5)
        (final (do_item_alloc (λ _, str "a") 1 0 0 100) (boot_with one_hash m 4)))).
(** Written to an empty log; and to a log that was cleaned up to its middle, so
    that the third item starts a new cycle. *)
Definition small_log : memlog := Memlog 800 0 800 0 0.
Definition cleaned_log : memlog := Memlog 800 400 400 400 400.
Definition cleanable : cache := three_items small_log.
Definition cleanable_wrapped : cache := three_items cleaned_log.

Lemma small_geometry m :
  mem_limit m = 800 → 0 ≤ mem_current_freeing m ≤ mem_current m → mem_current m ≤ 700 →
  mem_avail m = 800 - mem_current m → mem_free_from_beginning m = mem_current_freeing m →
  linear m ∧ geometry m.
Proof.
  intros H1 H2 H3 H4 H5. assert (linear m) by (unfold linear; lia).
  split; [done|]. split; [lia|by left].
Qed.

Lemma cleanable_step kb s K p FL :
  Forall is_byte kb → length kb = 1%nat → cache_ok s K (p :: FL) → linear (ml s) →
  mem_limit (ml s) = 800 → use_cas (cfg s) = true →
  match do_item_alloc (λ _, kb) (Z.of_nat (length kb)) 0 0 100 s with
  | Ok ((Some _, _), _) => true | _ => false end = true →
  let s' := final (do_item_alloc (λ _, kb) (Z.of_nat (length kb)) 0 0 100) s in
  cache_ok s' K FL ∧ ∃ t d, in_flight s' p (fresh_meta (use_cas (cfg s)) t d) ∧
    fresh_item (log s') d kb 0 0 100 (use_cas (cfg s)).
Proof.
  intros Hb Hl Hok Hlin Hlim Hcas. pose proof (nsuffix_of_range 0 100).
  apply (alloc_ok_computed kb 0 0 100 s K p FL Hb); rewrite ?Hl, ?Hcas; try done; try lia.
  - split; [|left; unfold linear in *; lia]. rewrite item_ntotal_eq by lia. unfold cas_bytes. lia.
  - rewrite item_ntotal_eq by lia. unfold cas_bytes. lia.
Qed.

Lemma three_items_ok cur fr :
  let m := Memlog 800 cur (800 - cur) fr fr in
  let s1 := final (do_item_alloc (λ _, str "a") 1 0 0 100) (boot_with one_hash m 4) in
  let s2 := final (do_item_link 3 5) s1 in
  let s3 := final (do_item_alloc (λ _, str "b") 1 0 0 100) s2 in
  let succeeds kb s := match do_item_alloc (λ _, str kb) 1 0 0 100 s with
    | Ok ((Some _, _), _) => true | _ => false end = true in
  0 ≤ fr ≤ cur → cur ≤ 400 →
  succeeds "a"%string (boot_with one_hash m 4) → succeeds "b"%string s2 → succeeds "c"%string s3 →
  ml s2 = Memlog 800 (cur + 133) (667 - cur) fr fr → ml s3 = Memlog 800 (cur + 266) (534 - cur) fr fr →
  cfg s2 = settings_init one_hash → cfg s3 = settings_init one_hash →
  hash (cfg s1) (str "a") = 5 →
  cache_ok (three_items m) {[ str "a" := 3 ]} [0].
Proof.
  intros m s1 s2 s3 succ Hfr Hcur Ha Hb Hc Hm2 Hm3 Hc2 Hc3 Hh.
  destruct (small_geometry m) as [Hl Hg]; [cbn; lia..|].
  destruct (cleanable_step (str "a") (boot_with one_hash m 4) ∅ 3 [2; 1; 0] (str_bytes _) eq_refl
    (boot_with_ok one_hash m 4 ltac:(lia) Hg) Hl eq_refl eq_refl Ha) as (Hok1 & t & d & Hif & Hfi).
  change (Z.of_nat (length (str "a"))) with 1 in *. fold s1 in Hok1, Hif, Hfi.
  pose proof (do_item_link_spec _ _ _ _ _ Hok1 Hif) as Hw. cbn [item fresh_meta] in Hw.
  rewrite (fi_key _ _ _ _ _ _ _ Hfi) in Hw. specialize (Hw eq_refl).
  rewrite Hh in Hw. apply wp_final in Hw as (_ & _ & Hok2 & _).
  change (<[str "a" := 3]> ∅) with ({[ str "a" := 3 ]} : gmap (list Z) Z) in Hok2. fold s2 in Hok2.
  destruct (cleanable_step (str "b") s2 {[ str "a" := 3 ]} 2 [1; 0] (str_bytes _) eq_refl Hok2) as (Hok3 & _);
    [rewrite Hm2; apply small_geometry; cbn; lia|by rewrite Hm2|by rewrite Hc2|exact Hb|].
  change (Z.of_nat (length (str "b"))) with 1 in *. fold s3 in Hok3.
  destruct (cleanable_step (str "c") s3 {[ str "a" := 3 ]} 1 [0] (str_bytes _) eq_refl Hok3) as (Hok4 & _);
    [rewrite Hm3; apply small_geometry; cbn; lia|by rewrite Hm3|by rewrite Hc3|exact Hc|].
  exact Hok4.
Qed.
Lemma cleanable_ok : cache_ok cleanable {[ str "a" := 3 ]} [0].
Proof. apply (three_items_ok 0 0); first [lia|vm_compute; reflexivity]. Qed.
Lemma cleanable_wrapped_ok : cache_ok cleanable_wrapped {[ str "a" := 3 ]} [0].
Proof. apply (three_items_ok 400 400); first [lia|vm_compute; reflexivity]. Qed.

Lemma cleanable_positions : ml cleanable = Memlog 800 399 401 0 0.
Proof. vm_compute. reflexivity. Qed.
Lemma cleanable_wrapped_positions : ml cleanable_wrapped = Memlog 800 133 267 0 400.
Proof. vm_compute. reflexivity. Qed.

(** Three tiles from [a] on, the first of them the only linked item. *)
Lemma three_tiles s a last b m :
  tile_size (log s) a = 133 → tile_size (log s) (a + 133) = 133 → tile_size (log s) (a + 266) = last →
  plain (log s) a → item <$> (meta s !! 3) = Some a → cache_ok s {[ str "a" := 3 ]} [0] → ml s = m →
  mem_current_freeing m = a → run_end m = a + 266 + last → 16 ≤ last ≤ b → 133 ≤ b →
  oldest_run s [a; a + 133; a + 266] b.
Proof.
  intros T1 T2 T3 Hplain Hi Hok Hml Hfr Hend Hlast Hb. split; rewrite ?Hml, ?Hfr, ?Hend.
  - cbn [tiled]. rewrite T1, T2, T3. split_and!; try done; lia.
  - intros d Hd. repeat (apply elem_of_cons in Hd as [->|Hd]; [lia|]). by apply elem_of_nil in Hd.
  - intros p x Hx Hl. left. pose proof (ok_table _ _ _ Hok _ _ Hx Hl) as Hk.
    apply lookup_singleton_Some in Hk as [_ <-].
    rewrite Hx in Hi. injection Hi as ->. split; [set_solver|done].
Qed.
Lemma cleanable_run : oldest_run cleanable [0; 133; 266] 133.
Proof.
  apply (three_tiles _ 0 133 133 _) with (7 := cleanable_positions);
    first [exact cleanable_ok|split; vm_compute; reflexivity|lia|vm_compute; reflexivity].
Qed.
(** The third tile is the cycle item that pads the log up to its end. *)
Lemma cleanable_wrapped_run : oldest_run cleanable_wrapped [400; 533; 666] 134.
Proof.
  apply (three_tiles _ 400 134 134 _) with (7 := cleanable_wrapped_positions);
    first [exact cleanable_wrapped_ok|split; vm_compute; reflexivity|lia|vm_compute; reflexivity].
Qed.

Lemma memlog_clean_correct_witness :
  (∃ freed s' K' FL', memlog_clean cleanable = Ok (freed, s') ∧ 0 < freed ∧ cache_ok s' K' FL') ∧
  (∃ freed s' K' FL', memlog_clean cleanable_wrapped = Ok (freed, s') ∧ 0 < freed ∧ cache_ok s' K' FL').
Proof.
  split.
  - destruct (memlog_clean_correct cleanable {[ str "a" := 3 ]} [0] [0; 133; 266] 133 cleanable_ok) as
      (freed & s' & K' & FL' & He & H1 & _ & H2 & _).
    + rewrite cleanable_positions. cbn [mem_current_freeing mem_current]. lia.
    + exact cleanable_run.
    + rewrite cleanable_positions. cbn [mem_current_freeing mem_current mem_limit]. intros _.
      change (800 / 8) with 100. lia.
    + exists freed, s', K', FL'. split; [exact He|]. split; [exact H1|exact H2].
  - destruct (memlog_clean_correct cleanable_wrapped {[ str "a" := 3 ]} [0] [400; 533; 666] 134
      cleanable_wrapped_ok) as (freed & s' & K' & FL' & He & H1 & _ & H2 & _).
    + rewrite cleanable_wrapped_positions. unfold wrapped. cbn. lia.
    + exact cleanable_wrapped_run.
    + rewrite cleanable_wrapped_positions. cbn [mem_current_freeing mem_current]. lia.
    + exists freed, s', K', FL'. split; [exact He|]. split; [exact H1|exact H2].
Defined.

(** ** A request larger than the log stops the maintainer for good *)
Lemma cycle_header_flags it av m j :
  0 ≤ j < 8 → has (it_data_flags (cycle_header it av m) it) (2 ^ j) =
    (has (it_data_flags m it) (2 ^ j) && negb (5 =? j)) || (4 =? j) || (3 =? j).
Proof.
  intros Hj. unfold cycle_header, data_flags_or, data_flags_clear. autorewrite with mc_fields.
  assert (∀ f b, u8 (flag_or f b) = flag_or f b) as H1 by (intros; apply Z.mod_mod; lia).
  assert (∀ f b, u8 (flag_clear f b) = flag_clear f b) as H2 by (intros; apply Z.mod_mod; lia).
  rewrite !H1, !H2, ?H1. destruct flag_bits as (_ & _ & _ & -> & -> & -> & _).
  rewrite !has_flag_or, !has_flag_clear, !has_flag_or by lia.
  destruct (has (it_data_flags m it) (2 ^ j)), (5 =? j) eqn:E5, (4 =? j) eqn:E4, (3 =? j) eqn:E3;
    reflect_bools; cbn; try done; lia.
Qed.
Lemma cycle_header_nbytes it m : nbytes (cycle_header it 0 m) it = 0.
Proof.
  unfold cycle_header, data_flags_or, data_flags_clear. autorewrite with mc_fields.
  by rewrite cycle_nbytes_eq.
Qed.

(** A cycle item of length zero at the base, where freeing is to start. *)
Definition stuck (s : cache) : Prop :=
  mem_current (ml s) = 0 ∧ mem_avail (ml s) = 0 ∧ mem_free_from_beginning (ml s) = 0 ∧
  mem_current_freeing (ml s) = 0 ∧ 35 ≤ mem_limit (ml s) < 2 ^ 31 ∧
  has (it_data_flags (log s) 0) ITEM_CORRUPTED || has (it_data_flags (log s) 0) ITEM_DELETED = false ∧
  has (it_data_flags (log s) 0) ITEM_CYCLE = true ∧ nbytes (log s) 0 = 0.

Lemma memset0_empty m a c : mget (memset0 m a 0) c = mget m c.
Proof. rewrite mget_memset0, bool_decide_eq_false_2; [done|lia]. Qed.

Lemma stuck_chunk s : stuck s → memlog_free_chunk s = Fault OutOfFuel.
Proof.
  intros Hst. unfold memlog_free_chunk. rewrite bind_gets.
  set (q := u32 (mem_limit (ml s) / 8)). assert (0 < q) as Hq.
  { unfold q. destruct Hst as (_ & _ & _ & _ & Hl & _).
    assert (0 < mem_limit (ml s) / 8) by (apply Z.div_str_pos; lia).
    assert (mem_limit (ml s) / 8 ≤ mem_limit (ml s)) by (apply Z.div_le_upper_bound; lia).
    rewrite u32_small; lia. }
  clearbody q. apply (loop_diverges _ _ (λ f s, f = 0 ∧ stuck s)); [|done]. clear s Hst.
  intros f s (-> & S1 & S2 & S3 & S4 & Hl & F1 & F2 & Hb).
  unfold free_chunk_body. rewrite (proj2 (Z.ltb_lt 0 q)) by done. rewrite bind_gets, S4.
  replace (u32 0 >=? mem_limit (ml s)) with false by (rewrite Z.geb_leb; symmetry; apply Z.leb_gt; change (u32 0) with 0; lia).
  unfold memlog_free_item, advance. rewrite !bind_assoc, bind_gets, bind_assoc, bind_gets, S4, F1, F2, Hb.
  eexists _, _. split; [reflexivity|]. split; [done|].
  assert (header_agree (memset0 (log s) 0 (u32 0)) (log s) 0) as Hh by (intros c _; apply memset0_empty).
  apply header_fields in Hh as (_ & Hn & _ & Hf & _).
  destruct s as [lg [li cu av fb fr] me ff tb cf cn ci ct ps]. unfold stuck. simpl_state. rewrite Hf, Hn.
  by subst.
Qed.

Lemma oversized_stuck size s s1 c :
  memory_allocate size s = Ok (None, s1) →
  s1 = set_cnt c (set_log (cycle_header (mem_current (ml s)) (mem_avail (ml s)) (log s)) (set_ml (cycled_ml (ml s)) s)) →
  mem_current (ml s) = 0 → mem_avail (ml s) = 0 → mem_free_from_beginning (ml s) = 0 →
  mem_current_freeing (ml s) = 0 → 35 ≤ mem_limit (ml s) < 2 ^ 31 →
  has (it_data_flags (log s) 0) ITEM_CORRUPTED || has (it_data_flags (log s) 0) ITEM_DELETED = false →
  stuck s1.
Proof.
  intros _ -> H1 H2 H3 H4 Hl Hf. unfold stuck. cbn [log ml set_cnt set_log set_ml]. rewrite H1, H2.
  unfold cycled_ml. simpl_state. split_and!; try done; try lia.
  - destruct flag_bits as (_ & _ & _ & _ & _ & _ & HC & HD). rewrite HC, HD in *.
    rewrite !cycle_header_flags by lia. apply orb_false_iff in Hf as [-> ->]. done.
  - destruct flag_bits as (_ & _ & _ & _ & HC & _). rewrite HC, cycle_header_flags by lia.
    cbn. by rewrite orb_true_r.
  - apply cycle_header_nbytes.
Qed.

Lemma attempt_fails key nk flags nb size ns suffix s s1 :
  memory_allocate size s = Ok (None, s1) →
  alloc_attempt key nk flags nb size ns suffix s = Ok (NoMemory, s1).
Proof.
  intros H. unfold alloc_attempt, memlog_alloc, do_memlog_alloc.
  by rewrite bind_assoc, (bind_Ok _ _ _ _ _ H).
Qed.

(** The maintainer never leaves its loop once an oversized request was refused
    on a log whose rest has at most [10 ^ 9 + 21] bytes. *)
Lemma oversized_hangs (key : memory → list Z) (nk flags et nb : Z) (s : cache)
    (Hgeo : geometry (ml s)) (Hlin : linear (ml s)) (Hfr : mem_current_freeing (ml s) = 0)
    (Hcur : mem_current (ml s) = 0 ∨ 16 ≤ mem_current (ml s))
    (Hf0 : has (it_data_flags (log s) 0) ITEM_CORRUPTED ||
       has (it_data_flags (log s) 0) ITEM_DELETED = false)
    (Hsize : oversized (ml s) (item_ntotal nk flags nb (use_cas (cfg s))))
    (Hfit : snum_fits (mem_avail (ml s)) = true) :
  ∃ s', do_item_alloc key nk flags et nb s = Ok ((None, false), s') ∧
    lru_maintainer_free s' = Fault OutOfFuel.
Proof.
  set (size := item_ntotal nk flags nb (use_cas (cfg s))) in *.
  destruct (oversized_allocate size s Hgeo Hsize Hfit) as [c1 H1].
  set (s1 := set_cnt c1 _) in H1. destruct (cycled_wrapped _ Hgeo Hlin) as [_ Hg1].
  assert (snum_fits 0 = true) as Hfit0 by (vm_compute; reflexivity).
  assert (mem_avail (ml s1) = 0) as P2 by (unfold s1; cbn; unfold linear in Hlin; lia).
  destruct (oversized_allocate size s1 Hg1 Hsize) as [c2 H2]; [by rewrite P2|].
  set (s2 := set_cnt c2 _) in H2.
  assert (cycled_ml (ml s1) = ml s1) as Hml.
  { unfold s1. cbn [ml set_cnt set_log set_ml]. unfold cycled_ml. simpl_state. unfold linear in Hlin.
    f_equal; lia. }
  assert (geometry (ml s2)) as Hg2 by (change (ml s2) with (cycled_ml (ml s1)); by rewrite Hml).
  assert (mem_current (ml s1) = 0 ∧ mem_free_from_beginning (ml s1) = 0 ∧
    mem_current_freeing (ml s1) = 0) as (P1 & P3 & P4)
    by (unfold s1; cbn; unfold linear in Hlin; lia).
  assert (has (it_data_flags (log s1) 0) ITEM_CORRUPTED ||
    has (it_data_flags (log s1) 0) ITEM_DELETED = false) as Hf1.
  { unfold s1. cbn [log set_cnt set_log]. destruct (decide (mem_current (ml s) = 0)) as [E|E].
    - rewrite E. destruct flag_bits as (_ & _ & _ & _ & _ & _ & HC & HD). rewrite HC, HD in *.
      rewrite !cycle_header_flags by lia. apply orb_false_iff in Hf0 as [-> ->]. done.
    - assert (header_agree (cycle_header (mem_current (ml s)) (mem_avail (ml s)) (log s)) (log s) 0) as Hh
        by (apply cycle_header_out; lia).
      by apply header_fields in Hh as (_ & _ & _ & -> & _). }
  pose proof (oversized_stuck size s1 s2 c2 H2 eq_refl P1 P2 P3 P4 (proj1 Hgeo) Hf1) as Hst2.
  destruct Hst2 as (Q1 & Q2 & Q3 & Q4 & Ql & Qf & _).
  destruct (oversized_allocate size s2 Hg2) as [c3 H3].
  { change (ml s2) with (cycled_ml (ml s1)). by rewrite Hml. }
  { by rewrite Q2. }
  set (s3 := set_cnt c3 _) in H3.
  pose proof (oversized_stuck size s2 s3 c3 H3 eq_refl Q1 Q2 Q3 Q4 Ql Qf) as Hst3.
  assert (∀ c, stuck (set_cnt c s3)) as Hst by (intros c; exact Hst3).
  unfold do_item_alloc. destruct (item_make_header (nk + 1) flags nb) as [[hd sf] ns].
  rewrite bind_gets. fold size. unfold alloc_attempts.
  rewrite bind_assoc, (bind_Ok _ _ _ _ _ (attempt_fails key nk flags nb size ns sf _ _ H1)).
  rewrite bind_assoc, (bind_Ok _ _ _ _ _ (attempt_fails key nk flags nb size ns sf _ _ H2)).
  rewrite bind_assoc, (bind_Ok _ _ _ _ _ (attempt_fails key nk flags nb size ns sf _ _ H3)).
  eexists (set_cnt _ s3). split; [reflexivity|].
  match goal with |- lru_maintainer_free (set_cnt ?c s3) = _ => pose proof (Hst c) as Hst4; set (s4 := set_cnt c s3) in * end.
  clearbody s4. unfold lru_maintainer_free, memlog_clean, do_memlog_clean. rewrite bind_gets.
  pose proof Hst4 as (S1 & S2 & S3 & S4 & Hl & _).
  unfold get_memory_limit, get_memory_available, get_memory_free_from_beginning, id. rewrite S2, S3.
  change (u32 0) with 0. rewrite (proj2 (Z.geb_le _ _)) by (apply Z.div_pos; [apply u32_range|lia]). cbn [andb].
  by rewrite bind_assoc, (bind_Fault _ _ _ _ (stuck_chunk s4 Hst4)).
Qed.

(** With more bytes left the first attempt already leaves a buffer. *)
Lemma oversized_faults (key : memory → list Z) (nk flags et nb : Z) (s : cache)
    (Hgeo : geometry (ml s))
    (Hsize : oversized (ml s) (item_ntotal nk flags nb (use_cas (cfg s))))
    (Hfit : snum_fits (mem_avail (ml s)) = false) :
  do_item_alloc key nk flags et nb s = Fault OutOfBounds.
Proof.
  unfold do_item_alloc. destruct (item_make_header (nk + 1) flags nb) as [[hd sf] ns].
  rewrite bind_gets. cbn [alloc_attempts]. rewrite !bind_assoc. apply bind_Fault.
  unfold alloc_attempt, memlog_alloc, do_memlog_alloc. rewrite bind_assoc.
  by apply bind_Fault, oversized_overflow.
Qed.

(** C39: a [set] whose item is larger than the log (less its 35 spare bytes)
    brings the server down.  Stated for a log that is linear, has not been
    cleaned yet, is empty or holds an item whose first header is not a tombstone
    or corrupted.  With at most 10^9+21 bytes left behind the current position
    the request is refused, but each of its three attempts starts a cycle; the
    second one leaves a cycle item of length zero at the base, and the
    maintainer's next run never leaves its loop (its state repeats, so the
    model's fuel runs out; it holds the lock of the log).  With
    more bytes left (the 1 GB log up to its first 73741803 bytes) the request
    itself leaves a buffer: [sprintf] writes ten digits and a NUL into
    the ten bytes of [snum]. *)
Theorem oversized_request_hangs (key : memory → list Z) (nk flags et nb : Z) (s : cache)
    (Hgeo : geometry (ml s)) (Hlin : linear (ml s)) (Hfr : mem_current_freeing (ml s) = 0)
    (Hcur : mem_current (ml s) = 0 ∨ 16 ≤ mem_current (ml s))
    (Hf0 : has (it_data_flags (log s) 0) ITEM_CORRUPTED ||
       has (it_data_flags (log s) 0) ITEM_DELETED = false)
    (Hsize : oversized (ml s) (item_ntotal nk flags nb (use_cas (cfg s)))) :
  if mem_avail (ml s) <? 10 ^ 9 + 22 then
    ∃ s', do_item_alloc key nk flags et nb s = Ok ((None, false), s') ∧
      lru_maintainer_free s' = Fault OutOfFuel
  else do_item_alloc key nk flags et nb s = Fault OutOfBounds.
Proof.
  assert (0 ≤ mem_avail (ml s) < 2 ^ 31) as Ha by (destruct Hgeo; unfold linear in Hlin; lia).
  pose proof (snum_fits_spec _ Ha) as Hs.
  destruct (Z.ltb_spec (mem_avail (ml s)) (10 ^ 9 + 22)) as [Hlt|Hge].
  - by apply oversized_hangs, Hs.
  - apply oversized_faults; [done|done|]. apply not_true_is_false. rewrite Hs. lia.
Qed.

(** A 1 GB log with its first hundred million bytes written. *)
Definition part_filled : memlog :=
  Memlog MEMLOG_DEFAULT_SIZE 100000000 (MEMLOG_DEFAULT_SIZE - 100000000) 0 0.
Lemma part_filled_linear : linear part_filled.
Proof. unfold linear, part_filled, MEMLOG_DEFAULT_SIZE. simpl_state. lia. Qed.
Lemma part_filled_current : 16 ≤ mem_current part_filled.
Proof. cbn [part_filled mem_current]. lia. Qed.
Lemma part_filled_geometry : geometry part_filled.
Proof.
  split; [unfold part_filled, MEMLOG_DEFAULT_SIZE; simpl_state; lia|left; apply part_filled_linear].
Qed.
Lemma max_value_oversized m :
  mem_limit m = MEMLOG_DEFAULT_SIZE → oversized m (item_ntotal 1 0 2147483647 true).
Proof.
  intros Hm. rewrite item_ntotal_eq by lia. pose proof (nsuffix_of_range 0 2147483647).
  pose proof (cas_bytes_range true). unfold oversized. rewrite Hm. unfold MEMLOG_DEFAULT_SIZE in *.
  split; lia.
Qed.

Lemma oversized_request_hangs_witness :
  (∃ s', do_item_alloc (λ _, str "a") 1 0 0 2147483647 (initial_cache (λ _, 0) part_filled) = Ok ((None, false), s') ∧
    lru_maintainer_free s' = Fault OutOfFuel) ∧
  do_item_alloc (λ _, str "a") 1 0 0 2147483647 (initial_cache (λ _, 0) fresh_log) = Fault OutOfBounds.
Proof.
  split.
  - exact (oversized_request_hangs (λ _, str "a") 1 0 0 2147483647 (initial_cache (λ _, 0) part_filled)
      part_filled_geometry part_filled_linear eq_refl (or_intror part_filled_current) eq_refl
      (max_value_oversized part_filled eq_refl)).
  - exact (oversized_request_hangs (λ _, str "a") 1 0 0 2147483647 (initial_cache (λ _, 0) fresh_log)
      fresh_geometry fresh_linear eq_refl (or_introl eq_refl) eq_refl
      (max_value_oversized fresh_log eq_refl)).
Defined.
