(* ===== verification/Store.v ===== *)
(** * Storing: set/add/replace/append/prepend/cas and incr/decr (memcached.c)

    [c->cas] is returned with the result of the store. *)
From Stdlib Require Import ZArith Lia.
From stdpp Require Import prelude gmap list functions.
From S2P Require Import Prelude Mem Util Item State Memlog Assoc Items.

Definition REALTIME_MAXDELTA : Z := 60 * 60 * 24 * 30.

(** Absolute or relative expiry to server time (rel_time_t). *)
Definition realtime (s : cache) (et : Z) : Z :=
  if et =? 0 then 0
  else if et >? REALTIME_MAXDELTA then
    if et <=? process_started s then 1 else u32 (et - process_started s)
  else u32 (et + current_time s).

Inductive nread_cmd : Set :=
  | NREAD_ADD | NREAD_SET | NREAD_REPLACE | NREAD_APPEND | NREAD_PREPEND | NREAD_CAS.
#[global] Instance nread_cmd_eq_dec : EqDecision nread_cmd.
Proof. solve_decision. Defined.

(** [old], [new] and [add]: offsets of the items. *)
Definition _store_item_copy_data (comm : nread_cmd) (old new add : Z) (m : memory) : memory :=
  if bool_decide (comm = NREAD_APPEND) then
    let m := store_bytes m (ITEM_data m new) (load_bytes m (ITEM_data m old) (Z.to_nat (nbytes m old))) in
    store_bytes m (ITEM_data m new + nbytes m old - 2)
      (load_bytes m (ITEM_data m add) (Z.to_nat (nbytes m add)))
  else
    let m := store_bytes m (ITEM_data m new) (load_bytes m (ITEM_data m add) (Z.to_nat (nbytes m add))) in
    store_bytes m (ITEM_data m new + nbytes m add - 2)
      (load_bytes m (ITEM_data m old) (Z.to_nat (nbytes m old))).

(** The outcome of the command proper: state, the extra item to release and
    the item that now stands for the key. *)
Definition outcome : Type := store_item_type * option Z * Z.

(** Validation of a [cas] command. *)
Definition store_cas (it : Z) (old_it : option Z) (hv : Z) : server outcome :=
  match old_it with
  | None => _ ← thread_add cas_misses 1; mret (NOT_FOUND, None, it)
  | Some o =>
      x ← get_meta it;
      y ← get_meta o;
      lg ← gets log;
      if ITEM_get_cas lg (item x) =? ITEM_get_cas lg (item y) then
        _ ← slab_add (ITEM_clsid y) cas_hits 1;
        _ ← item_replace o it hv;
        mret (STORED, None, it)
      else
        _ ← slab_add (ITEM_clsid y) cas_badval 1;
        mret (EXISTS, None, it)
  end.

(** Append and prepend: a new item that holds both values, or the outcome when
    there is none; [kaddr] is where the key of the request lies. *)
Definition store_combine (comm : nread_cmd) (it o kaddr : Z) : server (outcome + Z) :=
  x ← get_meta it;
  y ← get_meta o;
  lg ← gets log;
  let cas := ITEM_get_cas lg (item x) in
  if negb (cas =? 0) && negb (cas =? ITEM_get_cas lg (item y)) then mret (inl (EXISTS, None, it))
  else
    let nk := nkey lg (item x) in
    '(new_it, _) ← do_item_alloc (λ m, load_bytes m kaddr (Z.to_nat nk)) nk (suffix_flags lg (item y))
        (exptime lg (item y)) (i32 (nbytes lg (item x) + nbytes lg (item y) - 2));
    match new_it with
    | None => mret (inl (NOT_STORED, None, it))
    | Some n =>
        z ← get_meta n;
        _ ← upd_log (_store_item_copy_data comm (item y) (item z) (item x));
        mret (inr n)
    end.

(** Link the item under its key, in place of the old one if there is one. *)
Definition store_link (it : Z) (old_it : option Z) (hv : Z) : server unit :=
  match old_it with
  | Some o => _ ← item_replace o it hv; mret tt
  | None => _ ← do_item_link it hv; mret tt
  end.

Definition store_command (it : Z) (comm : nread_cmd) (old_it : option Z) (kaddr hv : Z) : server outcome :=
  match old_it, comm with
  | Some o, NREAD_ADD =>
      '(new_it, st) ← do_item_update o;
      mret (default NOT_STORED st, new_it, it)
  | None, NREAD_REPLACE | None, NREAD_APPEND | None, NREAD_PREPEND => mret (NOT_STORED, None, it)
  | _, NREAD_CAS => store_cas it old_it hv
  | Some o, NREAD_APPEND | Some o, NREAD_PREPEND =>
      r ← store_combine comm it o kaddr;
      match r with
      | inl out => mret out
      | inr n => _ ← store_link n old_it hv; mret (STORED, Some n, n)
      end
  | _, _ => _ ← store_link it old_it hv; mret (STORED, None, it)
  end.

(** Release a reference, if there is one to release. *)
Definition release (it : option Z) : server unit :=
  match it with Some p => do_item_remove p | None => mret tt end.

(** Returns the state of the store and, when stored, [c->cas]. *)
Definition do_store_item (it : Z) (comm : nread_cmd) (hv : Z) : server (store_item_type * option Z) :=
  x ← get_meta it;
  lg ← gets log;
  let kaddr := ITEM_key lg (item x) in
  old_it ← do_item_get (item_key lg (item x)) hv;
  '(stored, new_it, it) ← store_command it comm old_it kaddr hv;
  _ ← release old_it;
  _ ← release new_it;
  if bool_decide (stored = STORED) then
    x ← get_meta it;
    cas ← gets (λ s : cache, ITEM_get_cas (log s) (item x));
    _ ← publish it;
    mret (STORED, Some cas)
  else mret (stored, None).

Definition store_item (it : Z) (comm : nread_cmd) : server (store_item_type * option Z) :=
  hv ← item_hv it;
  do_store_item it comm hv.

(** ** Arithmetic *)
Inductive delta_result_type : Set :=
  | OK | NON_NUMERIC | EOM | DELTA_ITEM_NOT_FOUND | DELTA_ITEM_CAS_MISMATCH.

(** The new value: increments wrap at 64 bits, decrements stop at zero; [delta]
    is an int64_t compared as unsigned. *)
Definition delta_value (incr : bool) (delta value : Z) : Z :=
  if incr then u64 (value + delta)
  else if u64 delta >? value then 0 else u64 (value - delta).

(** [cas] is the incoming CAS, [None] for a null pointer.  Returns the result,
    the digits left in [buf] and the CAS swapped out. *)
Definition do_add_delta (key : list Z) (incr : bool) (delta : Z) (cas : option Z) (hv : Z) :
    server (delta_result_type * list Z * option Z) :=
  it ← do_item_get key hv;
  match it with
  | None => mret (DELTA_ITEM_NOT_FOUND, [], cas)
  | Some it =>
      x ← get_meta it;
      lg ← gets log;
      let d := item x in
      if nbytes lg d <=? 2 then mret (NON_NUMERIC, [], cas)
      else
        let mismatch := match cas with
          | Some c => negb (c =? 0) && negb (ITEM_get_cas lg d =? c)
          | None => false
          end in
        if mismatch then
          _ ← do_item_remove it; mret (DELTA_ITEM_CAS_MISMATCH, [], cas)
        else
          match safe_strtoull (cstring lg (ITEM_data lg d)) with
          | (false, _) => _ ← do_item_remove it; mret (NON_NUMERIC, [], cas)
          | (true, v) =>
              let buf := fmt_u (delta_value incr delta v) in
              let res := Z.of_nat (length buf) in
              _ ← slab_add (ITEM_clsid x) (if incr then incr_hits else decr_hits) 1;
              if refcount x >? 1 then
                let flags := u32 (strtoul_value (cstring lg (ITEM_suffix lg d + 1))) in
                let nk := nkey lg d in
                '(new_it, _) ← do_item_alloc (λ m, load_bytes m (ITEM_key lg d) (Z.to_nat nk)) nk flags
                      (exptime lg d) (res + 2);
                match new_it with
                | None => _ ← do_item_remove it; mret (EOM, buf, cas)
                | Some n =>
                    z ← get_meta n;
                    _ ← upd_log (λ m, store_bytes m (ITEM_data m (item z)) buf);
                    _ ← upd_log (λ m, store_bytes m (ITEM_data m (item z) + res) crlf);
                    _ ← item_replace it n hv;
                    s ← gets id;
                    _ ← upd_log (ITEM_set_cas d
                          (if use_cas (cfg s) then ITEM_get_cas (log s) (item z) else 0));
                    _ ← publish n;
                    _ ← do_item_remove n;
                    out ← gets (λ s : cache, ITEM_get_cas (log s) d);
                    _ ← do_item_remove it;
                    mret (OK, buf, match cas with Some _ => Some out | None => None end)
                end
              else
                _ ← when (refcount x =? 1) (do_item_remove it);
                mret (DELTA_ITEM_NOT_FOUND, buf, cas)
          end
  end.

Definition add_delta (key : list Z) (incr : bool) (delta : Z) (cas : option Z) :
    server (delta_result_type * list Z * option Z) :=
  hv ← gets (λ s : cache, hash (cfg s) key);
  do_add_delta key incr delta cas hv.
