(* ===== verification/StoreFacts.v ===== *)
(** * Storing: what the commands do to the cache *)
From Stdlib Require Import ZArith Lia.
From stdpp Require Import strings prelude gmap list functions.
From S2P Require Import Prelude Mem Util Item State Memlog Assoc AssocFacts Items ItemFacts ItemSpec ItemClaims Store.

(** ** Replacing an item *)
(** An in-flight item stays in flight when another slot is unlinked. *)
Lemma in_flight_unlinked s s' K K' FL FL' p q x :
  cache_ok s K FL → cache_ok s' K' FL' → (∀ k r, K' !! k = Some r → K !! k = Some r ∧ r ≠ q) →
  slot_frame q FL s s' → q ≠ p → in_flight s p x →
  ∃ v, in_flight s' p (set_h_next v x).
Proof.
  intros Hok Hok' HK [F1 F2 F3 F4 F5 F6] Hqp [I1 I2 I3 I4 I5 I6].
  pose proof (free_slot _ _ _ _ _ Hok I1 I3) as Hfs.
  destruct (F6 p x (not_eq_sym Hqp) Hfs I1) as [v Hv]. exists v.
  split; try done.
  - rewrite F1, F2. done.
  - intros r y Hy Hl. rewrite F1. pose proof (ok_table _ _ _ Hok' _ _ Hy Hl) as Hk.
    apply HK in Hk as [Hk Hr]. destruct (ok_linked _ _ _ Hok _ _ Hk) as (y0 & Hy0 & Hl0 & Hs0 & _).
    destruct (F6 r y0 Hr (free_slot _ _ _ _ _ Hok Hy0 Hs0) Hy0) as [w Hw].
    assert (y = set_h_next w y0) as -> by congruence. exact (I6 _ _ Hy0 Hl0).
Qed.

(** Every used slot but [p] and [o] keeps its metadata, up to its chain link. *)
Definition bystanders (p : Z) (o : option Z) (FL : list Z) (s s' : cache) : Prop :=
  ∀ q z, q ≠ p → Some q ≠ o → q ∉ FL → meta s !! q = Some z →
  ∃ v, meta s' !! q = Some (set_h_next v z).

Lemma bystanders_trans p o o' FL FL' s1 s2 s3 :
  bystanders p o FL s1 s2 → bystanders p o' FL' s2 s3 →
  (∀ q, Some q ≠ o → q ∉ FL → Some q ≠ o' ∧ q ∉ FL') → bystanders p o FL s1 s3.
Proof.
  intros H1 H2 Hs q z Hp Ho HF Hz. destruct (H1 q z Hp Ho HF Hz) as [v Hv].
  destruct (Hs q Ho HF) as [Ho' HF']. destruct (H2 q _ Hp Ho' HF' Hv) as [w Hw].
  exists w. rewrite Hw. by destruct z.
Qed.
Lemma bystanders_same p o FL s s' :
  (∀ q, q ≠ p → Some q ≠ o → q ∉ FL → meta s' !! q = meta s !! q) → bystanders p o FL s s'.
Proof.
  intros H q z Hp Ho HF Hz. exists (h_next z). rewrite H by done. rewrite Hz. by destruct z.
Qed.

(** Later steps that leave slot [o] alone keep it released. *)
Lemma let_go_keep o y p FL FL' s1 s2 :
  let_go o y FL s1 FL' → o ≠ p → o ∉ FL → bystanders p None FL' s1 s2 → let_go o y FL s2 FL'.
Proof.
  unfold let_go. intros Hg Hop HF Hb. destruct (refcount y =? 1); [done|].
  destruct Hg as [-> [v Hv]]. split; [done|]. destruct (Hb o _ Hop ltac:(done) HF Hv) as [w Hw].
  exists w. rewrite Hw. by destruct y.
Qed.

(** The result of an unlink followed by a link under the same key. *)
Lemma do_item_replace_spec s K FL o y p x :
  let key := item_key (log s) (item x) in
  cache_ok s K FL → K !! key = Some o → meta s !! o = Some y → 1 < refcount y →
  in_flight s p x → p ≠ o →
  wp (do_item_replace o p (hash (cfg s) key)) s (λ r s', r = 1 ∧ cache_ok s' (<[key := p]> K) FL ∧
    (∃ v, meta s' !! p = Some (linked_meta (current_time s) v x)) ∧
    (∃ v, meta s' !! o = Some (set_refcount (refcount y - 1) (unlinked_meta v y))) ∧
    cas_only (log s) (log s') (item x) ∧ ml s' = ml s ∧ cfg s' = cfg s ∧
    current_time s' = current_time s ∧ bystanders p (Some o) FL s s').
Proof.
  intros key Hok HK Hy Hrc Hif Hpo.
  destruct (ok_linked _ _ _ Hok _ _ HK) as (y' & Hy' & Hly & Hsy & Hry).
  assert (y' = y) as -> by congruence.
  unfold do_item_replace. do 3 wp_step. apply wp_assert; [by rewrite is_slabbed_false|]. wp_step.
  eapply wp_mono; [|by apply (do_item_unlink_spec s K FL key o y)].
  intros _ s1 [Hf Hc]. rewrite (proj2 (Z.eqb_neq (refcount y) 1)) in Hc by lia. destruct Hc as [Hok1 [v Ho1]].
  assert (∀ k r, delete key K !! k = Some r → K !! k = Some r ∧ r ≠ o) as HK'.
  { intros k r [Hne Hk]%lookup_delete_Some. split; [done|]. intros ->.
    destruct (ok_rep _ _ _ Hok) as [C HR]. by apply Hne, (repr_inj HR _ _ o). }
  destruct (in_flight_unlinked s s1 K _ FL FL p o x Hok Hok1 HK' Hf (not_eq_sym Hpo) Hif) as [w Hif1].
  pose proof Hf as [F1 F2 F3 F4 F5 F6].
  pose proof (do_item_link_spec s1 (delete key K) FL p _ Hok1 Hif1) as Hw.
  cbn [item set_h_next] in Hw. rewrite F1, F3, F4 in Hw. fold key in Hw.
  specialize (Hw (lookup_delete_eq _ _)). eapply wp_mono; [|exact Hw].
  intros r s2 (-> & Hok2 & [u Hme] & Hc2 & Hml2 & Hcf2 & Ht2).
  rewrite insert_delete_eq in Hok2. split; [done|]. split; [done|]. split; [|split].
  - exists u. rewrite Hme, lookup_insert_eq. by destruct x.
  - exists v. by rewrite Hme, lookup_insert_ne.
  - split; [done|]. split; [congruence|]. split; [congruence|]. split; [congruence|].
    intros q z Hqp Hqo HF Hz. destruct (F6 q z ltac:(congruence) HF Hz) as [w' Hw'].
    exists w'. by rewrite Hme, lookup_insert_ne.
Qed.

(** ** Writing to the log without moving anything *)
Lemma ok_log_update s K FL lg' :
  cache_ok s K FL →
  (∀ q y, meta s !! q = Some y → is_linked y →
    item_key lg' (item y) = item_key (log s) (item y) ∧ nbytes lg' (item y) = nbytes (log s) (item y) ∧
    ITEM_ntotal lg' (item y) = ITEM_ntotal (log s) (item y)) →
  (∀ a, free_at (ml s) a → mget lg' a = mget (log s) a) →
  cache_ok (set_log lg' s) K FL.
Proof.
  intros [[C HR] O2 O3 O4 O5 O6 O7 O8] Hf Hz. split; cbn [log meta ml tab cfg first_free set_log]; try done.
  - exists C. eapply repr_frame; [| |exact HR]; [|done]. intros key q y Hk Hy. exists y. split_and!; try done.
    destruct (O3 _ _ Hk) as (y' & Hy' & Hl & _). assert (y' = y) as -> by congruence. by apply (Hf q).
  - intros q y Hy Hl. destruct (Hf _ _ Hy Hl) as (-> & _). eauto.
  - intros q y Hy Hl. destruct (Hf _ _ Hy Hl) as (_ & E1 & E2). destruct (O5 _ _ Hy Hl).
    split; rewrite ?E1, ?E2; done.
  - intros q r y z Hy Hz' Hly Hlz Hqr. unfold apart. destruct (Hf _ _ Hy Hly) as (_ & _ & ->).
    destruct (Hf _ _ Hz' Hlz) as (_ & _ & ->). by apply (O6 q r).
  - intros a Ha. rewrite Hz by done. auto.
Qed.

(** The flag byte of the item at [d] changes, but not the flags that decide
    about its layout. *)
Record flags_only (lg lg' : memory) (d : Z) : Prop := {
  fo_out : ∀ a, a ≠ d + 9 → mget lg' a = mget lg a;
  fo_bits : ∀ j, j ∈ [1; 4; 6; 7] → has (it_data_flags lg' d) (2 ^ j) = has (it_data_flags lg d) (2 ^ j)
}.

Lemma flags_only_fields lg lg' d :
  0 ≤ nbytes lg d → flags_only lg lg' d →
  item_key lg' d = item_key lg d ∧ nbytes lg' d = nbytes lg d ∧ ITEM_ntotal lg' d = ITEM_ntotal lg d ∧
  item_value lg' d = item_value lg d ∧ exptime lg' d = exptime lg d ∧
  ITEM_get_cas lg' d = ITEM_get_cas lg d ∧ ITEM_suffix lg' d = ITEM_suffix lg d ∧ ITEM_data lg' d = ITEM_data lg d.
Proof.
  intros Hb [Ho Hbits].
  assert (∀ b n, b + n ≤ d + 9 ∨ d + 10 ≤ b → agree lg' lg b n) as Hag by (intros b n H a Ha; apply Ho; lia).
  assert (has (it_data_flags lg' d) ITEM_CAS = has (it_data_flags lg d) ITEM_CAS) as HC by (apply (Hbits 1); set_solver).
  assert (has (it_data_flags lg' d) ITEM_CYCLE = has (it_data_flags lg d) ITEM_CYCLE) as HY by (apply (Hbits 4); set_solver).
  assert (has (it_data_flags lg' d) ITEM_CORRUPTED = has (it_data_flags lg d) ITEM_CORRUPTED) as HR by (apply (Hbits 6); set_solver).
  assert (has (it_data_flags lg' d) ITEM_DELETED = has (it_data_flags lg d) ITEM_DELETED) as HD by (apply (Hbits 7); set_solver).
  assert (nkey lg' d = nkey lg d) as Hk by (apply load_le_agree, Hag; lia).
  assert (nsuffix lg' d = nsuffix lg d) as Hs by (apply load_le_agree, Hag; lia).
  assert (exptime lg' d = exptime lg d) as He by (apply load_le_agree, Hag; lia).
  assert (nbytes lg' d = nbytes lg d) as Hn by (unfold nbytes; f_equal; apply load_le_agree, Hag; lia).
  pose proof (nkey_range lg d). pose proof (nsuffix_range lg d). pose proof (cas_size_range lg d).
  unfold item_key, item_value, ITEM_key, ITEM_data, ITEM_suffix, ITEM_ntotal, ITEM_get_cas, data_off, cas_size in *.
  rewrite HC, HY, HR, HD, Hk, Hs, Hn. split_and!; try done.
  - apply load_bytes_agree, Hag. lia.
  - apply load_bytes_agree, Hag. lia.
  - destruct (has (it_data_flags lg d) ITEM_CAS); [|done]. apply load_le_agree, Hag. lia.
Qed.

Lemma set_flags_only lg d v :
  (∀ j, j ∈ [1; 4; 6; 7] → has (u8 v) (2 ^ j) = has (it_data_flags lg d) (2 ^ j)) →
  flags_only lg (set_it_data_flags d v lg) d.
Proof.
  intros Hb. split.
  - intros a Ha. apply (agree_store_le_out _ _ _ _ a 1); lia.
  - intros j Hj. rewrite flags_set. auto.
Qed.

(** What [publish] writes. *)
Definition published (d : Z) (lg : memory) : memory :=
  data_flags_or d ITEM_STORED (data_flags_clear d ITEM_DIRTY lg).

Lemma published_flags lg d j : 0 ≤ j < 8 →
  has (it_data_flags (published d lg) d) (2 ^ j) =
    (has (it_data_flags lg d) (2 ^ j) && negb (5 =? j)) || (3 =? j).
Proof.
  intros Hj. unfold published, data_flags_or, data_flags_clear. rewrite !flags_set.
  assert (∀ f b, u8 (flag_or f b) = flag_or f b) as H1 by (intros; apply Z.mod_mod; lia).
  assert (∀ f b, u8 (flag_clear f b) = flag_clear f b) as H2 by (intros; apply Z.mod_mod; lia).
  rewrite H1, H2. destruct flag_bits as (_ & _ & _ & -> & _ & -> & _).
  by rewrite has_flag_or, has_flag_clear by lia.
Qed.

Lemma published_only lg d : flags_only lg (published d lg) d.
Proof.
  split.
  - intros a Ha. unfold published, data_flags_or, data_flags_clear, set_it_data_flags.
    rewrite (agree_store_le_out _ _ _ _ a 1) by lia. apply (agree_store_le_out _ _ _ _ a 1); lia.
  - intros j Hj. assert (j = 1 ∨ j = 4 ∨ j = 6 ∨ j = 7) as Hjj by set_solver.
    rewrite published_flags by lia. destruct Hjj as [->|[->|[-> | ->]]]; cbn; by rewrite andb_true_r, orb_false_r.
Qed.

(** Changing the flag byte of a live item disturbs no other item. *)
Lemma flags_only_ok s K FL lg' d :
  cache_ok s K FL → live (log s) (ml s) d → flags_only (log s) lg' d →
  (∀ q y, meta s !! q = Some y → is_linked y → item y = d ∨ apart (log s) d (item y)) →
  cache_ok (set_log lg' s) K FL.
Proof.
  intros Hok Hl Hfo Hap. apply ok_log_update; [done| |].
  - intros q y Hy Hly. pose proof (ok_live _ _ _ Hok _ _ Hy Hly) as L.
    destruct (Hap _ _ Hy Hly) as [->|Ha].
    + by destruct (flags_only_fields _ _ _ (live_nbytes _ _ _ Hl) Hfo) as (? & ? & ? & _).
    + assert (item_agree (log s) lg' (item y)) as Hag.
      { intros a Har. symmetry. apply (fo_out _ _ _ Hfo). pose proof (cas_size_le _ _ (live_nbytes _ _ _ Hl)).
        pose proof (nkey_range (log s) d). pose proof (nsuffix_range (log s) d). pose proof (live_nbytes _ _ _ Hl).
        pose proof (cas_size_range (log s) d). unfold apart in Ha. lia. }
      by destruct (item_agree_fields _ _ _ (live_nbytes _ _ _ L) Hag) as (? & _ & _ & _ & ? & ?).
  - intros a Ha. apply (fo_out _ _ _ Hfo). intros ->. apply (live_owned _ _ _ Hl (d + 9)); [|done].
    pose proof (cas_size_le _ _ (live_nbytes _ _ _ Hl)). pose proof (cas_size_range (log s) d).
    pose proof (nkey_range (log s) d). pose proof (nsuffix_range (log s) d). pose proof (live_nbytes _ _ _ Hl). lia.
Qed.

Lemma publish_spec s K FL p x :
  cache_ok s K FL → meta s !! p = Some x → is_linked x →
  wp (publish p) s (λ _ s', cache_ok s' K FL ∧ s' = set_log (published (item x) (log s)) s).
Proof.
  intros Hok Hx Hl. unfold publish. wp_steps. split; [|by destruct s].
  replace (set_log _ _) with (set_log (published (item x) (log s)) s) by by destruct s.
  eapply flags_only_ok; [done|by apply (ok_live _ _ _ Hok p)|apply published_only|].
  intros q y Hy Hly. destruct (decide (q = p)) as [->|Hq]; [left; congruence|right].
  by apply (ok_apart _ _ _ Hok p q).
Qed.

(** ** A lookup in front of a store *)
(** State after the lookup of the key of the in-flight item [p]; [r] is the
    previous item of the key, held by a reference. *)
Record looked_up (s : cache) (K : gmap (list Z) Z) (FL : list Z) (p : Z) (x : item_metadata)
    (key : list Z) (r : option Z) (s1 : cache) (K1 : gmap (list Z) Z) (FL1 : list Z) : Prop := {
  lu_ok : cache_ok s1 K1 FL1;
  lu_key : K1 !! key = r;
  lu_table : ∀ k, k ≠ key → K1 !! k = K !! k;
  lu_fly : ∃ v, in_flight s1 p (set_h_next v x);
  lu_same : log s1 = log s ∧ ml s1 = ml s ∧ cfg s1 = cfg s ∧ current_time s1 = current_time s;
  lu_by : bystanders p (K !! key) FL s s1;
  lu_held : ∀ o, r = Some o → K !! key = Some o ∧ FL1 = FL ∧ p ≠ o ∧
    ∃ y, meta s !! o = Some y ∧ meta s1 !! o = Some (set_refcount (refcount y + 1) y) ∧
      1 ≤ refcount y < 2 ^ 16 - 1 ∧ dead s y = false;
  lu_gone : r = None → match K !! key with
    | None => FL1 = FL
    | Some o => p ≠ o ∧ o ∉ FL ∧ ∃ y, meta s !! o = Some y ∧ dead s y = true ∧ let_go o y FL s1 FL1
    end
}.

Lemma lookup_for_store s K FL p x :
  let key := item_key (log s) (item x) in
  cache_ok s K FL → in_flight s p x →
  (∀ o y, K !! key = Some o → meta s !! o = Some y → refcount y < 2 ^ 16 - 1) →
  wp (do_item_get key (hash (cfg s) key)) s (λ r s1, ∃ K1 FL1, looked_up s K FL p x key r s1 K1 FL1).
Proof.
  intros key Hok Hif Href. eapply wp_mono; [|apply (do_item_get_spec s K FL key Hok (item_key_bytes _ _) Href)].
  intros r s1. assert (set_h_next (h_next x) x = x) as Hxx by by destruct x.
  destruct (K !! key) as [o|] eqn:HK.
  - intros (y & Hy & Hc). destruct (ok_linked _ _ _ Hok _ _ HK) as (y' & Hy' & Hly & Hsy & Hry).
    assert (y' = y) as -> by congruence.
    assert (p ≠ o) as Hpo by (intros ->; destruct Hif; congruence).
    destruct (dead s y) eqn:Ed.
    + destruct Hc as (-> & Hf & Hok1 & Hgo). eexists _, _. split; [exact Hok1|..]; rewrite ?HK.
      * apply lookup_delete_eq.
      * intros k Hk. by apply lookup_delete_ne.
      * refine (in_flight_unlinked s s1 K _ FL _ p o x Hok Hok1 _ Hf (not_eq_sym Hpo) Hif).
        intros k r [Hne Hk]%lookup_delete_Some. split; [done|]. intros ->.
        destruct (ok_rep _ _ _ Hok) as [C HR]. by apply Hne, (repr_inj HR _ _ o).
      * by destruct Hf.
      * intros q z _ Hqo HF Hz. apply (sf_meta _ _ _ _ Hf); [congruence|done|done].
      * done.
      * intros _. split; [done|]. split; [by eapply free_slot|]. eauto.
    + destruct Hc as (-> & Hok1 & ->). exists K, FL. split; try done; rewrite ?HK; try done.
      * exists (h_next x). rewrite Hxx. destruct Hif as [I1 I2 I3 I4 I5 I6]. split; try done.
        -- cbn. by rewrite lookup_insert_ne.
        -- intros q z. cbn. destruct (decide (q = o)) as [->|Hq].
           ++ rewrite lookup_insert_eq. intros [= <-] Hl. exact (I6 _ _ Hy Hl).
           ++ rewrite lookup_insert_ne by done. apply I6.
      * apply bystanders_same. intros q _ Hqo _. cbn. apply lookup_insert_ne. congruence.
      * intros o' [= <-]. split_and!; try done. exists y. cbn.
        rewrite lookup_insert_eq. specialize (Href o y eq_refl Hy). split_and!; first [done|lia].
  - intros (-> & ->). exists K, FL. split; try done; rewrite ?HK; try done.
    + exists (h_next x). by rewrite Hxx.
    + by apply bystanders_same.
Qed.

(** What a completed store leaves for the item at [d] and for the others. *)
Record stored_item (s : cache) (d : Z) (key : list Z) (p rc : Z) (s' : cache) (K' : gmap (list Z) Z)
    (FL' : list Z) : Prop := {
  st_ok : cache_ok s' K' FL';
  st_slot : K' !! key = Some p ∧ ∃ x', meta s' !! p = Some x' ∧ item x' = d ∧ is_linked x' ∧
    refcount x' = rc;
  st_key : item_key (log s') d = key;
  st_value : item_value (log s') d = item_value (log s) d;
  st_exptime : exptime (log s') d = exptime (log s) d;
  st_flags : has (it_data_flags (log s') d) ITEM_STORED = true ∧
    has (it_data_flags (log s') d) ITEM_DIRTY = false;
  st_env : cfg s' = cfg s ∧ current_time s' = current_time s;
  st_others : ∀ e, live (log s) (ml s) e → apart (log s) d e → item_agree (log s) (log s') e
}.

(** The end of a store: release the old item, publish the new one. *)
Lemma finish_store s s1 K FL p x' d key o :
  cache_ok s1 K FL → meta s1 !! p = Some x' → is_linked x' → item x' = d → K !! key = Some p →
  live (log s) (ml s) d → item_key (log s) d = key → cas_only (log s) (log s1) d → ml s1 = ml s →
  cfg s1 = cfg s ∧ current_time s1 = current_time s →
  (∀ q, o = Some q → q ≠ p ∧ ∃ y, meta s1 !! q = Some y ∧ ¬ is_linked y ∧ ¬ is_slabbed y ∧ 1 ≤ refcount y < 2 ^ 16) →
  wp (_ ← release o; _ ← release None;
      if bool_decide (STORED = STORED) then
        x ← get_meta p;
        cas ← gets (λ s : cache, ITEM_get_cas (log s) (item x));
        _ ← publish p; mret (STORED, Some cas)
      else mret (STORED, None)) s1 (λ '(r, cas) s',
    r = STORED ∧ cas = Some (ITEM_get_cas (log s') d) ∧
    ∃ FL', stored_item s d key p (refcount x') s' K FL' ∧ bystanders p o FL s1 s' ∧
      match o with
      | None => FL' = FL
      | Some q => ∃ y, meta s1 !! q = Some y ∧
          if refcount y =? 1 then FL' = q :: FL
          else FL' = FL ∧ meta s' !! q = Some (set_refcount (refcount y - 1) y)
      end).
Proof.
  intros Hok Hx Hl Hd HK Hlive Hkey Hc Hml [Hcf Hct] Hold.
  assert (wp (release o) s1 (λ _ s2, ∃ FL', cache_ok s2 K FL' ∧ meta s2 !! p = Some x' ∧ log s2 = log s1 ∧
    ml s2 = ml s1 ∧ cfg s2 = cfg s1 ∧ current_time s2 = current_time s1 ∧ bystanders p o FL s1 s2 ∧
      match o with
      | None => FL' = FL
      | Some q => ∃ y, meta s1 !! q = Some y ∧
          if refcount y =? 1 then FL' = q :: FL
          else FL' = FL ∧ meta s2 !! q = Some (set_refcount (refcount y - 1) y)
      end)) as Hrel.
  { destruct o as [q|]; cbn [release]; [|wp_steps; exists FL; split_and!; try done; by apply bystanders_same].
    destruct (Hold q eq_refl) as (Hqp & y & Hy & Hnl & Hns & Hrc).
    eapply wp_mono; [|by apply (do_item_remove_spec s1 K FL q y)].
    intros _ s2 [(me' & ff & -> & Hch) Hc2].
    assert (¬ is_slabbed x') as Hsx.
    { destruct (ok_linked _ _ _ Hok _ _ HK) as (z & Hz & _ & Hsz & _). congruence. }
    pose proof (free_slot _ _ _ _ _ Hok Hx Hsx) as Hfs.
    assert (me' !! p = Some x') as Hp by (rewrite (proj2 Hch); [done|set_solver]).
    assert (bystanders p (Some q) FL s1 (set_first_free ff (set_meta me' s1))) as Hby.
    { apply bystanders_same. intros r _ Hr HF. cbn. apply (proj2 Hch). set_solver. }
    destruct (refcount y =? 1) eqn:E; [exists (q :: FL)|destruct Hc2 as [? Hs2]; exists FL]; split_and!; try done.
    - exists y. by rewrite E.
    - exists y. rewrite E, Hs2. split; [done|]. split; [done|]. apply lookup_insert_eq. }
  wp_step. eapply wp_mono; [|exact Hrel]. intros _ s2 (FL' & Hok2 & Hx2 & Hlg2 & Hml2 & Hcf2 & Hct2 & Hby & Hgone).
  cbn [release]. wp_steps. rewrite bool_decide_eq_true_2 by done. wp_steps.
  eapply wp_mono; [|by apply (publish_spec s2 K FL' p x')]. intros _ s3 [Hok3 ->]. wp_steps.
  rewrite Hd, Hlg2 in *. split; [done|]. cbn [log set_log].
  destruct (cas_only_fields _ _ _ (live_nbytes _ _ _ Hlive) Hc) as (Hh & Hk1 & Hv1 & _ & Hn1 & He1).
  pose proof (live_nbytes _ _ _ Hlive) as Hnb.
  destruct (flags_only_fields (log s1) _ d ltac:(lia) (published_only (log s1) d)) as
    (P1 & P2 & P3 & P4 & P5 & P6 & _).
  split; [by rewrite P6|]. exists FL'. split; [|split; [exact Hby|exact Hgone]]. split.
  - exact Hok3.
  - split; [done|]. exists x'. by cbn.
  - cbn. congruence.
  - cbn. congruence.
  - cbn. congruence.
  - cbn [log set_log]. destruct flag_bits as (_ & _ & _ & HS & _ & HD & _). rewrite HS, HD.
    rewrite !published_flags by lia. cbn. by rewrite orb_true_r, andb_false_r.
  - cbn. split; congruence.
  - intros e He Ha. cbn [log set_log]. pose proof (cas_only_apart _ _ _ _ Hnb (live_nbytes _ _ _ He) Hc Ha) as Hag.
    unfold item_agree in *. eapply agree_trans; [exact Hag|]. intros a Har. symmetry.
    apply (fo_out _ _ _ (published_only (log s1) d)). pose proof (cas_size_le _ _ Hnb).
    pose proof (nkey_range (log s) d). pose proof (nsuffix_range (log s) d). pose proof (cas_size_range (log s) d).
    unfold apart in Ha. lia.
Qed.

(** ** The commands that link the item of the request *)
Lemma store_link_spec s K FL p x key r s1 K1 FL1 c :
  key = item_key (log s) (item x) → looked_up s K FL p x key r s1 K1 FL1 →
  wp (store_link p r (hash (cfg s) key)) (set_cnt c s1) (λ _ s2,
    cache_ok s2 (<[key := p]> K1) FL1 ∧
    (∃ x', meta s2 !! p = Some x' ∧ is_linked x' ∧ item x' = item x ∧ refcount x' = refcount x + 1) ∧
    cas_only (log s) (log s2) (item x) ∧ ml s2 = ml s ∧
    (cfg s2 = cfg s ∧ current_time s2 = current_time s) ∧
    bystanders p r FL1 s1 s2 ∧
    (∀ q, r = Some q → q ≠ p ∧ ∃ y v, meta s !! q = Some y ∧ meta s2 !! q = Some (unlinked_meta v y) ∧
      ¬ is_linked (unlinked_meta v y) ∧ ¬ is_slabbed (unlinked_meta v y) ∧ 1 ≤ refcount y < 2 ^ 16)).
Proof.
  intros -> [L1 L2 L3 [v L4] (S1 & S2 & S3 & S4) _ L6 _].
  assert (in_flight (set_cnt c s1) p (set_h_next v x)) as L4' by by destruct L4.
  pose proof (ok_cnt _ _ _ c L1) as L1'.
  assert (∀ t u, ∃ x', linked_meta t u (set_h_next v x) = x' ∧ is_linked x' ∧ item x' = item x ∧
    refcount x' = refcount x + 1) as Hlm.
  { intros t u. eexists. split; [done|]. split; [|by destruct x].
    apply (linked_meta_flags t u). apply (if_unslabbed _ _ _ L4). }
  destruct r as [o|]; cbn [store_link]; wp_step.
  - destruct (L6 o eq_refl) as (_ & _ & Hpo & y & Hy0 & Hy & Hry & _).
    pose proof (do_item_replace_spec (set_cnt c s1) K1 FL1 o (set_refcount (refcount y + 1) y) p
      (set_h_next v x)) as Hw.
    cbn [item set_h_next log cfg current_time ml meta set_cnt] in Hw. cbv zeta in Hw.
    rewrite S1, S3, S4 in Hw.
    eapply wp_mono; [|apply Hw; try done; cbn; lia].
    intros r s2 (_ & Hok2 & [u Hp] & [w Ho] & Hc & Hm & Hcf & Hct & Hby). wp_steps. split; [done|]. split.
    { destruct (Hlm (current_time s) u) as (x' & Hx' & ?). exists x'. by rewrite Hp, Hx'. }
    split; [done|]. split; [congruence|]. split; [split; congruence|]. split; [exact Hby|].
    intros q [= <-]. split; [done|]. exists y, w. split; [done|]. split.
    { rewrite Ho. clear. destruct y as [nf pf h t rc fl cl gc it]. unfold unlinked_meta.
      unfold set_h_next, set_it_flags, set_refcount. cbn. do 2 f_equal. lia. }
    destruct (ok_linked _ _ _ L1 _ _ L2) as (y' & Hy' & _ & Hsy & _).
    assert (y' = set_refcount (refcount y + 1) y) as -> by congruence.
    destruct (unlinked_meta_flags w y Hsy). split_and!; try done; lia.
  - pose proof (do_item_link_spec (set_cnt c s1) K1 FL1 p (set_h_next v x) L1' L4') as Hw.
    cbn [item set_h_next log cfg current_time ml meta set_cnt] in Hw. cbv zeta in Hw. rewrite S1, S3 in Hw.
    eapply wp_mono; [|by apply Hw].
    intros r s2 (_ & Hok2 & [u Hp] & Hc & Hm & Hcf & Hct). wp_steps. split; [done|]. split.
    { destruct (Hlm (current_time s1) u) as (x' & Hx' & ?). exists x'. by rewrite Hp, lookup_insert_eq, Hx'. }
    split; [done|]. split; [congruence|]. split; [split; congruence|]. split; [|done].
    apply bystanders_same. intros q Hq _ _. by rewrite Hp, lookup_insert_ne.
Qed.

(** The decision of the protocol, from the CAS of the live old item, if any. *)
Definition verdict (comm : nread_cmd) (old : option Z) (cas : Z) : store_item_type :=
  match comm, old with
  | NREAD_ADD, Some _ => NOT_STORED
  | NREAD_REPLACE, None | NREAD_APPEND, None | NREAD_PREPEND, None => NOT_STORED
  | NREAD_CAS, None => NOT_FOUND
  | NREAD_CAS, Some c => if cas =? c then STORED else EXISTS
  | _, _ => STORED
  end.
Definition plain_command (comm : nread_cmd) : Prop := comm ≠ NREAD_APPEND ∧ comm ≠ NREAD_PREPEND.

(** The old item a store sees: bound to the key and alive. *)
Definition live_cas (s : cache) (K : gmap (list Z) Z) (key : list Z) : option Z :=
  o ← K !! key; y ← meta s !! o;
  if dead s y then None else Some (ITEM_get_cas (log s) (item y)).

Lemma looked_up_cas s K FL p x key r s1 K1 FL1 :
  looked_up s K FL p x key r s1 K1 FL1 →
  live_cas s K key = match r with
    | None => None
    | Some o => y ← meta s1 !! o; Some (ITEM_get_cas (log s) (item y))
    end.
Proof.
  intros [_ _ _ _ _ _ L6 L7]. unfold live_cas. destruct r as [o|].
  - destruct (L6 o eq_refl) as (-> & _ & _ & y & Hy0 & Hy & _ & Hd). cbn.
    rewrite Hy0, Hy. cbn. by rewrite Hd.
  - specialize (L7 eq_refl). destruct (K !! key) as [o|]; [|done]. cbn.
    destruct L7 as (_ & _ & y & -> & Hd & _). cbn. by rewrite Hd.
Qed.

(** ** The commands that leave the old item *)
Lemma do_item_update_spec s o y :
  meta s !! o = Some y → ¬ is_slabbed y → lru_log_enabled (cfg s) = false →
  wp (do_item_update o) s (λ r s', r = (None, None) ∧
    ∃ t, (t = time y ∨ t = current_time s) ∧ s' = set_meta (<[o := set_time t y]> (meta s)) s).
Proof.
  intros Hy Hs Hlru. unfold do_item_update. wp_steps.
  assert (∃ t, (t = time y ∨ t = current_time s) ∧ s = set_meta (<[o := set_time t y]> (meta s)) s) as Hid.
  { exists (time y). split; [by left|]. rewrite insert_id; [by destruct s|]. rewrite Hy. by destruct y. }
  destruct (needs_update _ _); [|by wp_steps]. wp_step. apply wp_assert; [by rewrite is_slabbed_false|].
  destruct (has _ _); [|by wp_steps]. wp_steps. cbn [cfg set_meta]. rewrite Hlru. wp_steps. split; [done|]. eauto.
Qed.

(** What becomes of the slot [K] binds the key to.  After an accepted store it
    lost the reference of the table; after a refused one that holds for an item
    that had expired or was flushed, and a live one keeps everything but its
    access time. *)
Definition old_released (s : cache) (K : gmap (list Z) Z) (FL : list Z) (key : list Z)
    (s' : cache) (FL' : list Z) : Prop :=
  match K !! key with
  | None => FL' = FL
  | Some o => ∃ y, meta s !! o = Some y ∧ let_go o y FL s' FL'
  end.
Definition old_kept (s : cache) (K : gmap (list Z) Z) (FL : list Z) (key : list Z)
    (s' : cache) (K' : gmap (list Z) Z) (FL' : list Z) : Prop :=
  match K !! key with
  | None => FL' = FL ∧ K' !! key = None
  | Some o => ∃ y, meta s !! o = Some y ∧
      if dead s y then let_go o y FL s' FL' ∧ K' !! key = None
      else FL' = FL ∧ K' !! key = Some o ∧ ∃ t, meta s' !! o = Some (set_time t y)
  end.

(** A refused store: the table is that of the lookup, the item of the request
    still belongs to its caller and nothing was written. *)
Definition refused (s : cache) (K : gmap (list Z) Z) (FL : list Z) (p : Z) (x : item_metadata)
    (key : list Z) (s' : cache) : Prop :=
  ∃ K1 FL1 v, cache_ok s' K1 FL1 ∧ (∀ k, k ≠ key → K1 !! k = K !! k) ∧
    old_kept s K FL key s' K1 FL1 ∧ bystanders p (K !! key) FL s s' ∧
    in_flight s' p (set_h_next v x) ∧ log s' = log s ∧ ml s' = ml s.

(** Release the old item after a refusal; [y'] is its metadata then. *)
Lemma refuse_spec s K FL p x key r s1 K1 FL1 me' c :
  looked_up s K FL p x key r s1 K1 FL1 →
  (∀ q, q ≠ default p r → me' !! q = meta s1 !! q) → (r = None → me' = meta s1) →
  (∀ o y, r = Some o → meta s1 !! o = Some y → ∃ t, me' !! o = Some (set_time t y)) →
  wp (release r) (set_cnt c (set_meta me' s1)) (λ _ s', refused s K FL p x key s').
Proof.
  intros [L1 L2 L3 [v L4] (S1 & S2 & S3 & S4) Lby L6 L7] Hme Hnone Hsome.
  destruct r as [o|]; cbn [release default] in *.
  - destruct (L6 o eq_refl) as (HK & -> & Hpo & y0 & Hy0 & Hy & Hry & Hdead).
    set (y := set_refcount _ y0) in Hy. destruct (Hsome o y eq_refl Hy) as [t Ht].
    destruct (ok_linked _ _ _ L1 _ _ L2) as (y' & Hy' & Hly & Hsy & _). assert (y' = y) as -> by congruence.
    assert (me' = <[o := set_time t y]> (meta s1)) as ->.
    { apply map_eq. intros q. destruct (decide (q = o)) as [->|Hq]; [by rewrite lookup_insert_eq|].
      rewrite lookup_insert_ne by done. by apply Hme. }
    set (s2 := set_cnt c _).
    assert (cache_ok s2 K1 FL) as Hok2.
    { apply ok_cnt. eapply ok_upd_meta; try done. intros _. cbn. lia. }
    assert (meta s2 !! o = Some (set_time t y)) as Ho2 by apply lookup_insert_eq.
    eapply wp_mono; [|apply (do_item_remove_spec s2 K1 FL o _ Hok2 Ho2); [done|cbn; lia|cbn; lia]].
    intros _ s3 [_ Hc]. cbn [refcount set_time y set_refcount] in Hc.
    rewrite (proj2 (Z.eqb_neq (refcount y0 + 1) 1)) in Hc by lia. destruct Hc as [Hok3 ->].
    exists K1, FL, v. split; [done|]. split; [done|]. split; [|split; [|split; [|done]]].
    + unfold old_kept. rewrite HK. exists y0. split; [done|]. rewrite Hdead. split; [done|]. split; [done|].
      exists t. cbn [meta set_meta set_cnt s2]. rewrite lookup_insert_eq. unfold y, set_time, set_refcount.
      cbn. do 2 f_equal. lia.
    + eapply bystanders_trans; [exact Lby| |by intros q ? ?; split; [done|]].
      apply bystanders_same. intros q Hq Hqo _. cbn [meta set_meta set_cnt s2].
      rewrite !lookup_insert_ne by congruence. done.
    + destruct L4 as [I1 I2 I3 I4 I5 I6]. split; try done; cbn [meta set_meta set_cnt s2].
      * by rewrite !lookup_insert_ne by done.
      * intros q z. destruct (decide (q = o)) as [->|Hq].
        -- rewrite lookup_insert_eq. intros [= <-] Hl. exact (I6 _ _ Hy Hl).
        -- rewrite !lookup_insert_ne by done. apply I6.
  - rewrite (Hnone eq_refl). wp_steps. exists K1, FL1, v.
    split; [|split; [done|split; [|split; [|split; [|done]]]]].
    + apply ok_cnt. by destruct s1.
    + specialize (L7 eq_refl). unfold old_kept. destruct (K !! key) as [o|]; [|done].
      destruct L7 as (_ & _ & y & Hy & Hd & Hg). exists y. split; [done|]. by rewrite Hd.
    + exact Lby.
    + by destruct L4.
Qed.

Lemma wp_bind_inv {A B} (m : server A) (k : A → server B) s Q :
  wp (m ≫= k) s Q → wp m s (λ a s', wp (k a) s' Q).
Proof.
  intros (b & s2 & He & HQ). apply bind_inv in He as (a & s1 & Hm & Hk).
  exists a, s1. split; [done|]. by exists b, s2.
Qed.

(** ** [do_store_item] for the commands that do not combine values *)
Section store.
Context (s : cache) (K : gmap (list Z) Z) (FL : list Z) (p : Z) (x : item_metadata).
Let key := item_key (log s) (item x).
Context (Hok : cache_ok s K FL) (Hif : in_flight s p x).
Context (Href : ∀ o y, K !! key = Some o → meta s !! o = Some y → refcount y < 2 ^ 16 - 1).

(** Result of a store that is accepted ([Some]) or refused ([None]). *)
Definition store_post (r : store_item_type) (cas : option Z) (s' : cache) : Prop :=
  if bool_decide (r = STORED) then
    cas = Some (ITEM_get_cas (log s') (item x)) ∧
    ∃ FL', stored_item s (item x) key p (refcount x + 1) s' (<[key := p]> K) FL' ∧
      old_released s K FL key s' FL' ∧ bystanders p (K !! key) FL s s'
  else cas = None ∧ refused s K FL p x key s'.

Definition finish (old_it : option Z) (out : outcome) : server (store_item_type * option Z) :=
  let '(stored, new_it, it) := out in
  _ ← release old_it;
  _ ← release new_it;
  if bool_decide (stored = STORED) then
    x ← get_meta it;
    cas ← gets (λ s : cache, ITEM_get_cas (log s) (item x));
    _ ← publish it;
    mret (STORED, Some cas)
  else mret (stored, None).

(** The old item and the others, over the lookup, the link and the release. *)
Lemma released r s1 K1 FL1 s2 s' FL' :
  looked_up s K FL p x key r s1 K1 FL1 → bystanders p r FL1 s1 s2 → bystanders p r FL1 s2 s' →
  (∀ q, r = Some q → q ≠ p ∧ ∃ y v, meta s !! q = Some y ∧ meta s2 !! q = Some (unlinked_meta v y) ∧
      ¬ is_linked (unlinked_meta v y) ∧ ¬ is_slabbed (unlinked_meta v y) ∧ 1 ≤ refcount y < 2 ^ 16) →
  match r with
  | None => FL' = FL1
  | Some q => ∃ y, meta s2 !! q = Some y ∧
      if refcount y =? 1 then FL' = q :: FL1
      else FL' = FL1 ∧ meta s' !! q = Some (set_refcount (refcount y - 1) y)
  end →
  old_released s K FL key s' FL' ∧ bystanders p (K !! key) FL s s'.
Proof.
  intros [_ _ _ _ _ Lby L6 L7] H1 H2 Hold Hgone.
  assert (bystanders p r FL1 s1 s') as H3 by (eapply bystanders_trans; [exact H1|exact H2|done]).
  unfold old_released. destruct r as [o|].
  - destruct (L6 o eq_refl) as (HK & -> & Hpo & _). rewrite HK in *.
    split; [|eapply bystanders_trans; [exact Lby|exact H3|done]].
    destruct (Hold o eq_refl) as (_ & y & v & Hy & Hy2 & _). destruct Hgone as (z & Hz & Hg).
    exists y. split; [done|]. assert (z = unlinked_meta v y) as -> by congruence. cbn [refcount unlinked_meta] in Hg.
    unfold let_go. change (refcount (unlinked_meta v y)) with (refcount y) in Hg.
    destruct (refcount y =? 1); [done|]. destruct Hg as [-> Hm]. split; [done|]. by exists v.
  - specialize (L7 eq_refl). rewrite Hgone. destruct (K !! key) as [o|].
    + destruct L7 as (Hpo & HF & y & Hy & _ & Hg). split.
      { exists y. split; [done|]. by eapply let_go_keep. }
      eapply bystanders_trans; [exact Lby|exact H3|]. intros q Hq HFq. split; [done|].
      unfold let_go in Hg. destruct (refcount y =? 1); [rewrite Hg|by destruct Hg as [-> _]].
      set_solver.
    + split; [done|]. subst. eapply bystanders_trans; [exact Lby|exact H3|done].
Qed.

Lemma accept r s1 K1 FL1 c :
  looked_up s K FL p x key r s1 K1 FL1 →
  wp (_ ← store_link p r (hash (cfg s) key); finish r (STORED, None, p)) (set_cnt c s1)
    (λ '(st, cas) s', st = STORED ∧ store_post st cas s').
Proof.
  intros HL. wp_step. eapply wp_mono; [|by apply (store_link_spec s K FL p x key r s1 K1 FL1 c)].
  intros _ s2 (Hok2 & (x' & Hx' & Hl' & Hi' & Hr') & Hc & Hm & Henv & Hby & Hold).
  assert (<[key := p]> K1 = <[key := p]> K) as HK.
  { apply map_eq. intros k. destruct (decide (k = key)) as [->|Hk]; [by rewrite !lookup_insert_eq|].
    rewrite !lookup_insert_ne by done. by apply (lu_table _ _ _ _ _ _ _ _ _ _ HL). }
  rewrite HK in Hok2.
  eapply wp_mono; [|apply (finish_store s s2 (<[key := p]> K) FL1 p x' (item x) key r); try done].
  - intros [st cas] s' (-> & -> & FL' & Hst & Hby2 & Hgone). split; [done|]. unfold store_post.
    rewrite bool_decide_eq_true_2 by done. split; [done|]. rewrite Hr' in Hst.
    exists FL'. split; [done|]. by eapply released.
  - apply lookup_insert_eq.
  - apply Hif.
  - intros q Hq. destruct (Hold q Hq) as (Hqp & y & v & _ & Hy & Hnl & Hns & Hr). split; [done|].
    exists (unlinked_meta v y). done.
Qed.

Lemma refuse r s1 K1 FL1 c me' st :
  looked_up s K FL p x key r s1 K1 FL1 → st ≠ STORED →
  (∀ q, q ≠ default p r → me' !! q = meta s1 !! q) → (r = None → me' = meta s1) →
  (∀ o y, r = Some o → meta s1 !! o = Some y → ∃ t, me' !! o = Some (set_time t y)) →
  wp (finish r (st, None, p)) (set_cnt c (set_meta me' s1)) (λ '(st', cas) s', st' = st ∧ store_post st' cas s').
Proof.
  intros HL Hst H1 H2 H3. cbn [finish]. wp_step.
  eapply wp_mono; [|by apply (refuse_spec s K FL p x key r s1 K1 FL1 me' c)]. intros u s2 Hr.
  cbn [release]. wp_steps. rewrite bool_decide_eq_false_2 by done. wp_steps.
  split; [done|]. unfold store_post. by rewrite bool_decide_eq_false_2.
Qed.

(** A refusal that touches nothing. *)
Lemma refuse_plain r s1 K1 FL1 c st :
  looked_up s K FL p x key r s1 K1 FL1 → st ≠ STORED →
  wp (finish r (st, None, p)) (set_cnt c s1) (λ '(st', cas) s', st' = st ∧ store_post st' cas s').
Proof.
  intros HL Hst. replace (set_cnt c s1) with (set_cnt c (set_meta (meta s1) s1)) by by destruct s1.
  eapply refuse; try done. intros o y -> Hy. exists (time y). rewrite Hy. by destruct y.
Qed.

Lemma store_plain_spec comm :
  plain_command comm → (comm = NREAD_ADD → lru_log_enabled (cfg s) = false) →
  wp (do_store_item p comm (hash (cfg s) key)) s (λ '(st, cas) s',
    st = verdict comm (live_cas s K key) (ITEM_get_cas (log s) (item x)) ∧ store_post st cas s').
Proof.
  intros [Hc1 Hc2] Hlru. pose proof (if_meta _ _ _ Hif) as Hx. unfold do_store_item. do 4 wp_step. wp_step.
  eapply wp_mono; [|apply (lookup_for_store s K FL p x Hok Hif Href)].
  intros r s1 (K1 & FL1 & HL).
  rewrite (looked_up_cas s K FL p x key r s1 K1 FL1 HL).
  assert (∃ c, s1 = set_cnt c s1) as [c Hc] by apply set_counters_id.
  pose proof (lu_same _ _ _ _ _ _ _ _ _ _ HL) as (S1 & S2 & S3 & S4).
  assert (wp (_ ← store_link p r (hash (cfg s) key); finish r (STORED, None, p)) s1
    (λ '(st, cas) s', st = STORED ∧ store_post st cas s')) as Hacc
    by (rewrite Hc; by eapply accept).
  fold key.
  assert (∀ Q, wp (_ ← store_link p r (hash (cfg s) key); finish r (STORED, None, p)) s1 Q →
    wp (out ← (_ ← store_link p r (hash (cfg s) key); mret (STORED, None, p)); finish r out) s1 Q) as Hassoc.
  { intros Q (a & s2 & He & HQ). exists a, s2. split; [|done]. by rewrite bind_assoc. }
  change (wp (out ← store_command p comm r (ITEM_key (log s) (item x)) (hash (cfg s) key); finish r out) s1
    (λ '(st, cas) s', st = verdict comm (match r with
       | Some o => y ← meta s1 !! o; Some (ITEM_get_cas (log s) (item y)) | None => None end)
       (ITEM_get_cas (log s) (item x)) ∧ store_post st cas s')).
  destruct r as [o|].
  - destruct (lu_held _ _ _ _ _ _ _ _ _ _ HL o eq_refl) as (_ & _ & Hpo & y0 & _ & Hy & _).
    set (y := set_refcount _ y0) in Hy. rewrite Hy. cbn [mbind option_bind].
    destruct (ok_linked _ _ _ (lu_ok _ _ _ _ _ _ _ _ _ _ HL) _ _ (lu_key _ _ _ _ _ _ _ _ _ _ HL)) as (y' & Hy' & _ & Hsy & _).
    assert (y' = y) as -> by congruence.
    destruct comm; cbn [store_command verdict]; try done.
    + do 2 wp_step. eapply wp_mono; [|apply (do_item_update_spec s1 o y Hy Hsy); rewrite S3; by apply Hlru].
      intros [n st] s2 ([= -> ->] & t & _ & ->). wp_steps. cbn [default].
      destruct (set_counters_id (set_meta (<[o := set_time t y]> (meta s1)) s1)) as [c2 ->].
      eapply refuse; try done.
      * intros q Hq. by rewrite lookup_insert_ne.
      * intros o' y' [= <-] Hy''. exists t. rewrite lookup_insert_eq. congruence.
    + apply Hassoc. exact Hacc.
    + apply Hassoc. exact Hacc.
    + cbn [store_cas]. destruct (lu_fly _ _ _ _ _ _ _ _ _ _ HL) as [v Hfly].
      pose proof (if_meta _ _ _ Hfly) as Hp1. wp_steps. cbn [item set_h_next]. rewrite S1.
      destruct (_ =? _) eqn:E.
      * wp_steps. match goal with |- wp _ (set_cnt ?c' s1) _ =>
          pose proof (accept (Some o) s1 K1 FL1 c' HL) as Ha end.
        cbn [store_link] in Ha. apply wp_bind_inv, wp_bind_inv in Ha.
        eapply wp_mono; [|exact Ha]. intros n s2 (u & s3 & [= <- <-] & Hn). by wp_steps.
      * wp_steps. eapply (refuse_plain (Some o) s1 K1 FL1); done.
  - destruct comm; cbn [store_command verdict]; try done.
    + apply Hassoc. exact Hacc.
    + apply Hassoc. exact Hacc.
    + wp_steps. rewrite Hc. eapply (refuse_plain None s1 K1 FL1); done.
    + cbn [store_cas]. wp_steps. eapply (refuse_plain None s1 K1 FL1); done.
Qed.
End store.
