(* ===== verification/StoreClaims.v ===== *)
(** * The storage commands: contract and round trip *)
From Stdlib Require Import ZArith Lia.
From stdpp Require Import strings prelude gmap list functions.
From S2P Require Import Prelude Mem Util Item State Memlog Assoc AssocFacts Items ItemFacts ItemSpec ItemClaims Store StoreFacts.

(** C1: set, add, replace and cas, from any consistent cache, with the item of
    the request held by its caller and fewer than 65535 references to the item
    under its key; for add also with LRU logging off (with it on, an add of an
    existing key can answer STORED).  The reply is exactly the protocol's
    decision from the command, the CAS of the live old item and the CAS of the
    request.  An accepted store binds the key to the new item with its value,
    expiry and key unchanged, marks it stored and not dirty, takes the table's
    reference from the old item (which goes to the freelist if that was its
    last), and leaves every other key, the bytes of every other live item and,
    up to chain links, the metadata of every other used slot.  A refused one
    writes nothing to the log, leaves all other bindings and metadata, keeps a
    live old item bound with its references, and the item of the request stays
    with its owner. *)
Theorem do_store_item_correct (s : cache) (K : gmap (list Z) Z) (FL : list Z) (p : Z)
    (x : item_metadata) (comm : nread_cmd)
    (Hok : cache_ok s K FL) (Hfly : in_flight s p x)
    (Href : ∀ o y, K !! item_key (log s) (item x) = Some o → meta s !! o = Some y → refcount y < 2 ^ 16 - 1)
    (Hcomm : plain_command comm)
    (Hlru : comm = NREAD_ADD → lru_log_enabled (cfg s) = false) :
  let key := item_key (log s) (item x) in
  ∃ st cas s', do_store_item p comm (hash (cfg s) key) s = Ok ((st, cas), s') ∧
    st = verdict comm (live_cas s K key) (ITEM_get_cas (log s) (item x)) ∧
    if bool_decide (st = STORED) then
      cas = Some (ITEM_get_cas (log s') (item x)) ∧
      ∃ FL', stored_item s (item x) key p (refcount x + 1) s' (<[key := p]> K) FL' ∧
        old_released s K FL key s' FL' ∧ bystanders p (K !! key) FL s s'
    else cas = None ∧ refused s K FL p x key s'.
Proof.
  intros key. destruct (store_plain_spec s K FL p x Hok Hfly Href comm Hcomm Hlru) as ([st cas] & s' & He & Hv & H).
  exists st, cas, s'. split; [exact He|]. split; [exact Hv|exact H].
Qed.

(** The references to the old item are few in a state without one. *)
Lemma no_old (s : cache) (K : gmap (list Z) Z) key :
  K !! key = None → ∀ o y, K !! key = Some o → meta s !! o = Some y → refcount y < 2 ^ 16 - 1.
Proof. intros HK o y Ho. congruence. Qed.

(** A second item under the key of the first, not yet stored. *)
Definition second_one : cache := final (do_item_alloc key_a 1 0 0 7) linked_one.
Lemma second_one_ok :
  cache_ok second_one {[ str "a" := 3 ]} [1; 0] ∧ ∃ t d, in_flight second_one 2 (fresh_meta true t d) ∧
    fresh_item (log second_one) d (str "a") 0 0 7 true.
Proof.
  assert (ml linked_one = Memlog MEMLOG_DEFAULT_SIZE 39 (MEMLOG_DEFAULT_SIZE - 39) 0 0) as Hml
    by (vm_compute; reflexivity).
  pose proof (nsuffix_of_range 0 7).
  assert (use_cas (cfg linked_one) = true) as Hcas by (vm_compute; reflexivity).
  assert (item_ntotal 1 0 7 true ≤ 100) as Hn by (rewrite item_ntotal_eq by lia; unfold cas_bytes; lia).
  assert (0 < item_ntotal 1 0 7 true) as Hn' by (rewrite item_ntotal_eq by lia; unfold cas_bytes; lia).
  assert (may_allocate (ml linked_one) (item_ntotal 1 0 7 (use_cas (cfg linked_one)))) as Hmay.
  { rewrite Hcas, Hml. split; [lia|right]. cbn [mem_current mem_limit]. unfold MEMLOG_DEFAULT_SIZE. lia. }
  assert (item_ntotal 1 0 7 (use_cas (cfg linked_one)) ≤ mem_limit (ml linked_one) - 35) as Hle.
  { rewrite Hcas, Hml. cbn [mem_limit]. unfold MEMLOG_DEFAULT_SIZE. lia. }
  exact (alloc_ok_computed (str "a") 0 0 7 linked_one {[ str "a" := 3 ]} 2 [1; 0] (str_bytes _) ltac:(cbn; lia)
    ltac:(lia) ltac:(lia) eq_refl linked_one_ok Hmay Hle ltac:(vm_compute; reflexivity)).
Qed.
Lemma second_one_old o y :
  ({[ str "a" := 3 ]} : gmap (list Z) Z) !! str "a" = Some o → meta second_one !! o = Some y → refcount y = 2.
Proof.
  rewrite lookup_singleton_eq. intros [= <-] Hy.
  assert (refcount <$> (meta second_one !! 3) = Some 2) as Hr by (vm_compute; reflexivity).
  rewrite Hy in Hr. by injection Hr.
Qed.

Lemma do_store_item_correct_witness :
  ∃ d cas s' FL', do_store_item 2 NREAD_SET 5 second_one = Ok ((STORED, cas), s') ∧
    stored_item second_one d (str "a") 2 2 s' (<[str "a" := 2]> {[ str "a" := 3 ]}) FL' ∧
    old_released second_one {[ str "a" := 3 ]} [1; 0] (str "a") s' FL'.
Proof.
  destruct second_one_ok as (Hok & t & d & Hif & Hfi). exists d.
  pose proof (do_store_item_correct second_one {[ str "a" := 3 ]} [1; 0] 2 (fresh_meta true t d) NREAD_SET Hok Hif) as H.
  cbn [item fresh_meta] in H. rewrite (fi_key _ _ _ _ _ _ _ Hfi) in H.
  destruct H as (st & cas & s' & He & -> & Hc);
    [intros o y Ho Hy; rewrite (second_one_old o y Ho Hy); lia|by split|done|].
  exists cas, s'. destruct Hc as (_ & FL' & Hst & Hrel & _). exists FL'.
  split; [exact He|]. split; [exact Hst|exact Hrel].
Defined.

(** No flush is pending and the item's expiry lies in the future. *)
Definition will_live (s : cache) (et : Z) : Prop :=
  oldest_live (cfg s) = 0 ∧ (et = 0 ∨ current_time s < et).

Lemma will_live_not_dead s x : will_live s (exptime (log s) (item x)) → dead s x = false.
Proof.
  intros [H1 H2]. unfold dead, item_flushed. rewrite H1. cbn. destruct H2 as [-> | H2]; [done|].
  apply andb_false_iff. right. apply Z.leb_gt. lia.
Qed.

(** C6: set then get.  From a consistent cache, with no flush_all time set, an
    item without expiry or with one in the future, and fewer than 65533
    references to it and to the item it replaces: the set is accepted, and a get
    of the key right after it returns the very item that was set, with the value
    that was sent. *)
Theorem set_get_roundtrip (s : cache) (K : gmap (list Z) Z) (FL : list Z) (p : Z) (x : item_metadata)
    (Hok : cache_ok s K FL) (Hfly : in_flight s p x)
    (Href : ∀ o y, K !! item_key (log s) (item x) = Some o → meta s !! o = Some y → refcount y < 2 ^ 16 - 1)
    (Hlive : will_live s (exptime (log s) (item x))) (Hfew : refcount x < 2 ^ 16 - 3) :
  let key := item_key (log s) (item x) in
  ∃ cas s1 s2, do_store_item p NREAD_SET (hash (cfg s) key) s = Ok ((STORED, cas), s1) ∧
    item_get key s1 = Ok (Some p, s2) ∧
    (item <$> meta s2 !! p) = Some (item x) ∧ item_value (log s2) (item x) = item_value (log s) (item x).
Proof.
  intros key.
  destruct (store_plain_spec s K FL p x Hok Hfly Href NREAD_SET ltac:(by split) ltac:(done)) as ([st cas] & s1 & He & -> & H).
  destruct H as (_ & FL' & [T1 [T2 (x' & Hx' & Hi & Hl & Hr)] T3 T4 T5 T6 [T7 T7'] T8] & _).
  assert (Forall is_byte key) as Hb by apply item_key_bytes.
  assert (∀ q y, <[key := p]> K !! key = Some q → meta s1 !! q = Some y → refcount y < 2 ^ 16 - 1) as Hq.
  { intros q y. rewrite lookup_insert_eq. intros [= <-] Hy. assert (y = x') as -> by congruence. lia. }
  destruct (do_item_get_spec s1 _ FL' key T1 Hb Hq) as (r & s2 & Hg & Hpost).
  rewrite lookup_insert_eq in Hpost. destruct Hpost as (y & Hy & Hpost).
  assert (y = x') as -> by congruence.
  rewrite will_live_not_dead in Hpost.
  2:{ rewrite Hi, T5. unfold will_live in *. by rewrite T7, T7'. }
  destruct Hpost as (-> & _ & ->). eexists cas, s1, _. split; [exact He|]. split; [exact Hg|].
  cbn [meta log set_meta]. rewrite lookup_insert_eq. split; [|done]. cbn. by rewrite Hi.
Qed.

Lemma set_get_roundtrip_witness :
  ∃ d cas s1 s2, do_store_item 3 NREAD_SET 5 allocated_one = Ok ((STORED, cas), s1) ∧
    item_get (str "a") s1 = Ok (Some 3, s2) ∧ (item <$> meta s2 !! 3) = Some d ∧
    item_value (log s2) d = item_value (log allocated_one) d.
Proof.
  destruct allocated_one_ok as (Hok & t & d & Hif & Hfi). exists d.
  pose proof (set_get_roundtrip allocated_one ∅ [2; 1; 0] 3 (fresh_meta true t d) Hok Hif) as H.
  cbn [item fresh_meta] in H. rewrite (fi_key _ _ _ _ _ _ _ Hfi) in H.
  apply (H (no_old _ ∅ _ (lookup_empty _))).
  - rewrite (fi_exptime _ _ _ _ _ _ _ Hfi). split; [reflexivity|by left].
  - cbn. lia.
Defined.

(** Arithmetic of incr and decr: an increment is addition modulo 2^64, a
    decrement is subtraction cut off at zero, for every 64-bit value and every
    delta the protocol can carry. *)
Theorem delta_value_correct (delta value : Z) (Hd : 0 ≤ delta < 2 ^ 63) (Hv : 0 ≤ value < 2 ^ 64) :
  delta_value true delta value = (value + delta) mod 2 ^ 64 ∧
  delta_value false delta value = Z.max 0 (value - delta) ∧
  (length (fmt_u (delta_value false delta value)) ≤ 20)%nat.
Proof.
  split; [done|]. split; [|apply fmt_u_length]. unfold delta_value.
  rewrite (u64_small delta) by lia. rewrite Z.gtb_ltb. destruct (value <? delta) eqn:E; reflect_bools; [lia|].
  rewrite u64_small; lia.
Qed.
Lemma delta_value_correct_witness : delta_value false 5 3 = 0 ∧ delta_value true 2 (2 ^ 64 - 1) = 1.
Proof.
  destruct (delta_value_correct 5 3 ltac:(lia) ltac:(lia)) as (_ & H & _).
  destruct (delta_value_correct 2 (2 ^ 64 - 1) ltac:(lia) ltac:(lia)) as (H2 & _ & _).
  split; [exact H|exact H2].
Defined.

(** Expiry times.  A relative expiry within thirty days is counted from now,
    an absolute one from the server's start, an absolute one in the past still
    expires at once (never as "no expiry"), and only zero means no expiry. *)
Theorem realtime_correct (s : cache) (et : Z)
    (Het : 0 ≤ et < 2 ^ 32) (Hnow : 0 ≤ current_time s < 2 ^ 31) (Hstart : 0 ≤ process_started s) :
  (realtime s et = 0 ↔ et = 0) ∧
  (0 < et ≤ REALTIME_MAXDELTA → realtime s et = et + current_time s) ∧
  (REALTIME_MAXDELTA < et → realtime s et = Z.max 1 (et - process_started s)).
Proof.
  unfold realtime, REALTIME_MAXDELTA. change (60 * 60 * 24 * 30) with 2592000.
  destruct (et =? 0) eqn:E0; reflect_bools; [split_and!; lia|]. rewrite Z.gtb_ltb.
  destruct (2592000 <? et) eqn:E1; reflect_bools.
  - destruct (et <=? process_started s) eqn:E2; reflect_bools; [split_and!; lia|].
    rewrite u32_small by lia. split_and!; lia.
  - rewrite u32_small by lia. split_and!; lia.
Qed.
Lemma realtime_correct_witness : realtime (boot one_hash 4) 60 = 62.
Proof.
  apply (realtime_correct (boot one_hash 4) 60); [lia| |reflexivity|].
  - change (current_time (boot one_hash 4)) with 2. lia.
  - unfold REALTIME_MAXDELTA. lia.
Defined.
