(* ===== verification/Replication.v ===== *)
(** * Replaying a received log (memcached.c, do_store_replication)

    The backup receives the bytes of the primary's log into its own log, at the
    same offsets, and applies the records that are complete: it links items,
    applies deletions, skips corrupted records and follows the cycle record
    back to the base.  The log is addressed from its base, so the offset of a
    record is its address. *)
From Stdlib Require Import ZArith Lia.
From stdpp Require Import strings prelude gmap list.
From S2P Require Import Prelude Mem Util Item State Memlog Assoc Items ItemFacts ItemSpec ItemClaims.

(** "35 is min item's size". *)
Definition MIN_RECORD : Z := 35.

(** [stats.mem_current] follows the position. *)
Definition publish_current : server unit :=
  cur ← gets get_memory_current;
  stats_put st_mem_current cur.

(** The position moves over a record. *)
Definition pass_record (ntotal : Z) : server unit :=
  avail ← gets get_memory_available;
  _ ← set_memory_available (avail - ntotal);
  cur ← gets get_memory_current;
  _ ← set_memory_current (cur + ntotal);
  publish_current.

(** A deletion record removes the item of its key. *)
Definition apply_deletion (it : Z) : server unit :=
  lg ← gets log;
  cf ← gets cfg;
  it_del ← assoc_find (item_key lg it) (hash cf (item_key lg it));
  match it_del with
  | Some p => _ ← item_unlink p; item_remove p
  | None => mret tt
  end.

(** A normal record gets metadata and is linked in place. *)
Definition apply_store (it : Z) : server unit :=
  m ← freelist_alloc;
  match m with
  | None => fail AssertFailed
  | Some it_meta =>
      cf ← gets cfg;
      _ ← upd_meta it_meta (set_item it);
      _ ← upd_meta it_meta (λ x, set_next_free None (set_prev_free None x));
      _ ← upd_meta it_meta (set_slabs_clsid 1);
      _ ← upd_meta it_meta (λ x, set_it_flags (flag_or (it_flags x) (if use_cas cf then ITEM_CAS else 0)) x);
      _ ← upd_meta it_meta (set_h_next None);
      lg ← gets log;
      let hv := hash cf (item_key lg it) in
      old_it ← assoc_find (item_key lg it) hv;
      _ ← match old_it with
          | Some o => item_replace o it_meta hv
          | None => do_item_link it_meta hv
          end;
      mret tt
  end.

(** Start over at the base. *)
Definition follow_cycle : server unit :=
  _ ← set_memory_current 0;
  free ← gets get_memory_free_from_beginning;
  _ ← set_memory_available free;
  _ ← set_memory_free_from_beginning 0;
  publish_current.

(** A complete record is applied: nothing is done for a corrupted one. *)
Definition apply_record (flags it : Z) : server unit :=
  if has flags ITEM_CORRUPTED then mret tt
  else if has flags ITEM_DELETED then apply_deletion it
  else apply_store it.

(** One turn, over [remaining_size] and [offset]. *)
Definition replicate_body (x : Z * Z) : server ((Z * Z) + Z) :=
  let '(remaining_size, offset) := x in
  if remaining_size >=? MIN_RECORD then
    lg ← gets log;
    let it := offset in
    let flags := it_data_flags lg it in
    if has flags ITEM_STORED && negb (has flags ITEM_DIRTY) && negb (has flags ITEM_CYCLE) then
      let ntotal := u32 (ITEM_ntotal lg it) in
      if ntotal >? remaining_size then _ ← publish_current; mret (inr offset)
      else
        _ ← apply_record flags it;
        _ ← pass_record ntotal;
        mret (inl (u32 (remaining_size - ntotal), u32 (offset + ntotal)))
    else if has flags ITEM_STORED && negb (has flags ITEM_DIRTY) && has flags ITEM_CYCLE then
      _ ← follow_cycle; mret (inr 0)
    else _ ← publish_current; mret (inr offset)
  else _ ← publish_current; mret (inr offset).

Definition do_store_replication (size replication_offset : Z) : server Z :=
  loop FUEL replicate_body (size, replication_offset).

(** ** What is never applied *)
(** The record at [d] was published completely. *)
Definition published_at (lg : memory) (d : Z) : bool :=
  has (it_data_flags lg d) ITEM_STORED && negb (has (it_data_flags lg d) ITEM_DIRTY).
Definition is_cycle (lg : memory) (d : Z) : bool := has (it_data_flags lg d) ITEM_CYCLE.

(** Where the replay stops, and what it changes. *)
Lemma replication_stops (s : cache) (size off : Z) :
  size < MIN_RECORD ∨ published_at (log s) off = false ∨
  is_cycle (log s) off = false ∧ size < u32 (ITEM_ntotal (log s) off) →
  do_store_replication size off s =
    Ok (off, set_cnt (set_stats (<[st_mem_current := mem_current (ml s)]> (stats (cnt s))) (cnt s)) s).
Proof.
  unfold do_store_replication, published_at, is_cycle. set (f := it_data_flags (log s) off).
  intros Hstop. apply loop_first. unfold replicate_body. rewrite Z.geb_leb.
  destruct (Z.leb_spec MIN_RECORD size) as [Hle|Hlt]; [|reflexivity].
  destruct Hstop as [?|[Hp|[Hc Hlen]]]; [lia|..]; unfold mbind at 1, M_bind, gets; fold f.
  - rewrite Hp. reflexivity.
  - rewrite Hc. destruct (has f ITEM_STORED && negb (has f ITEM_DIRTY)); [|reflexivity].
    cbv zeta. cbn [negb andb]. rewrite Z.gtb_ltb, (proj2 (Z.ltb_lt _ _)) by lia. reflexivity.
Qed.

(** What a run of the replay is made of: [(remaining, offset, state)]. *)
Definition replay_state : Type := Z * Z * cache.
(** The state with the statistic of the position brought up to date. *)
Definition position_published (s : cache) : cache :=
  set_cnt (set_stats (<[st_mem_current := mem_current (ml s)]> (stats (cnt s))) (cnt s)) s.
(** The position of the log moved over a record of length [nt]. *)
Definition record_passed (nt : Z) (s : cache) : cache :=
  position_published
    (set_ml (set_mem_current (mem_current (ml s) + nt) (set_mem_avail (u32 (u32 (mem_avail (ml s)) - nt)) (ml s))) s).
(** The log starts over at its base. *)
Definition log_restarted (s : cache) : cache :=
  position_published (set_ml (set_mem_free_from_beginning 0 (set_mem_avail (u32 (mem_free_from_beginning (ml s)))
                         (set_mem_current 0 (ml s)))) s).

(** A complete record of length [nt] at [off], inside the [rem] bytes received. *)
Definition record_at (rem off : Z) (lg : memory) (nt : Z) : Prop :=
  MIN_RECORD ≤ rem ∧ published_at lg off = true ∧ is_cycle lg off = false ∧ nt = u32 (ITEM_ntotal lg off) ∧ nt ≤ rem.
Definition cycle_at (rem off : Z) (lg : memory) : Prop :=
  MIN_RECORD ≤ rem ∧ published_at lg off = true ∧ is_cycle lg off = true.
Definition boundary_at (rem off : Z) (lg : memory) : Prop :=
  rem < MIN_RECORD ∨ published_at lg off = false ∨ is_cycle lg off = false ∧ rem < u32 (ITEM_ntotal lg off).

(** One record is replayed. *)
Inductive replayed : replay_state → replay_state → Prop :=
  | replayed_record rem off s nt s1 :
      record_at rem off (log s) nt → 0 < nt →
      apply_record (it_data_flags (log s) off) off s = Ok (tt, s1) →
      replayed (rem, off, s) (rem - nt, u32 (off + nt), record_passed nt s1).

Lemma pass_record_eq nt s : pass_record nt s = Ok (tt, record_passed nt s).
Proof. done. Qed.
Lemma follow_cycle_eq s : follow_cycle s = Ok (tt, log_restarted s).
Proof.
  unfold log_restarted. rewrite <- (u32_small (u32 (mem_free_from_beginning (ml s)))) by apply u32_range. done.
Qed.

(** A turn, on every branch. *)
Lemma replicate_body_eq rem off s :
  (boundary_at rem off (log s) ∧ replicate_body (rem, off) s = Ok (inr off, position_published s)) ∨
  (cycle_at rem off (log s) ∧ replicate_body (rem, off) s = Ok (inr 0, log_restarted s)) ∨
  (∃ nt, record_at rem off (log s) nt ∧ replicate_body (rem, off) s =
     match apply_record (it_data_flags (log s) off) off s with
     | Ok (_, s1) => Ok (inl (u32 (rem - nt), u32 (off + nt)), record_passed nt s1)
     | Fault f => Fault f
     end).
Proof.
  unfold boundary_at, cycle_at, record_at, published_at, is_cycle, replicate_body. set (f := it_data_flags (log s) off).
  rewrite Z.geb_leb. destruct (Z.leb_spec MIN_RECORD rem) as [Hle|Hlt]; [|left; split; [auto|reflexivity]].
  rewrite (bind_Ok _ _ _ _ _ (eq_refl : gets log s = Ok (log s, s))). cbv zeta. fold f.
  destruct (has f ITEM_STORED && negb (has f ITEM_DIRTY)); [|left; split; [auto|reflexivity]].
  destruct (has f ITEM_CYCLE); cbn [negb andb].
  - right. left. split; [done|]. by rewrite (bind_Ok _ _ _ _ _ (follow_cycle_eq s)).
  - rewrite Z.gtb_ltb. destruct (Z.ltb_spec rem (u32 (ITEM_ntotal (log s) off))) as [Hl|Hl]; [left; split; [auto|reflexivity]|].
    right. right. exists (u32 (ITEM_ntotal (log s) off)). split; [by auto|].
    destruct (apply_record f off s) as [[[] s1]|e] eqn:E.
    + rewrite (bind_Ok _ _ _ _ _ E). by rewrite (bind_Ok _ _ _ _ _ (pass_record_eq _ _)).
    + by rewrite (bind_Fault _ _ _ _ E).
Qed.

(** C36: the replay of a received log.  Started at [off] on [size] received
    bytes, [do_store_replication] replays complete records one after the other:
    each, read from the log as the records before it left it, is published
    (STORED, not DIRTY), no cycle record and inside what was received; it is
    applied, and position and offset move over it.  The run goes on to the
    first of: a record still being written, longer than what is left, or in a
    tail shorter than the smallest record, where the replay returns that offset
    and changes nothing but the statistic of the position; a cycle record,
    where it returns 0 with the position at the base and the space freed there
    as the space available; a record whose application faults, with that fault;
    a record whose length is 0 modulo 2^32, about which nothing is claimed (the
    offset does not move). *)
Theorem replication_boundary (s : cache) (size off : Z) (Hsize : 0 ≤ size < 2 ^ 32) :
  ∃ rem' off' s', rtc replayed (size, off, s) (rem', off', s') ∧
    (boundary_at rem' off' (log s') ∧ do_store_replication size off s = Ok (off', position_published s') ∨
     cycle_at rem' off' (log s') ∧ do_store_replication size off s = Ok (0, log_restarted s') ∨
     (∃ nt f, record_at rem' off' (log s') nt ∧ apply_record (it_data_flags (log s') off') off' s' = Fault f ∧
        do_store_replication size off s = Fault f) ∨
     record_at rem' off' (log s') 0).
Proof.
  unfold do_store_replication. set (start := (size, off, s)).
  refine (loop_outcome FUEL replicate_body
    (λ k x s1, k = x.1 ∧ 0 ≤ x.1 < 2 ^ 32 ∧ rtc replayed start (x.1, x.2, s1))
    (λ r, ∃ rem' off' s', rtc replayed start (rem', off', s') ∧
      (boundary_at rem' off' (log s') ∧ r = Ok (off', position_published s') ∨
       cycle_at rem' off' (log s') ∧ r = Ok (0, log_restarted s') ∨
       (∃ nt f, record_at rem' off' (log s') nt ∧ apply_record (it_data_flags (log s') off') off' s' = Fault f ∧
          r = Fault f) ∨
       record_at rem' off' (log s') 0)) size (size, off) s _ _ _).
  - intros k [rem o] s1 (-> & Hk & Hrun). cbn [fst snd] in *.
    destruct (replicate_body_eq rem o s1) as [[Hb E]|[[Hc E]|(nt & Hr & E)]]; [right..|].
    + rewrite E. exists rem, o, s1. auto.
    + rewrite E. exists rem, o, s1. auto.
    + assert (0 ≤ nt ≤ rem) as Hnt by (destruct Hr as (_ & _ & _ & -> & ?); pose proof (u32_range (ITEM_ntotal (log s1) o)); lia).
      destruct (decide (nt = 0)) as [-> |Hz]; [left; intros r; exists rem, o, s1; by auto 6|right]. rewrite E.
      destruct (apply_record (it_data_flags (log s1) o) o s1) as [[[] s2]|f] eqn:Ea.
      * exists (rem - nt). rewrite u32_small by lia. cbn [fst snd]. split; [lia|]. split_and!; [done|lia|lia|].
        eapply rtc_r; [exact Hrun|]. apply replayed_record; [done|lia|done].
      * exists rem, o, s1. split; [done|]. right. right. left. exists nt, f. auto.
  - split_and!; [done|cbn; lia|cbn; lia|apply rtc_refl].
  - change (2 ^ Z.of_nat FUEL) with (2 ^ 64). lia.
Qed.

(** ** A replayed item *)
(** A primary that stores "v" under "k", and a replica with the same log. *)
Definition primary : cache :=
  final (it ← item_alloc (str "k") 0 0 3;
         match it with
         | None => mret tt
         | Some p =>
             x ← get_meta p;
             _ ← upd_log (λ m, store_bytes m (ITEM_data m (item x)) (str "v" ++ crlf));
             publish p
         end) (boot one_hash 4).
Definition replica : cache := set_log (log primary) (boot one_hash 4).

(** The same primary while it writes a second item, which is still DIRTY. *)
Definition writing : cache := final (item_alloc (str "l") 0 0 3) primary.
Definition half_written : cache := set_log (log writing) (boot one_hash 4).

(** The first record is applied, and the replay stops in front of the second. *)
Lemma replication_boundary_witness :
  (∃ rem' off' s', rtc replayed (200, 0, half_written) (rem', off', s') ∧
    (boundary_at rem' off' (log s') ∧ do_store_replication 200 0 half_written = Ok (off', position_published s') ∨
     cycle_at rem' off' (log s') ∧ do_store_replication 200 0 half_written = Ok (0, log_restarted s') ∨
     (∃ nt f, record_at rem' off' (log s') nt ∧ apply_record (it_data_flags (log s') off') off' s' = Fault f ∧
        do_store_replication 200 0 half_written = Fault f) ∨
     record_at rem' off' (log s') 0)) ∧
  match do_store_replication 200 0 half_written with
  | Ok (off', s') => off' = ITEM_ntotal (log half_written) 0 ∧ mem_current (ml s') = off' ∧
      has (it_data_flags (log half_written) off') ITEM_DIRTY = true ∧
      match item_get (str "k") s', item_get (str "l") s' with
      | Ok (Some _, _), Ok (None, _) => True
      | _, _ => False
      end
  | Fault _ => False
  end.
Proof.
  split; [apply (replication_boundary half_written 200 0); lia|]. vm_compute. repeat split.
Defined.

(** The replay links the item, but keeps the reference of [freelist_alloc]
    besides the one of the table: only a replayed deletion releases both, a
    replaced or reclaimed item keeps its metadata slot. *)
Example replayed_item_keeps_reference :
  match do_store_replication 100 0 replica with
  | Ok (off, s) =>
      match item_get (str "k") s with
      | Ok (Some p, s') => off = ITEM_ntotal (log s) 0 ∧ item_value (log s') 0 = str "v" ++ crlf ∧
                           refcount <$> (meta s !! p) = Some 2
      | _ => False
      end
  | Fault _ => False
  end.
Proof. vm_compute. split_and!; reflexivity. Qed.
