(* ===== verification/Bip.v ===== *)
(** * The bipartite ring buffer (bipbuffer.c)

    The buffer between a worker's logger and the logger thread.  Data leaves
    from region A; new data goes to the end of A or, once there is more room
    in front of A than behind it, to region B at the start of the buffer.  The
    theorems show that it is a byte FIFO: what the reader takes out is, byte
    for byte and in order, what the writer was allowed to put in. *)
From Stdlib Require Import ZArith Lia.
From stdpp Require Import prelude gmap list.
From S2P Require Import Prelude Mem.

Record bipbuf := Bipbuf {
  bip_size : Z;
  a_start : Z;
  a_end : Z;
  b_end : Z;
  b_inuse : bool;
  bip_data : memory
}.

Definition bipbuf_unused (me : bipbuf) : Z :=
  if b_inuse me then i32 (u32 (a_start me - b_end me))
  else i32 (u64 (bip_size me - a_end me)).

Definition bipbuf_used (me : bipbuf) : Z := i32 (u32 (u32 (a_end me - a_start me) + b_end me)).

Definition bipbuf_init (size : Z) (data : memory) : bipbuf := Bipbuf size 0 0 0 false data.

Definition bipbuf_new (size : Z) (data : memory) (malloc_ok : bool) : option bipbuf :=
  if malloc_ok then Some (bipbuf_init size data) else None.

Definition bipbuf_is_empty (me : bipbuf) : bool := a_start me =? a_end me.

Definition check_for_switch_to_b (me : bipbuf) : bipbuf :=
  if u64 (bip_size me - a_end me) <? u32 (a_start me - b_end me)
  then Bipbuf (bip_size me) (a_start me) (a_end me) (b_end me) true (bip_data me)
  else me.

(** Offset in [data] at which [size] bytes may be written. *)
Definition bipbuf_request (me : bipbuf) (size : Z) : option Z :=
  if bipbuf_unused me <? size then None
  else Some (if b_inuse me then b_end me else a_end me).

Definition bipbuf_advance (me : bipbuf) (size : Z) (data : memory) : bipbuf :=
  if b_inuse me
  then Bipbuf (bip_size me) (a_start me) (a_end me) (u32 (b_end me + size)) true data
  else Bipbuf (bip_size me) (a_start me) (u32 (a_end me + size)) (b_end me) false data.

Definition bipbuf_push (me : bipbuf) (size : Z) : Z * bipbuf :=
  if bipbuf_unused me <? size then (0, me)
  else (size, check_for_switch_to_b (bipbuf_advance me size (bip_data me))).

Definition bipbuf_offer (me : bipbuf) (data : list Z) (size : Z) : Z * bipbuf :=
  if bipbuf_unused me <? size then (0, me)
  else
    let at_ := if b_inuse me then b_end me else a_end me in
    (size, check_for_switch_to_b
       (bipbuf_advance me size (store_bytes (bip_data me) at_ (take (Z.to_nat size) data)))).

Definition bipbuf_peek (me : bipbuf) (size : Z) : option Z :=
  if bip_size me <? u32 (a_start me + size) then None
  else if bipbuf_is_empty me then None
  else Some (a_start me).

(** Offset and length of region A. *)
Definition bipbuf_peek_all (me : bipbuf) : option (Z * Z) :=
  if bipbuf_is_empty me then None else Some (a_start me, u32 (a_end me - a_start me)).

Definition bipbuf_poll (me : bipbuf) (size : Z) : option Z * bipbuf :=
  if bipbuf_is_empty me then (None, me)
  else if bip_size me <? u32 (a_start me + size) then (None, me)
  else
    let end_ := a_start me in
    let st := u32 (a_start me + size) in
    let me' :=
      if st =? a_end me then
        if b_inuse me then Bipbuf (bip_size me) 0 (b_end me) 0 false (bip_data me)
        else Bipbuf (bip_size me) 0 0 (b_end me) false (bip_data me)
      else Bipbuf (bip_size me) st (a_end me) (b_end me) (b_inuse me) (bip_data me) in
    (Some end_, check_for_switch_to_b me').

(** ** The byte queue it represents *)
Definition bip_content (me : bipbuf) : list Z :=
  load_bytes (bip_data me) (a_start me) (Z.to_nat (a_end me - a_start me))
  ++ load_bytes (bip_data me) 0 (Z.to_nat (b_end me)).

Record bip_ok (me : bipbuf) : Prop := {
  bip_size_int : 0 < bip_size me < 2 ^ 31;
  bip_a : 0 ≤ a_start me ≤ a_end me ∧ a_end me ≤ bip_size me;
  bip_b : if b_inuse me then 0 ≤ b_end me ≤ a_start me else b_end me = 0;
  bip_empty : a_start me = a_end me → a_start me = 0 ∧ b_inuse me = false
}.

Lemma bip_init_ok size data : 0 < size < 2 ^ 31 → bip_ok (bipbuf_init size data).
Proof. intros. split; cbn; lia. Qed.

Lemma switch_ok me :
  bip_ok me → bip_ok (check_for_switch_to_b me) ∧ bip_content (check_for_switch_to_b me) = bip_content me.
Proof.
  intros [Hs Ha Hb He]. unfold check_for_switch_to_b.
  case_if; [|split; [by split|done]]. split; [|done].
  split; cbn; try done.
  - destruct (b_inuse me); lia.
  - intros Heq. destruct (He Heq) as [H0 H1]. rewrite H1 in Hb. wrap_small. lia.
Qed.

Lemma unused_eq me :
  bip_ok me →
  bipbuf_unused me = if b_inuse me then a_start me - b_end me else bip_size me - a_end me.
Proof.
  intros [Hs Ha Hb He]. unfold bipbuf_unused.
  destruct (b_inuse me); wrap_small; lia.
Qed.

(** Advancing the write position over bytes already in place. *)
Lemma advance_ok me n data bs :
  bip_ok me → n = Z.of_nat (length bs) → n ≤ bipbuf_unused me →
  (∀ b, 0 ≤ b < a_end me → b_inuse me = false → mget data b = mget (bip_data me) b) →
  (∀ b, (0 ≤ b < b_end me ∨ a_start me ≤ b) → b_inuse me = true → mget data b = mget (bip_data me) b) →
  load_bytes data (if b_inuse me then b_end me else a_end me) (length bs) = bs →
  bip_ok (bipbuf_advance me n data) ∧ bip_content (bipbuf_advance me n data) = bip_content me ++ bs.
Proof.
  intros Hok -> Hn HA HB Hbs. rewrite unused_eq in Hn by done. destruct Hok as [Hs Ha Hb He].
  unfold bipbuf_advance, bip_content.
  destruct (b_inuse me) eqn:Ein; cbn [bip_size a_start a_end b_end b_inuse bip_data].
  - rewrite u32_small by lia. split; [split; cbn; naive_solver lia|].
    rewrite <- app_assoc. f_equal.
    + apply load_bytes_agree. intros b ?. apply HB; [lia|done].
    + rewrite Z2Nat.inj_add, Nat2Z.id, load_bytes_app by lia. f_equal.
      * apply load_bytes_agree. intros b ?. apply HB; [lia|done].
      * rewrite Z2Nat.id by lia. done.
  - rewrite u32_small by lia. split; [split; cbn; naive_solver lia|].
    rewrite Hb. cbn [load_bytes Z.to_nat]. rewrite !app_nil_r.
    replace (Z.to_nat (a_end me + Z.of_nat (length bs) - a_start me))
      with (Z.to_nat (a_end me - a_start me) + length bs)%nat by lia.
    rewrite load_bytes_app. f_equal.
    + apply load_bytes_agree. intros b ?. apply HA; [lia|done].
    + rewrite Z2Nat.id by lia. by replace (a_start me + (a_end me - a_start me)) with (a_end me) by lia.
Qed.

(** ** Reading and writing *)
Lemma offer_refuses me bs n : bip_ok me → bipbuf_unused me < n → bipbuf_offer me bs n = (0, me).
Proof. intros _ Hn. unfold bipbuf_offer. by rewrite (proj2 (Z.ltb_lt _ _) Hn). Qed.

Lemma offer_accepts me bs :
  bip_ok me → Forall is_byte bs → Z.of_nat (length bs) ≤ bipbuf_unused me →
  ∃ me', bipbuf_offer me bs (Z.of_nat (length bs)) = (Z.of_nat (length bs), me') ∧
         bip_ok me' ∧ bip_content me' = bip_content me ++ bs.
Proof.
  intros Hok Hbs Hn. unfold bipbuf_offer. rewrite (proj2 (Z.ltb_ge _ _) Hn), Nat2Z.id.
  rewrite take_ge by lia. eexists. split; [reflexivity|].
  pose proof (unused_eq me Hok) as Hu. destruct (Hok) as [Hs Ha Hb He].
  destruct (advance_ok me (Z.of_nat (length bs))
    (store_bytes (bip_data me) (if b_inuse me then b_end me else a_end me) bs) bs) as [Hok' Hc];
    [done|done|done| | | |].
  - intros b Hr ->. apply mget_store_bytes_out; [done|lia].
  - intros b Hr Hin. rewrite Hin in *. apply mget_store_bytes_out; [done|lia].
  - by apply load_store_bytes_eq.
  - destruct (switch_ok _ Hok') as [? ->]. done.
Qed.

(** [request], fill, [push]: what [logger_log] does. *)
Definition bip_set_data (data : memory) (me : bipbuf) : bipbuf :=
  Bipbuf (bip_size me) (a_start me) (a_end me) (b_end me) (b_inuse me) data.

Lemma request_push me n at_ bs :
  bip_ok me → Forall is_byte bs → Z.of_nat (length bs) ≤ n → bipbuf_request me n = Some at_ →
  ∃ me', bipbuf_push (bip_set_data (store_bytes (bip_data me) at_ bs) me) (Z.of_nat (length bs))
           = (Z.of_nat (length bs), me') ∧
         bip_ok me' ∧ bip_content me' = bip_content me ++ bs.
Proof.
  intros Hok Hbs Hn Hr. unfold bipbuf_request in Hr.
  destruct (Z.ltb_spec (bipbuf_unused me) n); [done|]. simplify_eq.
  destruct (offer_accepts me bs Hok Hbs ltac:(lia)) as (me' & Ho & ? & ?).
  exists me'. split; [|done]. unfold bipbuf_offer in Ho. unfold bipbuf_push.
  change (bipbuf_unused (bip_set_data _ me)) with (bipbuf_unused me).
  rewrite (proj2 (Z.ltb_ge _ _)) in Ho by lia. rewrite (proj2 (Z.ltb_ge _ _)) by lia.
  rewrite Nat2Z.id, take_ge in Ho by lia. rewrite <- Ho. done.
Qed.

(** Room that was asked for stays when a part of it is used: should the writer
    be moved to region B, there is more of it there. *)
Lemma push_keeps_room me data n1 n2 off :
  bip_ok me → 0 ≤ n1 → 0 ≤ n2 → bipbuf_request me (n1 + n2) = Some off →
  n2 ≤ bipbuf_unused (bipbuf_push (bip_set_data data me) n1).2.
Proof.
  intros Hok H1 H2 Hr. unfold bipbuf_request in Hr. destruct (Z.ltb_spec (bipbuf_unused me) (n1 + n2)) as [|Hu]; [done|].
  unfold bipbuf_push. change (bipbuf_unused (bip_set_data data me)) with (bipbuf_unused me).
  rewrite (proj2 (Z.ltb_ge _ _)) by lia. cbn [snd]. rewrite unused_eq in Hu by done. destruct Hok as [Hs Ha Hb He].
  unfold bipbuf_advance, check_for_switch_to_b, bipbuf_unused.
  change (b_inuse (bip_set_data data me)) with (b_inuse me).
  destruct (b_inuse me) eqn:Ein; cbn [bip_set_data bip_size a_start a_end b_end b_inuse bip_data].
  all: rewrite (u32_small (_ + n1)) by lia; rewrite ?(u32_small (a_start me - _)) by lia; rewrite ?(u64_small (_ - _)) by lia.
  all: case_if; cbn [bip_size a_start a_end b_end b_inuse bip_data].
  all: rewrite ?(u32_small (_ + n1)), ?(u32_small (a_start me - _)), ?(u64_small (_ - _)), i32_small by lia; lia.
Qed.

(** Two pieces into one reservation: what the logger does with a notice of
    skipped lines and a line. *)
Lemma request_push_offer me t bs n off :
  bip_ok me → Forall is_byte t → Forall is_byte bs → Z.of_nat (length t) ≤ n →
  bipbuf_request me (Z.of_nat (length bs) + n) = Some off →
  let me1 := (bipbuf_push (bip_set_data (store_bytes (bip_data me) off t) me) (Z.of_nat (length t))).2 in
  let me2 := (bipbuf_offer me1 bs (Z.of_nat (length bs))).2 in
  bip_ok me2 ∧ bip_content me2 = bip_content me ++ t ++ bs.
Proof.
  intros Hok Ht Hbs Hn Hr me1 me2.
  destruct (request_push me (Z.of_nat (length bs) + n) off t Hok Ht ltac:(lia) Hr) as (me' & E & Hok' & Hc).
  assert (Z.of_nat (length bs) ≤ bipbuf_unused me1) as Hroom.
  { unfold me1. apply (push_keeps_room me _ _ (Z.of_nat (length bs)) off); [done|lia|lia|]. unfold bipbuf_request in *.
    destruct (Z.ltb_spec (bipbuf_unused me) (Z.of_nat (length bs) + n)); [done|]. by rewrite (proj2 (Z.ltb_ge _ _)) by lia. }
  unfold me2. unfold me1 in *. rewrite E in *. cbn [snd] in *.
  destruct (offer_accepts me' bs Hok' Hbs Hroom) as (me'' & -> & Hok'' & Hc''). split; [done|].
  cbn. by rewrite Hc'', Hc, <- app_assoc.
Qed.

Lemma poll_takes me n :
  bip_ok me → 0 < n ≤ a_end me - a_start me →
  ∃ me', bipbuf_poll me n = (Some (a_start me), me') ∧ bip_ok me' ∧
    load_bytes (bip_data me) (a_start me) (Z.to_nat n) = take (Z.to_nat n) (bip_content me) ∧
    bip_content me' = drop (Z.to_nat n) (bip_content me).
Proof.
  intros Hok Hn. pose proof Hok as [Hs Ha Hb He]. unfold bipbuf_poll, bipbuf_is_empty.
  rewrite (proj2 (Z.eqb_neq _ _)) by lia. rewrite u32_small by lia.
  rewrite (proj2 (Z.ltb_ge _ _)) by lia. eexists. split; [reflexivity|].
  assert (take (Z.to_nat n) (bip_content me) = load_bytes (bip_data me) (a_start me) (Z.to_nat n)) as ->.
  { unfold bip_content. rewrite take_app_le by (rewrite load_bytes_length; lia).
    rewrite <- (drop_0 (load_bytes _ _ (Z.to_nat (a_end me - a_start me)))), load_bytes_slice.
    f_equal; lia. }
  set (me1 := if _ =? _ then _ else _).
  assert (bip_ok me1 ∧ bip_content me1 = drop (Z.to_nat n) (bip_content me)) as [H1 H2].
  { unfold me1, bip_content. destruct (Z.eqb_spec (a_start me + n) (a_end me)) as [Heq|Hne].
    - rewrite drop_app_ge, load_bytes_length by (rewrite load_bytes_length; lia).
      replace (Z.to_nat n - Z.to_nat (a_end me - a_start me))%nat with 0%nat by lia. rewrite drop_0.
      destruct (b_inuse me) eqn:Ein; cbn [bip_size a_start a_end b_end b_inuse bip_data].
      + split; [split; cbn; naive_solver lia|]. rewrite Z.sub_0_r. apply app_nil_r.
      + split; [split; cbn; naive_solver lia|]. by rewrite Hb.
    - cbn [bip_size a_start a_end b_end b_inuse bip_data]. split.
      + split; cbn; [done|lia| |lia]. destruct (b_inuse me); lia.
      + rewrite drop_app_le by (rewrite load_bytes_length; lia).
        rewrite load_bytes_drop, Z2Nat.id by lia. f_equal. f_equal. lia. }
  destruct (switch_ok me1 H1) as [H3 H4]. rewrite H4. done.
Qed.

Lemma peek_all_spec me :
  bip_ok me →
  match bipbuf_peek_all me with
  | None => bip_content me = []
  | Some (off, n) =>
      off = a_start me ∧ n = a_end me - a_start me ∧ 0 < n ∧
      load_bytes (bip_data me) off (Z.to_nat n) `prefix_of` bip_content me
  end.
Proof.
  intros [Hs Ha Hb He]. unfold bipbuf_peek_all, bipbuf_is_empty, bip_content.
  destruct (Z.eqb_spec (a_start me) (a_end me)) as [Heq|Hne].
  - destruct (He Heq) as [H0 H1]. rewrite H1 in Hb. rewrite Hb, Heq, Z.sub_diag. done.
  - rewrite u32_small by lia. split_and!; [done|done|lia|]. by eexists.
Qed.

(** ** The buffer as a FIFO of bytes *)
Inductive bip_op :=
  | Offer (bs : list Z)   (* bipbuf_offer by the writer *)
  | Poll (n : Z).         (* bipbuf_peek_all, then bipbuf_poll of an entry in it *)

(** One operation: the bytes accepted from the writer, the bytes handed to the
    reader, and the buffer afterwards. *)
Definition bip_step (me : bipbuf) (o : bip_op) : list Z * list Z * bipbuf :=
  match o with
  | Offer bs =>
      let '(n, me') := bipbuf_offer me bs (Z.of_nat (length bs)) in
      (take (Z.to_nat n) bs, [], me')
  | Poll n =>
      match bipbuf_peek_all me with
      | None => ([], [], me)
      | Some (off, sz) =>
          if (0 <? n) && (n <=? sz)
          then ([], load_bytes (bip_data me) off (Z.to_nat n), (bipbuf_poll me n).2)
          else ([], [], me)
      end
  end.

Fixpoint bip_run (me : bipbuf) (os : list bip_op) : list Z * list Z * bipbuf :=
  match os with
  | [] => ([], [], me)
  | o :: os =>
      let '(i1, o1, me1) := bip_step me o in
      let '(i2, o2, me2) := bip_run me1 os in
      (i1 ++ i2, o1 ++ o2, me2)
  end.

Definition op_bytes (o : bip_op) : Prop :=
  match o with Offer bs => Forall is_byte bs | Poll _ => True end.

Lemma bip_step_fifo me o :
  bip_ok me → op_bytes o →
  let '(i, out, me') := bip_step me o in
  bip_ok me' ∧ bip_content me ++ i = out ++ bip_content me'.
Proof.
  intros Hok Ho. destruct o as [bs|n]; cbn.
  - destruct (Z.lt_ge_cases (bipbuf_unused me) (Z.of_nat (length bs))) as [Hlt|Hge].
    + rewrite offer_refuses by done. cbn. rewrite app_nil_r. done.
    + destruct (offer_accepts me bs Hok Ho Hge) as (me' & -> & H1 & ->).
      rewrite Nat2Z.id, take_ge by lia. done.
  - pose proof (peek_all_spec me Hok) as Hp. destruct (bipbuf_peek_all me) as [[off sz]|].
    + destruct Hp as (-> & -> & _ & _). case_if; [|by rewrite app_nil_r].
      destruct (poll_takes me n Hok ltac:(lia)) as (me' & -> & H1 & H2 & H3).
      cbn. by rewrite app_nil_r, H2, H3, take_drop.
    + by rewrite app_nil_r.
Qed.

(** C16: the logger's ring buffer is a FIFO.  For every sequence of offers and
    polls on a fresh buffer, the bytes that were accepted are exactly the
    bytes handed to the reader followed by the bytes still in the buffer: no
    byte is lost, duplicated, reordered or invented, across any number of
    wrap-arounds, and the accounting of the regions stays consistent. *)
Theorem bipbuf_fifo (size : Z) (data : memory) (os : list bip_op)
    (Hsize : 0 < size < 2 ^ 31) (Hos : Forall op_bytes os) :
  let '(accepted, delivered, me) := bip_run (bipbuf_init size data) os in
  accepted = delivered ++ bip_content me ∧ bip_ok me ∧
  bipbuf_used me = Z.of_nat (length (bip_content me)).
Proof.
  assert (∀ me, bip_ok me → let '(i, out, me') := bip_run me os in
    bip_ok me' ∧ bip_content me ++ i = out ++ bip_content me') as Hrun.
  { induction Hos as [|o os Ho Hos IH]; intros me Hok; cbn; [by rewrite app_nil_r|].
    pose proof (bip_step_fifo me o Hok Ho) as Hstep. destruct (bip_step me o) as [[i1 o1] me1].
    destruct Hstep as [H1 H2]. specialize (IH me1 H1). destruct (bip_run me1 os) as [[i2 o2] me2].
    destruct IH as [H3 H4]. split; [done|]. by rewrite !app_assoc, H2, <- !app_assoc, H4. }
  specialize (Hrun (bipbuf_init size data) (bip_init_ok _ _ Hsize)).
  destruct (bip_run _ os) as [[acc del] me]. destruct Hrun as [Hok Heq]. split_and!; [done|done|].
  destruct Hok as [Hs Ha Hb He]. unfold bipbuf_used, bip_content. rewrite length_app, !load_bytes_length.
  rewrite (u32_small (_ - _)) by lia. destruct (b_inuse me); rewrite u32_small, i32_small; lia.
Qed.

(** A run that fills region A, switches to region B and wraps around. *)
Lemma bipbuf_fifo_witness :
  let os := [Offer [1; 2; 3; 4; 5]; Poll 4; Offer [6; 7]; Offer [8; 9]; Poll 1; Poll 2; Offer [10; 11]; Poll 2] in
  let '(accepted, delivered, me) := bip_run (bipbuf_init 8 ∅) os in
  accepted = delivered ++ bip_content me ∧ bip_ok me ∧
  bipbuf_used me = Z.of_nat (length (bip_content me)).
Proof.
  apply (bipbuf_fifo 8 ∅ [Offer [1; 2; 3; 4; 5]; Poll 4; Offer [6; 7]; Offer [8; 9]; Poll 1;
                          Poll 2; Offer [10; 11]; Poll 2]); [lia|].
  repeat constructor; unfold is_byte; lia.
Defined.
