(* ===== verification/Pool.v ===== *)
(** * Object pools (cache.c)

    The pool of suffix buffers a worker uses for [gets] replies, in the build
    with the red zones.  A raw block holds a red zone, the object and a second
    red zone; clients see the address of the object.  The step relation of the
    second half lets clients allocate, write inside the objects they hold and
    release them in any order; its invariant says that objects never overlap
    and that the red-zone checks never fire on such clients. *)
From Stdlib Require Import ZArith Lia.
From stdpp Require Import prelude gmap list relations.
From S2P Require Import Prelude Mem.

Definition redzone_pattern : Z := 0xdeadbeefcafebabe.
Definition initial_pool_size : Z := 64.
Definition SIGABRT : Z := 6.

Record pool := Pool {
  pool_ptr : gmap Z Z;      (* void **ptr: raw blocks that are free *)
  bufsize : Z;
  freetotal : Z;
  freecurr : Z;
  heap : memory
}.

Definition cache_create (size : Z) (h : memory) (calloc_ok : bool) : option pool :=
  if calloc_ok
  then Some (Pool ∅ (size + 2 * 8) initial_pool_size 0 h)
  else None.

Definition get_object (ptr : Z) : Z := ptr + 8.

(** The debug build's buffer check around a raw block. *)
Definition write_redzones (p : pool) (ret : Z) : pool :=
  let h := store_le (heap p) ret 8 redzone_pattern in
  let h := store_le h (get_object ret + bufsize p - 2 * 8) 8 redzone_pattern in
  Pool (pool_ptr p) (bufsize p) (freetotal p) (freecurr p) h.

(** [mem] is what malloc would return, [cons_ok] whether the constructor
    succeeds. *)
Definition cache_alloc (mem : option Z) (cons_ok : bool) : M pool (option Z) := λ p,
  if freecurr p >? 0 then
    match pool_ptr p !! (freecurr p - 1) with
    | None => Fault NullDeref
    | Some ret =>
        let p := Pool (pool_ptr p) (bufsize p) (freetotal p) (freecurr p - 1) (heap p) in
        Ok (Some (get_object ret), write_redzones p ret)
    end
  else
    match mem with
    | None => Ok (None, p)
    | Some ret => if cons_ok then Ok (Some (get_object ret), write_redzones p ret) else Ok (None, p)
    end.

Definition pool_put (ret : Z) (p : pool) : pool :=
  Pool (<[freecurr p := ret]> (pool_ptr p)) (bufsize p) (freetotal p) (freecurr p + 1) (heap p).

(** Returns whether the block was kept (otherwise it went back to [free]). *)
Definition cache_free (obj : Z) (realloc_ok : bool) : M pool bool := λ p,
  if negb (load_le (heap p) (obj + bufsize p - 2 * 8) 8 =? redzone_pattern) then Fault (Exited SIGABRT)
  else if negb (load_le (heap p) (obj - 8) 8 =? redzone_pattern) then Fault (Exited SIGABRT)
  else
    let ret := obj - 8 in
    if freecurr p <? freetotal p then Ok (true, pool_put ret p)
    else if realloc_ok then
      Ok (true, pool_put ret (Pool (pool_ptr p) (bufsize p) (freetotal p * 2) (freecurr p) (heap p)))
    else Ok (false, p).

(** ** Clients of a pool *)
(** The raw blocks on the free list, bottom first. *)
Definition free_blocks (p : pool) (F : list Z) : Prop :=
  freecurr p = Z.of_nat (length F) ∧ ∀ i a, F !! i = Some a → pool_ptr p !! Z.of_nat i = Some a.

Definition block_apart (n a b : Z) : Prop := a + n ≤ b ∨ b + n ≤ a.

Definition redzones (p : pool) (a : Z) : Prop :=
  load_le (heap p) a 8 = redzone_pattern ∧ load_le (heap p) (a + bufsize p - 8) 8 = redzone_pattern.

(** [L]: the raw blocks of the objects in clients' hands. *)
Record pool_ok (p : pool) (F L : list Z) : Prop := {
  pool_size : 16 ≤ bufsize p;
  pool_total : 0 < freetotal p ∧ freecurr p ≤ freetotal p;
  pool_free : free_blocks p F;
  pool_nodup : NoDup (F ++ L);
  pool_apart : ∀ a b, a ∈ F ++ L → b ∈ F ++ L → a ≠ b → block_apart (bufsize p) a b;
  pool_zones : ∀ a, a ∈ L → redzones p a
}.

(** What can happen: an allocation, for which malloc returns a block apart from
    all others; a release; a client writing inside an object it holds. *)
Inductive pool_step : pool * list Z → pool * list Z → Prop :=
  | step_alloc p L mem cons_ok obj p' :
      (∀ a b, mem = Some a → b ∈ L ∨ (∃ i, pool_ptr p !! i = Some b ∧ 0 ≤ i < freecurr p) →
         block_apart (bufsize p) a b) →
      cache_alloc mem cons_ok p = Ok (Some obj, p') →
      pool_step (p, L) (p', obj - 8 :: L)
  | step_alloc_fails p L mem cons_ok p' :
      cache_alloc mem cons_ok p = Ok (None, p') → pool_step (p, L) (p', L)
  | step_free p L1 a L2 realloc_ok kept p' :
      cache_free (get_object a) realloc_ok p = Ok (kept, p') →
      pool_step (p, L1 ++ a :: L2) (p', L1 ++ L2)
  | step_write p L a i bs :
      a ∈ L → 0 ≤ i → i + Z.of_nat (length bs) ≤ bufsize p - 16 → Forall is_byte bs →
      pool_step (p, L)
        (Pool (pool_ptr p) (bufsize p) (freetotal p) (freecurr p)
              (store_bytes (heap p) (get_object a + i) bs), L).

Lemma redzones_agree p p' a :
  bufsize p' = bufsize p → 16 ≤ bufsize p →
  agree (heap p') (heap p) a 8 → agree (heap p') (heap p) (a + bufsize p - 8) 8 →
  redzones p a → redzones p' a.
Proof.
  intros Hb Hs H1 H2 [Hz1 Hz2]. split.
  - by rewrite (load_le_agree _ (heap p)).
  - rewrite Hb. by rewrite (load_le_agree _ (heap p)).
Qed.

Lemma write_redzones_spec p a :
  16 ≤ bufsize p →
  redzones (write_redzones p a) a ∧
  ∀ b, block_apart (bufsize p) a b → redzones p b → redzones (write_redzones p a) b.
Proof.
  intros Hs. unfold write_redzones, get_object.
  replace (a + 8 + bufsize p - 2 * 8) with (a + bufsize p - 8) by lia. split.
  - split; cbn.
    + rewrite load_le_store_out by lia. by rewrite load_le_store_eq.
    + by rewrite load_le_store_eq.
  - intros b Hab Hz. unfold block_apart in Hab.
    apply (redzones_agree p); cbn; [done|done| | |done];
      eapply agree_trans; apply agree_store_le_out; lia.
Qed.

Lemma free_blocks_pop p F a h :
  free_blocks p (F ++ [a]) →
  free_blocks (Pool (pool_ptr p) (bufsize p) (freetotal p) (freecurr p - 1) h) F.
Proof.
  intros [Hn Hl]. rewrite length_app in Hn. split; cbn in *; [lia|].
  intros i b Hi. apply Hl. by apply lookup_app_l_Some.
Qed.

Lemma free_blocks_push p F a n :
  free_blocks p F → free_blocks (pool_put a (Pool (pool_ptr p) (bufsize p) n (freecurr p) (heap p))) (F ++ [a]).
Proof.
  intros [Hn Hl]. split; cbn; [rewrite length_app; cbn; lia|].
  intros i b Hi. rewrite Hn. apply lookup_app_Some in Hi as [Hi|[Hge Hi]].
  - rewrite lookup_insert_ne; [by apply Hl|]. apply lookup_lt_Some in Hi. lia.
  - apply list_lookup_singleton_Some in Hi as [Hz <-].
    replace i with (length F) by lia. apply lookup_insert_eq.
Qed.

Lemma free_blocks_elem p F b :
  free_blocks p F → b ∈ F → ∃ i, pool_ptr p !! i = Some b ∧ 0 ≤ i < freecurr p.
Proof.
  intros [Hn Hl] Hb. apply list_elem_of_lookup_1 in Hb as [i Hi]. exists (Z.of_nat i).
  split; [by apply Hl|]. apply lookup_lt_Some in Hi. lia.
Qed.

Lemma alloc_ok p F L mem cons_ok obj p' :
  pool_ok p F L →
  (∀ a b, mem = Some a → b ∈ F ++ L → block_apart (bufsize p) a b) →
  cache_alloc mem cons_ok p = Ok (Some obj, p') →
  ∃ F', pool_ok p' F' (obj - 8 :: L).
Proof.
  intros [Hs Ht Hf Hnd Hap Hz] Hmem Ha. unfold cache_alloc in Ha.
  destruct (Z.gtb_spec (freecurr p) 0) as [Hpos|Hzero].
  - destruct F as [|a F] using rev_ind; [destruct Hf as [Hn _]; cbn in Hn; lia|]. clear IHF.
    pose proof Hf as [Hn Hl]. rewrite length_app in Hn. cbn in Hn.
    specialize (Hl (length F) a ltac:(by rewrite lookup_app_r, Nat.sub_diag by lia)) as Hla.
    replace (freecurr p - 1) with (Z.of_nat (length F)) in Ha at 1 by lia. rewrite Hla in Ha.
    simplify_eq. exists F. unfold get_object. replace (a + 8 - 8) with a by lia.
    set (p1 := Pool _ _ _ _ _). destruct (write_redzones_spec p1 a Hs) as [Hz1 Hz2].
    assert ((F ++ [a]) ++ L ≡ₚ F ++ a :: L) as Hperm by (rewrite <- app_assoc; done).
    split; cbn; [done|cbn in *; lia|by eapply free_blocks_pop| | |].
    + by rewrite <- Hperm.
    + intros x y Hx Hy. rewrite <- Hperm in Hx, Hy. by apply Hap.
    + intros b Hb. apply elem_of_cons in Hb as [->|Hb]; [done|]. apply Hz2; [|by apply Hz].
      apply Hap; [set_solver|set_solver|]. intros <-. rewrite Hperm in Hnd.
      apply list.NoDup_app in Hnd as (_ & _ & Hnd). apply list.NoDup_cons in Hnd as [? _]. done.
  - destruct mem as [a|]; [|done]. destruct cons_ok; [|done]. simplify_eq. exists F.
    unfold get_object. replace (a + 8 - 8) with a by lia.
    destruct (write_redzones_spec p a Hs) as [Hz1 Hz2].
    assert (a ∉ F ++ L) as Hnew.
    { intros Hin. specialize (Hmem a a eq_refl Hin). unfold block_apart in Hmem. lia. }
    assert (F ++ a :: L ≡ₚ a :: F ++ L) as Hperm by (symmetry; apply Permutation_middle).
    split; cbn; [done|done|done| | |].
    + rewrite Hperm. by constructor.
    + intros x y Hx Hy Hne. rewrite Hperm in Hx, Hy.
      apply elem_of_cons in Hx as [->|Hx]; apply elem_of_cons in Hy as [->|Hy];
        [done|by apply Hmem| |by apply Hap].
      specialize (Hmem a x eq_refl Hx). unfold block_apart in *. lia.
    + intros b Hb. apply elem_of_cons in Hb as [->|Hb]; [done|].
      apply Hz2; [apply Hmem; [done|set_solver]|by apply Hz].
Qed.

Lemma free_never_aborts p F L1 a L2 realloc_ok :
  pool_ok p F (L1 ++ a :: L2) →
  ∃ kept p' F', cache_free (get_object a) realloc_ok p = Ok (kept, p') ∧ pool_ok p' F' (L1 ++ L2).
Proof.
  intros [Hs Ht Hf Hnd Hap Hz]. unfold cache_free, get_object.
  destruct (Hz a ltac:(set_solver)) as [Hz1 Hz2].
  replace (a + 8 + bufsize p - 2 * 8) with (a + bufsize p - 8) by lia.
  replace (a + 8 - 8) with a by lia. rewrite Hz1, Hz2, Z.eqb_refl. cbn.
  assert (F ++ L1 ++ a :: L2 ≡ₚ (F ++ [a]) ++ L1 ++ L2) as Hperm by solve_Permutation.
  assert (∀ n, freecurr p < n → pool_ok (pool_put a (Pool (pool_ptr p) (bufsize p) n (freecurr p) (heap p)))
    (F ++ [a]) (L1 ++ L2)) as Hput.
  { intros n Hn. pose proof (proj1 Hf). split; cbn; [done|lia|by apply free_blocks_push|by rewrite <- Hperm| |].
    - intros x y. rewrite <- Hperm. apply Hap.
    - intros b Hb. apply Hz. set_solver. }
  destruct (Z.ltb_spec (freecurr p) (freetotal p)).
  - exists true, (pool_put a p), (F ++ [a]). split; [done|]. destruct p. by apply Hput.
  - destruct realloc_ok.
    + eexists true, _, (F ++ [a]). split; [reflexivity|]. apply Hput. lia.
    + exists false, p, F. split; [done|]. split; [done|done|done| | |].
      * rewrite Hperm in Hnd. rewrite <- app_assoc in Hnd. apply list.NoDup_app in Hnd as (H1 & H2 & H3).
        apply list.NoDup_app. split_and!; [done|set_solver|]. by apply list.NoDup_cons in H3 as [_ ?].
      * intros x y Hx Hy. apply Hap; set_solver.
      * intros b Hb. apply Hz. set_solver.
Qed.

Lemma write_ok p F L a i bs :
  pool_ok p F L → a ∈ L → 0 ≤ i → i + Z.of_nat (length bs) ≤ bufsize p - 16 → Forall is_byte bs →
  pool_ok (Pool (pool_ptr p) (bufsize p) (freetotal p) (freecurr p)
             (store_bytes (heap p) (get_object a + i) bs)) F L.
Proof.
  intros [Hs Ht Hf Hnd Hap Hz] Ha Hi Hlen Hbs. split; cbn; [done|done|done|done|done|].
  intros b Hb. unfold get_object.
  apply (redzones_agree p); cbn; [done|done| | |by apply Hz]; apply agree_store_out; try done;
    (destruct (decide (a = b)) as [<-|Hne]; [lia|]);
    specialize (Hap a b ltac:(set_solver) ltac:(set_solver) Hne); unfold block_apart in Hap; lia.
Qed.

Lemma pool_step_ok p L p' L' F :
  pool_ok p F L → pool_step (p, L) (p', L') → ∃ F', pool_ok p' F' L'.
Proof.
  intros Hok Hstep.
  inversion Hstep as [? ? mem ok obj ? Hmem Ha|? ? mem ok ? Ha|? L1 a L2 r kept ? Hfr|? ? a i bs]; subst.
  - eapply alloc_ok; [done| |done]. intros a b -> Hb. apply Hmem; [done|].
    apply elem_of_app in Hb as [Hb|Hb]; [|by left]. right. eapply free_blocks_elem; [apply Hok|done].
  - unfold cache_alloc in Ha. destruct (freecurr p >? 0); [by destruct (pool_ptr p !! _)|].
    destruct mem as [m|]; [destruct ok|]; simplify_eq; eauto.
  - destruct (free_never_aborts p F L1 a L2 r Hok) as (k & p2 & F' & Heq & ?).
    rewrite Heq in Hfr. simplify_eq. eauto.
  - exists F. by apply write_ok.
Qed.

Lemma pool_reachable_ok n s s' :
  rtc pool_step s s' → (∃ F, pool_ok s.1 F s.2 ∧ bufsize s.1 = n) →
  ∃ F, pool_ok s'.1 F s'.2 ∧ bufsize s'.1 = n.
Proof.
  induction 1 as [|s1 s2 s3 Hstep _ IH]; [done|]. intros (F & Hok & <-). apply IH. clear IH.
  destruct s1 as [p1 L1], s2 as [p2 L2]. cbn in *.
  destruct (pool_step_ok _ _ _ _ _ Hok Hstep) as [F' Hok']. exists F'. split; [done|].
  inversion Hstep; subst; try done;
    unfold cache_alloc, cache_free in *; repeat case_match; by simplify_eq.
Qed.

(** The pool never hands out the same memory twice, and never aborts on a
    client that stays inside its objects.  In every state reachable from a new
    pool by allocations, releases and writes inside held objects, the objects
    in clients' hands are pairwise disjoint and distinct, and releasing any of
    them passes both red-zone checks. *)
Theorem pool_objects_disjoint (size : Z) (h : memory) (p0 p : pool) (L : list Z)
    (Hsize : 0 ≤ size) (Hnew : cache_create size h true = Some p0)
    (Hreach : rtc pool_step (p0, []) (p, L)) :
  NoDup L ∧
  (∀ a b, a ∈ L → b ∈ L → a ≠ b → block_apart (size + 16) a b) ∧
  (∀ a realloc_ok, a ∈ L → ∃ kept p', cache_free (get_object a) realloc_ok p = Ok (kept, p')).
Proof.
  assert (∃ F, pool_ok p F L ∧ bufsize p = size + 16) as (F & Hok & Hb).
  { apply (pool_reachable_ok _ _ _ Hreach). unfold cache_create in Hnew. simplify_eq. exists [].
    split; [|cbn; lia].
    split; cbn; [lia|unfold initial_pool_size; lia|by split|constructor|set_solver|set_solver]. }
  destruct (Hok) as [Hs Ht Hf Hnd Hap Hz]. split_and!.
  - by apply list.NoDup_app in Hnd as (_ & _ & ?).
  - intros a b Ha Hb'. rewrite <- Hb. apply Hap; set_solver.
  - intros a r Ha. apply list_elem_of_split in Ha as (L1 & L2 & ->).
    destruct (free_never_aborts p F L1 a L2 r Hok) as (k & p' & _ & ? & _). eauto.
Qed.

(** Two suffix buffers are allocated, one is written and released. *)
Definition suffix_pool : pool := Pool ∅ 40 64 0 ∅.
Definition suffix_pool1 : pool := write_redzones suffix_pool 1000.
Definition suffix_pool2 : pool := write_redzones suffix_pool1 2000.
Lemma pool_objects_disjoint_witness :
  rtc pool_step (suffix_pool, []) (suffix_pool2, [2000; 1000]) ∧ NoDup [2000; 1000].
Proof.
  assert (rtc pool_step (suffix_pool, []) (suffix_pool2, [2000; 1000])) as Hr.
  { eapply rtc_l; [apply (step_alloc suffix_pool [] (Some 1000) true 1008 suffix_pool1);
                   [|reflexivity]|].
    { intros a b Ha [Hb|(i & Hi & Hr)]; [by apply elem_of_nil in Hb|cbn in Hr; lia]. }
    eapply rtc_l; [apply (step_alloc suffix_pool1 [1000] (Some 2000) true 2008 suffix_pool2);
                   [|reflexivity]|apply rtc_refl].
    intros a b Ha [Hb|(i & Hi & Hr)]; [|cbn in Hr; lia].
    apply list_elem_of_singleton in Hb as ->. simplify_eq. unfold block_apart. cbn. lia. }
  split; [exact Hr|].
  apply (pool_objects_disjoint 24 ∅ suffix_pool suffix_pool2 [2000; 1000]); [lia|reflexivity|exact Hr].
Defined.
