(* ===== verification/Prefix.v ===== *)
(** * Statistics per key prefix (stats.c)

    A fixed table of 256 chains, keyed by the hash of the part of a key before
    the delimiter.  The theorems: recording a command counts it for its prefix
    and for nothing else, and the text of [stats detail dump] always fits the
    buffer whose size is computed beforehand. *)
From Stdlib Require Import ZArith Lia.
From stdpp Require Import strings prelude gmap list.
From S2P Require Import Prelude Mem Util Hash.

(** [strncmp(a, b, n) == 0] on C strings. *)
Fixpoint strncmp_eq (a b : list Z) (n : nat) : bool :=
  match n with
  | O => true
  | S n =>
      match a, b with
      | [], [] => true
      | x :: a, y :: b => (x =? y) && strncmp_eq a b n
      | _, _ => false
      end
  end.

Record PREFIX_STATS := PrefixStats {
  prefix : list Z;
  num_gets : Z;
  num_sets : Z;
  num_deletes : Z;
  num_hits : Z
}.

Definition PREFIX_HASH_SIZE : Z := 256.

(** [prefix_stats[i]] is the chain of bucket [i], its head first. *)
Record prefix_table := PrefixTable {
  prefix_stats : gmap Z (list PREFIX_STATS);
  num_prefixes : Z;
  total_prefix_size : Z
}.

Definition stats_prefix_init (t : prefix_table) : prefix_table :=
  PrefixTable ∅ (num_prefixes t) (total_prefix_size t).

Definition stats_prefix_clear : prefix_table := PrefixTable ∅ 0 0.

Definition chain_of (t : prefix_table) (h : Z) : list PREFIX_STATS := default [] (prefix_stats t !! h).

(** The part of the key before the delimiter; [None] when there is none. *)
Fixpoint prefix_scan (delim : Z) (key : list Z) : option (list Z) :=
  match key with
  | [] => None
  | c :: key =>
      if c =? 0 then None
      else if c =? delim then Some []
      else match prefix_scan delim key with Some p => Some (c :: p) | None => None end
  end.

(** First entry of the chain that [strncmp] takes for the prefix. *)
Fixpoint chain_find (p : list Z) (l : list PREFIX_STATS) : option nat :=
  match l with
  | [] => None
  | x :: l => if strncmp_eq (prefix x) p (length p) then Some O else S <$> chain_find p l
  end.

Section prefix.
Context (hash : list Z → Z) (delim : Z).

Definition prefix_bucket (p : list Z) : Z := hash p mod PREFIX_HASH_SIZE.

(** The entry found or created: its bucket and its place in the chain.
    [calloc_ok], [malloc_ok]: outcomes of the two allocations. *)
Definition stats_prefix_find (key : list Z) (calloc_ok malloc_ok : bool) (t : prefix_table) :
    option (Z * nat) * prefix_table :=
  match prefix_scan delim key with
  | None => (None, t)
  | Some p =>
      let h := prefix_bucket p in
      match chain_find p (chain_of t h) with
      | Some i => (Some (h, i), t)
      | None =>
          if calloc_ok && malloc_ok then
            (Some (h, O),
             PrefixTable (<[h := PrefixStats p 0 0 0 0 :: chain_of t h]> (prefix_stats t))
               (i32 (num_prefixes t + 1)) (i32 (total_prefix_size t + Z.of_nat (length p))))
          else (None, t)
      end
  end.

Definition bump_entry (f : PREFIX_STATS → PREFIX_STATS) (at_ : Z * nat) (t : prefix_table) : prefix_table :=
  PrefixTable (<[at_.1 := alter f at_.2 (chain_of t at_.1)]> (prefix_stats t))
    (num_prefixes t) (total_prefix_size t).

Definition record_with (f : PREFIX_STATS → PREFIX_STATS) (key : list Z) (calloc_ok malloc_ok : bool)
    (t : prefix_table) : prefix_table :=
  let '(pfs, t) := stats_prefix_find key calloc_ok malloc_ok t in
  match pfs with Some at_ => bump_entry f at_ t | None => t end.

Definition count_get (is_hit : bool) (x : PREFIX_STATS) : PREFIX_STATS :=
  PrefixStats (prefix x) (u64 (num_gets x + 1)) (num_sets x) (num_deletes x)
    (if is_hit then u64 (num_hits x + 1) else num_hits x).
Definition count_delete (x : PREFIX_STATS) : PREFIX_STATS :=
  PrefixStats (prefix x) (num_gets x) (num_sets x) (u64 (num_deletes x + 1)) (num_hits x).
Definition count_set (x : PREFIX_STATS) : PREFIX_STATS :=
  PrefixStats (prefix x) (num_gets x) (u64 (num_sets x + 1)) (num_deletes x) (num_hits x).

Definition stats_prefix_record_get (key : list Z) (is_hit calloc_ok malloc_ok : bool) :=
  record_with (count_get is_hit) key calloc_ok malloc_ok.
Definition stats_prefix_record_delete (key : list Z) (calloc_ok malloc_ok : bool) :=
  record_with count_delete key calloc_ok malloc_ok.
Definition stats_prefix_record_set (key : list Z) (calloc_ok malloc_ok : bool) :=
  record_with count_set key calloc_ok malloc_ok.
End prefix.

(** ** The dump *)
(** [strlen("PREFIX %s get %llu hit %llu set %llu del %llu\r\n")] *)
Definition FORMAT_LEN : Z := 47.
Definition dump_line (x : PREFIX_STATS) : list Z :=
  str "PREFIX " ++ prefix x ++ str " get " ++ fmt_u (num_gets x) ++ str " hit " ++ fmt_u (num_hits x)
  ++ str " set " ++ fmt_u (num_sets x) ++ str " del " ++ fmt_u (num_deletes x) ++ crlf.

Definition dump_size (t : prefix_table) : Z :=
  FORMAT_LEN + total_prefix_size t + num_prefixes t * (FORMAT_LEN - 2 + 4 * (20 - 4)) + 6.

(** [snprintf(buf + pos, size - pos, ...)] writes at most [size - pos - 1]
    bytes and a NUL; it returns the length of the whole line. *)
Definition dump_entry (size : Z) (st : list Z * Z * Z) (x : PREFIX_STATS) : result (list Z * Z * Z) :=
  let '(buf, pos, total) := st in
  let l := dump_line x in
  let written := Z.of_nat (length l) in
  let buf := buf ++ take (Z.to_nat (size - pos - 1)) l in
  if total + written <? size then Ok (buf, pos + written, total + written) else Fault AssertFailed.

Fixpoint dump_entries (size : Z) (st : list Z * Z * Z) (l : list PREFIX_STATS) : result (list Z * Z * Z) :=
  match l with
  | [] => Ok st
  | x :: l => match dump_entry size st x with Ok st => dump_entries size st l | Fault f => Fault f end
  end.

(** All chains in the order of the table. *)
Definition all_entries (t : prefix_table) : list PREFIX_STATS :=
  concat (map (λ i, chain_of t i) (seqZ 0 PREFIX_HASH_SIZE)).

(** The text, its length and the size of the buffer; [None] when malloc fails. *)
Definition stats_prefix_dump (t : prefix_table) (malloc_ok : bool) : result (option (list Z * Z * Z)) :=
  let size := dump_size t in
  if malloc_ok then
    match dump_entries size ([], 0, 0) (all_entries t) with
    | Ok (buf, pos, _) => Ok (Some (buf ++ str "END" ++ crlf, pos + 5, size))
    | Fault f => Fault f
    end
  else Ok None.

(** ** The table as a map from prefixes to counters *)
Definition prefix_lookup (hash : list Z → Z) (t : prefix_table) (p : list Z) : option PREFIX_STATS :=
  head (filter (λ x, prefix x = p) (chain_of t (prefix_bucket hash p))).

(** Every entry lies in the bucket of its prefix, at most once per prefix, and
    the two totals are right. *)
Record prefix_ok (hash : list Z → Z) (t : prefix_table) : Prop := {
  pfx_bucket : ∀ h x, x ∈ chain_of t h → prefix_bucket hash (prefix x) = h;
  pfx_nodup : ∀ h, NoDup (prefix <$> chain_of t h);
  pfx_count : num_prefixes t = Z.of_nat (length (all_entries t));
  pfx_total : total_prefix_size t = Z.of_nat (sum_list (length ∘ prefix <$> all_entries t))
}.

Lemma strncmp_eq_spec a p : strncmp_eq a p (length p) = true ↔ p `prefix_of` a.
Proof.
  revert a; induction p as [|y p IH]; intros [|x a]; cbn.
  - split; [by intros; exists []|done].
  - split; [by intros; exists (x :: a)|done].
  - split; [done|]. by intros [k Hk].
  - rewrite andb_true_iff, IH, Z.eqb_eq. split.
    + intros [-> H]. by apply prefix_cons.
    + intros H. by apply prefix_cons_inv_1 in H as ?; apply prefix_cons_inv_2 in H.
Qed.

Lemma chain_find_Some p l i :
  chain_find p l = Some i → ∃ x, l !! i = Some x ∧ p `prefix_of` prefix x.
Proof.
  revert i; induction l as [|x l IH]; intros i; cbn; [done|].
  destruct (strncmp_eq (prefix x) p (length p)) eqn:E.
  - intros [= <-]. exists x. split; [done|]. by apply strncmp_eq_spec.
  - destruct (chain_find p l) as [j|]; [|done]. intros [= <-]. by apply IH.
Qed.

Lemma chain_find_None p l x : chain_find p l = None → x ∈ l → ¬ p `prefix_of` prefix x.
Proof.
  induction l as [|y l IH]; cbn; intros H Hx; [by apply elem_of_nil in Hx|].
  destruct (strncmp_eq (prefix y) p (length p)) eqn:E; [done|].
  destruct (chain_find p l) eqn:El; [done|].
  apply elem_of_cons in Hx as [->|Hx]; [|by apply IH].
  intros Hp. apply strncmp_eq_spec in Hp. congruence.
Qed.

Lemma chain_of_insert t h l n k h' :
  chain_of (PrefixTable (<[h := l]> (prefix_stats t)) n k) h' = if decide (h = h') then l else chain_of t h'.
Proof. unfold chain_of. cbn. rewrite lookup_insert. by case_decide. Qed.

(** Counting changes the entries of one bucket only, and not their number. *)
Lemma entries_insert t h l n k :
  0 ≤ h < PREFIX_HASH_SIZE →
  ∃ L1 L2, all_entries t = L1 ++ chain_of t h ++ L2 ∧
    all_entries (PrefixTable (<[h := l]> (prefix_stats t)) n k) = L1 ++ l ++ L2.
Proof.
  intros Hh. unfold all_entries.
  assert (seqZ 0 PREFIX_HASH_SIZE = seqZ 0 h ++ h :: seqZ (h + 1) (PREFIX_HASH_SIZE - h - 1)) as ->.
  { replace PREFIX_HASH_SIZE with (h + (PREFIX_HASH_SIZE - h)) at 1 by lia.
    rewrite seqZ_app by lia. f_equal. rewrite seqZ_cons by lia. f_equal; f_equal; lia. }
  rewrite !map_app, !concat_app. cbn [map concat].
  eexists _, _. split; [reflexivity|]. rewrite chain_of_insert, decide_True by done.
  assert (∀ L, h ∉ L → map (λ i, chain_of (PrefixTable (<[h:=l]> (prefix_stats t)) n k) i) L
     = map (λ i, chain_of t i) L) as Hmap.
  { intros L HL. apply map_ext_in. intros i Hi. rewrite chain_of_insert, decide_False; [done|].
    intros <-. apply HL. by apply list_elem_of_In. }
  rewrite !Hmap; [done|rewrite elem_of_seqZ; lia|rewrite elem_of_seqZ; lia].
Qed.

Lemma filter_prefix_notin p (l : list PREFIX_STATS) :
  p ∉ (prefix <$> l) → filter (λ x, prefix x = p) l = [].
Proof.
  induction l as [|x l IH]; intros H; [done|]. cbn in H. apply not_elem_of_cons in H as [H1 H2].
  rewrite filter_cons_False by congruence. by apply IH.
Qed.

Lemma lookup_alter_chain f (l : list PREFIX_STATS) i x q :
  (∀ x, prefix (f x) = prefix x) → NoDup (prefix <$> l) → l !! i = Some x →
  head (filter (λ x, prefix x = q) (alter f i l)) =
    if decide (q = prefix x) then Some (f x) else head (filter (λ x, prefix x = q) l).
Proof.
  intros Hf. revert i; induction l as [|y l IH]; intros i Hnd Hi; [done|].
  cbn in Hnd. apply list.NoDup_cons in Hnd as [Hy Hnd]. destruct i as [|i]; cbn in Hi; cbn [alter list_alter].
  - simplify_eq. case_decide as Hq.
    + subst. rewrite filter_cons_True by done. done.
    + rewrite filter_cons_False by (rewrite Hf; congruence).
      by rewrite filter_cons_False by congruence.
  - case_decide as Hq; destruct (decide (prefix y = q)) as [Hyq|Hyq].
    + subst. exfalso. apply Hy. rewrite Hyq. apply list_elem_of_fmap_2. by eapply list_elem_of_lookup_2.
    + rewrite filter_cons_False by done. by apply IH.
    + by rewrite !filter_cons_True.
    + rewrite !filter_cons_False by done. by apply IH.
Qed.

Lemma prefix_alter_fmap f (l : list PREFIX_STATS) i {A} (g : list Z → A) :
  (∀ x, prefix (f x) = prefix x) → g ∘ prefix <$> alter f i l = g ∘ prefix <$> l.
Proof.
  intros Hf. revert i; induction l as [|y l IH]; intros [|i]; cbn; [done|done| |].
  - by rewrite Hf.
  - by rewrite IH.
Qed.

Section prefix_facts.
Context (hash : list Z → Z) (delim : Z).

Lemma prefix_bucket_range p : 0 ≤ prefix_bucket hash p < PREFIX_HASH_SIZE.
Proof. apply Z.mod_pos_bound. unfold PREFIX_HASH_SIZE. lia. Qed.

Lemma bump_ok f at_ t :
  (∀ x, prefix (f x) = prefix x) → 0 ≤ at_.1 < PREFIX_HASH_SIZE →
  prefix_ok hash t → prefix_ok hash (bump_entry f at_ t).
Proof.
  intros Hf Hr [H1 H2 H3 H4]. unfold bump_entry. destruct at_ as [h i]; cbn in *.
  destruct (entries_insert t h (alter f i (chain_of t h)) (num_prefixes t) (total_prefix_size t) Hr)
    as (L1 & L2 & E1 & E2).
  split; cbn.
  - intros h' x. rewrite chain_of_insert. case_decide as Hh; [subst h'|by apply H1].
    intros Hx. assert (prefix x ∈ id ∘ prefix <$> alter f i (chain_of t h)) as Hp
      by (by apply list_elem_of_fmap_2).
    rewrite prefix_alter_fmap in Hp by done. apply list_elem_of_fmap in Hp as (y & Hy & Hin). cbn in Hy.
    rewrite Hy. by apply H1.
  - intros h'. rewrite chain_of_insert. case_decide; [subst h'|done].
    change (NoDup (id ∘ prefix <$> alter f i (chain_of t h))). by rewrite prefix_alter_fmap.
  - rewrite E2, H3, E1, !length_app, length_alter. lia.
  - rewrite E2, H4, E1, !fmap_app, prefix_alter_fmap by done. done.
Qed.

Lemma insert_prefix_ok t p :
  prefix_ok hash t → (∀ x, x ∈ chain_of t (prefix_bucket hash p) → prefix x ≠ p) →
  num_prefixes t + 1 < 2 ^ 31 → total_prefix_size t + Z.of_nat (length p) < 2 ^ 31 →
  prefix_ok hash (PrefixTable
    (<[prefix_bucket hash p := PrefixStats p 0 0 0 0 :: chain_of t (prefix_bucket hash p)]> (prefix_stats t))
    (i32 (num_prefixes t + 1)) (i32 (total_prefix_size t + Z.of_nat (length p)))).
Proof.
  intros [H1 H2 H3 H4] Hnew Hn Ht. set (h := prefix_bucket hash p) in *.
  destruct (entries_insert t h (PrefixStats p 0 0 0 0 :: chain_of t h) (i32 (num_prefixes t + 1))
    (i32 (total_prefix_size t + Z.of_nat (length p))) (prefix_bucket_range p)) as (L1 & L2 & E1 & E2).
  split; cbn.
  - intros h' x. rewrite chain_of_insert. case_decide as Hh; [subst h'|by apply H1].
    intros Hx. apply elem_of_cons in Hx as [->|Hx]; [done|by apply H1].
  - intros h'. rewrite chain_of_insert. case_decide; [subst h'|done]. cbn. constructor; [|done].
    intros Hin. apply list_elem_of_fmap in Hin as (y & Hy & Hyin). by apply (Hnew y).
  - rewrite E2, i32_small by lia. rewrite H3, E1, !length_app. cbn. lia.
  - rewrite E2, i32_small by lia. rewrite H4, E1, !fmap_app, !sum_list_with_app. cbn. lia.
Qed.

(** No other prefix of the same bucket extends [p]. *)
Definition unambiguous (t : prefix_table) (p : list Z) : Prop :=
  ∀ x, x ∈ chain_of t (prefix_bucket hash p) → p `prefix_of` prefix x → prefix x = p.

Lemma record_with_ok f key a b t :
  (∀ x, prefix (f x) = prefix x) → prefix_ok hash t →
  num_prefixes t + 1 < 2 ^ 31 → total_prefix_size t + Z.of_nat (length key) < 2 ^ 31 →
  prefix_ok hash (record_with hash delim f key a b t) ∧
  num_prefixes (record_with hash delim f key a b t) ≤ num_prefixes t + 1 ∧
  total_prefix_size (record_with hash delim f key a b t) ≤ total_prefix_size t + Z.of_nat (length key).
Proof.
  intros Hf Hok Hn Ht. unfold record_with, stats_prefix_find.
  destruct (prefix_scan delim key) as [p|] eqn:Ep; [|split_and!; [done|lia|lia]].
  assert (length p ≤ length key)%nat as Hlen.
  { clear -Ep. revert p Ep. induction key as [|c key IH]; cbn; intros p Ep; [done|].
    destruct (c =? 0); [done|]. destruct (c =? delim); [by simplify_eq; cbn; lia|].
    destruct (prefix_scan delim key) as [q|]; [|done]. simplify_eq. cbn. specialize (IH q eq_refl). lia. }
  pose proof Hok as [_ _ H3 H4].
  destruct (chain_find p (chain_of t (prefix_bucket hash p))) as [i|] eqn:Ef.
  - split_and!; [|cbn; lia|cbn; lia]. apply bump_ok; [done|apply prefix_bucket_range|done].
  - destruct (a && b); [|split_and!; [done|lia|lia]].
    split_and!; [|cbn; rewrite i32_small; lia|cbn; rewrite i32_small; lia].
    apply bump_ok; [done|apply prefix_bucket_range|]. apply insert_prefix_ok; [done| |lia|lia].
    intros x Hx Hp. eapply chain_find_None; [done|done|]. by rewrite Hp.
Qed.

(** The three commands record with functions that keep the prefix. *)
Inductive prefix_op := OpGet (hit : bool) | OpSet | OpDelete.
Definition record_op (o : prefix_op) (key : list Z) (calloc_ok malloc_ok : bool) (t : prefix_table) : prefix_table :=
  match o with
  | OpGet hit => stats_prefix_record_get hash delim key hit calloc_ok malloc_ok t
  | OpSet => stats_prefix_record_set hash delim key calloc_ok malloc_ok t
  | OpDelete => stats_prefix_record_delete hash delim key calloc_ok malloc_ok t
  end.
Definition count_op (o : prefix_op) : PREFIX_STATS → PREFIX_STATS :=
  match o with OpGet hit => count_get hit | OpSet => count_set | OpDelete => count_delete end.
Lemma record_op_eq o key a b t : record_op o key a b t = record_with hash delim (count_op o) key a b t.
Proof. by destruct o. Qed.
Lemma count_op_prefix o x : prefix (count_op o x) = prefix x.
Proof. by destruct o. Qed.

Lemma record_with_spec f key p t :
  (∀ x, prefix (f x) = prefix x) → prefix_ok hash t → prefix_scan delim key = Some p → unambiguous t p →
  prefix_lookup hash (record_with hash delim f key true true t) p =
    Some (f (default (PrefixStats p 0 0 0 0) (prefix_lookup hash t p))) ∧
  ∀ q, q ≠ p → prefix_lookup hash (record_with hash delim f key true true t) q = prefix_lookup hash t q.
Proof.
  intros Hf Hok Ep Hamb. unfold record_with, stats_prefix_find. rewrite Ep. cbn [andb].
  pose proof Hok as [H1 H2 _ _]. set (h := prefix_bucket hash p) in *.
  unfold prefix_lookup. destruct (chain_find p (chain_of t h)) as [i|] eqn:Ef.
  - apply chain_find_Some in Ef as (x & Hi & Hpre).
    assert (prefix x = p) as Hxp by (apply Hamb; [by eapply list_elem_of_lookup_2|done]).
    unfold bump_entry. cbn [fst snd]. split.
    + rewrite chain_of_insert, decide_True by done.
      rewrite (lookup_alter_chain f _ _ x) by done. rewrite decide_True by done.
      f_equal. f_equal. fold h. pose proof (H2 h) as Hnd. clear -Hi Hxp Hnd.
      revert i Hi; induction (chain_of t h) as [|y l IH]; intros [|i] Hi; [done|done| |].
      * cbn in Hi. simplify_eq. by rewrite filter_cons_True.
      * cbn in Hi, Hnd. apply list.NoDup_cons in Hnd as [Hy Hnd].
        rewrite filter_cons_False; [by eapply IH|]. intros Hyp. apply Hy. rewrite Hyp, <- Hxp.
        apply list_elem_of_fmap_2. by eapply list_elem_of_lookup_2.
    + intros q Hq. rewrite chain_of_insert. case_decide as Hh; [|done].
      rewrite (lookup_alter_chain f _ _ x) by done. rewrite decide_False by congruence. by rewrite Hh.
  - unfold bump_entry. cbn [fst snd].
    assert (filter (λ x, prefix x = p) (chain_of t h) = []) as Hnone.
    { apply filter_prefix_notin. intros Hin. apply list_elem_of_fmap in Hin as (y & Hy & Hin).
      eapply chain_find_None; [done|done|]. by rewrite Hy. }
    split.
    + fold h. rewrite !chain_of_insert. rewrite !(decide_True (P := h = h)) by done. cbn [alter list_alter].
      rewrite filter_cons_True by (by rewrite Hf). by rewrite Hnone.
    + intros q Hq. rewrite !chain_of_insert. rewrite (decide_True (P := h = h)) by done.
      cbn [alter list_alter]. case_decide as Hh; [|done].
      rewrite filter_cons_False by (rewrite Hf; cbn; congruence). by rewrite Hh.
Qed.
End prefix_facts.

(** ** The dump fits its buffer *)
Lemma dump_line_length x :
  Z.of_nat (length (dump_line x)) ≤ Z.of_nat (length (prefix x)) + (FORMAT_LEN - 2 + 4 * (20 - 4)).
Proof.
  unfold dump_line, FORMAT_LEN. rewrite !length_app. cbn [length str crlf].
  pose proof (fmt_u_length (num_gets x)). pose proof (fmt_u_length (num_hits x)).
  pose proof (fmt_u_length (num_sets x)). pose proof (fmt_u_length (num_deletes x)). lia.
Qed.

Lemma dump_entries_ok size l buf pos :
  pos = Z.of_nat (length buf) →
  pos + Z.of_nat (sum_list (length ∘ prefix <$> l)) + Z.of_nat (length l) * (FORMAT_LEN - 2 + 4 * (20 - 4)) < size →
  ∃ txt, dump_entries size (buf, pos, pos) l = Ok (buf ++ txt, pos + Z.of_nat (length txt), pos + Z.of_nat (length txt)) ∧
    txt = concat (dump_line <$> l) ∧ pos + Z.of_nat (length txt) < size.
Proof.
  revert buf pos. induction l as [|x l IH]; intros buf pos Hpos Hsize; cbn [dump_entries].
  - exists []. cbn in *. rewrite app_nil_r, Z.add_0_r. split_and!; [done|done|lia].
  - pose proof (dump_line_length x) as Hx.
    change (sum_list (length ∘ prefix <$> x :: l)) with (length (prefix x) + sum_list (length ∘ prefix <$> l))%nat in Hsize.
    cbn [length] in Hsize. rewrite Nat2Z.inj_succ in Hsize. unfold FORMAT_LEN in *. unfold dump_entry.
    rewrite (proj2 (Z.ltb_lt _ _)) by lia. rewrite take_ge by lia.
    destruct (IH (buf ++ dump_line x) (pos + Z.of_nat (length (dump_line x)))) as (txt & -> & -> & ?);
      [rewrite length_app; lia|lia|].
    exists (dump_line x ++ concat (dump_line <$> l)). rewrite !length_app, <- !app_assoc.
    split_and!; [|done|lia]. do 2 f_equal; [f_equal; lia|lia].
Qed.

Lemma dump_text_length l :
  Z.of_nat (length (concat (dump_line <$> l))) ≤
    Z.of_nat (sum_list (length ∘ prefix <$> l)) + Z.of_nat (length l) * (FORMAT_LEN - 2 + 4 * (20 - 4)).
Proof.
  induction l as [|x l IH]; [done|]. pose proof (dump_line_length x) as Hx.
  rewrite !fmap_cons. generalize dependent (dump_line x). intros d Hd. simpl. rewrite length_app.
  unfold FORMAT_LEN in *. lia.
Qed.

Section prefix_claims.
Context (hash : list Z → Z) (delim : Z).

(** A history of recorded commands; the flags are the outcomes of the
    allocations. *)
Fixpoint record_all (ops : list (prefix_op * list Z * bool * bool)) (t : prefix_table) : prefix_table :=
  match ops with
  | [] => t
  | (o, key, a, b) :: ops => record_all ops (record_op hash delim o key a b t)
  end.

Lemma record_all_ok ops t :
  prefix_ok hash t → Forall (λ o, (length o.1.1.2 ≤ 250)%nat) ops →
  num_prefixes t + Z.of_nat (length ops) < 2 ^ 23 →
  total_prefix_size t + 250 * Z.of_nat (length ops) < 2 ^ 31 →
  prefix_ok hash (record_all ops t).
Proof.
  intros Hok Hops. revert t Hok. induction Hops as [|[[[o key] a] b] ops Hkey Hops IH]; intros t Hok Hn Ht; [done|].
  cbn [record_all length fst snd] in *. rewrite record_op_eq.
  destruct (record_with_ok hash delim (count_op o) key a b t) as (H1 & H2 & H3);
    [apply count_op_prefix|done|lia|lia|]. apply IH; [done|lia|lia].
Qed.

Lemma prefix_clear_ok : prefix_ok hash stats_prefix_clear.
Proof.
  assert (all_entries stats_prefix_clear = []) as He.
  { unfold all_entries. induction (seqZ 0 PREFIX_HASH_SIZE) as [|i L IH]; [done|]. cbn. by rewrite IH. }
  assert (∀ h, chain_of stats_prefix_clear h = []) as Hc by done.
  split; [intros h x; rewrite Hc; by intros ?%elem_of_nil|intros h; rewrite Hc; constructor| |]; by rewrite He.
Qed.
End prefix_claims.

(** Detailed statistics count exactly the commands of their prefix.
    Recording a get, set or delete of a key with a delimiter increments the
    counters of the key's prefix (creating them at zero) and leaves the
    counters of every other prefix alone, provided no longer prefix sharing its
    bucket starts with it; a key without delimiter records nothing. *)
Theorem stats_prefix_record_correct (hash : list Z → Z) (delim : Z) (o : prefix_op) (key : list Z) (t : prefix_table)
    (Hok : prefix_ok hash t) :
  match prefix_scan delim key with
  | None => record_op hash delim o key true true t = t
  | Some p =>
      unambiguous hash t p →
      prefix_lookup hash (record_op hash delim o key true true t) p =
        Some (count_op o (default (PrefixStats p 0 0 0 0) (prefix_lookup hash t p))) ∧
      ∀ q, q ≠ p → prefix_lookup hash (record_op hash delim o key true true t) q = prefix_lookup hash t q
  end.
Proof.
  rewrite record_op_eq. destruct (prefix_scan delim key) as [p|] eqn:Ep.
  - intros Hamb. apply record_with_spec; [apply count_op_prefix|done|done|done].
  - unfold record_with, stats_prefix_find. by rewrite Ep.
Qed.

(** The first get of a key with prefix "user". *)
Lemma stats_prefix_record_correct_witness :
  prefix_lookup Jenkins.jenkins_ref
    (record_op Jenkins.jenkins_ref 58 (OpGet true) (str "user:1") true true stats_prefix_clear) (str "user")
  = Some (PrefixStats (str "user") 1 0 0 1).
Proof.
  pose proof (stats_prefix_record_correct Jenkins.jenkins_ref 58 (OpGet true) (str "user:1") stats_prefix_clear
    (prefix_clear_ok _)) as H.
  change (prefix_scan 58 (str "user:1")) with (Some (str "user")) in H. cbv beta iota in H.
  apply H. intros x Hx. by apply elem_of_nil in Hx.
Defined.

(** The buffer of [stats detail dump] is always large enough.  After any
    history of fewer than 2^23 recorded commands with legal keys, the size
    computed from the two running totals exceeds the text and its terminator,
    no snprintf is cut short, the assertion holds, and the text is the lines of
    all prefixes followed by END. *)
Theorem stats_prefix_dump_fits (hash : list Z → Z) (delim : Z) (ops : list (prefix_op * list Z * bool * bool))
    (Hkeys : Forall (λ o, (length o.1.1.2 ≤ 250)%nat) ops) (Hmany : Z.of_nat (length ops) < 2 ^ 23) :
  let t := record_all hash delim ops stats_prefix_clear in
  ∃ text, stats_prefix_dump t true = Ok (Some (text, Z.of_nat (length text), dump_size t)) ∧
    text = concat (dump_line <$> all_entries t) ++ str "END" ++ crlf ∧
    Z.of_nat (length text) + 1 < dump_size t.
Proof.
  intros t. assert (prefix_ok hash t) as [_ _ Hn Ht].
  { apply record_all_ok; [apply prefix_clear_ok|done|cbn; lia|cbn; lia]. }
  unfold stats_prefix_dump.
  destruct (dump_entries_ok (dump_size t) (all_entries t) [] 0) as (txt & -> & -> & Hlt); [done| |].
  { unfold dump_size. rewrite Hn, Ht. unfold FORMAT_LEN. lia. }
  eexists. split; [|split; [reflexivity|]].
  - rewrite !app_nil_l, !length_app. cbn [length str crlf]. do 3 f_equal. f_equal. lia.
  - rewrite !length_app. cbn [length str crlf].
    assert (Z.of_nat (length (concat (dump_line <$> all_entries t))) ≤
      total_prefix_size t + num_prefixes t * (FORMAT_LEN - 2 + 4 * (20 - 4))) as Hle.
    { rewrite Hn, Ht. apply dump_text_length. }
    unfold dump_size. unfold FORMAT_LEN in *. lia.
Qed.

Lemma stats_prefix_dump_fits_witness :
  let t := record_all Jenkins.jenkins_ref 58
    [(OpSet, str "user:1", true, true); (OpGet true, str "user:1", true, true)] stats_prefix_clear in
  ∃ text, stats_prefix_dump t true = Ok (Some (text, Z.of_nat (length text), dump_size t)) ∧
    text = concat (dump_line <$> all_entries t) ++ str "END" ++ crlf ∧
    Z.of_nat (length text) + 1 < dump_size t.
Proof.
  apply (stats_prefix_dump_fits Jenkins.jenkins_ref 58
    [(OpSet, str "user:1", true, true); (OpGet true, str "user:1", true, true)]).
  - repeat constructor; cbn; lia.
  - cbn; lia.
Defined.

(** Prefixes can be conflated.  [strncmp] is given the length of the new
    prefix only, so with the default hash a get of "user:1" after a set of
    "userva:1" is counted for the prefix "userva", and "user" gets no entry. *)
Theorem prefixes_conflated :
  let t := record_all Jenkins.jenkins_ref 58
    [(OpSet, str "userva:1", true, true); (OpGet true, str "user:1", true, true)] stats_prefix_clear in
  prefix_lookup Jenkins.jenkins_ref t (str "user") = None ∧
  prefix_lookup Jenkins.jenkins_ref t (str "userva") = Some (PrefixStats (str "userva") 1 1 0 1).
Proof. split; vm_compute; reflexivity. Qed.
