(* ===== verification/Conn.v ===== *)
(** * Connections (memcached.h, memcached.c): state, output lists, lifecycle

    [struct conn] as nested records in the order of its declaration, the
    environment a worker runs in, and the operations that build and release
    the output of a connection. *)
From Stdlib Require Import ZArith Lia.
From stdpp Require Import strings prelude gmap list functions.
From S2P Require Import Prelude Mem Util Item State Items Pool Prefix.

Inductive conn_states : Set :=
  | conn_listening | conn_new_cmd | conn_waiting | conn_read | conn_parse_cmd | conn_write | conn_nread | conn_swallow | conn_closing | conn_mwrite | conn_closed | conn_watch | conn_max_state.
#[global] Instance conn_states_eq_dec : EqDecision conn_states.
Proof. solve_decision. Defined.
Inductive bin_substates : Set :=
  | bin_no_state | bin_reading_set_header | bin_reading_cas_header | bin_read_set_value | bin_reading_get_key | bin_reading_stat | bin_reading_del_header | bin_reading_incr_header | bin_read_flush_exptime | bin_reading_sasl_auth | bin_reading_sasl_auth_data | bin_reading_touch_key.
#[global] Instance bin_substates_eq_dec : EqDecision bin_substates.
Proof. solve_decision. Defined.
Inductive protocol : Set :=
  | ascii_prot | binary_prot | negotiating_prot.
#[global] Instance protocol_eq_dec : EqDecision protocol.
Proof. solve_decision. Defined.
Inductive network_transport : Set :=
  | local_transport | tcp_transport | udp_transport.
#[global] Instance network_transport_eq_dec : EqDecision network_transport.
Proof. solve_decision. Defined.

(** ** Pointers

    A pointer is a buffer of the process and an offset in it.  String literals
    and the buffers handed to [write_and_free] are carried by value: nobody
    writes to them while they are referenced. *)
Inductive region :=
  | RNull
  | RRbuf               (* c->rbuf *)
  | RWbuf               (* c->wbuf *)
  | RHdr                (* c->hdrbuf *)
  | RLog                (* the log of the cache *)
  | RSuffix             (* heap of the suffix pool *)
  | RLit (bs : list Z). (* a literal or a private buffer *)
Record ptr := Ptr { preg : region; poff : Z }.
Definition null : ptr := Ptr RNull 0.
Definition padd (p : ptr) (n : Z) : ptr := Ptr (preg p) (poff p + n).

Record iovec := Iovec { iov_base : ptr; iov_len : Z }.
Record msghdr := Msghdr { msg_iov : Z; msg_iovlen : Z; msg_namelen : Z }.

(** ** struct conn, by the groups of its declaration *)
(** Who and what state. *)
Record conn_core := Core {
  sfd : Z;
  authenticated : bool;
  sasl_conn : bool;
  state : conn_states;
  substate : bin_substates;
  last_cmd_time : Z;
  ev_flags : Z;
  which : Z;
  prot : protocol;
  transport : network_transport;
  noreply : bool;
  cas : Z;
  cmd : Z;
  opaque : Z;
  keylen : Z
}.
Definition set_sfd (v : Z) (s : conn_core) : conn_core := Core v (authenticated s) (sasl_conn s) (state s) (substate s) (last_cmd_time s) (ev_flags s) (which s) (prot s) (transport s) (noreply s) (cas s) (cmd s) (opaque s) (keylen s).
Definition set_authenticated (v : bool) (s : conn_core) : conn_core := Core (sfd s) v (sasl_conn s) (state s) (substate s) (last_cmd_time s) (ev_flags s) (which s) (prot s) (transport s) (noreply s) (cas s) (cmd s) (opaque s) (keylen s).
Definition set_sasl_conn (v : bool) (s : conn_core) : conn_core := Core (sfd s) (authenticated s) v (state s) (substate s) (last_cmd_time s) (ev_flags s) (which s) (prot s) (transport s) (noreply s) (cas s) (cmd s) (opaque s) (keylen s).
Definition set_state (v : conn_states) (s : conn_core) : conn_core := Core (sfd s) (authenticated s) (sasl_conn s) v (substate s) (last_cmd_time s) (ev_flags s) (which s) (prot s) (transport s) (noreply s) (cas s) (cmd s) (opaque s) (keylen s).
Definition set_substate (v : bin_substates) (s : conn_core) : conn_core := Core (sfd s) (authenticated s) (sasl_conn s) (state s) v (last_cmd_time s) (ev_flags s) (which s) (prot s) (transport s) (noreply s) (cas s) (cmd s) (opaque s) (keylen s).
Definition set_last_cmd_time (v : Z) (s : conn_core) : conn_core := Core (sfd s) (authenticated s) (sasl_conn s) (state s) (substate s) v (ev_flags s) (which s) (prot s) (transport s) (noreply s) (cas s) (cmd s) (opaque s) (keylen s).
Definition set_ev_flags (v : Z) (s : conn_core) : conn_core := Core (sfd s) (authenticated s) (sasl_conn s) (state s) (substate s) (last_cmd_time s) v (which s) (prot s) (transport s) (noreply s) (cas s) (cmd s) (opaque s) (keylen s).
Definition set_which (v : Z) (s : conn_core) : conn_core := Core (sfd s) (authenticated s) (sasl_conn s) (state s) (substate s) (last_cmd_time s) (ev_flags s) v (prot s) (transport s) (noreply s) (cas s) (cmd s) (opaque s) (keylen s).
Definition set_prot (v : protocol) (s : conn_core) : conn_core := Core (sfd s) (authenticated s) (sasl_conn s) (state s) (substate s) (last_cmd_time s) (ev_flags s) (which s) v (transport s) (noreply s) (cas s) (cmd s) (opaque s) (keylen s).
Definition set_transport (v : network_transport) (s : conn_core) : conn_core := Core (sfd s) (authenticated s) (sasl_conn s) (state s) (substate s) (last_cmd_time s) (ev_flags s) (which s) (prot s) v (noreply s) (cas s) (cmd s) (opaque s) (keylen s).
Definition set_noreply (v : bool) (s : conn_core) : conn_core := Core (sfd s) (authenticated s) (sasl_conn s) (state s) (substate s) (last_cmd_time s) (ev_flags s) (which s) (prot s) (transport s) v (cas s) (cmd s) (opaque s) (keylen s).
Definition set_cas (v : Z) (s : conn_core) : conn_core := Core (sfd s) (authenticated s) (sasl_conn s) (state s) (substate s) (last_cmd_time s) (ev_flags s) (which s) (prot s) (transport s) (noreply s) v (cmd s) (opaque s) (keylen s).
Definition set_cmd (v : Z) (s : conn_core) : conn_core := Core (sfd s) (authenticated s) (sasl_conn s) (state s) (substate s) (last_cmd_time s) (ev_flags s) (which s) (prot s) (transport s) (noreply s) (cas s) v (opaque s) (keylen s).
Definition set_opaque (v : Z) (s : conn_core) : conn_core := Core (sfd s) (authenticated s) (sasl_conn s) (state s) (substate s) (last_cmd_time s) (ev_flags s) (which s) (prot s) (transport s) (noreply s) (cas s) (cmd s) v (keylen s).
Definition set_keylen (v : Z) (s : conn_core) : conn_core := Core (sfd s) (authenticated s) (sasl_conn s) (state s) (substate s) (last_cmd_time s) (ev_flags s) (which s) (prot s) (transport s) (noreply s) (cas s) (cmd s) (opaque s) v.

(** Read buffer: [rcurr] is an offset in [rbuf]. *)
Record conn_rd := Rd {
  rbuf : memory;
  rcurr : Z;
  rsize : Z;
  rbytes : Z
}.
Definition set_rbuf (v : memory) (s : conn_rd) : conn_rd := Rd v (rcurr s) (rsize s) (rbytes s).
Definition set_rcurr (v : Z) (s : conn_rd) : conn_rd := Rd (rbuf s) v (rsize s) (rbytes s).
Definition set_rsize (v : Z) (s : conn_rd) : conn_rd := Rd (rbuf s) (rcurr s) v (rbytes s).
Definition set_rbytes (v : Z) (s : conn_rd) : conn_rd := Rd (rbuf s) (rcurr s) (rsize s) v.

(** Write buffer. *)
Record conn_wr := Wr {
  wbuf : memory;
  wcurr : ptr;
  wsize : Z;
  wbytes : Z;
  write_and_go : conn_states;
  to_free : option (list Z)
}.
Definition set_wbuf (v : memory) (s : conn_wr) : conn_wr := Wr v (wcurr s) (wsize s) (wbytes s) (write_and_go s) (to_free s).
Definition set_wcurr (v : ptr) (s : conn_wr) : conn_wr := Wr (wbuf s) v (wsize s) (wbytes s) (write_and_go s) (to_free s).
Definition set_wsize (v : Z) (s : conn_wr) : conn_wr := Wr (wbuf s) (wcurr s) v (wbytes s) (write_and_go s) (to_free s).
Definition set_wbytes (v : Z) (s : conn_wr) : conn_wr := Wr (wbuf s) (wcurr s) (wsize s) v (write_and_go s) (to_free s).
Definition set_write_and_go (v : conn_states) (s : conn_wr) : conn_wr := Wr (wbuf s) (wcurr s) (wsize s) (wbytes s) v (to_free s).
Definition set_to_free (v : option (list Z)) (s : conn_wr) : conn_wr := Wr (wbuf s) (wcurr s) (wsize s) (wbytes s) (write_and_go s) v.

(** The nread and swallow states. *)
Record conn_nr := Nr {
  ritem : ptr;
  rlbytes : Z;
  c_item : option Z;
  sbytes : Z
}.
Definition set_ritem (v : ptr) (s : conn_nr) : conn_nr := Nr v (rlbytes s) (c_item s) (sbytes s).
Definition set_rlbytes (v : Z) (s : conn_nr) : conn_nr := Nr (ritem s) v (c_item s) (sbytes s).
Definition set_c_item (v : option Z) (s : conn_nr) : conn_nr := Nr (ritem s) (rlbytes s) v (sbytes s).
Definition set_sbytes (v : Z) (s : conn_nr) : conn_nr := Nr (ritem s) (rlbytes s) (c_item s) v.

(** Pending output: [msg_iov] is an index in [iov]. *)
Record conn_ov := Ov {
  iov : gmap Z iovec;
  iovsize : Z;
  iovused : Z;
  msglist : gmap Z msghdr;
  msgsize : Z;
  msgused : Z;
  msgcurr : Z;
  msgbytes : Z
}.
Definition set_iov (v : gmap Z iovec) (s : conn_ov) : conn_ov := Ov v (iovsize s) (iovused s) (msglist s) (msgsize s) (msgused s) (msgcurr s) (msgbytes s).
Definition set_iovsize (v : Z) (s : conn_ov) : conn_ov := Ov (iov s) v (iovused s) (msglist s) (msgsize s) (msgused s) (msgcurr s) (msgbytes s).
Definition set_iovused (v : Z) (s : conn_ov) : conn_ov := Ov (iov s) (iovsize s) v (msglist s) (msgsize s) (msgused s) (msgcurr s) (msgbytes s).
Definition set_msglist (v : gmap Z msghdr) (s : conn_ov) : conn_ov := Ov (iov s) (iovsize s) (iovused s) v (msgsize s) (msgused s) (msgcurr s) (msgbytes s).
Definition set_msgsize (v : Z) (s : conn_ov) : conn_ov := Ov (iov s) (iovsize s) (iovused s) (msglist s) v (msgused s) (msgcurr s) (msgbytes s).
Definition set_msgused (v : Z) (s : conn_ov) : conn_ov := Ov (iov s) (iovsize s) (iovused s) (msglist s) (msgsize s) v (msgcurr s) (msgbytes s).
Definition set_msgcurr (v : Z) (s : conn_ov) : conn_ov := Ov (iov s) (iovsize s) (iovused s) (msglist s) (msgsize s) (msgused s) v (msgbytes s).
Definition set_msgbytes (v : Z) (s : conn_ov) : conn_ov := Ov (iov s) (iovsize s) (iovused s) (msglist s) (msgsize s) (msgused s) (msgcurr s) v.

(** Items and suffixes of a reply: [icurr] and [suffixcurr] are indices. *)
Record conn_il := Il {
  ilist : gmap Z Z;
  isize : Z;
  icurr : Z;
  ileft : Z;
  suffixlist : gmap Z Z;
  suffixsize : Z;
  suffixcurr : Z;
  suffixleft : Z
}.
Definition set_ilist (v : gmap Z Z) (s : conn_il) : conn_il := Il v (isize s) (icurr s) (ileft s) (suffixlist s) (suffixsize s) (suffixcurr s) (suffixleft s).
Definition set_isize (v : Z) (s : conn_il) : conn_il := Il (ilist s) v (icurr s) (ileft s) (suffixlist s) (suffixsize s) (suffixcurr s) (suffixleft s).
Definition set_icurr (v : Z) (s : conn_il) : conn_il := Il (ilist s) (isize s) v (ileft s) (suffixlist s) (suffixsize s) (suffixcurr s) (suffixleft s).
Definition set_ileft (v : Z) (s : conn_il) : conn_il := Il (ilist s) (isize s) (icurr s) v (suffixlist s) (suffixsize s) (suffixcurr s) (suffixleft s).
Definition set_suffixlist (v : gmap Z Z) (s : conn_il) : conn_il := Il (ilist s) (isize s) (icurr s) (ileft s) v (suffixsize s) (suffixcurr s) (suffixleft s).
Definition set_suffixsize (v : Z) (s : conn_il) : conn_il := Il (ilist s) (isize s) (icurr s) (ileft s) (suffixlist s) v (suffixcurr s) (suffixleft s).
Definition set_suffixcurr (v : Z) (s : conn_il) : conn_il := Il (ilist s) (isize s) (icurr s) (ileft s) (suffixlist s) (suffixsize s) v (suffixleft s).
Definition set_suffixleft (v : Z) (s : conn_il) : conn_il := Il (ilist s) (isize s) (icurr s) (ileft s) (suffixlist s) (suffixsize s) (suffixcurr s) v.

(** UDP clients. *)
Record conn_ud := Ud {
  request_id : Z;
  request_addr_size : Z;
  hdrbuf : option memory;
  hdrsize : Z
}.
Definition set_request_id (v : Z) (s : conn_ud) : conn_ud := Ud v (request_addr_size s) (hdrbuf s) (hdrsize s).
Definition set_request_addr_size (v : Z) (s : conn_ud) : conn_ud := Ud (request_id s) v (hdrbuf s) (hdrsize s).
Definition set_hdrbuf (v : option memory) (s : conn_ud) : conn_ud := Ud (request_id s) (request_addr_size s) v (hdrsize s).
Definition set_hdrsize (v : Z) (s : conn_ud) : conn_ud := Ud (request_id s) (request_addr_size s) (hdrbuf s) v.

(** Buffer of a stats reply. *)
Record conn_sb := Sb {
  st_buffer : option memory;
  st_size : Z;
  st_offset : Z
}.
Definition set_st_buffer (v : option memory) (s : conn_sb) : conn_sb := Sb v (st_size s) (st_offset s).
Definition set_st_size (v : Z) (s : conn_sb) : conn_sb := Sb (st_buffer s) v (st_offset s).
Definition set_st_offset (v : Z) (s : conn_sb) : conn_sb := Sb (st_buffer s) (st_size s) v.

(** Header of the binary request. *)
Record bin_header := BinHeader {
  magic : Z;
  opcode : Z;
  bkeylen : Z;
  extlen : Z;
  datatype : Z;
  reserved : Z;
  bodylen : Z;
  bopaque : Z;
  bcas : Z
}.

Record conn := Conn {
  core : conn_core;
  rd : conn_rd;
  wr : conn_wr;
  nr : conn_nr;
  ov : conn_ov;
  il : conn_il;
  ud : conn_ud;
  sb : conn_sb;
  bh : bin_header
}.
Definition upd_core (f : conn_core → conn_core) (s : conn) : conn := Conn (f (core s)) (rd s) (wr s) (nr s) (ov s) (il s) (ud s) (sb s) (bh s).
Definition upd_rd (f : conn_rd → conn_rd) (s : conn) : conn := Conn (core s) (f (rd s)) (wr s) (nr s) (ov s) (il s) (ud s) (sb s) (bh s).
Definition upd_wr (f : conn_wr → conn_wr) (s : conn) : conn := Conn (core s) (rd s) (f (wr s)) (nr s) (ov s) (il s) (ud s) (sb s) (bh s).
Definition upd_nr (f : conn_nr → conn_nr) (s : conn) : conn := Conn (core s) (rd s) (wr s) (f (nr s)) (ov s) (il s) (ud s) (sb s) (bh s).
Definition upd_ov (f : conn_ov → conn_ov) (s : conn) : conn := Conn (core s) (rd s) (wr s) (nr s) (f (ov s)) (il s) (ud s) (sb s) (bh s).
Definition upd_il (f : conn_il → conn_il) (s : conn) : conn := Conn (core s) (rd s) (wr s) (nr s) (ov s) (f (il s)) (ud s) (sb s) (bh s).
Definition upd_ud (f : conn_ud → conn_ud) (s : conn) : conn := Conn (core s) (rd s) (wr s) (nr s) (ov s) (il s) (f (ud s)) (sb s) (bh s).
Definition upd_sb (f : conn_sb → conn_sb) (s : conn) : conn := Conn (core s) (rd s) (wr s) (nr s) (ov s) (il s) (ud s) (f (sb s)) (bh s).
Definition upd_bh (f : bin_header → bin_header) (s : conn) : conn := Conn (core s) (rd s) (wr s) (nr s) (ov s) (il s) (ud s) (sb s) (f (bh s)).

(** ** The environment: outcomes of system and library calls *)
Inductive recv := Received (bs : list Z) | RecvAgain | RecvError.
Inductive accepted := NewSocket (fd : Z) | AcceptAgain | AcceptEmfile | AcceptError.
Inductive send := Accepted (n : Z) | SendAgain | SendError.
(** [mallocs], [chunks], [recvs], [sends], [ev_ops]: what the coming calls of
    malloc/realloc, of the suffix pool's malloc, of read/recvfrom, of sendmsg
    and of libevent will return; [sent] is what has been handed to sockets, the
    latest first; [erange] is whether errno is ERANGE; [accepts] are the coming
    results of accept and [dispatched] the sockets handed to the workers. *)
Record env := Env {
  mallocs : list bool;
  chunks : list (option Z);
  recvs : list recv;
  sends : list send;
  ev_ops : list bool;
  sent : list (list Z);
  erange : bool;
  allow_new_conns : bool;
  max_fds : Z;
  conns : gmap Z conn;
  accepts : list accepted;
  dispatched : list Z
}.
Definition set_mallocs (v : list bool) (s : env) : env := Env v (chunks s) (recvs s) (sends s) (ev_ops s) (sent s) (erange s) (allow_new_conns s) (max_fds s) (conns s) (accepts s) (dispatched s).
Definition set_chunks (v : list (option Z)) (s : env) : env := Env (mallocs s) v (recvs s) (sends s) (ev_ops s) (sent s) (erange s) (allow_new_conns s) (max_fds s) (conns s) (accepts s) (dispatched s).
Definition set_recvs (v : list recv) (s : env) : env := Env (mallocs s) (chunks s) v (sends s) (ev_ops s) (sent s) (erange s) (allow_new_conns s) (max_fds s) (conns s) (accepts s) (dispatched s).
Definition set_sends (v : list send) (s : env) : env := Env (mallocs s) (chunks s) (recvs s) v (ev_ops s) (sent s) (erange s) (allow_new_conns s) (max_fds s) (conns s) (accepts s) (dispatched s).
Definition set_ev_ops (v : list bool) (s : env) : env := Env (mallocs s) (chunks s) (recvs s) (sends s) v (sent s) (erange s) (allow_new_conns s) (max_fds s) (conns s) (accepts s) (dispatched s).
Definition set_sent (v : list (list Z)) (s : env) : env := Env (mallocs s) (chunks s) (recvs s) (sends s) (ev_ops s) v (erange s) (allow_new_conns s) (max_fds s) (conns s) (accepts s) (dispatched s).
Definition set_erange (v : bool) (s : env) : env := Env (mallocs s) (chunks s) (recvs s) (sends s) (ev_ops s) (sent s) v (allow_new_conns s) (max_fds s) (conns s) (accepts s) (dispatched s).
Definition set_allow_new_conns (v : bool) (s : env) : env := Env (mallocs s) (chunks s) (recvs s) (sends s) (ev_ops s) (sent s) (erange s) v (max_fds s) (conns s) (accepts s) (dispatched s).
Definition set_max_fds (v : Z) (s : env) : env := Env (mallocs s) (chunks s) (recvs s) (sends s) (ev_ops s) (sent s) (erange s) (allow_new_conns s) v (conns s) (accepts s) (dispatched s).
Definition set_conns (v : gmap Z conn) (s : env) : env := Env (mallocs s) (chunks s) (recvs s) (sends s) (ev_ops s) (sent s) (erange s) (allow_new_conns s) (max_fds s) v (accepts s) (dispatched s).
Definition set_accepts (v : list accepted) (s : env) : env := Env (mallocs s) (chunks s) (recvs s) (sends s) (ev_ops s) (sent s) (erange s) (allow_new_conns s) (max_fds s) (conns s) v (dispatched s).
Definition set_dispatched (v : list Z) (s : env) : env := Env (mallocs s) (chunks s) (recvs s) (sends s) (ev_ops s) (sent s) (erange s) (allow_new_conns s) (max_fds s) (conns s) (accepts s) v.

(** ** A worker serving a connection *)
Record world := World {
  cn : conn;
  kv : cache;
  px : prefix_table;
  sfx : pool;
  en : env
}.
Definition set_cn (v : conn) (s : world) : world := World v (kv s) (px s) (sfx s) (en s).
Definition set_kv (v : cache) (s : world) : world := World (cn s) v (px s) (sfx s) (en s).
Definition set_px (v : prefix_table) (s : world) : world := World (cn s) (kv s) v (sfx s) (en s).
Definition set_sfx (v : pool) (s : world) : world := World (cn s) (kv s) (px s) v (en s).
Definition set_en (v : env) (s : world) : world := World (cn s) (kv s) (px s) (sfx s) v.

Definition io (A : Type) : Type := M world A.

Definition srv {A} (m : server A) : io A := zoom kv set_kv m.
Definition conn_ : io conn := gets cn.
Definition upd_cn (f : conn → conn) : io unit := modify (λ w, set_cn (f (cn w)) w).
Definition on_core (f : conn_core → conn_core) : io unit := upd_cn (upd_core f).
Definition on_rd (f : conn_rd → conn_rd) : io unit := upd_cn (upd_rd f).
Definition on_wr (f : conn_wr → conn_wr) : io unit := upd_cn (upd_wr f).
Definition on_nr (f : conn_nr → conn_nr) : io unit := upd_cn (upd_nr f).
Definition on_ov (f : conn_ov → conn_ov) : io unit := upd_cn (upd_ov f).
Definition on_il (f : conn_il → conn_il) : io unit := upd_cn (upd_il f).
Definition on_ud (f : conn_ud → conn_ud) : io unit := upd_cn (upd_ud f).
Definition on_sb (f : conn_sb → conn_sb) : io unit := upd_cn (upd_sb f).
Definition on_en (f : env → env) : io unit := modify (λ w, set_en (f (en w)) w).

Definition is_udp (c : conn) : bool := bool_decide (transport (core c) = udp_transport).

(** Outcome of the next malloc or realloc; it succeeds when the list is used up. *)
Definition malloc_ok : io bool := λ w,
  match mallocs (en w) with
  | [] => Ok (true, w)
  | b :: l => Ok (b, set_en (set_mallocs l (en w)) w)
  end.
(** [malloc_ok], counting a failure. *)
Definition malloc_counted : io bool :=
  ok ← malloc_ok;
  _ ← when (negb ok) (srv (stats_add malloc_fails 1));
  mret ok.
(** Outcome of the next event_add/event_del. *)
Definition event_ok : io bool := λ w,
  match ev_ops (en w) with
  | [] => Ok (true, w)
  | b :: l => Ok (b, set_en (set_ev_ops l (en w)) w)
  end.

(** Bytes a pointer designates. *)
Definition read_ptr (w : world) (p : ptr) (n : Z) : list Z :=
  match preg p with
  | RNull => []
  | RRbuf => load_bytes (rbuf (rd (cn w))) (poff p) (Z.to_nat n)
  | RWbuf => load_bytes (wbuf (wr (cn w))) (poff p) (Z.to_nat n)
  | RHdr => load_bytes (default ∅ (hdrbuf (ud (cn w)))) (poff p) (Z.to_nat n)
  | RLog => load_bytes (log (kv w)) (poff p) (Z.to_nat n)
  | RSuffix => load_bytes (heap (sfx w)) (poff p) (Z.to_nat n)
  | RLit bs => take (Z.to_nat n) (drop (Z.to_nat (poff p)) bs)
  end.

(** Writes that stay inside the buffer; anything else is a fault. *)
Definition write_wbuf (off : Z) (bs : list Z) : io unit :=
  c ← conn_;
  if (0 <=? off) && (off + Z.of_nat (length bs) <=? wsize (wr c))
  then on_wr (λ s, set_wbuf (store_bytes (wbuf s) off bs) s)
  else fail OutOfBounds.
Definition write_rbuf (off : Z) (bs : list Z) : io unit :=
  c ← conn_;
  if (0 <=? off) && (off + Z.of_nat (length bs) <=? rsize (rd c))
  then on_rd (λ s, set_rbuf (store_bytes (rbuf s) off bs) s)
  else fail OutOfBounds.

(** ** States *)
Definition state_text (s : conn_states) : option string :=
  match s with
  | conn_listening => Some "conn_listening"
  | conn_new_cmd => Some "conn_new_cmd"
  | conn_waiting => Some "conn_waiting"
  | conn_read => Some "conn_read"
  | conn_parse_cmd => Some "conn_parse_cmd"
  | conn_write => Some "conn_write"
  | conn_nread => Some "conn_nread"
  | conn_swallow => Some "conn_swallow"
  | conn_closing => Some "conn_closing"
  | conn_mwrite => Some "conn_mwrite"
  | conn_closed => Some "conn_closed"
  | conn_watch => Some "conn_watch"
  | conn_max_state => None
  end%string.

Definition conn_set_state (st : conn_states) : io unit :=
  _ ← assert_ (bool_decide (st ≠ conn_max_state));
  on_core (set_state st).

(** ** Output lists *)
Definition UDP_HEADER_SIZE : Z := 8.
Definition UDP_MAX_PAYLOAD_SIZE : Z := 1400.
Definition IOV_MAX : Z := 1024.

(** Element [i] of the message list. *)
Definition get_msg (i : Z) : io msghdr := λ w,
  let o := ov (cn w) in
  if (0 <=? i) && (i <? msgsize o) then
    match msglist o !! i with Some m => Ok (m, w) | None => Fault OutOfBounds end
  else Fault OutOfBounds.

Definition add_msghdr_with (add_iov : ptr → Z → io Z) : io Z :=
  c ← conn_;
  ok ← (if msgsize (ov c) =? msgused (ov c) then malloc_counted else mret true);
  if negb ok then mret (-1)
  else
    _ ← when (msgsize (ov c) =? msgused (ov c)) (on_ov (λ o, set_msgsize (msgsize o * 2) o));
    let namelen := if is_udp c && (request_addr_size (ud c) >? 0) then request_addr_size (ud c) else 0 in
    _ ← on_ov (λ o, set_msglist (<[msgused o := Msghdr (iovused o) 0 namelen]> (msglist o)) o);
    _ ← on_ov (λ o, set_msgused (msgused o + 1) (set_msgbytes 0 o));
    if is_udp c then add_iov null UDP_HEADER_SIZE else mret 0.

(** Point the messages [ixs] at the new array, one after the other. *)
Fixpoint repoint (ixs : list Z) (iovnum : Z) (l : gmap Z msghdr) : gmap Z msghdr :=
  match ixs with
  | [] => l
  | i :: ixs =>
      match l !! i with
      | Some m => repoint ixs (iovnum + msg_iovlen m) (<[i := Msghdr iovnum (msg_iovlen m) (msg_namelen m)]> l)
      | None => repoint ixs iovnum l
      end
  end.

Definition ensure_iov_space : io Z :=
  c ← conn_;
  if iovused (ov c) >=? iovsize (ov c) then
    ok ← malloc_counted;
    if negb ok then mret (-1)
    else
      _ ← on_ov (λ o, set_msglist (repoint (seqZ 0 (msgused o)) 0 (msglist o)) (set_iovsize (iovsize o * 2) o));
      mret 0
  else mret 0.

(** Append an entry to the last message. *)
Definition put_iov (buf : ptr) (len : Z) : io unit :=
  c ← conn_;
  let k := msgused (ov c) - 1 in
  m ← get_msg k;
  let i := msg_iov m + msg_iovlen m in
  if (0 <=? i) && (i <? iovsize (ov c)) then
    on_ov (λ o, set_msglist (<[k := Msghdr (msg_iov m) (msg_iovlen m + 1) (msg_namelen m)]> (msglist o))
      (set_iovused (iovused o + 1) (set_msgbytes (msgbytes o + len)
        (set_iov (<[i := Iovec buf len]> (iov o)) o))))
  else fail OutOfBounds.

(** One turn of the loop of [add_iov]; [add_msghdr]'s result is ignored. *)
Definition add_iov_body (add_msghdr : io Z) (x : ptr * Z) : io ((ptr * Z) + Z) :=
  let '(buf, len) := x in
  c ← conn_;
  m ← get_msg (msgused (ov c) - 1);
  let limit_to_mtu := is_udp c || (msgused (ov c) =? 1) in
  _ ← when ((msg_iovlen m =? IOV_MAX) || (limit_to_mtu && (msgbytes (ov c) >=? UDP_MAX_PAYLOAD_SIZE)))
        (_ ← add_msghdr; mret tt);
  r ← ensure_iov_space;
  if negb (r =? 0) then mret (inr (-1))
  else
    c ← conn_;
    let leftover := if limit_to_mtu && (len + msgbytes (ov c) >? UDP_MAX_PAYLOAD_SIZE)
                    then len + msgbytes (ov c) - UDP_MAX_PAYLOAD_SIZE else 0 in
    let len := len - leftover in
    _ ← put_iov buf len;
    if leftover >? 0 then mret (inl (padd buf len, leftover)) else mret (inr 0).

(** [add_iov] and [add_msghdr] call each other; a message header's own entry
    never needs a further header, so three levels are enough
    ([add_iov_correct]). *)
Fixpoint add_iov_n (d : nat) (buf : ptr) (len : Z) : io Z :=
  match d with
  | O => fail OutOfFuel
  | S d => loop FUEL (add_iov_body (add_msghdr_with (add_iov_n d))) (buf, len)
  end.
Definition add_iov (buf : ptr) (len : Z) : io Z := add_iov_n 3 buf len.
Definition add_msghdr : io Z := add_msghdr_with (add_iov_n 3).

(** The 8-byte frame header of datagram [i] of [n]. *)
Definition udp_header (id i n : Z) : list Z :=
  [u8 (Z.quot id 256); u8 (Z.rem id 256); u8 (Z.quot i 256); u8 (Z.rem i 256);
   u8 (Z.quot n 256); u8 (Z.rem n 256); 0; 0].

(** Attach header [i] to message [i]. *)
Definition udp_header_step (i : Z) : io unit :=
  c ← conn_;
  m ← get_msg i;
  if (0 <=? msg_iov m) && (msg_iov m <? iovsize (ov c)) && (i <? hdrsize (ud c)) then
    _ ← on_ov (λ o, set_iov (<[msg_iov m := Iovec (Ptr RHdr (UDP_HEADER_SIZE * i)) UDP_HEADER_SIZE]> (iov o)) o);
    on_ud (λ u, set_hdrbuf (Some (store_bytes (default ∅ (hdrbuf u)) (UDP_HEADER_SIZE * i)
                  (udp_header (request_id u) i (msgused (ov c))))) u)
  else fail OutOfBounds.

Fixpoint udp_header_loop (ixs : list Z) : io unit :=
  match ixs with
  | [] => mret tt
  | i :: ixs => _ ← udp_header_step i; udp_header_loop ixs
  end.

Definition build_udp_headers : io Z :=
  c ← conn_;
  ok ← (if msgused (ov c) >? hdrsize (ud c) then malloc_counted else mret true);
  if negb ok then mret (-1)
  else
    _ ← when (msgused (ov c) >? hdrsize (ud c))
          (on_ud (λ u, set_hdrbuf (Some (default ∅ (hdrbuf u))) (set_hdrsize (msgused (ov c) * 2) u)));
    _ ← udp_header_loop (seqZ 0 (msgused (ov c)));
    mret 0.

(** [c->msgcurr = c->msgused = c->iovused = 0] *)
Definition reset_output : io unit :=
  on_ov (λ o, set_iovused 0 (set_msgused 0 (set_msgcurr 0 o))).

(** ** Replies *)
Definition out_string (s : list Z) : io unit :=
  c ← conn_;
  if noreply (core c) then
    _ ← on_core (set_noreply false);
    conn_set_state conn_new_cmd
  else
    _ ← reset_output;
    _ ← add_msghdr;
    let s := if Z.of_nat (length s) + 2 >? wsize (wr c) then str "SERVER_ERROR output line too long" else s in
    let len := Z.of_nat (length s) in
    _ ← write_wbuf 0 s;
    _ ← write_wbuf len crlf;
    _ ← on_wr (λ x, set_wcurr (Ptr RWbuf 0) (set_wbytes (len + 2) x));
    _ ← conn_set_state conn_write;
    on_wr (set_write_and_go conn_new_cmd).

(** ** Symbolic execution *)
Section exec_io.
Context {A B : Type} (w : world).
Lemma bind_conn (k : conn → io B) : (conn_ ≫= k) w = k (cn w) w.
Proof. done. Qed.
Lemma bind_getw (f : world → A) (k : A → io B) : (gets f ≫= k) w = k (f w) w.
Proof. done. Qed.
Lemma bind_upd_cn f (k : unit → io B) : (upd_cn f ≫= k) w = k tt (set_cn (f (cn w)) w).
Proof. done. Qed.
Lemma bind_retw (a : A) (k : A → io B) : (mret a ≫= k) w = k a w.
Proof. done. Qed.
Lemma bind_assocw {C} (x : io A) (k1 : A → io C) (k2 : C → io B) :
  ((x ≫= k1) ≫= k2) w = (x ≫= λ a, k1 a ≫= k2) w.
Proof. unfold mbind, M_bind. by destruct (x w) as [[a s']|f]. Qed.
Lemma bind_srv (m : server A) (k : A → io B) a s :
  m (kv w) = Ok (a, s) → (srv m ≫= k) w = k a (set_kv s w).
Proof. intros H. unfold mbind, M_bind, srv, zoom. by rewrite H. Qed.
End exec_io.
