(* ===== verification/ConnOps.v ===== *)
(** * Connections: error replies, creation, release and closing (memcached.c) *)
From Stdlib Require Import ZArith Lia.
From stdpp Require Import strings prelude gmap list functions.
From S2P Require Import Prelude Mem Util Item State Items Pool Prefix Conn.

(** ** Binary replies (protocol_binary.h) *)
Definition PROTOCOL_BINARY_REQ : Z := 0x80.
Definition PROTOCOL_BINARY_RES : Z := 0x81.
Definition PROTOCOL_BINARY_RAW_BYTES : Z := 0.
Inductive bin_status : Set :=
  | SUCCESS | KEY_ENOENT | KEY_EEXISTS | E2BIG | EINVAL | BIN_NOT_STORED | DELTA_BADVAL
  | AUTH_ERROR | AUTH_CONTINUE | UNKNOWN_COMMAND | ENOMEM.
Definition status_code (s : bin_status) : Z :=
  match s with
  | SUCCESS => 0x00 | KEY_ENOENT => 0x01 | KEY_EEXISTS => 0x02 | E2BIG => 0x03 | EINVAL => 0x04
  | BIN_NOT_STORED => 0x05 | DELTA_BADVAL => 0x06 | AUTH_ERROR => 0x20 | AUTH_CONTINUE => 0x21
  | UNKNOWN_COMMAND => 0x81 | ENOMEM => 0x82
  end.

Definition CMD_GET : Z := 0x00.
Definition CMD_SET : Z := 0x01.
Definition CMD_ADD : Z := 0x02.
Definition CMD_REPLACE : Z := 0x03.
Definition CMD_DELETE : Z := 0x04.
Definition CMD_INCREMENT : Z := 0x05.
Definition CMD_DECREMENT : Z := 0x06.
Definition CMD_QUIT : Z := 0x07.
Definition CMD_FLUSH : Z := 0x08.
Definition CMD_GETQ : Z := 0x09.
Definition CMD_NOOP : Z := 0x0a.
Definition CMD_VERSION : Z := 0x0b.
Definition CMD_GETK : Z := 0x0c.
Definition CMD_GETKQ : Z := 0x0d.
Definition CMD_APPEND : Z := 0x0e.
Definition CMD_PREPEND : Z := 0x0f.
Definition CMD_STAT : Z := 0x10.
Definition CMD_SETQ : Z := 0x11.
Definition CMD_ADDQ : Z := 0x12.
Definition CMD_REPLACEQ : Z := 0x13.
Definition CMD_DELETEQ : Z := 0x14.
Definition CMD_INCREMENTQ : Z := 0x15.
Definition CMD_DECREMENTQ : Z := 0x16.
Definition CMD_QUITQ : Z := 0x17.
Definition CMD_FLUSHQ : Z := 0x18.
Definition CMD_APPENDQ : Z := 0x19.
Definition CMD_PREPENDQ : Z := 0x1a.
Definition CMD_TOUCH : Z := 0x1c.
Definition CMD_GAT : Z := 0x1d.
Definition CMD_GATQ : Z := 0x1e.
Definition CMD_SASL_LIST_MECHS : Z := 0x20.
Definition CMD_SASL_AUTH : Z := 0x21.
Definition CMD_SASL_STEP : Z := 0x22.
Definition CMD_GATK : Z := 0x23.
Definition CMD_GATKQ : Z := 0x24.

(** The bytes of a word in network order ([htons], [htonl]). *)
Definition be_encode (n : nat) (v : Z) : list Z := rev (le_encode n v).

Definition SIZEOF_bin_header : Z := 24.

(** The 24 bytes of [protocol_binary_response_header]; [opaque] is stored as
    it came. *)
Definition bin_response_header (op err hdr_len key_len body_len opaque cas : Z) : list Z :=
  [PROTOCOL_BINARY_RES; u8 op] ++ be_encode 2 (u16 key_len) ++ [u8 hdr_len; PROTOCOL_BINARY_RAW_BYTES]
  ++ be_encode 2 (u16 err) ++ be_encode 4 (u32 body_len) ++ le_encode 4 opaque ++ le_encode 8 (htonll cas).

Section replies.
Context (oom : list Z → io unit).

Definition add_bin_header_with (err hdr_len key_len body_len : Z) : io unit :=
  _ ← reset_output;
  r ← add_msghdr;
  if negb (r =? 0) then oom (str "SERVER_ERROR out of memory adding binary header")
  else
    c ← conn_;
    _ ← write_wbuf 0 (bin_response_header (opcode (bh c)) err hdr_len key_len body_len
                        (opaque (core c)) (cas (core c)));
    _ ← add_iov (Ptr RWbuf 0) SIZEOF_bin_header;
    mret tt.

(** The generic text of a status; [None] is the [default:] branch. *)
Definition status_text (err : bin_status) : option (list Z) :=
  match err with
  | ENOMEM => Some (str "Out of memory")
  | UNKNOWN_COMMAND => Some (str "Unknown command")
  | KEY_ENOENT => Some (str "Not found")
  | EINVAL => Some (str "Invalid arguments")
  | KEY_EEXISTS => Some (str "Data exists for key.")
  | E2BIG => Some (str "Too large.")
  | DELTA_BADVAL => Some (str "Non-numeric server-side value for incr or decr")
  | BIN_NOT_STORED => Some (str "Not stored.")
  | AUTH_ERROR => Some (str "Auth failure.")
  | SUCCESS | AUTH_CONTINUE => None
  end.

Definition write_bin_error_with (err : bin_status) (errstr : option (list Z)) (swallow : Z) : io unit :=
  let text := match errstr with Some s => Some s | None => status_text err end in
  match text with
  | None => fail AssertFailed
  | Some s =>
      let len := Z.of_nat (length s) in
      _ ← add_bin_header_with (status_code err) 0 0 len;
      _ ← when (len >? 0) (_ ← add_iov (Ptr (RLit s) 0) len; mret tt);
      _ ← conn_set_state conn_mwrite;
      if swallow >? 0 then
        _ ← on_nr (set_sbytes swallow);
        on_wr (set_write_and_go conn_swallow)
      else on_wr (set_write_and_go conn_new_cmd)
  end.
End replies.

(** [out_of_memory] and [add_bin_header] call each other; the call back only
    happens when no header can be added, and an empty output list always has
    room for one, so the depth never matters ([bin_error_reply] in NetFacts.v). *)
Fixpoint out_of_memory_n (d : nat) (ascii_error : list Z) : io unit :=
  match d with
  | O => fail OutOfFuel
  | S d =>
      c ← conn_;
      if bool_decide (prot (core c) = binary_prot) then
        let s := if strncmp_eq ascii_error (str "SERVER_ERROR ") 13 then drop 13 ascii_error else ascii_error in
        write_bin_error_with (out_of_memory_n d) ENOMEM (Some s) 0
      else out_string ascii_error
  end.
Definition out_of_memory (ascii_error : list Z) : io unit := out_of_memory_n 2 ascii_error.
Definition add_bin_header := add_bin_header_with out_of_memory.
Definition write_bin_error := write_bin_error_with out_of_memory.

Definition write_bin_response (d : ptr) (hlen klen dlen : Z) : io unit :=
  c ← conn_;
  if negb (noreply (core c)) || (cmd (core c) =? CMD_GET) || (cmd (core c) =? CMD_GETK) then
    _ ← add_bin_header 0 hlen klen dlen;
    _ ← when (dlen >? 0) (_ ← add_iov d dlen; mret tt);
    _ ← conn_set_state conn_mwrite;
    on_wr (set_write_and_go conn_new_cmd)
  else conn_set_state conn_new_cmd.

(** Write a private buffer, then free it. *)
Definition write_and_free (buf : option (list Z)) (bytes : Z) : io unit :=
  match buf with
  | Some b =>
      _ ← on_wr (λ s, set_wbytes bytes (set_wcurr (Ptr (RLit b) 0) (set_to_free (Some b) s)));
      _ ← conn_set_state conn_write;
      on_wr (set_write_and_go conn_new_cmd)
  | None => out_of_memory (str "SERVER_ERROR out of memory writing stats")
  end.

(** ** Events *)
Definition EV_READ : Z := 0x02.
Definition EV_WRITE : Z := 0x04.
Definition EV_PERSIST : Z := 0x10.

Definition update_event (new_flags : Z) : io bool :=
  c ← conn_;
  if ev_flags (core c) =? new_flags then mret true
  else
    ok ← event_ok;
    if negb ok then mret false
    else
      _ ← on_core (set_ev_flags new_flags);
      event_ok.

Definition conn_worker_readd : io unit :=
  _ ← on_core (λ s, set_state conn_new_cmd (set_ev_flags (Z.lor EV_READ EV_PERSIST) s));
  _ ← event_ok;
  mret tt.

(** ** Release *)
Definition get_ilist (i : Z) : io Z := λ w,
  let l := il (cn w) in
  if (0 <=? i) && (i <? isize l) then
    match ilist l !! i with Some it => Ok (it, w) | None => Fault OutOfBounds end
  else Fault OutOfBounds.
Definition get_suffix (i : Z) : io Z := λ w,
  let l := il (cn w) in
  if (0 <=? i) && (i <? suffixsize l) then
    match suffixlist l !! i with Some p => Ok (p, w) | None => Fault OutOfBounds end
  else Fault OutOfBounds.

(** [cache_free] on the worker's pool; its realloc happens when the array is full. *)
Definition suffix_free (obj : Z) : io unit :=
  p ← gets sfx;
  ok ← (if freecurr p <? freetotal p then mret true else malloc_ok);
  _ ← zoom sfx set_sfx (cache_free obj ok);
  mret tt.

Definition release_item (u : unit) : io (unit + unit) :=
  c ← conn_;
  if ileft (il c) >? 0 then
    it ← get_ilist (icurr (il c));
    x ← srv (get_meta it);
    _ ← assert_ (negb (has (it_flags x) ITEM_SLABBED));
    _ ← srv (item_remove it);
    _ ← on_il (λ s, set_ileft (ileft s - 1) (set_icurr (icurr s + 1) s));
    mret (inl tt)
  else mret (inr tt).

Definition release_suffix (u : unit) : io (unit + unit) :=
  c ← conn_;
  if suffixleft (il c) >? 0 then
    p ← get_suffix (suffixcurr (il c));
    _ ← suffix_free p;
    _ ← on_il (λ s, set_suffixcurr (suffixcurr s + 1) (set_suffixleft (suffixleft s - 1) s));
    mret (inl tt)
  else mret (inr tt).

(** [if (c->item) { item_remove(c->item); c->item = 0; }] *)
Definition release_citem : io unit :=
  c ← conn_;
  match c_item (nr c) with
  | Some it => _ ← srv (item_remove it); on_nr (set_c_item None)
  | None => mret tt
  end.

Definition conn_release_items : io unit :=
  _ ← release_citem;
  _ ← loop FUEL release_item tt;
  _ ← loop FUEL release_suffix tt;
  on_il (λ s, set_suffixcurr 0 (set_icurr 0 s)).

Definition conn_cleanup : io unit :=
  _ ← conn_release_items;
  _ ← on_wr (set_to_free None);
  c ← conn_;
  _ ← when (sasl_conn (core c))
        (s ← gets (λ w, cfg (kv w));
         _ ← assert_ (sasl s);
         on_core (set_sasl_conn false));
  when (is_udp c) (conn_set_state conn_read).

Definition conn_free : io unit :=
  w ← gets id;
  let fd := sfd (core (cn w)) in
  _ ← assert_ ((0 <=? fd) && (fd <? max_fds (en w)));
  on_en (λ e, set_conns (delete fd (conns e)) e).

Definition conn_close : io unit :=
  _ ← event_ok;
  _ ← conn_cleanup;
  _ ← conn_set_state conn_closed;
  _ ← on_en (set_allow_new_conns true);
  srv (state_add curr_conns (-1)).

(** ** Shrinking *)
Definition DATA_BUFFER_SIZE : Z := 2048.
Definition READ_BUFFER_HIGHWAT : Z := 8192.
Definition ITEM_LIST_INITIAL : Z := 200.
Definition ITEM_LIST_HIGHWAT : Z := 400.
Definition SUFFIX_LIST_INITIAL : Z := 20.
Definition IOV_LIST_INITIAL : Z := 400.
Definition IOV_LIST_HIGHWAT : Z := 600.
Definition MSG_LIST_INITIAL : Z := 10.
Definition MSG_LIST_HIGHWAT : Z := 100.

(** [memmove(c->rbuf, c->rcurr, c->rbytes)] and [c->rcurr = c->rbuf] *)
Definition repack (s : conn_rd) : conn_rd :=
  set_rcurr 0 (if rcurr s =? 0 then s
               else set_rbuf (store_bytes (rbuf s) 0 (load_bytes (rbuf s) (rcurr s) (Z.to_nat (rbytes s)))) s).

(** When [big], realloc to the small size; a failure keeps the array. *)
Definition shrink_list (big : bool) (small : conn → conn) : io unit :=
  when big (ok ← malloc_ok; when ok (upd_cn small)).

Definition conn_shrink : io unit :=
  c ← conn_;
  if is_udp c then mret tt
  else
    _ ← when ((rsize (rd c) >? READ_BUFFER_HIGHWAT) && (rbytes (rd c) <? DATA_BUFFER_SIZE))
          (_ ← on_rd repack;
           ok ← malloc_ok;
           when ok (on_rd (set_rsize DATA_BUFFER_SIZE)));
    _ ← shrink_list (isize (il c) >? ITEM_LIST_HIGHWAT) (upd_il (set_isize ITEM_LIST_INITIAL));
    _ ← shrink_list (msgsize (ov c) >? MSG_LIST_HIGHWAT) (upd_ov (set_msgsize MSG_LIST_INITIAL));
    shrink_list (iovsize (ov c) >? IOV_LIST_HIGHWAT) (upd_ov (set_iovsize IOV_LIST_INITIAL)).

(** ** Creation *)
Definition prot_text (p : protocol) : string :=
  match p with
  | ascii_prot => "ascii"
  | binary_prot => "binary"
  | negotiating_prot => "auto-negotiate"
  end%string.

(** [next_fd] is the descriptor [dup] returned, [rlim] the limit on
    descriptors when it is known. *)
Definition conn_init (next_fd : Z) (rlim : option Z) : io unit :=
  s ← gets (λ w, cfg (kv w));
  let n := match rlim with Some l => l | None => maxconns s + 10 + next_fd end in
  ok ← malloc_ok;
  if negb ok then fail (Exited 1)
  else on_en (λ e, set_conns ∅ (set_max_fds n e)).

(** A calloc-ed [struct conn] with its initial sizes. *)
Definition fresh_conn (read_buffer_size : Z) : conn :=
  Conn (Core 0 false false conn_listening bin_no_state 0 0 0 ascii_prot local_transport false 0 0 0 0)
       (Rd ∅ 0 read_buffer_size 0)
       (Wr ∅ null DATA_BUFFER_SIZE 0 conn_listening None)
       (Nr null 0 None 0)
       (Ov ∅ IOV_LIST_INITIAL 0 ∅ MSG_LIST_INITIAL 0 0 0)
       (Il ∅ ITEM_LIST_INITIAL 0 0 ∅ SUFFIX_LIST_INITIAL 0 0)
       (Ud 0 0 None 0)
       (Sb None 0 0)
       (BinHeader 0 0 0 0 0 0 0 0 0).

(** The six buffers are all requested before any is checked. *)
Definition conn_buffers : io bool :=
  a ← malloc_ok; b ← malloc_ok; c ← malloc_ok; d ← malloc_ok; e ← malloc_ok; f ← malloc_ok;
  mret (a && b && c && d && e && f).

(** Fields every (re)used connection starts with. *)
Definition start_conn (init_state : conn_states) (event_flags : Z) (tr : network_transport)
    (binding : protocol) (socketpath : bool) (now : Z) (c : conn) : conn :=
  let co := core c in
  Conn (Core (sfd co) false (sasl_conn co) init_state (substate co) now event_flags (which co) binding tr
          false (cas co) (-1) (opaque co) (keylen co))
       (Rd (rbuf (rd c)) 0 (rsize (rd c)) 0)
       (Wr (wbuf (wr c)) (Ptr RWbuf 0) (wsize (wr c)) 0 init_state None)
       (Nr null 0 None (sbytes (nr c)))
       (Ov (iov (ov c)) (iovsize (ov c)) 0 (msglist (ov c)) (msgsize (ov c)) 0 0 (msgbytes (ov c)))
       (Il (ilist (il c)) (isize (il c)) 0 0 (suffixlist (il c)) (suffixsize (il c)) 0 0)
       (Ud (request_id (ud c)) (if socketpath then 0 else 28) (hdrbuf (ud c)) (hdrsize (ud c)))
       (sb c) (bh c).

(** [binding] is [settings.binding_protocol], [socketpath] whether a unix
    socket is configured; 28 is [sizeof(struct sockaddr_in6)].  The connection
    is the one of the table at [sfd], or [None]. *)
Definition conn_new (fd : Z) (init_state : conn_states) (event_flags read_buffer_size : Z)
    (tr : network_transport) (binding : protocol) (socketpath : bool) : io (option conn) :=
  w ← gets id;
  _ ← assert_ ((0 <=? fd) && (fd <? max_fds (en w)));
  c ← match conns (en w) !! fd with
      | Some c => mret (Some c)
      | None =>
          ok ← malloc_counted;
          if negb ok then mret None
          else
            ok ← conn_buffers;
            if negb ok then
              (* conn_free on a connection whose sfd is still 0 *)
              _ ← on_en (λ e, set_conns (delete 0 (conns e)) e);
              _ ← srv (stats_add malloc_fails 1);
              mret None
            else
              _ ← srv (state_add conn_structs 1);
              mret (Some (upd_core (set_sfd fd) (fresh_conn read_buffer_size)))
      end;
  match c with
  | None => mret None
  | Some c =>
      now ← gets (λ w, current_time (kv w));
      let c := start_conn init_state event_flags tr binding socketpath now c in
      _ ← on_en (λ e, set_conns (<[fd := c]> (conns e)) e);
      ok ← event_ok;
      if negb ok then mret None
      else
        _ ← srv (state_add curr_conns 1);
        _ ← srv (stats_add total_conns 1);
        mret (Some c)
  end.
