(* ===== verification/IovFacts.v ===== *)
(** * Output lists: what is queued is what is sent

    An abstract view of the pending output - a list of messages, each a list of
    pieces - and the refinement of [add_msghdr], [ensure_iov_space], [add_iov]
    and [build_udp_headers] to it. *)
From Stdlib Require Import ZArith Lia.
From stdpp Require Import strings prelude gmap list functions.
From S2P Require Import Prelude Mem Util Hash Item State Memlog Items Pool Prefix Conn ConnOps.

Definition with_ov (o : conn_ov) (w : world) : world := set_cn (upd_ov (λ _, o) (cn w)) w.

Lemma with_ov_id w : with_ov (ov (cn w)) w = w.
Proof. by destruct w as [[] ? ? ? ?]. Qed.

Definition msg_size (l : list iovec) : Z := foldr (λ x n, iov_len x + n) 0 l.

Lemma msg_size_app l1 l2 : msg_size (l1 ++ l2) = msg_size l1 + msg_size l2.
Proof. induction l1 as [|x l1 IH]; cbn; [done|]. fold (msg_size (l1 ++ l2)). rewrite IH. unfold msg_size. lia. Qed.

(** The messages [V] as the array and the pointers hold them. *)
Record out_repr (o : conn_ov) (V : list (list iovec)) : Prop := {
  or_msgs : msgused o = Z.of_nat (length V);
  or_iovs : iovused o = Z.of_nat (length (concat V));
  or_list : ∀ i l, V !! i = Some l → ∃ nl,
      msglist o !! Z.of_nat i =
        Some (Msghdr (Z.of_nat (length (concat (take i V)))) (Z.of_nat (length l)) nl);
  or_iov : ∀ k x, concat V !! k = Some x → iov o !! Z.of_nat k = Some x;
  or_msgsize : 0 < msgsize o ∧ msgused o ≤ msgsize o;
  or_iovsize : 0 < iovsize o ∧ iovused o ≤ iovsize o;
  or_bytes : ∀ l, list.last V = Some l → msgbytes o = msg_size l
}.

(** Limits every message obeys; a datagram starts with room for its header. *)
Record msg_ok (udp : bool) (l : list iovec) : Prop := {
  mo_lens : Forall (λ x, 0 ≤ iov_len x) l;
  mo_iovmax : Z.of_nat (length l) ≤ IOV_MAX;
  mo_udp : udp = true → msg_size l ≤ UDP_MAX_PAYLOAD_SIZE ∧ ∃ h r, l = h :: r ∧ iov_len h = UDP_HEADER_SIZE
}.

(** The queued pieces without the datagram headers. *)
Definition pieces (udp : bool) (V : list (list iovec)) : list iovec :=
  concat (if udp then tail <$> V else V).

(** [F] is the [len] bytes at [buf], cut in consecutive pieces. *)
Fixpoint covers (buf : ptr) (len : Z) (F : list iovec) : Prop :=
  match F with
  | [] => len = 0
  | x :: F => iov_base x = buf ∧ 0 ≤ iov_len x ≤ len ∧ covers (padd buf (iov_len x)) (len - iov_len x) F
  end.

(** ** The three steps *)
Lemma repoint_id o V j m :
  out_repr o V → (j + m = length V)%nat →
  repoint (seqZ (Z.of_nat j) (Z.of_nat m)) (Z.of_nat (length (concat (take j V)))) (msglist o) = msglist o.
Proof.
  intros Hr. revert j. induction m as [|m IH]; intros j Hj; [done|].
  rewrite seqZ_cons by lia. cbn [repoint].
  destruct (lookup_lt_is_Some_2 V j ltac:(lia)) as [l Hl].
  destruct (or_list o V Hr j l Hl) as [nl Hm]. rewrite Hm. cbn [msg_iovlen msg_namelen].
  rewrite insert_id by done.
  replace (Z.of_nat (length (concat (take j V))) + Z.of_nat (length l))
    with (Z.of_nat (length (concat (take (S j) V)))).
  - replace (Z.succ (Z.of_nat j)) with (Z.of_nat (S j)) by lia.
    replace (Z.pred (Z.of_nat (S m))) with (Z.of_nat m) by lia. apply IH. lia.
  - rewrite (take_S_r _ _ _ Hl), concat_app, length_app. cbn. rewrite app_nil_r. lia.
Qed.

Lemma ensure_iov_space_spec w V :
  mallocs (en w) = [] → out_repr (ov (cn w)) V →
  ∃ o, ensure_iov_space w = Ok (0, with_ov o w) ∧ out_repr o V ∧ iovused o < iovsize o ∧
       msgused o = msgused (ov (cn w)) ∧ msgbytes o = msgbytes (ov (cn w)).
Proof.
  intros Hm Hr. unfold ensure_iov_space. rewrite bind_conn.
  pose proof Hr as [H1 H2 H3 H4 H5 H6 H7].
  destruct (Z.geb_spec (iovused (ov (cn w))) (iovsize (ov (cn w)))) as [Hge|Hlt].
  - assert (malloc_counted w = Ok (true, w)) as Hok.
    { unfold malloc_counted, mbind, M_bind, malloc_ok. by rewrite Hm. }
    rewrite (bind_Ok _ _ _ _ _ Hok). cbn [negb].
    eexists. split; [reflexivity|].
    assert (repoint (seqZ 0 (msgused (ov (cn w)))) 0 (msglist (ov (cn w))) = msglist (ov (cn w))) as Hid.
    { rewrite H1. by apply (repoint_id _ V 0 (length V)). }
    cbn. rewrite Hid. split_and!; [|lia|done|done]. split; cbn; try done; lia.
  - exists (ov (cn w)). rewrite with_ov_id. split_and!; done.
Qed.

Lemma put_iov_spec w V l buf len :
  out_repr (ov (cn w)) (V ++ [l]) → iovused (ov (cn w)) < iovsize (ov (cn w)) →
  ∃ o, put_iov buf len w = Ok (tt, with_ov o w) ∧ out_repr o (V ++ [l ++ [Iovec buf len]]) ∧
       msgused o = msgused (ov (cn w)).
Proof.
  intros Hr Hroom. unfold put_iov. rewrite bind_conn. pose proof Hr as [H1 H2 H3 H4 H5 H6 H7].
  rewrite length_app in H1. cbn in H1. rewrite concat_app, length_app in H2. cbn in H2. rewrite app_nil_r in H2.
  destruct (H3 (length V) l) as [nl Hl]; [by rewrite lookup_app_r, Nat.sub_diag by lia|].
  rewrite take_app_length in Hl.
  replace (msgused (ov (cn w)) - 1) with (Z.of_nat (length V)) by lia.
  assert (get_msg (Z.of_nat (length V)) w =
    Ok (Msghdr (Z.of_nat (length (concat V))) (Z.of_nat (length l)) nl, w)) as Hg.
  { unfold get_msg. rewrite (proj2 (Z.leb_le _ _)), (proj2 (Z.ltb_lt _ _)) by lia. cbn. by rewrite Hl. }
  rewrite (bind_Ok _ _ _ _ _ Hg). cbn [msg_iov msg_iovlen msg_namelen].
  rewrite (proj2 (Z.leb_le _ _)), (proj2 (Z.ltb_lt _ _)) by lia. cbn [andb].
  eexists. split; [reflexivity|]. split; [|done].
  assert (concat (V ++ [l ++ [Iovec buf len]]) = concat (V ++ [l]) ++ [Iovec buf len]) as Hc.
  { rewrite !concat_app. cbn. by rewrite !app_nil_r, app_assoc. }
  split; cbn.
  - rewrite length_app. cbn. lia.
  - rewrite Hc, length_app, concat_app, length_app. cbn. rewrite app_nil_r. lia.
  - intros i l' Hi. destruct (decide (i = length V)) as [->|Hne].
    + rewrite lookup_app_r, Nat.sub_diag in Hi by lia. cbn in Hi. simplify_eq.
      rewrite take_app_length, lookup_insert_eq, length_app. cbn. exists nl. do 2 f_equal. lia.
    + rewrite lookup_insert_ne by lia.
      assert (i < length V)%nat by (apply lookup_lt_Some in Hi; rewrite length_app in Hi; cbn in Hi; lia).
      rewrite lookup_app_l in Hi by lia. rewrite take_app_le by lia.
      destruct (H3 i l') as [nl' Hl']; [by rewrite lookup_app_l|]. rewrite take_app_le in Hl' by lia. eauto.
  - rewrite Hc. intros k x Hk. apply lookup_app_Some in Hk as [Hk|[Hge Hk]].
    + rewrite lookup_insert_ne; [by apply H4|]. apply lookup_lt_Some in Hk.
      rewrite concat_app, length_app in Hk. cbn in Hk. rewrite app_nil_r in Hk. lia.
    + apply list_lookup_singleton_Some in Hk as [Hz <-].
      rewrite concat_app, length_app in Hge, Hz. cbn in Hge, Hz. rewrite app_nil_r in Hge, Hz.
      replace (Z.of_nat k) with (Z.of_nat (length (concat V)) + Z.of_nat (length l)) by lia.
      apply lookup_insert_eq.
  - lia.
  - lia.
  - intros l' Hl'. rewrite last_snoc in Hl'. simplify_eq. rewrite msg_size_app. cbn.
    rewrite (H7 l) by (by rewrite last_snoc). lia.
Qed.

(** The record a new message header leaves. *)
Lemma new_msg_repr o V nl grow :
  out_repr o V → (grow = true ∨ msgused o < msgsize o) →
  let o1 := if grow : bool then set_msgsize (msgsize o * 2) o else o in
  let o2 := set_msglist (<[msgused o1 := Msghdr (iovused o1) 0 nl]> (msglist o1)) o1 in
  out_repr (set_msgused (msgused o2 + 1) (set_msgbytes 0 o2)) (V ++ [[]]).
Proof.
  intros [H1 H2 H3 H4 H5 H6 H7] Hg o1 o2.
  assert (concat (V ++ [[]]) = concat V) as Hc by (rewrite concat_app; cbn; by rewrite app_nil_r).
  assert (msgused o1 = msgused o ∧ iovused o1 = iovused o ∧ msglist o1 = msglist o ∧ iov o1 = iov o ∧
    iovsize o1 = iovsize o ∧ msgused o < msgsize o1) as (E1 & E2 & E3 & E4 & E5 & E6).
  { unfold o1. destruct grow; cbn; split_and!; try done; lia. }
  split; cbn.
  - rewrite length_app. cbn. lia.
  - by rewrite Hc, E2.
  - intros i l Hi. rewrite E1, E2, E3. destruct (decide (i = length V)) as [->|Hne].
    + rewrite lookup_app_r, Nat.sub_diag in Hi by lia. cbn in Hi. simplify_eq.
      rewrite take_app_length, <- H1, lookup_insert_eq, H2. by exists nl.
    + rewrite lookup_insert_ne by lia.
      assert (i < length V)%nat by (apply lookup_lt_Some in Hi; rewrite length_app in Hi; cbn in Hi; lia).
      rewrite lookup_app_l in Hi by lia. rewrite take_app_le by lia. by apply H3.
  - rewrite Hc, E4. done.
  - lia.
  - lia.
  - intros l Hl. rewrite last_snoc in Hl. by simplify_eq.
Qed.

(** ** [add_msghdr] and [add_iov] *)
Definition fresh_msg (udp : bool) : list iovec := if udp then [Iovec null UDP_HEADER_SIZE] else [].

(** Number of bytes of a request that go into a message holding [l]. *)
Definition fit (limit : bool) (l : list iovec) (len : Z) : Z :=
  if limit && (len + msg_size l >? UDP_MAX_PAYLOAD_SIZE) then UDP_MAX_PAYLOAD_SIZE - msg_size l else len.

(** The message is full: its array entries or, where it counts, its bytes. *)
Definition full (limit : bool) (l : list iovec) : bool :=
  (Z.of_nat (length l) =? IOV_MAX) || (limit && (msg_size l >=? UDP_MAX_PAYLOAD_SIZE)).

Lemma get_last w V l :
  out_repr (ov (cn w)) (V ++ [l]) →
  ∃ nl, get_msg (msgused (ov (cn w)) - 1) w =
    Ok (Msghdr (Z.of_nat (length (concat V))) (Z.of_nat (length l)) nl, w).
Proof.
  intros [H1 H2 H3 H4 H5 H6 H7]. rewrite length_app in H1. cbn in H1.
  destruct (H3 (length V) l) as [nl Hl]; [by rewrite lookup_app_r, Nat.sub_diag by lia|].
  rewrite take_app_length in Hl. exists nl. unfold get_msg.
  replace (msgused (ov (cn w)) - 1) with (Z.of_nat (length V)) by lia.
  rewrite (proj2 (Z.leb_le _ _)), (proj2 (Z.ltb_lt _ _)) by lia. cbn. by rewrite Hl.
Qed.

(** The part of a turn after the check for a full message. *)
Lemma add_iov_rest w V l limit buf len :
  mallocs (en w) = [] → out_repr (ov (cn w)) (V ++ [l]) → (limit = true → msg_size l < UDP_MAX_PAYLOAD_SIZE) →
  ∃ o, (r ← ensure_iov_space;
        if negb (r =? 0) then mret (inr (-1))
        else
          c ← conn_;
          let leftover := if limit && (len + msgbytes (ov c) >? UDP_MAX_PAYLOAD_SIZE)
                          then len + msgbytes (ov c) - UDP_MAX_PAYLOAD_SIZE else 0 in
          let len := len - leftover in
          _ ← put_iov buf len;
          if leftover >? 0 then mret (inl (padd buf len, leftover)) else mret (inr 0)) w
     = Ok (if fit limit l len <? len then inl (padd buf (fit limit l len), len - fit limit l len) else inr 0,
           with_ov o w) ∧
     out_repr o (V ++ [l ++ [Iovec buf (fit limit l len)]]).
Proof.
  intros Hm Hr Hlim. destruct (ensure_iov_space_spec w _ Hm Hr) as (o1 & E1 & Hr1 & Hroom & Hu & Hb).
  rewrite (bind_Ok _ _ _ _ _ E1). rewrite Z.eqb_refl. cbn [negb]. rewrite bind_conn.
  change (ov (cn (with_ov o1 w))) with o1.
  rewrite (or_bytes _ _ Hr1 l) by (by rewrite last_snoc).
  set (left := if _ && _ then _ else 0).
  assert (len - left = fit limit l len) as Hfit.
  { unfold left, fit. destruct (limit && _); lia. }
  rewrite Hfit. destruct (put_iov_spec (with_ov o1 w) V l buf (fit limit l len)) as (o2 & E2 & Hr2 & _); [done|done|].
  rewrite (bind_Ok _ _ _ _ _ E2). exists o2. split; [|done].
  replace (left >? 0) with (fit limit l len <? len).
  - replace left with (len - fit limit l len) by lia. by destruct (fit limit l len <? len).
  - destruct (Z.ltb_spec (fit limit l len) len); destruct (Z.gtb_spec left 0); lia || done.
Qed.

Lemma add_iov_body_last w V l hdr buf len :
  mallocs (en w) = [] → out_repr (ov (cn w)) (V ++ [l]) →
  let limit := is_udp (cn w) || (length (V ++ [l]) =? 1)%nat in
  full limit l = false →
  ∃ o, add_iov_body hdr (buf, len) w
     = Ok (if fit limit l len <? len then inl (padd buf (fit limit l len), len - fit limit l len) else inr 0,
           with_ov o w) ∧
     out_repr o (V ++ [l ++ [Iovec buf (fit limit l len)]]).
Proof.
  intros Hm Hr limit Hfull. unfold add_iov_body. rewrite bind_conn.
  destruct (get_last w V l Hr) as [nl Hg]. rewrite (bind_Ok _ _ _ _ _ Hg). cbn [msg_iovlen].
  rewrite (or_bytes _ _ Hr l) by (by rewrite last_snoc).
  assert ((is_udp (cn w) || (msgused (ov (cn w)) =? 1)) = limit) as ->.
  { unfold limit. f_equal. rewrite (or_msgs _ _ Hr).
    destruct (Z.eqb_spec (Z.of_nat (length (V ++ [l]))) 1); destruct (Nat.eqb_spec (length (V ++ [l])) 1); lia || done. }
  unfold full in Hfull. rewrite Hfull. cbn [when]. rewrite bind_retw.
  apply add_iov_rest; [done|done|]. intros Hl. rewrite Hl in Hfull.
  apply orb_false_iff in Hfull as [_ Hb]. cbn in Hb. rewrite Z.geb_leb in Hb. apply Z.leb_gt in Hb. done.
Qed.

Lemma add_msghdr_any_spec add w V :
  mallocs (en w) = [] → out_repr (ov (cn w)) V → is_udp (cn w) = false →
  ∃ o, add_msghdr_with add w = Ok (0, with_ov o w) ∧ out_repr o (V ++ [[]]).
Proof.
  intros Hm Hr Hudp. unfold add_msghdr_with. rewrite bind_conn, Hudp. cbn [andb].
  pose proof (new_msg_repr _ V 0 (msgsize (ov (cn w)) =? msgused (ov (cn w))) Hr) as Hn.
  destruct (Z.eqb_spec (msgsize (ov (cn w))) (msgused (ov (cn w)))) as [Heq|Hne].
  - assert (malloc_counted w = Ok (true, w)) as Hok.
    { unfold malloc_counted, mbind, M_bind, malloc_ok. by rewrite Hm. }
    rewrite (bind_Ok _ _ _ _ _ Hok). cbn [negb when]. eexists. split; [reflexivity|]. apply Hn. by left.
  - rewrite bind_retw. cbn [negb when]. eexists. split; [reflexivity|]. apply Hn. right.
    pose proof (or_msgsize _ _ Hr). lia.
Qed.

Lemma add_msghdr_udp_spec d w V :
  mallocs (en w) = [] → out_repr (ov (cn w)) V → is_udp (cn w) = true →
  ∃ o, add_msghdr_with (add_iov_n (S d)) w = Ok (0, with_ov o w) ∧ out_repr o (V ++ [fresh_msg true]).
Proof.
  intros Hm Hr Hudp. unfold add_msghdr_with. rewrite bind_conn, Hudp. cbn [andb].
  set (nl := if request_addr_size _ >? 0 then _ else _).
  pose proof (new_msg_repr _ V nl (msgsize (ov (cn w)) =? msgused (ov (cn w))) Hr) as Hn.
  assert (∀ o, out_repr o (V ++ [[]]) → ∃ o',
    add_iov_n (S d) null UDP_HEADER_SIZE (with_ov o w) = Ok (0, with_ov o' w) ∧
    out_repr o' (V ++ [fresh_msg true])) as Hadd.
  { intros o Ho. destruct (add_iov_body_last (with_ov o w) V [] (add_msghdr_with (add_iov_n d)) null UDP_HEADER_SIZE)
      as (o' & E & Hr'); [done|done|..].
    { unfold full. change (is_udp (cn (with_ov o w))) with (is_udp (cn w)). by rewrite Hudp. }
    change (is_udp (cn (with_ov o w))) with (is_udp (cn w)) in E, Hr'. rewrite Hudp in E, Hr'.
    cbn in E, Hr'. exists o'. split; [|done]. cbn [add_iov_n]. by apply loop_first. }
  destruct (Z.eqb_spec (msgsize (ov (cn w))) (msgused (ov (cn w)))) as [Heq|Hne].
  - assert (malloc_counted w = Ok (true, w)) as Hok.
    { unfold malloc_counted, mbind, M_bind, malloc_ok. by rewrite Hm. }
    rewrite (bind_Ok _ _ _ _ _ Hok). cbn [negb when]. apply (Hadd _ (Hn ltac:(by left))).
  - rewrite bind_retw. cbn [negb when]. apply Hadd, Hn. right. pose proof (or_msgsize _ _ Hr). lia.
Qed.

Lemma add_msghdr_spec d w V :
  mallocs (en w) = [] → out_repr (ov (cn w)) V →
  ∃ o, add_msghdr_with (add_iov_n (S d)) w = Ok (0, with_ov o w) ∧ out_repr o (V ++ [fresh_msg (is_udp (cn w))]).
Proof.
  intros Hm Hr. destruct (is_udp (cn w)) eqn:Hudp.
  - by apply add_msghdr_udp_spec.
  - by apply add_msghdr_any_spec.
Qed.

(** A full turn of [add_iov]: the bytes go into message [l1], which is the last
    one or a new one. *)
Lemma add_iov_body_spec d w V l buf len :
  mallocs (en w) = [] → out_repr (ov (cn w)) (V ++ [l]) →
  let udp := is_udp (cn w) in
  let limit := udp || (length (V ++ [l]) =? 1)%nat in
  ∃ o V1 l1,
    (V1 ++ [l1] = V ++ [l] ∨ V1 ++ [l1] = (V ++ [l]) ++ [fresh_msg udp]) ∧
    full limit l1 = false ∧
    add_iov_body (add_msghdr_with (add_iov_n (S d))) (buf, len) w
     = Ok (if fit limit l1 len <? len then inl (padd buf (fit limit l1 len), len - fit limit l1 len) else inr 0,
           with_ov o w) ∧
    out_repr o (V1 ++ [l1 ++ [Iovec buf (fit limit l1 len)]]).
Proof.
  intros Hm Hr udp limit. destruct (full limit l) eqn:Hfull.
  - assert (full limit (fresh_msg udp) = false) as Hfresh by (by destruct udp, limit).
    unfold add_iov_body. rewrite bind_conn.
    destruct (get_last w V l Hr) as [nl Hg]. rewrite (bind_Ok _ _ _ _ _ Hg). cbn [msg_iovlen].
    rewrite (or_bytes _ _ Hr l) by (by rewrite last_snoc).
    assert ((is_udp (cn w) || (msgused (ov (cn w)) =? 1)) = limit) as ->.
    { unfold limit, udp. f_equal. rewrite (or_msgs _ _ Hr).
      destruct (Z.eqb_spec (Z.of_nat (length (V ++ [l]))) 1); destruct (Nat.eqb_spec (length (V ++ [l])) 1); lia || done. }
    unfold full in Hfull. rewrite Hfull. cbn [when].
    destruct (add_msghdr_spec d w _ Hm Hr) as (o1 & E1 & Hr1). fold udp in Hr1.
    rewrite bind_assocw, (bind_Ok _ _ _ _ _ E1), bind_retw.
    destruct (add_iov_rest (with_ov o1 w) (V ++ [l]) (fresh_msg udp) limit buf len) as (o2 & E2 & Hr2);
      [done|done|..].
    { intros _. destruct udp; cbn; unfold UDP_MAX_PAYLOAD_SIZE, UDP_HEADER_SIZE; lia. }
    exists o2, (V ++ [l]), (fresh_msg udp). split_and!; [by right|done|exact E2|done].
  - destruct (add_iov_body_last w V l (add_msghdr_with (add_iov_n (S d))) buf len Hm Hr Hfull) as (o & E & Hr').
    exists o, V, l. split_and!; [by left|done|exact E|done].
Qed.

Lemma padd_padd p a b : padd (padd p a) b = padd p (a + b).
Proof. unfold padd. cbn. by rewrite Z.add_assoc. Qed.
Lemma padd_0 p : padd p 0 = p.
Proof. destruct p. unfold padd. cbn. by rewrite Z.add_0_r. Qed.

Lemma covers_snoc buf n F k :
  covers buf n F → 0 ≤ k → covers buf (n + k) (F ++ [Iovec (padd buf n) k]).
Proof.
  revert buf n. induction F as [|x F IH]; intros buf n Hc Hk; cbn in *.
  - subst n. rewrite padd_0. split_and!; [done|lia|lia|lia].
  - destruct Hc as (H1 & H2 & H3). split_and!; [done|lia|lia|].
    replace (n + k - iov_len x) with ((n - iov_len x) + k) by lia.
    replace (padd buf n) with (padd (padd buf (iov_len x)) (n - iov_len x)) by (rewrite padd_padd; f_equal; lia).
    by apply IH.
Qed.

Lemma covers_len buf n F : covers buf n F → 0 ≤ n.
Proof.
  revert buf n. induction F as [|x F IH]; intros buf n; cbn; [lia|].
  intros (_ & H2 & H3). apply IH in H3. lia.
Qed.

Lemma pieces_snoc udp V l x :
  (udp = true → l ≠ []) → pieces udp (V ++ [l ++ [x]]) = pieces udp (V ++ [l]) ++ [x].
Proof.
  intros Hl. unfold pieces. destruct udp.
  - rewrite !fmap_app, !concat_app. cbn. destruct l as [|y l]; [by destruct (Hl eq_refl)|].
    cbn. by rewrite !app_nil_r, app_assoc.
  - rewrite !concat_app. cbn. by rewrite !app_nil_r, app_assoc.
Qed.

Lemma pieces_fresh udp V : pieces udp (V ++ [fresh_msg udp]) = pieces udp V.
Proof.
  unfold pieces. destruct udp; cbn.
  - rewrite fmap_app, concat_app. cbn. by rewrite app_nil_r.
  - rewrite concat_app. cbn. by rewrite app_nil_r.
Qed.

Lemma fresh_msg_ok udp : msg_ok udp (fresh_msg udp).
Proof.
  destruct udp; split; cbn; try done; unfold IOV_MAX, UDP_HEADER_SIZE, UDP_MAX_PAYLOAD_SIZE; try lia.
  - repeat constructor. cbn. lia.
  - intros _. split; [lia|eauto].
Qed.

Lemma fit_ok udp limit l buf len :
  msg_ok udp l → (udp = true → limit = true) → full limit l = false → 0 ≤ len →
  0 ≤ fit limit l len ≤ len ∧ (fit limit l len < len → 0 < fit limit l len) ∧
  msg_ok udp (l ++ [Iovec buf (fit limit l len)]).
Proof.
  intros [H1 H2 H3] Hlim Hfull Hlen. unfold full in Hfull. apply orb_false_iff in Hfull as [Hn Hs].
  apply Z.eqb_neq in Hn. unfold fit.
  assert (0 ≤ msg_size l) as Hpos.
  { clear -H1. induction H1 as [|x l Hx _ IH]; cbn; [lia|]. fold (msg_size l). lia. }
  assert (limit = true → msg_size l < UDP_MAX_PAYLOAD_SIZE) as Hsz.
  { intros ->. cbn in Hs. rewrite Z.geb_leb in Hs. by apply Z.leb_gt in Hs. }
  assert (∀ n, 0 ≤ n → (udp = true → n + msg_size l ≤ UDP_MAX_PAYLOAD_SIZE) → msg_ok udp (l ++ [Iovec buf n])) as Hok.
  { intros n Hn0 Hn1. split.
    - apply Forall_app. split; [done|]. by repeat constructor.
    - rewrite length_app. cbn. lia.
    - intros Hu. destruct (H3 Hu) as (Ha & h & r & -> & Hh). split; [|exists h, (r ++ [Iovec buf n]); done].
      rewrite msg_size_app. change (msg_size [Iovec buf n]) with (n + 0). specialize (Hn1 Hu). lia. }
  destruct limit; cbn [andb].
  - specialize (Hsz eq_refl). destruct (Z.gtb_spec (len + msg_size l) UDP_MAX_PAYLOAD_SIZE);
      split_and!; try lia; apply Hok; lia.
  - destruct udp; [by specialize (Hlim eq_refl)|]. split_and!; try lia. by apply Hok.
Qed.

(** The state of the output: the lists represent [V], and every message obeys
    the limits. *)
Definition out_ok (w : world) (V : list (list iovec)) : Prop :=
  out_repr (ov (cn w)) V ∧ Forall (msg_ok (is_udp (cn w))) V.

Lemma add_iov_n_S d buf len :
  add_iov_n (S d) buf len = loop FUEL (add_iov_body (add_msghdr_with (add_iov_n d))) (buf, len).
Proof. done. Qed.

(** Queueing [len] bytes at [buf]. *)
Lemma add_iov_spec d w V buf len :
  mallocs (en w) = [] → out_ok w V → V ≠ [] → 0 ≤ len < 2 ^ 31 →
  ∃ o V' F, add_iov_n (S (S d)) buf len w = Ok (0, with_ov o w) ∧ out_ok (with_ov o w) V' ∧ V' ≠ [] ∧
    pieces (is_udp (cn w)) V' = pieces (is_udp (cn w)) V ++ F ∧ covers buf len F.
Proof.
  intros Hm [Hr HV] Hne Hlen. set (udp := is_udp (cn w)).
  set (I := λ (k : Z) (x : ptr * Z) (w' : world), ∃ o V' F n,
    w' = with_ov o w ∧ out_repr o V' ∧ Forall (msg_ok udp) V' ∧ V' ≠ [] ∧
    pieces udp V' = pieces udp V ++ F ∧ covers buf n F ∧
    x = (padd buf n, len - n) ∧ k = len - n ∧ 0 ≤ len - n).
  set (Q := λ (r : Z) (w' : world), r = 0 ∧ ∃ o V' F,
    w' = with_ov o w ∧ out_repr o V' ∧ Forall (msg_ok udp) V' ∧ V' ≠ [] ∧
    pieces udp V' = pieces udp V ++ F ∧ covers buf len F).
  cut (wp (loop FUEL (add_iov_body (add_msghdr_with (add_iov_n (S d)))) (buf, len)) w Q).
  { intros (r & w' & E & -> & o & V' & F & -> & H1 & H2 & H3 & H4 & H5). exists o, V', F.
    split; [by rewrite add_iov_n_S|]. split; [by split|]. done. }
  apply (loop_rule _ _ I Q len); [| |change (2 ^ Z.of_nat FUEL) with (2 ^ 64); lia].
  - intros k x w' (o & V' & F & n & -> & Hr' & HV' & Hne' & Hp & Hc & -> & -> & Hn).
    destruct V' as [|l V' _] using rev_ind; [done|]. apply Forall_app in HV' as [HVs Hl].
    apply Forall_inv in Hl.
    destruct (add_iov_body_spec d (with_ov o w) V' l (padd buf n) (len - n) Hm Hr')
      as (o' & V1 & l1 & Hsrc & Hfull & E & Hr2). cbn zeta in *.
    change (is_udp (cn (with_ov o w))) with udp in *.
    set (limit := udp || _) in *.
    assert (Forall (msg_ok udp) (V1 ++ [l1])) as Hok1.
    { destruct Hsrc as [->| ->]; rewrite !Forall_app, !Forall_singleton; auto using fresh_msg_ok. }
    apply Forall_app in Hok1 as [HV1 Hl1]. apply Forall_inv in Hl1.
    destruct (fit_ok udp limit l1 (padd buf n) (len - n)) as (Hf1 & Hf2 & Hf3);
      [done|by intros ->|done|done|].
    assert (pieces udp (V1 ++ [l1]) = pieces udp V ++ F) as Hp1.
    { destruct Hsrc as [->| ->]; [done|]. by rewrite pieces_fresh. }
    assert (udp = true → l1 ≠ []) as Hne1.
    { intros Hu. destruct (mo_udp _ _ Hl1 Hu) as (_ & h & r & -> & _). done. }
    exists (if fit limit l1 (len - n) <? len - n
            then inl (padd (padd buf n) (fit limit l1 (len - n)), len - n - fit limit l1 (len - n)) else inr 0),
           (with_ov o' w). split; [exact E|].
    assert (pieces udp (V1 ++ [l1 ++ [Iovec (padd buf n) (fit limit l1 (len - n))]]) =
      pieces udp V ++ F ++ [Iovec (padd buf n) (fit limit l1 (len - n))]) as Hp2.
    { rewrite pieces_snoc, Hp1 by done. by rewrite app_assoc. }
    destruct (Z.ltb_spec (fit limit l1 (len - n)) (len - n)) as [Hlt|Hge].
    + exists (len - n - fit limit l1 (len - n)). split; [specialize (Hf2 Hlt); lia|].
      eexists o', _, _, (n + fit limit l1 (len - n)). split_and!;
        [done|exact Hr2| |destruct V1; discriminate|exact Hp2|apply covers_snoc; [done|lia]| |lia|lia].
      * apply Forall_app_2; [done|]. by apply Forall_singleton.
      * rewrite padd_padd. f_equal. lia.
    + split; [done|]. eexists o', _, _. split_and!; [done|exact Hr2| |destruct V1; discriminate|exact Hp2|].
      * apply Forall_app_2; [done|]. by apply Forall_singleton.
      * replace len with (n + fit limit l1 (len - n)) at 1 by lia. apply covers_snoc; [done|lia].
  - exists (ov (cn w)), V, [], 0. rewrite with_ov_id, app_nil_r, padd_0, Z.sub_0_r. split_and!; try done; lia.
Qed.

(** ** Bytes *)
Definition iov_bytes (w : world) (x : iovec) : list Z := read_ptr w (iov_base x) (iov_len x).
Definition queued_bytes (w : world) (V : list (list iovec)) : list Z :=
  concat (iov_bytes w <$> pieces (is_udp (cn w)) V).

(** The pointer designates [len] readable bytes. *)
Definition readable (p : ptr) (len : Z) : Prop :=
  match preg p with
  | RNull => False
  | RLit bs => 0 ≤ poff p ∧ poff p + len ≤ Z.of_nat (length bs)
  | _ => True
  end.

Lemma read_ptr_split w p n len :
  readable p len → 0 ≤ n ≤ len → read_ptr w p len = read_ptr w p n ++ read_ptr w (padd p n) (len - n).
Proof.
  intros Hr Hn. unfold read_ptr, readable, padd in *. cbn [preg poff] in *.
  assert (∀ m a, load_bytes m a (Z.to_nat len) =
    load_bytes m a (Z.to_nat n) ++ load_bytes m (a + n) (Z.to_nat (len - n))) as Hl.
  { intros m a. replace (Z.to_nat len) with (Z.to_nat n + Z.to_nat (len - n))%nat by lia.
    rewrite load_bytes_app. by rewrite Z2Nat.id by lia. }
  destruct (preg p) as [| | | | | |bs]; try apply Hl; [done|].
  destruct Hr as [H1 H2].
  replace (Z.to_nat len) with (Z.to_nat n + Z.to_nat (len - n))%nat by lia.
  replace (Z.to_nat (poff p + n)) with (Z.to_nat (poff p) + Z.to_nat n)%nat by lia.
  rewrite <- drop_drop. rewrite <- (take_drop (Z.to_nat n) (drop (Z.to_nat (poff p)) bs)) at 1.
  rewrite take_app_add'; [done|]. rewrite length_take, length_drop. lia.
Qed.

Lemma readable_padd p n len : readable p len → 0 ≤ n ≤ len → readable (padd p n) (len - n).
Proof. unfold readable, padd. cbn. destruct (preg p); try done. lia. Qed.

Lemma covers_bytes w buf len F :
  readable buf len → covers buf len F → concat (iov_bytes w <$> F) = read_ptr w buf len.
Proof.
  revert buf len. induction F as [|x F IH]; intros buf len Hr Hc; cbn in Hc.
  - subst len. unfold read_ptr. destruct (preg buf); try done.
  - destruct Hc as (Hb & Hl & Hc). rewrite fmap_cons. cbn [concat].
    rewrite (IH (padd buf (iov_len x)) (len - iov_len x)) by (done || by apply readable_padd).
    unfold iov_bytes. rewrite Hb. symmetry. by apply read_ptr_split.
Qed.

Lemma add_iov_queues w V buf len :
  mallocs (en w) = [] → out_ok w V → V ≠ [] → 0 ≤ len < 2 ^ 31 → readable buf len →
  ∃ o V', add_iov buf len w = Ok (0, with_ov o w) ∧ out_ok (with_ov o w) V' ∧ V' ≠ [] ∧
    queued_bytes (with_ov o w) V' = queued_bytes w V ++ read_ptr w buf len.
Proof.
  intros Hm HV Hne Hlen Hrd.
  destruct (add_iov_spec 1 w V buf len Hm HV Hne Hlen) as (o & V' & F & E & HV' & Hne' & Hp & Hc).
  exists o, V'. split_and!; [exact E|done|done|]. unfold queued_bytes.
  change (is_udp (cn (with_ov o w))) with (is_udp (cn w)).
  change (iov_bytes (with_ov o w)) with (iov_bytes w).
  rewrite Hp, fmap_app, concat_app. f_equal. by apply covers_bytes.
Qed.

(** ** UDP headers *)
Definition header_piece (i : nat) : iovec := Iovec (Ptr RHdr (UDP_HEADER_SIZE * Z.of_nat i)) UDP_HEADER_SIZE.

Lemma out_repr_replace o V1 h r V2 h' :
  out_repr o (V1 ++ (h :: r) :: V2) → iov_len h' = iov_len h →
  out_repr (set_iov (<[Z.of_nat (length (concat V1)) := h']> (iov o)) o) (V1 ++ (h' :: r) :: V2).
Proof.
  intros [H1 H2 H3 H4 H5 H6 H7] Hl.
  assert (∀ g, concat (V1 ++ (g :: r) :: V2) = concat V1 ++ g :: r ++ concat V2) as Hc.
  { intros g. rewrite concat_app. cbn. done. }
  assert (∀ i, length (concat (take i (V1 ++ (h' :: r) :: V2))) = length (concat (take i (V1 ++ (h :: r) :: V2)))) as Ht.
  { intros i. destruct (decide (i ≤ length V1)%nat); [by rewrite !take_app_le|].
    rewrite !take_app_ge by lia. destruct (i - length V1)%nat; cbn; [done|].
    rewrite !concat_app, !length_app. done. }
  split; cbn; try done.
  - rewrite H1, !length_app. done.
  - rewrite H2, !Hc, !length_app. done.
  - intros i l Hi. rewrite Ht. destruct (decide (i = length V1)) as [->|Hne].
    + rewrite lookup_app_r, Nat.sub_diag in Hi by lia. cbn in Hi. simplify_eq.
      apply (H3 (length V1) (h :: r)). by rewrite lookup_app_r, Nat.sub_diag by lia.
    + apply H3. destruct (decide (i < length V1)%nat).
      * rewrite lookup_app_l in Hi by lia. by rewrite lookup_app_l by lia.
      * rewrite lookup_app_r in Hi by lia. rewrite lookup_app_r by lia.
        destruct (i - length V1)%nat eqn:Ei; [lia|]. done.
  - intros k x Hk. rewrite Hc in Hk. apply lookup_app_Some in Hk as [Hk|[Hge Hk]].
    + rewrite lookup_insert_ne by (apply lookup_lt_Some in Hk; lia).
      apply H4. rewrite Hc. by apply lookup_app_l_Some.
    + destruct (k - length (concat V1))%nat as [|k'] eqn:Ek.
      * cbn in Hk. simplify_eq. replace k with (length (concat V1)) by lia. apply lookup_insert_eq.
      * rewrite lookup_insert_ne by lia. apply H4. rewrite Hc, lookup_app_r, Ek by lia. done.
  - intros l Hlast. destruct V2 as [|l2 V2 _] using rev_ind.
    + rewrite last_snoc in Hlast. simplify_eq. rewrite (H7 (h :: r)) by (by rewrite last_snoc). cbn. by rewrite Hl.
    + apply H7. rewrite app_comm_cons, app_assoc, last_snoc in Hlast.
      by rewrite app_comm_cons, app_assoc, last_snoc.
Qed.

Definition headed (j : nat) (V : list (list iovec)) : list (list iovec) :=
  imap (λ i l, header_piece (j + i) :: tail l) V.

(** Which frame header a client reads from the first 8 bytes of a datagram. *)
Definition decode_udp_header (bs : list Z) : Z * Z * Z :=
  (be_decode (take 2 bs), be_decode (take 2 (drop 2 bs)), be_decode (take 2 (drop 4 bs))).

Lemma udp_header_bytes id i n : Forall is_byte (udp_header id i n).
Proof. unfold udp_header. repeat constructor; try apply u8_range; unfold is_byte; lia. Qed.

(** Index and count are 16 bits wide: a client sees them modulo 65536. *)
Lemma decode_header id i n :
  0 ≤ id < 65536 → 0 ≤ i → 0 ≤ n →
  decode_udp_header (udp_header id i n) = (id, i mod 65536, n mod 65536).
Proof.
  intros Hid Hi Hn. unfold decode_udp_header, udp_header, be_decode. cbn [take drop fold_left].
  assert (∀ v, 0 ≤ v → (0 * 256 + u8 (Z.quot v 256)) * 256 + u8 (Z.rem v 256) = v mod 65536) as Hv.
  { intros v Hv. rewrite Z.quot_div_nonneg, Z.rem_mod_nonneg by lia. unfold u8.
    change (v mod 65536) with (v mod (256 * 256)). rewrite Z.rem_mul_r by lia.
    change (2 ^ 8) with 256. rewrite Zmod_mod. lia. }
  rewrite !Hv by lia. by rewrite (Z.mod_small id) by lia.
Qed.

Definition with_hdr (o : conn_ov) (h : option memory) (n : Z) (w : world) : world :=
  set_cn (upd_ud (λ u, set_hdrbuf h (set_hdrsize n u)) (upd_ov (λ _, o) (cn w))) w.

Lemma headed_S j l V : headed j (l :: V) = (header_piece j :: tail l) :: headed (S j) V.
Proof.
  unfold headed. cbn. rewrite Nat.add_0_r. f_equal. apply imap_ext. intros i x _. cbn. do 3 f_equal. lia.
Qed.

(** The world after the header of message [j] is written. *)
Definition headed_world (j : nat) (k : Z) (w : world) : world :=
  with_hdr (set_iov (<[k := header_piece j]> (iov (ov (cn w)))) (ov (cn w)))
    (Some (store_bytes (default ∅ (hdrbuf (ud (cn w)))) (UDP_HEADER_SIZE * Z.of_nat j)
       (udp_header (request_id (ud (cn w))) (Z.of_nat j) (msgused (ov (cn w))))))
    (hdrsize (ud (cn w))) w.

Lemma udp_header_step_spec w V1 h r V2 :
  out_repr (ov (cn w)) (V1 ++ (h :: r) :: V2) →
  Z.of_nat (length (V1 ++ (h :: r) :: V2)) ≤ hdrsize (ud (cn w)) →
  udp_header_step (Z.of_nat (length V1)) w =
    Ok (tt, headed_world (length V1) (Z.of_nat (length (concat V1))) w).
Proof.
  intros Hr Hsz. unfold udp_header_step. rewrite bind_conn. set (j := length V1) in *.
  destruct (or_list _ _ Hr j (h :: r)) as [nl Hm]; [by rewrite lookup_app_r, Nat.sub_diag by (unfold j; lia)|].
  unfold j in Hm. rewrite take_app_length in Hm. fold j in Hm.
  assert (get_msg (Z.of_nat j) w = Ok (Msghdr (Z.of_nat (length (concat V1))) (Z.of_nat (length (h :: r))) nl, w)) as Hg.
  { unfold get_msg. pose proof (or_msgsize _ _ Hr) as [_ Hms]. rewrite (or_msgs _ _ Hr), length_app in Hms.
    cbn in Hms. fold j in Hms. rewrite (proj2 (Z.leb_le _ _)), (proj2 (Z.ltb_lt _ _)) by lia. cbn. by rewrite Hm. }
  rewrite (bind_Ok _ _ _ _ _ Hg). cbn [msg_iov].
  pose proof (or_iovsize _ _ Hr) as [_ His]. rewrite (or_iovs _ _ Hr), concat_app, length_app in His.
  cbn in His. rewrite length_app in Hsz. cbn in Hsz. fold j in Hsz.
  rewrite (proj2 (Z.leb_le _ _)), !(proj2 (Z.ltb_lt _ _)) by lia. cbn [andb].
  unfold headed_world. by destruct w as [[? ? ? ? ? ? [] ? ?] ? ? ? ?].
Qed.

Lemma headed_world_ok w V1 h r V2 :
  is_udp (cn w) = true → out_ok w (V1 ++ (h :: r) :: V2) → iov_len h = UDP_HEADER_SIZE →
  out_ok (headed_world (length V1) (Z.of_nat (length (concat V1))) w)
    ((V1 ++ [header_piece (length V1) :: r]) ++ V2).
Proof.
  intros Hudp [Hr HV] Hh. rewrite <- app_assoc. cbn [app].
  apply Forall_app in HV as [HV1 [Hl HV2]%Forall_cons_1]. split.
  - apply (out_repr_replace _ _ h); [done|]. by rewrite Hh.
  - apply Forall_app_2; [exact HV1|]. constructor; [|exact HV2]. destruct (mo_udp _ _ Hl Hudp) as (Hlsz & _).
    destruct Hl as [A1 A2 A3]. split; [|done|].
    + inversion A1; subst. constructor; [cbn; unfold UDP_HEADER_SIZE; lia|done].
    + intros _. split; [|eexists _, _; done]. cbn in Hlsz |- *. rewrite Hh in Hlsz. done.
Qed.

Lemma headers_loop w V1 V2 :
  is_udp (cn w) = true → out_ok w (V1 ++ V2) → Z.of_nat (length (V1 ++ V2)) ≤ hdrsize (ud (cn w)) →
  ∃ o m, udp_header_loop (seqZ (Z.of_nat (length V1)) (Z.of_nat (length V2))) w
    = Ok (tt, with_hdr o (match V2 with [] => hdrbuf (ud (cn w)) | _ => Some m end) (hdrsize (ud (cn w))) w) ∧
    out_repr o (V1 ++ headed (length V1) V2) ∧
    (∀ a, a < UDP_HEADER_SIZE * Z.of_nat (length V1) → mget m a = mget (default ∅ (hdrbuf (ud (cn w)))) a) ∧
    ∀ i, (length V1 ≤ i < length (V1 ++ V2))%nat →
      load_bytes m (UDP_HEADER_SIZE * Z.of_nat i) 8 =
        udp_header (request_id (ud (cn w))) (Z.of_nat i) (msgused (ov (cn w))).
Proof.
  revert w V1. induction V2 as [|l V2 IH]; intros w V1 Hudp [Hr HV] Hsz.
  - exists (ov (cn w)), (default ∅ (hdrbuf (ud (cn w)))). split_and!.
    + cbn. by destruct w as [[? ? ? ? ? ? [] ? ?] ? ? ? ?].
    + done.
    + done.
    + intros i Hi. rewrite app_nil_r in Hi. lia.
  - apply Forall_app in HV as HVs. destruct HVs as [HV1 HV2]. apply Forall_cons_1 in HV2 as [Hl HV2].
    destruct (mo_udp _ _ Hl Hudp) as (Hlsz & h & r & -> & Hh).
    rewrite seqZ_cons by (cbn; lia). cbn [udp_header_loop length].
    rewrite (bind_Ok _ _ _ _ _ (udp_header_step_spec _ _ _ _ _ Hr Hsz)).
    pose proof (headed_world_ok w V1 h r V2 Hudp (conj Hr HV) Hh) as Hok1.
    set (j := length V1) in *. set (w1 := headed_world _ _ _) in *.
    destruct (IH w1 (V1 ++ [header_piece j :: r])) as (o & m & E2 & Hr2 & Hlow & Hhdr); [by subst w1|done|..].
    { subst w1. cbn. rewrite !length_app in *. cbn in *. lia. }
    assert (length (V1 ++ [header_piece j :: r]) = S j) as HSj by (rewrite length_app; cbn; unfold j; lia).
    rewrite HSj in *.
    set (m1 := store_bytes (default ∅ (hdrbuf (ud (cn w)))) (UDP_HEADER_SIZE * Z.of_nat j)
                (udp_header (request_id (ud (cn w))) (Z.of_nat j) (msgused (ov (cn w))))).
    set (m' := match V2 with [] => m1 | _ => m end).
    exists o, m'. split_and!.
    + replace (Z.succ (Z.of_nat j)) with (Z.of_nat (S j)) by lia.
      replace (Z.pred (Z.of_nat (S (length V2)))) with (Z.of_nat (length V2)) by lia.
      rewrite E2. subst w1. unfold m'. by destruct V2.
    + rewrite headed_S. cbn [tail]. by rewrite <- app_assoc in Hr2.
    + intros a Ha. assert (mget m1 a = mget (default ∅ (hdrbuf (ud (cn w)))) a) as Hm1.
      { apply mget_store_bytes_out; [apply udp_header_bytes|]. by left. }
      unfold m'. destruct V2; [done|]. rewrite Hlow by (unfold UDP_HEADER_SIZE in *; lia). subst w1. exact Hm1.
    + intros i Hi. assert (i = j ∨ (S j ≤ i)%nat) as [->|Hge] by (unfold j; lia).
      * assert (load_bytes m1 (UDP_HEADER_SIZE * Z.of_nat j) 8 =
          udp_header (request_id (ud (cn w))) (Z.of_nat j) (msgused (ov (cn w)))) as Hm1.
        { apply load_store_bytes_eq; [apply udp_header_bytes|done]. }
        unfold m'. destruct V2; [done|]. rewrite <- Hm1. apply load_bytes_agree. intros a Ha.
        rewrite Hlow by (unfold UDP_HEADER_SIZE in *; lia). by subst w1.
      * assert (V2 ≠ []) as Hne2.
        { intros ->. rewrite length_app in Hi. cbn in Hi. fold j in Hi. lia. }
        unfold m'. destruct V2; [done|]. rewrite Hhdr.
        -- by subst w1.
        -- clear -Hi Hge. revert Hi. rewrite !length_app. cbn. fold j. lia.
Qed.

Lemma build_udp_headers_spec w V :
  mallocs (en w) = [] → is_udp (cn w) = true → out_ok w V →
  ∃ w', build_udp_headers w = Ok (0, w') ∧ out_ok w' (headed 0 V) ∧
    kv w' = kv w ∧ rd (cn w') = rd (cn w) ∧ wr (cn w') = wr (cn w) ∧ core (cn w') = core (cn w) ∧
    sfx w' = sfx w ∧
    ∀ i, (i < length V)%nat →
      iov_bytes w' (header_piece i) =
        udp_header (request_id (ud (cn w))) (Z.of_nat i) (Z.of_nat (length V)).
Proof.
  intros Hm Hudp [Hr HV]. unfold build_udp_headers. rewrite bind_conn.
  pose proof (or_msgs _ _ Hr) as Hn. rewrite Hn.
  set (w1 := if Z.of_nat (length V) >? hdrsize (ud (cn w))
    then with_hdr (ov (cn w)) (Some (default ∅ (hdrbuf (ud (cn w))))) (Z.of_nat (length V) * 2) w else w).
  assert (is_udp (cn w1) = true ∧ out_ok w1 V ∧ Z.of_nat (length V) ≤ hdrsize (ud (cn w1)) ∧
    request_id (ud (cn w1)) = request_id (ud (cn w)) ∧ msgused (ov (cn w1)) = Z.of_nat (length V) ∧
    kv w1 = kv w ∧ rd (cn w1) = rd (cn w) ∧ wr (cn w1) = wr (cn w) ∧ core (cn w1) = core (cn w) ∧ sfx w1 = sfx w)
    as (H1 & H2 & H3 & H4 & H5 & H6 & H7 & H8 & H9 & H10).
  { unfold w1. destruct (Z.gtb_spec (Z.of_nat (length V)) (hdrsize (ud (cn w)))); cbn; split_and!; try done; lia. }
  destruct (headers_loop w1 [] V H1 H2 H3) as (o & m & E & Hr' & _ & Hh).
  exists (with_hdr o (match V with [] => hdrbuf (ud (cn w1)) | _ => Some m end) (hdrsize (ud (cn w1))) w1).
  split_and!.
  - assert ((_ ← udp_header_loop (seqZ 0 (Z.of_nat (length V))); mret 0) w1 =
      Ok (0, with_hdr o (match V with [] => hdrbuf (ud (cn w1)) | _ => Some m end) (hdrsize (ud (cn w1))) w1)) as E'.
    { by rewrite (bind_Ok _ _ _ _ _ E). }
    rewrite <- E'. unfold w1. destruct (Z.of_nat (length V) >? hdrsize (ud (cn w))) eqn:Eg.
    + assert (malloc_counted w = Ok (true, w)) as Hok.
      { unfold malloc_counted, mbind, M_bind, malloc_ok. by rewrite Hm. }
      rewrite (bind_Ok _ _ _ _ _ Hok). cbn [negb when]. unfold with_hdr.
      by destruct w as [[? ? ? ? ? ? [] ? ?] ? ? ? ?].
    + by rewrite bind_retw.
  - split; [exact Hr'|]. change (is_udp _) with (is_udp (cn w1)). rewrite H1. rewrite Hudp in HV.
    clear -HV. cbn [length]. generalize 0%nat. induction HV as [|l V Hl HV IH]; intros j; [constructor|].
    rewrite headed_S. constructor; [|apply IH].
    destruct Hl as [A1 A2 A3]. destruct (A3 eq_refl) as (Hs & h & r & -> & Hh). split; cbn in *.
    + inversion A1; subst. constructor; [cbn; unfold UDP_HEADER_SIZE; lia|done].
    + done.
    + intros _. split; [by rewrite Hh in Hs|]. eexists _, _. done.
  - done.
  - done.
  - done.
  - done.
  - done.
  - intros i Hi. unfold iov_bytes, header_piece. cbn [iov_base iov_len].
    destruct V as [|l V]; [cbn in Hi; lia|]. rewrite <- H4, <- H5.
    apply Hh. cbn in *. lia.
Qed.

(** ** Properties *)
(** C33: queueing output.  When memory does not run out, [add_iov] succeeds
    whatever the length of the data, the state of the lists and the transport;
    the bytes queued for the client are the bytes queued before followed by the
    new ones, in order and without a gap, no matter how they are cut over
    messages; no array is overrun, no message exceeds IOV_MAX entries, and no
    datagram exceeds 1400 bytes or lacks room for its header. *)
Theorem add_iov_correct (w : world) (V : list (list iovec)) (buf : ptr) (len : Z)
    (Hm : mallocs (en w) = []) (Hok : out_ok w V) (Hne : V ≠ [])
    (Hlen : 0 ≤ len < 2 ^ 31) (Hrd : readable buf len) :
  ∃ o V', add_iov buf len w = Ok (0, with_ov o w) ∧ out_ok (with_ov o w) V' ∧ V' ≠ [] ∧
    queued_bytes (with_ov o w) V' = queued_bytes w V ++ read_ptr w buf len ∧
    Forall (λ l, Z.of_nat (length l) ≤ IOV_MAX ∧
                 (is_udp (cn w) = true → msg_size l ≤ UDP_MAX_PAYLOAD_SIZE)) V'.
Proof.
  destruct (add_iov_queues w V buf len Hm Hok Hne Hlen Hrd) as (o & V' & E & Hok' & Hne' & Hq).
  exists o, V'. split_and!; [done|done|done|done|].
  eapply Forall_impl; [|exact (proj2 Hok')]. intros l [H1 H2 H3]. split; [done|]. intros Hu. by apply H3.
Qed.

Definition blank_env : env := Env [] [] [] [] [] [] false true 1024 ∅ [] [].
(** A connection without pending output on a fresh server. *)
Definition blank_world (tr : network_transport) : world :=
  World (upd_core (set_transport tr) (fresh_conn DATA_BUFFER_SIZE))
        (initial_cache Jenkins.jenkins_ref fresh_log) stats_prefix_clear (Pool ∅ 40 64 0 ∅) blank_env.

Lemma blank_repr tr : out_repr (ov (cn (blank_world tr))) [].
Proof. by split; cbn; try done; unfold MSG_LIST_INITIAL, IOV_LIST_INITIAL; try lia. Qed.

Definition ready_world (tr : network_transport) : world := final add_msghdr (blank_world tr).
Lemma ready_ok tr : out_ok (ready_world tr) [fresh_msg (is_udp (cn (blank_world tr)))] ∧
  mallocs (en (ready_world tr)) = [] ∧ is_udp (cn (ready_world tr)) = is_udp (cn (blank_world tr)).
Proof.
  destruct (add_msghdr_spec 2 (blank_world tr) [] eq_refl (blank_repr tr)) as (o & E & Hr).
  unfold ready_world, final. change add_msghdr with (add_msghdr_with (add_iov_n 3)).
  rewrite E. split_and!; [|done|done]. split; [exact Hr|]. apply Forall_singleton.
  change (is_udp (cn (with_ov o (blank_world tr)))) with (is_udp (cn (blank_world tr))). apply fresh_msg_ok.
Qed.

(** 5000 bytes of the log, over UDP: four datagrams. *)
Lemma add_iov_correct_witness :
  let w := ready_world udp_transport in
  ∃ o V', add_iov (Ptr RLog 0) 5000 w = Ok (0, with_ov o w) ∧ out_ok (with_ov o w) V' ∧ V' ≠ [] ∧
    queued_bytes (with_ov o w) V' = queued_bytes w [fresh_msg true] ++ read_ptr w (Ptr RLog 0) 5000 ∧
    Forall (λ l, Z.of_nat (length l) ≤ IOV_MAX ∧
                 (is_udp (cn w) = true → msg_size l ≤ UDP_MAX_PAYLOAD_SIZE)) V'.
Proof.
  destruct (ready_ok udp_transport) as (H1 & H2 & H3).
  apply (add_iov_correct (ready_world udp_transport) [fresh_msg true] (Ptr RLog 0) 5000);
    [exact H2|exact H1|discriminate|lia|exact I].
Defined.

(** C34: datagram headers.  For a UDP connection with consistent output lists
    ([out_ok]) and a 16-bit request id, and as long as no allocation fails,
    [build_udp_headers] succeeds whatever the number of pending datagrams: it
    leaves the payloads and their order as they were and puts in front of every
    datagram an 8-byte frame header that decodes to the request id, the index
    of the datagram and the number of datagrams, the last two modulo 65536.
    The fields are 16 bits wide: from 65536 datagrams on they wrap, so two
    datagrams of one reply carry the same index. *)
Theorem build_udp_headers_correct (w : world) (V : list (list iovec))
    (Hm : mallocs (en w) = []) (Hudp : is_udp (cn w) = true) (Hok : out_ok w V)
    (Hid : 0 ≤ request_id (ud (cn w)) < 65536) :
  ∃ w', build_udp_headers w = Ok (0, w') ∧ out_ok w' (headed 0 V) ∧
    tail <$> headed 0 V = tail <$> V ∧
    (∀ p n, preg p ≠ RHdr → read_ptr w' p n = read_ptr w p n) ∧
    (∀ i l, headed 0 V !! i = Some l → ∃ r, l = header_piece i :: r ∧
       decode_udp_header (iov_bytes w' (header_piece i)) =
         (request_id (ud (cn w)), Z.of_nat i mod 65536, Z.of_nat (length V) mod 65536)).
Proof.
  destruct (build_udp_headers_spec w V Hm Hudp Hok) as (w' & E & Hok' & Hkv & Hrd & Hwr & _ & Hsfx & Hh).
  exists w'. split_and!; [done|done| | |].
  - unfold headed. rewrite fmap_imap. cbn. apply imap_const.
  - intros [r o] n Hp. unfold read_ptr. cbn in Hp |- *. by destruct r; rewrite ?Hkv, ?Hrd, ?Hwr, ?Hsfx.
  - intros i l Hi. unfold headed in Hi. rewrite list_lookup_imap in Hi.
    destruct (V !! i) as [l0|] eqn:Hl; [|done]. cbn in Hi. simplify_eq. eexists. split; [done|].
    apply lookup_lt_Some in Hl. rewrite Hh by done. apply decode_header; lia.
Qed.

(** 5000 bytes of the log queued over UDP. *)
Lemma build_udp_headers_correct_witness :
  let w0 := ready_world udp_transport in
  ∃ o V, add_iov (Ptr RLog 0) 5000 w0 = Ok (0, with_ov o w0) ∧
    queued_bytes (with_ov o w0) V = queued_bytes w0 [fresh_msg true] ++ read_ptr w0 (Ptr RLog 0) 5000 ∧
  ∃ w', build_udp_headers (with_ov o w0) = Ok (0, w') ∧ out_ok w' (headed 0 V) ∧
    tail <$> headed 0 V = tail <$> V ∧
    (∀ p n, preg p ≠ RHdr → read_ptr w' p n = read_ptr (with_ov o w0) p n) ∧
    (∀ i l, headed 0 V !! i = Some l → ∃ r, l = header_piece i :: r ∧
       decode_udp_header (iov_bytes w' (header_piece i)) =
         (0, Z.of_nat i mod 65536, Z.of_nat (length V) mod 65536)).
Proof.
  destruct (ready_ok udp_transport) as (H1 & H2 & H3).
  destruct (add_iov_queues (ready_world udp_transport) [fresh_msg true] (Ptr RLog 0) 5000)
    as (o & V & E & Hok & _ & Hq); [exact H2|exact H1|discriminate|lia|exact I|].
  exists o, V. split_and!; [exact E|exact Hq|].
  assert (request_id (ud (cn (with_ov o (ready_world udp_transport)))) = 0) as Hid.
  { change (request_id (ud (cn (ready_world udp_transport))) = 0). vm_compute. reflexivity. }
  rewrite <- Hid. apply (build_udp_headers_correct (with_ov o (ready_world udp_transport)) V);
    [exact H2|exact H3|exact Hok|rewrite Hid; lia].
Defined.

(** Datagram 65536 carries index 0 again. *)
Example index_wraps id : 0 ≤ id < 65536 →
  decode_udp_header (udp_header id 65536 70000) = decode_udp_header (udp_header id 0 70000).
Proof. intros Hid. by rewrite !decode_header by lia. Qed.
