(* ===== verification/Stats.v ===== *)
(** * Statistics replies (memcached.c, items.c, stats.c, thread.c)

    The buffer a stats reply is collected in, the aggregation of the counters
    of the worker threads, the groups of statistics and the [stats] command. *)
From Stdlib Require Import ZArith Lia.
From stdpp Require Import strings prelude gmap list functions.
From S2P Require Import Prelude Mem Util Item State Items Pool Prefix Conn ConnOps.

(** ** The buffer *)
Definition MAX_NUMBER_OF_SLAB_CLASSES : Z := 64.
Definition STAT_VAL_LEN : Z := 128.
Definition STAT_KEY_LEN : Z := 128.

(** Store [bs] at offset [off] of the buffer. *)
Definition put_stats (off : Z) (bs : list Z) : io unit :=
  c ← conn_;
  match st_buffer (sb c) with
  | None => fail NullDeref
  | Some m =>
      if (0 <=? off) && (off + Z.of_nat (length bs) <=? st_size (sb c))
      then on_sb (set_st_buffer (Some (store_bytes m off bs)))
      else fail OutOfBounds
  end.

(** [val] is the text at [val]; reading more than it holds leaves [val_str]. *)
Definition append_bin_stats (key : list Z) (klen : Z) (val : list Z) (vlen : Z) : io unit :=
  c ← conn_;
  let off := st_offset (sb c) in
  let bodylen := u32 (klen + vlen) in
  _ ← put_stats off ([PROTOCOL_BINARY_RES; CMD_STAT] ++ be_encode 2 klen ++ [0; PROTOCOL_BINARY_RAW_BYTES]
        ++ be_encode 2 0 ++ be_encode 4 bodylen ++ le_encode 4 (opaque (core c)) ++ le_encode 8 0);
  _ ← when (klen >? 0)
        (_ ← put_stats (off + 24) (take (Z.to_nat klen) key);
         when (vlen >? 0)
           (if vlen <=? Z.of_nat (length val)
            then put_stats (off + 24 + klen) (take (Z.to_nat vlen) val)
            else fail OutOfBounds));
  on_sb (λ s, set_st_offset (st_offset s + 24 + bodylen) s).

(** [snprintf(pos, room, ...)]: at most [room - 1] bytes and a NUL. *)
Definition append_ascii_stats (key : list Z) (klen : Z) (val : list Z) (vlen : Z) : io unit :=
  c ← conn_;
  let pos := st_offset (sb c) in
  let room := st_size (sb c) - pos - 1 in
  let text := if (klen =? 0) && (vlen =? 0) then str "END" ++ crlf
              else if vlen =? 0 then str "STAT " ++ key ++ crlf
              else str "STAT " ++ key ++ [SP] ++ val ++ crlf in
  _ ← put_stats pos (take (Z.to_nat (room - 1)) text ++ [0]);
  on_sb (λ s, set_st_offset (st_offset s + Z.of_nat (length text)) s).

(** The doubling loop, over [nsize] and [available]. *)
Definition grow_body (needed off : Z) (x : Z * Z) : io ((Z * Z) + Z) :=
  let '(nsize, available) := x in
  if needed >? available then
    _ ← assert_ (nsize >? 0);
    let nsize := u64 (Z.shiftl nsize 1) in
    mret (inl (nsize, u64 (nsize - off)))
  else mret (inr nsize).

(** [held]: the caller holds [stats_lock], which the failure path locks. *)
Definition grow_stats_buf (held : bool) (needed : Z) : io bool :=
  c ← conn_;
  _ ← when (bool_decide (st_buffer (sb c) = None)) (on_sb (λ s, set_st_size 0 (set_st_offset 0 s)));
  let start := match st_buffer (sb c) with
    | None => (1024, 0)
    | Some _ => (st_size (sb c), u64 (st_size (sb c) - st_offset (sb c)))
    end in
  c ← conn_;
  nsize ← loop FUEL (grow_body needed (st_offset (sb c))) start;
  if nsize =? st_size (sb c) then mret true
  else
    ok ← malloc_ok;
    if ok : bool then
      _ ← on_sb (λ s, set_st_size nsize (set_st_buffer (Some (default ∅ (st_buffer s))) s));
      mret true
    else if held then fail Deadlock
    else _ ← srv (stats_add malloc_fails 1); mret false.

Definition append_stats (held : bool) (key : list Z) (klen : Z) (val : list Z) (vlen : Z) : io unit :=
  if (klen =? 0) && (vlen >? 0) then mret tt
  else
    c ← conn_;
    let bin := bool_decide (prot (core c) = binary_prot) in
    ok ← grow_stats_buf held (vlen + klen + if bin then SIZEOF_bin_header else 10);
    if negb ok then mret tt
    else
      _ ← (if bin then append_bin_stats key klen val vlen else append_ascii_stats key klen val vlen);
      c ← conn_;
      assert_ (st_offset (sb c) <=? st_size (sb c)).

(** [append_stat]: the value is formatted into [val_str], cut at 126 bytes,
    and passed on with its full length. *)
Definition append_stat (held : bool) (name val : list Z) : io unit :=
  append_stats held name (Z.of_nat (length name)) (take 126 val) (u32 (Z.of_nat (length val))).

(** APPEND_NUM_FMT_STAT: key and value through snprintf into 128-byte arrays. *)
Definition append_num_stat (held : bool) (key val : list Z) : io unit :=
  append_stats held (take 127 key) (u16 (Z.of_nat (length key))) (take 127 val) (u32 (Z.of_nat (length val))).

(** The terminator of a reply. *)
Definition append_end (held : bool) : io unit := append_stats held [] 0 [] 0.

(** A group of statistics, one after the other. *)
Definition stat_line : Type := list Z * list Z.
Fixpoint append_group (held : bool) (g : list stat_line) : io unit :=
  match g with
  | [] => mret tt
  | (name, val) :: g => _ ← append_stat held name val; append_group held g
  end.
Fixpoint append_num_group (held : bool) (g : list stat_line) : io unit :=
  match g with
  | [] => mret tt
  | (name, val) :: g => _ ← append_num_stat held name val; append_num_group held g
  end.

(** ** Counters of the worker threads (thread.c) *)
Record thread_stats := ThreadStats {
  th_fields : thread_field → Z;
  th_slabs : Z → slab_field → Z
}.
Definition zero_thread_stats : thread_stats := ThreadStats (λ _, 0) (λ _ _, 0).
Definition add_thread_stats (a b : thread_stats) : thread_stats :=
  ThreadStats (λ k, u64 (th_fields a k + th_fields b k)) (λ i k, u64 (th_slabs a i k + th_slabs b i k)).
Definition threadlocal_stats_aggregate (threads : list thread_stats) : thread_stats :=
  fold_left add_thread_stats threads zero_thread_stats.
Definition slab_stats_aggregate (t : thread_stats) : slab_field → Z :=
  fold_left (λ out sid k, u64 (out k + th_slabs t sid k)) (seqZ 0 MAX_NUMBER_OF_SLAB_CLASSES) (λ _, 0).
(** The worker that runs. *)
Definition threadlocal_stats_reset : server unit :=
  _ ← upd_cnt (set_tstats (λ _, 0));
  upd_cnt (set_slab_stats (λ _ _, 0)).
Definition this_thread (c : counters) : thread_stats := ThreadStats (tstats c) (slab_stats c).

(** ** What the process and the command line provide *)
Record stat_inputs := StatInputs {
  in_pid : Z;
  in_version : list Z;
  in_libevent : list Z;
  in_utime : Z * Z;
  in_stime : Z * Z;
  in_threads : list thread_stats;      (* the other workers *)
  in_inter : option (list Z);
  in_socketpath : option (list Z);
  in_factor : list Z;                  (* settings.factor through %.2f *)
  in_binding : protocol;
  in_hash_algorithm : list Z;
  in_servername : option (list Z);
  in_conn_name : conn → list Z         (* conn_to_str: addresses of sockets *)
}.

Definition yesno (b : bool) : list Z := if b then str "yes" else str "no".
Definition or_null (s : option (list Z)) : list Z := default (str "NULL") s.
(** [%06ld] *)
Definition fmt_06 (n : Z) : list Z := replicate (6 - length (fmt_d n)) 48 ++ fmt_d n.
(** [%o] *)
Fixpoint fmt_oct_n (fuel : nat) (n : Z) : list Z :=
  match fuel with
  | O => []
  | S f => if n <? 8 then [48 + n] else fmt_oct_n f (n / 8) ++ [48 + n mod 8]
  end.
Definition fmt_o (n : Z) : list Z := fmt_oct_n 11 (u32 n).
Definition b2z (b : bool) : Z := if b then 1 else 0.

Definition opt (b : bool) (g : list stat_line) : list stat_line := if b then g else [].
Definition num (name : string) (v : Z) : stat_line := (str name, fmt_u v).
Definition int_ (name : string) (v : Z) : stat_line := (str name, fmt_d v).

Section groups.
Context (inp : stat_inputs).

Definition server_stat_lines (s : cache) : list stat_line :=
  let now := current_time s in
  let c := cnt s in
  let cf := cfg s in
  let t := threadlocal_stats_aggregate (this_thread c :: in_threads inp) in
  let th := th_fields t in
  let sl := slab_stats_aggregate t in
  [ num "pid" (in_pid inp);
    num "uptime" (u32 (now - ITEM_UPDATE_INTERVAL));
    int_ "time" (now + process_started s);
    (str "version", in_version inp);
    (str "libevent", in_libevent inp);
    int_ "pointer_size" 64;
    (str "rusage_user", fmt_d (in_utime inp).1 ++ str "." ++ fmt_06 (in_utime inp).2);
    (str "rusage_system", fmt_d (in_stime inp).1 ++ str "." ++ fmt_06 (in_stime inp).2);
    num "curr_connections" (u64 (stats_state c curr_conns - 1));
    num "total_connections" (stats c total_conns) ]
  ++ opt (maxconns_fast cf) [ num "rejected_connections" (stats c rejected_conns) ]
  ++ [ num "connection_structures" (u32 (stats_state c conn_structs));
    num "reserved_fds" (u32 (stats_state c reserved_fds));
    num "cmd_get" (th get_cmds);
    num "cmd_set" (sl set_cmds);
    num "cmd_flush" (th flush_cmds);
    num "cmd_touch" (th touch_cmds);
    num "get_hits" (sl get_hits);
    num "get_misses" (th get_misses);
    num "get_expired" (th get_expired);
    num "get_flushed" (th get_flushed);
    num "delete_misses" (th delete_misses);
    num "delete_hits" (sl delete_hits);
    num "incr_misses" (th incr_misses);
    num "incr_hits" (sl incr_hits);
    num "decr_misses" (th decr_misses);
    num "decr_hits" (sl decr_hits);
    num "cas_misses" (th cas_misses);
    num "cas_hits" (sl cas_hits);
    num "cas_badval" (sl cas_badval);
    num "touch_hits" (sl touch_hits);
    num "touch_misses" (th touch_misses);
    num "auth_cmds" (th auth_cmds);
    num "auth_errors" (th auth_errors) ]
  ++ opt (negb (idle_timeout cf =? 0)) [ num "idle_kicks" (th idle_kicks) ]
  ++ [ num "bytes_read" (th bytes_read);
    num "bytes_written" (th bytes_written);
    num "limit_maxbytes" (maxbytes cf);
    num "accepting_conns" (b2z (stats_flag c accepting_conns));
    num "listen_disabled_num" (stats c listen_disabled_num);
    num "time_in_listen_disabled_us" (stats c time_in_listen_disabled_us);
    int_ "threads" (num_threads cf);
    num "conn_yields" (th conn_yields);
    num "hash_power_level" (u32 (stats_state c hash_power_level));
    num "hash_bytes" (stats_state c hash_bytes);
    num "hash_is_expanding" (b2z (stats_flag c hash_is_expanding)) ]
  ++ opt (slab_reassign cf)
       [ num "slab_reassign_rescues" (stats c slab_reassign_rescues);
         num "slab_reassign_chunk_rescues" (stats c slab_reassign_chunk_rescues);
         num "slab_reassign_evictions_nomem" (stats c slab_reassign_evictions_nomem);
         num "slab_reassign_inline_reclaim" (stats c slab_reassign_inline_reclaim);
         num "slab_reassign_busy_items" (stats c slab_reassign_busy_items);
         num "slab_reassign_running" (b2z (stats_flag c slab_reassign_running));
         num "slabs_moved" (stats c slabs_moved) ]
  ++ opt (lru_crawler cf)
       [ num "lru_crawler_running" (b2z (stats_flag c lru_crawler_running));
         num "lru_crawler_starts" (u32 (stats c lru_crawler_starts)) ]
  ++ opt (lru_maintainer_thread cf) [ num "lru_maintainer_juggles" (stats c lru_maintainer_juggles) ]
  ++ [ num "malloc_fails" (stats c malloc_fails);
    num "log_worker_dropped" (stats c log_worker_dropped);
    num "log_worker_written" (stats c log_worker_written);
    num "log_watcher_skipped" (stats c log_watcher_skipped);
    num "log_watcher_sent" (stats c log_watcher_sent);
    num "mem_current" (stats c st_mem_current);
    num "mem_avail" (stats c st_mem_avail);
    num "mem_free_from_beginning" (stats c st_mem_free_from_beginning);
    num "mem_current_freeing" (stats c st_mem_current_freeing) ].

(** The whole group is appended under [stats_lock]. *)
Definition server_stats : io unit :=
  g ← gets (λ w, server_stat_lines (kv w));
  append_group true g.

Definition settings_lines (s : cache) : list stat_line :=
  let cf := cfg s in
  [ num "maxbytes" (maxbytes cf);
    int_ "maxconns" (maxconns cf);
    int_ "tcpport" (port cf);
    int_ "udpport" (udpport cf);
    (str "inter", or_null (in_inter inp));
    int_ "verbosity" (verbose cf);
    num "oldest" (oldest_live cf);
    (str "evictions", if evict_to_free cf =? 0 then str "off" else str "on");
    (str "domain_socket", or_null (in_socketpath inp));
    (str "umask", fmt_o (access cf));
    (str "growth_factor", in_factor inp);
    int_ "chunk_size" (chunk_size cf);
    int_ "num_threads" (num_threads cf);
    int_ "num_threads_per_udp" (num_threads_per_udp cf);
    (str "stat_key_prefix", [prefix_delimiter cf]);
    (str "detail_enabled", yesno (negb (detail_enabled cf =? 0)));
    int_ "reqs_per_event" (reqs_per_event cf);
    (str "cas_enabled", yesno (use_cas cf));
    int_ "tcp_backlog" (backlog cf);
    (str "binding_protocol", str (prot_text (in_binding inp)));
    (str "auth_enabled_sasl", yesno (sasl cf));
    int_ "item_size_max" (item_size_max cf);
    (str "maxconns_fast", yesno (maxconns_fast cf));
    int_ "hashpower_init" (hashpower_init cf);
    (str "slab_reassign", yesno (slab_reassign cf));
    int_ "slab_automove" (slab_automove cf);
    int_ "slab_chunk_max" (slab_chunk_size_max cf);
    (str "lru_crawler", yesno (lru_crawler cf));
    int_ "lru_crawler_sleep" (lru_crawler_sleep cf);
    num "lru_crawler_tocrawl" (lru_crawler_tocrawl cf);
    int_ "tail_repair_time" (tail_repair_time cf);
    (str "flush_enabled", yesno (flush_enabled cf));
    (str "hash_algorithm", in_hash_algorithm inp);
    (str "lru_maintainer_thread", yesno (lru_maintainer_thread cf));
    int_ "hot_lru_pct" (hot_lru_pct cf);
    int_ "warm_lru_pct" (warm_lru_pct cf);
    (str "expirezero_does_not_evict", yesno (expirezero_does_not_evict cf));
    int_ "idle_timeout" (idle_timeout cf);
    num "watcher_logbuf_size" (logger_watcher_buf_size cf);
    num "worker_logbuf_size" (logger_buf_size cf);
    (str "track_sizes", yesno (item_stats_sizes_status s));
    (str "lru_log_enabled", yesno (lru_log_enabled cf));
    num "lru_log_get_count" (lru_log_get_count cf);
    (str "backup_server", yesno (backup_server cf));
    (str "backup_client", yesno (backup_client cf));
    (str "backup_client_servername", or_null (in_servername inp));
    num "backup_ibv_port" (backup_ibv_port cf);
    int_ "backup_sgid_index" (backup_sgid_index cf) ].

Definition process_stat_settings : io unit :=
  g ← gets (λ w, settings_lines (kv w));
  append_group false g.

(** Entry [i] of the table of connections; the one being served is current. *)
Definition conn_at (w : world) (i : Z) : option conn :=
  if i =? sfd (core (cn w)) then Some (cn w) else conns (en w) !! i.

Definition conn_lines (w : world) (i : Z) : list stat_line :=
  match conn_at w i with
  | Some c =>
      if bool_decide (state (core c) = conn_closed) then []
      else [ (fmt_d i ++ str ":addr", in_conn_name inp c);
             (fmt_d i ++ str ":state", str (default ""%string (state_text (state (core c)))));
             (fmt_d i ++ str ":secs_since_last_cmd",
              fmt_d (i32 (current_time (kv w) - last_cmd_time (core c)))) ]
  | None => []
  end.
Definition process_stats_conns : io unit :=
  g ← gets (λ w, concat (map (conn_lines w) (seqZ 0 (max_fds (en w)))));
  append_num_group false g.

(** ** Item statistics (items.c) *)
Definition lru_type_map : list Z := [0; 64; 128; 192].
Definition class_total (c : counters) (n : Z) (k : itemstat_field) : Z :=
  fold_left (λ t x, u64 (t + itemstats c (Z.lor n x) k)) lru_type_map 0.
Definition all_total (c : counters) (k : itemstat_field) : Z :=
  fold_left (λ t i, u64 (t + itemstats c i k))
    (concat (map (λ n, map (Z.lor n) lru_type_map) (seqZ 0 MAX_NUMBER_OF_SLAB_CLASSES))) 0.

Definition item_total_lines (s : cache) : list stat_line :=
  let t := all_total (cnt s) in
  [ num "expired_unfetched" (t expired_unfetched);
    num "evicted_unfetched" (t evicted_unfetched);
    num "evictions" (t evicted);
    num "reclaimed" (t reclaimed);
    num "crawler_reclaimed" (t crawler_reclaimed);
    num "crawler_items_checked" (t crawler_items_checked);
    num "lrutail_reflocked" (t lrutail_reflocked) ]
  ++ opt (lru_maintainer_thread (cfg s))
       [ num "moves_to_cold" (t moves_to_cold);
         num "moves_to_warm" (t moves_to_warm);
         num "moves_within_lru" (t moves_within_lru);
         num "direct_reclaims" (t direct_reclaims) ].
Definition item_stats_totals : io unit :=
  g ← gets (λ w, item_total_lines (kv w));
  append_group false g.

Definition class_lines (s : cache) (n : Z) : list stat_line :=
  let c := cnt s in
  let t := class_total c n in
  let at_ := λ x, sizes c (Z.lor n x) in
  let size := u32 (at_ 0 + at_ 64 + at_ 128 + at_ 192) in
  let line := λ name v, (str "items:" ++ fmt_d n ++ str ":" ++ str name, fmt_u v) in
  opt (negb (size =? 0)) (
    [ line "number"%string size ]
    ++ opt (lru_maintainer_thread (cfg s))
         ([ line "number_hot"%string (at_ 0); line "number_warm"%string (at_ 64);
            line "number_cold"%string (at_ 128) ]
          ++ opt (expirezero_does_not_evict (cfg s)) [ line "number_noexp"%string (at_ 192) ])
    ++ [ line "age"%string 0;
         line "evicted"%string (t evicted);
         line "evicted_nonzero"%string (t evicted_nonzero);
         line "evicted_time"%string 0;
         line "outofmemory"%string (t outofmemory);
         line "tailrepairs"%string (t tailrepairs);
         line "reclaimed"%string (t reclaimed);
         line "expired_unfetched"%string (t expired_unfetched);
         line "evicted_unfetched"%string (t evicted_unfetched);
         line "crawler_reclaimed"%string (t crawler_reclaimed);
         line "crawler_items_checked"%string (t crawler_items_checked);
         line "lrutail_reflocked"%string (t lrutail_reflocked) ]
    ++ opt (lru_maintainer_thread (cfg s))
         [ line "moves_to_cold"%string (t moves_to_cold);
           line "moves_to_warm"%string (t moves_to_warm);
           line "moves_within_lru"%string (t moves_within_lru);
           line "direct_reclaims"%string (t direct_reclaims) ]).
Definition item_stats : io unit :=
  g ← gets (λ w, concat (map (class_lines (kv w)) (seqZ 0 MAX_NUMBER_OF_SLAB_CLASSES)));
  _ ← append_num_group false g;
  append_end false.

Definition item_stats_sizes_enable : io unit :=
  s ← gets kv;
  if negb (use_cas (cfg s)) then
    append_group false [ (str "sizes_status", str "error"); (str "sizes_error", str "cas_support_disabled") ]
  else if item_stats_sizes_status s then append_group false [ (str "sizes_status", str "enabled") ]
  else
    ok ← malloc_ok;
    _ ← srv (item_stats_sizes_init ok);
    s ← gets kv;
    if item_stats_sizes_status s then append_group false [ (str "sizes_status", str "enabled") ]
    else append_group false [ (str "sizes_status", str "error"); (str "sizes_error", str "no_memory") ].

Definition item_stats_sizes_disable : io unit :=
  _ ← srv (upd_cnt (set_stats_sizes_hist None));
  append_group false [ (str "sizes_status", str "disabled") ].

(** [key] is an array of 8 bytes. *)
Definition size_lines (s : cache) : list stat_line :=
  match stats_sizes_hist (cnt s) with
  | Some h =>
      concat (map (λ i, if h i =? 0 then [] else [ (take 7 (fmt_d (i * 32)), fmt_u (h i)) ])
        (seqZ 0 (stats_sizes_buckets (cnt s))))
  | None => [ (str "sizes_status", str "disabled") ]
  end.
Definition item_stats_sizes : io unit :=
  g ← gets (λ w, size_lines (kv w));
  _ ← append_group false g;
  append_end false.

(** [item_cachedump] *)
Definition item_cachedump : option (list Z) := None.

(** ** Dispatch (stats.c) *)
Definition engine_lines (s : cache) : list stat_line :=
  [ num "bytes" (stats_state (cnt s) curr_bytes);
    num "curr_items" (stats_state (cnt s) curr_items);
    num "total_items" (stats (cnt s) total_items) ].
Definition get_stats (stat_type : option (list Z)) : io bool :=
  match stat_type with
  | None =>
      g ← gets (λ w, engine_lines (kv w));
      _ ← append_group true g;
      _ ← item_stats_totals;
      mret true
  | Some t =>
      if bool_decide (t = str "items") then _ ← item_stats; mret true
      else if bool_decide (t = str "sizes") then _ ← item_stats_sizes; mret true
      else if bool_decide (t = str "sizes_enable") then _ ← item_stats_sizes_enable; mret true
      else if bool_decide (t = str "sizes_disable") then _ ← item_stats_sizes_disable; mret true
      else mret false
  end.

Definition stats_reset : io unit :=
  _ ← srv (upd_cnt (set_stats (λ _, 0)));
  _ ← modify (set_px stats_prefix_clear);
  _ ← srv threadlocal_stats_reset;
  srv item_stats_reset.

(** Hand the collected buffer to the connection. *)
Definition send_stats : io unit :=
  c ← conn_;
  match st_buffer (sb c) with
  | None => out_of_memory (str "SERVER_ERROR out of memory writing stats")
  | Some m =>
      _ ← write_and_free (Some (load_bytes m 0 (Z.to_nat (st_size (sb c))))) (st_offset (sb c));
      on_sb (set_st_buffer None)
  end.
End groups.
