(* ===== verification/Ascii.v ===== *)
(** * The text protocol (memcached.c)

    The tokenizer and the handlers of the commands, up to [process_command].
    Tokens are values: a token is cut off by the NUL that replaces the space
    after it and nobody writes to the line afterwards.  The item crawler and
    the logger, which two of the commands drive, are the operations of
    [background]. *)
From Stdlib Require Import ZArith Lia.
From stdpp Require Import strings prelude gmap list functions.
From S2P Require Import Prelude Mem Util Item State Memlog Items Store Pool Prefix Conn ConnOps Stats.

(** ** Tokens *)
Record token := Token { value : option (list Z); tlen : Z }.
Definition MAX_TOKENS : nat := 8.
Definition KEY_MAX_LENGTH : Z := 250.

(** The scan from [e], with [cur] the bytes from [s] to [e] and [n] the number
    of tokens so far: the tokens, the pending bytes and what was not scanned. *)
Fixpoint tokenize_scan (max : nat) (n : nat) (cur rest : list Z) : list token * list Z * list Z :=
  match rest with
  | [] => ([], cur, [])
  | c :: rest =>
      if c =? SP then
        match cur with
        | [] => tokenize_scan max n [] rest
        | _ =>
            let t := Token (Some cur) (Z.of_nat (length cur)) in
            if (S n =? max - 1)%nat then ([t], [], rest)
            else let '(ts, cur, rest) := tokenize_scan max (S n) [] rest in (t :: ts, cur, rest)
        end
      else tokenize_scan max n (cur ++ [c]) rest
  end.

(** All tokens, the terminal one included; their number is [ntokens]. *)
Definition tokenize_command (command : list Z) (max_tokens : nat) : list token :=
  let '(ts, cur, rest) := tokenize_scan max_tokens 0 [] command in
  ts ++ match cur with [] => [] | _ => [Token (Some cur) (Z.of_nat (length cur))] end
     ++ [Token (match rest with [] => None | _ => Some rest end) 0].

(** Element [i] of the array of tokens. *)
Definition tok (ts : list token) (i : nat) : io token :=
  match ts !! i with Some t => mret t | None => fail OutOfBounds end.
(** The string a token points to. *)
Definition tok_str (ts : list token) (i : nat) : io (list Z) :=
  t ← tok ts i;
  match value t with Some s => mret s | None => fail NullDeref end.
(** [strcmp(tokens[i].value, s) == 0], for a token known to be present. *)
Definition tok_is (ts : list token) (i : nat) (s : string) : bool :=
  match ts !! i with
  | Some t => bool_decide (value t = Some (str s))
  | None => false
  end.

Definition set_noreply_maybe (ts : list token) : io bool :=
  t ← tok ts (length ts - 2);
  _ ← when (bool_decide (value t = Some (str "noreply"))) (on_core (set_noreply true));
  c ← conn_;
  mret (noreply (core c)).

(** ** Storage commands *)
Definition nread_code (comm : nread_cmd) : Z :=
  match comm with
  | NREAD_ADD => 1 | NREAD_SET => 2 | NREAD_REPLACE => 3 | NREAD_APPEND => 4 | NREAD_PREPEND => 5 | NREAD_CAS => 6
  end.
(** What [do_store_item] does with [c->cmd]: an unknown code acts as a set. *)
Definition nread_of (cmd : Z) : nread_cmd :=
  if cmd =? 1 then NREAD_ADD else if cmd =? 3 then NREAD_REPLACE else if cmd =? 4 then NREAD_APPEND
  else if cmd =? 5 then NREAD_PREPEND else if cmd =? 6 then NREAD_CAS else NREAD_SET.

(** [store_item(it, comm, c)], with [c->cas]. *)
Definition conn_store_item (it : Z) (comm : nread_cmd) : io store_item_type :=
  '(ret, cas) ← srv (store_item it comm);
  _ ← match cas with Some v => on_core (set_cas v) | None => mret tt end;
  mret ret.

(** [it_data_flags |= ITEM_CORRUPTED], then stored and not dirty *)
Definition mark_corrupted (d : Z) (m : memory) : memory :=
  data_flags_or d ITEM_STORED (data_flags_clear d ITEM_DIRTY (data_flags_or d ITEM_CORRUPTED m)).

Definition store_reply (ret : store_item_type) : list Z :=
  match ret with
  | STORED => str "STORED"
  | EXISTS => str "EXISTS"
  | NOT_FOUND => str "NOT_FOUND"
  | NOT_STORED => str "NOT_STORED"
  | TOO_LARGE | NO_MEMORY => str "SERVER_ERROR Unhandled storage type."
  end.

Definition complete_nread_ascii : io unit :=
  c ← conn_;
  match c_item (nr c) with
  | None => fail NullDeref
  | Some it =>
      x ← srv (get_meta it);
      _ ← srv (slab_add (ITEM_clsid x) set_cmds 1);
      lg ← gets (λ w, log (kv w));
      let d := item x in
      let is_valid := strncmp_eq (load_bytes lg (ITEM_data lg d + nbytes lg d - 2) 2) crlf 2 in
      _ ← (if negb is_valid then
             _ ← srv (upd_log (mark_corrupted d));
             out_string (str "CLIENT_ERROR bad data chunk")
           else
             ret ← conn_store_item it (nread_of (cmd (core c)));
             out_string (store_reply ret));
      _ ← srv (item_remove it);
      on_nr (set_c_item None)
  end.

(** [stats_prefix_record_*], when enabled, with the server's hash function. *)
Definition record_prefix (f : (list Z → Z) → Z → list Z → bool → bool → prefix_table → prefix_table)
    (key : list Z) : io unit :=
  s ← gets (λ w, cfg (kv w));
  when (negb (detail_enabled s =? 0))
    (a ← malloc_ok;
     b ← malloc_ok;
     modify (λ w, set_px (f (hash s) (prefix_delimiter s) key a b (px w)) w)).

Definition bad_format : io unit := out_string (str "CLIENT_ERROR bad command line format").

(** The item could not be allocated: reply, skip the data, forget the old value. *)
Definition update_failed (key : list Z) (comm : nread_cmd) (flags vlen : Z) : io unit :=
  s ← gets kv;
  _ ← (if negb (item_size_ok s (Z.of_nat (length key)) flags vlen)
       then out_string (str "SERVER_ERROR object too large for cache")
       else out_of_memory (str "SERVER_ERROR out of memory storing object"));
  _ ← on_wr (set_write_and_go conn_swallow);
  _ ← on_nr (set_sbytes vlen);
  if bool_decide (comm = NREAD_SET) then
    old ← srv (item_get key);
    match old with
    | Some it => _ ← srv (item_unlink it); srv (item_remove it)
    | None => mret tt
    end
  else mret tt.

Definition process_update_command (ts : list token) (comm : nread_cmd) (handle_cas : bool) : io unit :=
  _ ← set_noreply_maybe ts;
  kt ← tok ts 1;
  if tlen kt >? KEY_MAX_LENGTH then bad_format
  else
    key ← tok_str ts 1;
    t2 ← tok_str ts 2;
    t3 ← tok_str ts 3;
    t4 ← tok_str ts 4;
    let '(ok2, flags) := safe_strtoul t2 in
    let '(ok3, exptime_int) := safe_strtol t3 in
    let '(ok4, vlen) := safe_strtol t4 in
    if negb (ok2 && ok3 && ok4) then bad_format
    else
      let exptime := if exptime_int <? 0 then REALTIME_MAXDELTA + 1 else exptime_int in
      '(ok5, req_cas_id) ← (if handle_cas then t5 ← tok_str ts 5; mret (safe_strtoull t5)
                            else mret (true, 0));
      if negb ok5 then bad_format
      else if (vlen <? 0) || (vlen >? INT_MAX - 2) then bad_format
      else
        let vlen := vlen + 2 in
        _ ← record_prefix stats_prefix_record_set key;
        et ← gets (λ w, realtime (kv w) exptime);
        it ← srv (item_alloc key flags et vlen);
        match it with
        | None => update_failed key comm flags vlen
        | Some it =>
            x ← srv (get_meta it);
            _ ← srv (upd_log (ITEM_set_cas (item x) req_cas_id));
            lg ← gets (λ w, log (kv w));
            _ ← on_nr (λ s, set_rlbytes (nbytes lg (item x))
                  (set_ritem (Ptr RLog (ITEM_data lg (item x))) (set_c_item (Some it) s)));
            _ ← on_core (set_cmd (nread_code comm));
            conn_set_state conn_nread
        end.

(** ** Retrieval *)
(** Raw block malloc returns for the suffix pool. *)
Definition next_chunk : io (option Z) := λ w,
  match chunks (en w) with
  | [] => Ok (None, w)
  | a :: l => Ok (a, set_en (set_chunks l (en w)) w)
  end.
Definition suffix_alloc : io (option Z) :=
  p ← gets sfx;
  mem ← (if freecurr p >? 0 then mret None else next_chunk);
  zoom sfx set_sfx (cache_alloc mem true).

(** [snprintf(suffix, SUFFIX_SIZE, " %llu\r\n", cas)]: the text and its length *)
Definition SUFFIX_SIZE : Z := 24.
Definition cas_suffix (cas : Z) : list Z := [SP] ++ fmt_u cas ++ crlf.
Definition write_suffix (suffix cas : Z) : io Z :=
  let text := cas_suffix cas in
  _ ← modify (λ w, set_sfx (let p := sfx w in
        Pool (pool_ptr p) (bufsize p) (freetotal p) (freecurr p)
          (store_bytes (heap p) suffix (take (Z.to_nat (SUFFIX_SIZE - 1)) text ++ [0]))) w);
  mret (Z.of_nat (length text)).

(** [while (i-- > 0) item_remove(ilist[i])] *)
Fixpoint drop_items (i : nat) : io unit :=
  match i with
  | O => mret tt
  | S i => it ← get_ilist (Z.of_nat i); _ ← srv (item_remove it); drop_items i
  end.

(** How the turn for a key ends: go on, leave the inner loop, return. *)
Inductive get_turn := TurnNext (i : nat) | TurnBreak (i : nat) | TurnReturn.

(** Run the [add_iov] calls of a condition, stopping at the first failure. *)
Fixpoint add_iovs (l : list (ptr * Z)) : io bool :=
  match l with
  | [] => mret true
  | (p, n) :: l => r ← add_iov p n; if negb (r =? 0) then mret false else add_iovs l
  end.

Definition lit (s : string) : ptr := Ptr (RLit (str s)) 0.

(** Double the list of items when it is full. *)
Definition ensure_ilist (i : nat) : io bool :=
  c ← conn_;
  if Z.of_nat i >=? isize (il c) then
    ok ← malloc_counted;
    _ ← when ok (on_il (λ s, set_isize (isize s * 2) s));
    mret ok
  else mret true.
Definition ensure_suffixlist (i : nat) : io bool :=
  c ← conn_;
  if Z.of_nat i >=? suffixsize (il c) then
    ok ← malloc_counted;
    _ ← when ok (on_il (λ s, set_suffixsize (suffixsize s * 2) s));
    mret ok
  else mret true.

(** The pieces of a hit; the data of a [gets] hit is added without a check. *)
Definition queue_value (lg : memory) (d : Z) : io bool :=
  add_iovs [ (lit "VALUE ", 6); (Ptr RLog (ITEM_key lg d), nkey lg d);
             (Ptr RLog (ITEM_suffix lg d), nsuffix lg d + nbytes lg d) ].
Definition queue_cas_value (lg : memory) (d suffix suffix_len : Z) : io bool :=
  ok ← add_iovs [ (lit "VALUE ", 6); (Ptr RLog (ITEM_key lg d), nkey lg d);
             (Ptr RLog (ITEM_suffix lg d), nsuffix lg d - 2); (Ptr RSuffix suffix, suffix_len) ];
  if negb ok then mret false
  else _ ← add_iov (Ptr RLog (ITEM_data lg d)) (nbytes lg d); mret true.

(** Account for a hit, let the LRU log refresh the item and keep the reference. *)
Definition keep_hit (it clsid : Z) (i : nat) : io unit :=
  _ ← srv (slab_add clsid get_hits 1);
  _ ← srv (thread_add get_cmds 1);
  '(new_it, stored) ← srv (item_update it);
  match new_it, stored with
  | Some n, Some STORED =>
      _ ← srv (publish n);
      on_il (λ s, set_ilist (<[Z.of_nat i := n]> (ilist s)) s)
  | _, _ => on_il (λ s, set_ilist (<[Z.of_nat i := it]> (ilist s)) s)
  end.

(** The reply to a hit. *)
Definition get_hit (return_cas : bool) (it : Z) (i : nat) : io get_turn :=
  x ← srv (get_meta it);
  let run_out := _ ← srv (item_remove it); mret (TurnBreak i) in
  let finish := _ ← keep_hit it (ITEM_clsid x) i; mret (TurnNext (S i)) in
  ok ← ensure_ilist i;
  if negb ok then run_out
  else if return_cas then
    ok ← ensure_suffixlist i;
    if negb ok then run_out
    else
      sfx ← suffix_alloc;
      match sfx with
      | None =>
          _ ← srv (stats_add malloc_fails 1);
          _ ← out_of_memory (str "SERVER_ERROR out of memory making CAS suffix");
          _ ← srv (item_remove it);
          _ ← drop_items i;
          mret TurnReturn
      | Some suffix =>
          _ ← on_il (λ s, set_suffixlist (<[Z.of_nat i := suffix]> (suffixlist s)) s);
          lg ← gets (λ w, log (kv w));
          suffix_len ← write_suffix suffix (ITEM_get_cas lg (item x));
          ok ← queue_cas_value lg (item x) suffix suffix_len;
          if negb ok then run_out else finish
      end
  else
    lg ← gets (λ w, log (kv w));
    ok ← queue_value lg (item x);
    if negb ok then run_out else finish.

Definition get_miss (i : nat) : io get_turn :=
  _ ← srv (thread_add get_misses 1);
  _ ← srv (thread_add get_cmds 1);
  mret (TurnNext i).

(** One turn of the inner loop. *)
Definition get_key (return_cas : bool) (key : list Z) (nkey : Z) (i : nat) : io get_turn :=
  if nkey >? KEY_MAX_LENGTH then
    _ ← bad_format;
    _ ← drop_items i;
    mret TurnReturn
  else
    it ← srv (item_get key);
    _ ← record_prefix (λ h d k a b, stats_prefix_record_get h d k (bool_decide (it ≠ None)) a b) key;
    match it with
    | Some it => get_hit return_cas it i
    | None => get_miss i
    end.

(** Both loops: [ts] are the tokens from [key_token] on.  Leaving the inner
    loop hands the string of the current token to the tokenizer again. *)
Definition next_tokens (ts : list token) (i : nat) : (list token * nat) + option (nat * option (list Z)) :=
  match ts with
  | t :: _ => match value t with Some _ => inl (ts, i) | None => inr (Some (i, None)) end
  | [] => inr (Some (i, None))
  end.
Definition get_body (return_cas : bool) (x : list token * nat) :
    io ((list token * nat) + option (nat * option (list Z))) :=
  let '(ts, i) := x in
  match ts with
  | [] => fail OutOfBounds
  | t :: ts =>
      let again := match value t with
        | Some s => next_tokens (tokenize_command s MAX_TOKENS) i
        | None => inr (Some (i, None))
        end in
      if tlen t =? 0 then mret again
      else
        match value t with
        | None => fail NullDeref
        | Some key =>
            r ← get_key return_cas key (tlen t) i;
            match r with
            | TurnNext i => mret (inl (ts, i))
            | TurnBreak i => mret again
            | TurnReturn => mret (inr None)
            end
        end
  end.

Definition process_get_command (ts : list token) (return_cas : bool) : io unit :=
  r ← loop FUEL (get_body return_cas) (drop 1 ts, O);
  match r with
  | None => mret tt
  | Some (i, rest) =>
      _ ← on_il (λ s, set_ileft (Z.of_nat i) (set_icurr 0 s));
      _ ← when return_cas (on_il (λ s, set_suffixleft (Z.of_nat i) (set_suffixcurr 0 s)));
      bad ← match rest with
            | Some _ => mret true
            | None =>
                r ← add_iov (Ptr (RLit (str "END" ++ crlf)) 0) 5;
                c ← conn_;
                if negb (r =? 0) then mret true
                else if is_udp c then r ← build_udp_headers; mret (negb (r =? 0))
                else mret false
            end;
      if bad : bool then out_of_memory (str "SERVER_ERROR out of memory writing get response")
      else
        _ ← conn_set_state conn_mwrite;
        on_ov (set_msgcurr 0)
  end.

(** ** touch, incr and decr, delete *)
Definition process_touch_command (ts : list token) : io unit :=
  _ ← set_noreply_maybe ts;
  kt ← tok ts 1;
  if tlen kt >? KEY_MAX_LENGTH then bad_format
  else
    key ← tok_str ts 1;
    t2 ← tok_str ts 2;
    let '(ok, exptime_int) := safe_strtol t2 in
    if negb ok then out_string (str "CLIENT_ERROR invalid exptime argument")
    else
      et ← gets (λ w, realtime (kv w) exptime_int);
      '(it, cas) ← srv (item_touch key et);
      _ ← match cas with Some v => on_core (set_cas v) | None => mret tt end;
      match it with
      | Some it =>
          x ← srv (get_meta it);
          _ ← srv (thread_add touch_cmds 1);
          _ ← srv (slab_add (ITEM_clsid x) touch_hits 1);
          out_string (str "TOUCHED")
      | None =>
          _ ← srv (thread_add touch_cmds 1);
          _ ← srv (thread_add touch_misses 1);
          out_string (str "NOT_FOUND")
      end.

Definition process_arithmetic_command (ts : list token) (incr : bool) : io unit :=
  _ ← set_noreply_maybe ts;
  kt ← tok ts 1;
  if tlen kt >? KEY_MAX_LENGTH then bad_format
  else
    key ← tok_str ts 1;
    t2 ← tok_str ts 2;
    let '(ok, delta) := safe_strtoull t2 in
    if negb ok then out_string (str "CLIENT_ERROR invalid numeric delta argument")
    else
      '(r, temp, _) ← srv (add_delta key incr (i64 delta) None);
      match r with
      | OK => out_string temp
      | NON_NUMERIC => out_string (str "CLIENT_ERROR cannot increment or decrement non-numeric value")
      | EOM => out_of_memory (str "SERVER_ERROR out of memory")
      | DELTA_ITEM_NOT_FOUND =>
          _ ← srv (thread_add (if incr then incr_misses else decr_misses) 1);
          out_string (str "NOT_FOUND")
      | DELTA_ITEM_CAS_MISMATCH => mret tt
      end.

(** The optional arguments: a zero, [noreply], or both. *)
Definition delete_args_ok (ts : list token) : io bool :=
  let ntokens := length ts in
  if (3 <? ntokens)%nat then
    let hold_is_zero := tok_is ts 2 "0" in
    sets_noreply ← set_noreply_maybe ts;
    mret (((ntokens =? 4)%nat && (hold_is_zero || sets_noreply))
          || ((ntokens =? 5)%nat && hold_is_zero && sets_noreply))
  else mret true.

Definition process_delete_command (ts : list token) : io unit :=
  valid ← delete_args_ok ts;
  if negb valid then
    out_string (str "CLIENT_ERROR bad command line format.  Usage: delete <key> [noreply]")
  else
    kt ← tok ts 1;
    key ← tok_str ts 1;
    if tlen kt >? KEY_MAX_LENGTH then bad_format
    else
      _ ← record_prefix stats_prefix_record_delete key;
      it ← srv (item_get key);
      match it with
      | Some it =>
          x ← srv (get_meta it);
          _ ← srv (slab_add (ITEM_clsid x) delete_hits 1);
          '(_, succeed) ← srv (do_item_alloc (λ _, key) (Z.of_nat (length key)) ITEM_DELETED 0 0);
          if negb succeed then out_of_memory (str "SERVER_ERROR Out of memory allocating new item")
          else
            _ ← srv (item_unlink it);
            _ ← srv (item_remove it);
            out_string (str "DELETED")
      | None =>
          _ ← srv (thread_add delete_misses 1);
          out_string (str "NOT_FOUND")
      end.

(** ** Administration *)
Definition MAX_VERBOSITY_LEVEL : Z := 2.
Definition process_verbosity_command (ts : list token) : io unit :=
  _ ← set_noreply_maybe ts;
  t1 ← tok_str ts 1;
  let level := u32 (strtoul_value t1) in
  _ ← srv (upd_cfg (set_verbose (if level >? MAX_VERBOSITY_LEVEL then MAX_VERBOSITY_LEVEL else level)));
  out_string (str "OK").

Definition process_memlimit_command (ts : list token) : io unit :=
  _ ← set_noreply_maybe ts;
  t1 ← tok_str ts 1;
  let '(ok, memlimit) := safe_strtoul t1 in
  if negb ok then out_string (str "ERROR")
  else if memlimit <? 8 then out_string (str "MEMLIMIT_TOO_SMALL cannot set maxbytes to less than 8m")
  else out_string (str "MEMLIMIT_ADJUST_FAILED out of bounds or unable to adjust").

Definition process_stats_detail (command : list Z) : io unit :=
  if bool_decide (command = str "on") then
    _ ← srv (upd_cfg (set_detail_enabled 1)); out_string (str "OK")
  else if bool_decide (command = str "off") then
    _ ← srv (upd_cfg (set_detail_enabled 0)); out_string (str "OK")
  else if bool_decide (command = str "dump") then
    t ← gets px;
    ok ← malloc_ok;
    match stats_prefix_dump t ok with
    | Fault f => fail f
    | Ok None => write_and_free None 0
    | Ok (Some (text, len, _)) => write_and_free (Some text) len
    end
  else out_string (str "CLIENT_ERROR usage: stats detail on|off|dump").

(** Replies collected in the stats buffer end with the terminator. *)
Definition finish_stats : io unit := _ ← append_end false; send_stats.

Definition process_stat (inp : stat_inputs) (ts : list token) : io unit :=
  let ntokens := length ts in
  if (ntokens <? 2)%nat then out_string (str "CLIENT_ERROR bad command line")
  else if (ntokens =? 2)%nat then
    _ ← server_stats inp;
    _ ← get_stats None;
    finish_stats
  else
    sub ← tok_str ts 1;
    if bool_decide (sub = str "reset") then
      _ ← stats_reset; out_string (str "RESET")
    else if bool_decide (sub = str "detail") then
      if (ntokens <? 4)%nat then process_stats_detail []
      else t2 ← tok_str ts 2; process_stats_detail t2
    else if bool_decide (sub = str "settings") then
      _ ← process_stat_settings inp; finish_stats
    else if bool_decide (sub = str "cachedump") then
      if (ntokens <? 5)%nat then out_string (str "CLIENT_ERROR bad command line")
      else
        t2 ← tok_str ts 2;
        t3 ← tok_str ts 3;
        let '(ok2, id) := safe_strtoul t2 in
        let '(ok3, _) := safe_strtoul t3 in
        if negb (ok2 && ok3) then bad_format
        else if id >=? MAX_NUMBER_OF_SLAB_CLASSES then out_string (str "CLIENT_ERROR Illegal slab id")
        else write_and_free item_cachedump 0
    else if bool_decide (sub = str "conns") then
      _ ← process_stats_conns inp; finish_stats
    else
      known ← get_stats (Some sub);
      if known : bool then send_stats else out_string (str "ERROR").

(** [strtol(s, NULL, 10)]; errno becomes ERANGE when the value does not fit. *)
Definition c_strtol (s : list Z) : io Z :=
  match strtoll s with
  | None => mret 0
  | Some (v, over, _) => _ ← when over (on_en (set_erange true)); mret v
  end.

(** From the delay on: [oldest_live] and [oldest_cas]. *)
Definition flush_at (exptime : Z) : io unit :=
  s ← gets kv;
  let new_oldest := if exptime >? 0 then realtime s exptime else current_time s in
  if use_cas (cfg s) then
    let live := u32 (new_oldest - 1) in
    _ ← srv (upd_cfg (set_oldest_live live));
    when (live <=? current_time s)
      (id ← srv get_cas_id; srv (upd_cfg (set_oldest_cas id)))
  else srv (upd_cfg (set_oldest_live new_oldest)).

(** errno is not cleared before [strtol]: an ERANGE left by an earlier call
    counts too. *)
Definition process_flush_all (ts : list token) : io unit :=
  reply_off ← set_noreply_maybe ts;
  _ ← srv (thread_add flush_cmds 1);
  s ← gets (λ w, cfg (kv w));
  if negb (flush_enabled s) then out_string (str "CLIENT_ERROR flush_all not allowed")
  else
    let has_arg := negb (length ts =? if reply_off : bool then 3 else 2)%nat in
    exptime ← (if has_arg then t1 ← tok_str ts 1; c_strtol t1 else mret 0);
    e ← gets (λ w, erange (en w));
    if has_arg && e then bad_format
    else _ ← flush_at exptime; out_string (str "OK").

Inductive watcher_result : Set := WATCHER_TOO_MANY | WATCHER_OK | WATCHER_FAILED.
Inductive crawler_result : Set := CRAWLER_OK | CRAWLER_RUNNING | CRAWLER_BADCLASS | CRAWLER_NOTSTARTED | CRAWLER_ERROR.
(** The logger and the crawler, as [process_command] drives them. *)
Class background := Background {
  logger_add_watcher : Z → Z → io watcher_result;           (* sfd, flags *)
  lru_crawler_crawl : list Z → bool → io crawler_result;    (* classes, metadump *)
  start_item_crawler_thread : io Z;
  stop_item_crawler_thread : io Z
}.

Definition LOG_FETCHERS : Z := Z.shiftl 1 2.
Definition LOG_MUTATIONS : Z := Z.shiftl 1 3.
Definition LOG_EVICTIONS : Z := Z.shiftl 1 6.
Definition LOG_RAWCMDS : Z := Z.shiftl 1 9.
Definition watch_flag (t : token) : option Z :=
  match value t with
  | Some s =>
      if bool_decide (s = str "rawcmds") then Some LOG_RAWCMDS
      else if bool_decide (s = str "evictions") then Some LOG_EVICTIONS
      else if bool_decide (s = str "fetchers") then Some LOG_FETCHERS
      else if bool_decide (s = str "mutations") then Some LOG_MUTATIONS
      else None
  | None => None
  end.
Fixpoint watch_flags (f : Z) (ts : list token) : option Z :=
  match ts with
  | [] => Some f
  | t :: ts => match watch_flag t with Some b => watch_flags (Z.lor f b) ts | None => None end
  end.

Section commands.
Context `{background} (inp : stat_inputs).

(** [event_del(&c->event)] *)
Definition event_del : io unit := _ ← event_ok; mret tt.

Definition process_watch_command (ts : list token) : io unit :=
  _ ← set_noreply_maybe ts;
  let n := length ts in
  match (if (2 <? n)%nat then watch_flags 0 (take (n - 2) (drop 1 ts)) else Some LOG_FETCHERS) with
  | None => out_string (str "ERROR")
  | Some f =>
      c ← conn_;
      r ← logger_add_watcher (sfd (core c)) f;
      match r with
      | WATCHER_TOO_MANY => out_string (str "WATCHER_TOO_MANY log watcher limit reached")
      | WATCHER_FAILED => out_string (str "WATCHER_FAILED failed to add log watcher")
      | WATCHER_OK => _ ← conn_set_state conn_watch; event_del
      end
  end.

Definition crawler_reply (r : crawler_result) : list Z :=
  match r with
  | CRAWLER_OK => str "OK"
  | CRAWLER_RUNNING => str "BUSY currently processing crawler request"
  | CRAWLER_BADCLASS => str "BADCLASS invalid class id"
  | CRAWLER_NOTSTARTED => str "NOTSTARTED no items to crawl"
  | CRAWLER_ERROR => str "ERROR an unknown error happened"
  end.

Definition crawl_command (ts : list token) (metadump : bool) : io unit :=
  s ← gets (λ w, cfg (kv w));
  if negb (lru_crawler s) then out_string (str "CLIENT_ERROR lru crawler disabled")
  else
    t2 ← tok_str ts 2;
    r ← lru_crawler_crawl t2 metadump;
    _ ← out_string (crawler_reply r);
    match r with
    | CRAWLER_OK => when metadump (_ ← conn_set_state conn_watch; event_del)
    | _ => mret tt
    end.

Definition process_lru_crawler (ts : list token) : io unit :=
  let n := length ts in
  if (n =? 4)%nat && tok_is ts 1 "crawl" then crawl_command ts false
  else if (n =? 4)%nat && tok_is ts 1 "metadump" then crawl_command ts true
  else if (n =? 4)%nat && tok_is ts 1 "tocrawl" then
    t2 ← tok_str ts 2;
    let '(ok, tocrawl) := safe_strtoul t2 in
    if negb ok then bad_format
    else _ ← srv (upd_cfg (set_lru_crawler_tocrawl tocrawl)); out_string (str "OK")
  else if (n =? 4)%nat && tok_is ts 1 "sleep" then
    t2 ← tok_str ts 2;
    let '(ok, tosleep) := safe_strtoul t2 in
    if negb ok then bad_format
    else if tosleep >? 1000000 then out_string (str "CLIENT_ERROR sleep must be one second or less")
    else _ ← srv (upd_cfg (set_lru_crawler_sleep tosleep)); out_string (str "OK")
  else if (n =? 3)%nat then
    if tok_is ts 1 "enable" then
      r ← start_item_crawler_thread;
      out_string (if r =? 0 then str "OK" else str "ERROR failed to start lru crawler thread")
    else if tok_is ts 1 "disable" then
      r ← stop_item_crawler_thread;
      out_string (if r =? 0 then str "OK" else str "ERROR failed to stop lru crawler thread")
    else out_string (str "ERROR")
  else out_string (str "ERROR").

(** The storage commands and their codes. *)
Definition update_comm (ts : list token) : option nread_cmd :=
  if tok_is ts 0 "add" then Some NREAD_ADD
  else if tok_is ts 0 "set" then Some NREAD_SET
  else if tok_is ts 0 "replace" then Some NREAD_REPLACE
  else if tok_is ts 0 "prepend" then Some NREAD_PREPEND
  else if tok_is ts 0 "append" then Some NREAD_APPEND
  else None.

(** Is the number of tokens between [a] and [b]? *)
Definition between (n a b : nat) : bool := (a <=? n)%nat && (n <=? b)%nat.

Definition dispatch_command (ts : list token) : io unit :=
  let n := length ts in
  if (3 <=? n)%nat && (tok_is ts 0 "get" || tok_is ts 0 "bget") then process_get_command ts false
  else match (if between n 6 7 then update_comm ts else None) with
  | Some comm => process_update_command ts comm false
  | None =>
  if between n 7 8 && tok_is ts 0 "cas" then process_update_command ts NREAD_CAS true
  else if between n 4 5 && tok_is ts 0 "incr" then process_arithmetic_command ts true
  else if (3 <=? n)%nat && tok_is ts 0 "gets" then process_get_command ts true
  else if between n 4 5 && tok_is ts 0 "decr" then process_arithmetic_command ts false
  else if between n 3 5 && tok_is ts 0 "delete" then process_delete_command ts
  else if between n 4 5 && tok_is ts 0 "touch" then process_touch_command ts
  else if (2 <=? n)%nat && tok_is ts 0 "stats" then process_stat inp ts
  else if between n 2 4 && tok_is ts 0 "flush_all" then process_flush_all ts
  else if (n =? 2)%nat && tok_is ts 0 "version" then out_string (str "VERSION " ++ in_version inp)
  else if (n =? 2)%nat && tok_is ts 0 "quit" then conn_set_state conn_closing
  else if (n =? 2)%nat && tok_is ts 0 "shutdown" then
    s ← gets (λ w, cfg (kv w));
    if shutdown_command s then
      _ ← conn_set_state conn_closing;
      fail (Exited 0)      (* raise(SIGINT): the handler exits *)
    else out_string (str "ERROR: shutdown not enabled")
  else if (1 <? n)%nat && tok_is ts 0 "lru_crawler" then process_lru_crawler ts
  else if (1 <? n)%nat && tok_is ts 0 "watch" then process_watch_command ts
  else if between n 3 4 && tok_is ts 0 "cache_memlimit" then process_memlimit_command ts
  else if between n 3 4 && tok_is ts 0 "verbosity" then process_verbosity_command ts
  else out_string (str "ERROR")
  end.

Definition process_command (command : list Z) : io unit :=
  _ ← reset_output;
  r ← add_msghdr;
  if negb (r =? 0) then out_of_memory (str "SERVER_ERROR out of memory preparing response")
  else dispatch_command (tokenize_command command MAX_TOKENS).
End commands.
