(* ===== verification/IoFacts.v ===== *)
(** * Weakest preconditions for connection code

    The rules of the state monad for the operations of [Conn], and frames:
    what a queue of output depends on. *)
From Stdlib Require Import ZArith Lia.
From stdpp Require Import strings prelude gmap list functions.
From S2P Require Import Prelude Mem Util Item State Items Pool Prefix Conn ConnOps IovFacts.

Section io_rules.
Context {A B : Type}.
Implicit Types (w : world).

Lemma wp_srv (m : server A) w (Q : A → world → Prop) :
  wp m (kv w) (λ a s', Q a (set_kv s' w)) → wp (srv m) w Q.
Proof.
  intros (a & s' & He & HQ). exists a, (set_kv s' w). split; [|done]. unfold srv, zoom. by rewrite He.
Qed.
Lemma wp_conn w (Q : conn → world → Prop) : Q (cn w) w → wp conn_ w Q.
Proof. apply wp_gets. Qed.
Lemma wp_upd_cn f w (Q : unit → world → Prop) : Q tt (set_cn (f (cn w)) w) → wp (upd_cn f) w Q.
Proof. intros HQ. eexists _, _. split; [reflexivity|exact HQ]. Qed.
Lemma wp_ifw (b : bool) (m1 m2 : io A) w Q :
  (b = true → wp m1 w Q) → (b = false → wp m2 w Q) → wp (if b then m1 else m2) w Q.
Proof. destruct b; auto. Qed.
Lemma wp_whenw (b : bool) (m : io unit) w Q :
  (b = true → wp m w Q) → (b = false → Q tt w) → wp (when b m) w Q.
Proof. destruct b; cbn; intros H1 H2; [auto|by apply wp_ret, H2]. Qed.
Lemma wp_malloc_ok w (Q : bool → world → Prop) : mallocs (en w) = [] → Q true w → wp malloc_ok w Q.
Proof. intros Hm HQ. exists true, w. split; [|done]. unfold malloc_ok. by rewrite Hm. Qed.
Lemma wp_malloc_counted w (Q : bool → world → Prop) : mallocs (en w) = [] → Q true w → wp malloc_counted w Q.
Proof.
  intros Hm HQ. unfold malloc_counted. apply wp_bind, wp_malloc_ok; [done|]. cbn. by apply wp_bind, wp_ret, wp_ret.
Qed.
Lemma wp_set_state st w (Q : unit → world → Prop) :
  st ≠ conn_max_state → Q tt (set_cn (upd_core (set_state st) (cn w)) w) → wp (conn_set_state st) w Q.
Proof.
  intros Hst HQ. unfold conn_set_state. apply wp_bind, wp_assert; [by apply bool_decide_eq_true|].
  by apply wp_upd_cn.
Qed.
End io_rules.

Lemma set_kv_id w : set_kv (kv w) w = w.
Proof. by destruct w. Qed.

(** One step of connection code. *)
Ltac io_step :=
  lazymatch goal with
  | |- wp (mbind _ _) _ _ => apply wp_bind
  | |- wp (mret _) _ _ => apply wp_ret
  | |- wp conn_ _ _ => apply wp_conn
  | |- wp (gets _) _ _ => apply wp_gets
  | |- wp (modify _) _ _ => apply wp_modify
  | |- wp (upd_cn _) _ _ => apply wp_upd_cn
  | |- wp (on_core _) _ _ => apply wp_upd_cn
  | |- wp (on_rd _) _ _ => apply wp_upd_cn
  | |- wp (on_wr _) _ _ => apply wp_upd_cn
  | |- wp (on_nr _) _ _ => apply wp_upd_cn
  | |- wp (on_ov _) _ _ => apply wp_upd_cn
  | |- wp (on_il _) _ _ => apply wp_upd_cn
  | |- wp (on_ud _) _ _ => apply wp_upd_cn
  | |- wp (on_sb _) _ _ => apply wp_upd_cn
  | |- wp (on_en _) _ _ => apply wp_modify
  | |- wp (conn_set_state _) _ _ => apply wp_set_state; [done|]
  end; cbv beta zeta.
Ltac io_steps := repeat io_step.

(** ** What queued output depends on *)
Record same_buffers (w w' : world) : Prop := {
  sb_transport : transport (core (cn w')) = transport (core (cn w));
  sb_rbuf : rbuf (rd (cn w')) = rbuf (rd (cn w));
  sb_wbuf : wbuf (wr (cn w')) = wbuf (wr (cn w));
  sb_hdr : hdrbuf (ud (cn w')) = hdrbuf (ud (cn w));
  sb_log : log (kv w') = log (kv w);
  sb_sfx : heap (sfx w') = heap (sfx w)
}.

#[global] Instance same_buffers_refl : Reflexive same_buffers.
Proof. by split. Qed.
#[global] Instance same_buffers_trans : Transitive same_buffers.
Proof. intros w1 w2 w3 [] []. split; congruence. Qed.

Lemma read_ptr_frame w w' p n : same_buffers w w' → read_ptr w' p n = read_ptr w p n.
Proof. intros []. unfold read_ptr. destruct (preg p); congruence. Qed.
Lemma is_udp_frame w w' : same_buffers w w' → is_udp (cn w') = is_udp (cn w).
Proof. intros []. unfold is_udp. by rewrite sb_transport0. Qed.
Lemma queued_bytes_frame w w' V : same_buffers w w' → queued_bytes w' V = queued_bytes w V.
Proof.
  intros Hs. unfold queued_bytes. rewrite (is_udp_frame _ _ Hs). f_equal. apply list_fmap_ext.
  intros _ x _. unfold iov_bytes. by apply read_ptr_frame.
Qed.
Lemma out_ok_frame w w' V : same_buffers w w' → ov (cn w') = ov (cn w) → out_ok w V → out_ok w' V.
Proof. intros Hs Ho [H1 H2]. split; [by rewrite Ho|]. by rewrite (is_udp_frame _ _ Hs). Qed.

(** [add_iov] as a rule. *)
Lemma wp_add_iov w V buf len (Q : Z → world → Prop) :
  mallocs (en w) = [] → out_ok w V → V ≠ [] → 0 ≤ len < 2 ^ 31 → readable buf len →
  (∀ o V', out_ok (with_ov o w) V' → V' ≠ [] →
     queued_bytes (with_ov o w) V' = queued_bytes w V ++ read_ptr w buf len → Q 0 (with_ov o w)) →
  wp (add_iov buf len) w Q.
Proof.
  intros Hm HV Hne Hlen Hrd HQ.
  destruct (add_iov_queues w V buf len Hm HV Hne Hlen Hrd) as (o & V' & E & HV' & Hne' & Hq).
  exists 0, (with_ov o w). split; [exact E|]. by apply (HQ o V').
Qed.
