(* ===== verification/Tokens.v ===== *)
(** * The tokenizer against its reference: the words of a line *)
From Stdlib Require Import ZArith Lia.
From stdpp Require Import strings prelude gmap list functions.
From S2P Require Import Prelude Mem Util Item State Items Store Pool Prefix Conn ConnOps Stats Ascii.

(** The maximal runs without a space, [cur] being the one under way. *)
Fixpoint words_from (cur s : list Z) : list (list Z) :=
  match s with
  | [] => match cur with [] => [] | _ => [cur] end
  | c :: s =>
      if c =? SP then match cur with [] => words_from [] s | _ => cur :: words_from [] s end
      else words_from (cur ++ [c]) s
  end.
Definition words (s : list Z) : list (list Z) := words_from [] s.

Definition word_token (u : list Z) : token := Token (Some u) (Z.of_nat (length u)).

Lemma words_space s : words (SP :: s) = words s.
Proof. done. Qed.
Lemma words_word u s : u ≠ [] → SP ∉ u → words (u ++ SP :: s) = u :: words s.
Proof.
  intros Hne Hsp. unfold words.
  assert (∀ cur, words_from cur (u ++ SP :: s) = words_from (cur ++ u) (SP :: s)) as ->.
  { clear Hne. induction u as [|c u IH]; intros cur; [by rewrite app_nil_r|]. cbn [app words_from].
    rewrite (proj2 (Z.eqb_neq c SP)) by set_solver. rewrite IH by set_solver.
    by rewrite <- app_assoc. }
  cbn. by destruct u.
Qed.
Lemma words_one u : u ≠ [] → SP ∉ u → words u = [u].
Proof.
  intros Hne Hsp. unfold words.
  assert (∀ cur, words_from cur u = words_from (cur ++ u) []) as ->.
  { clear Hne. induction u as [|c u IH]; intros cur; [by rewrite app_nil_r|]. cbn [words_from].
    rewrite (proj2 (Z.eqb_neq c SP)) by set_solver. rewrite IH by set_solver.
    by rewrite <- app_assoc. }
  cbn. by destruct u.
Qed.
Lemma words_from_ok cur s u : SP ∉ cur → u ∈ words_from cur s → u ≠ [] ∧ SP ∉ u ∧ (∀ c, c ∈ u → c ∈ cur ++ s).
Proof.
  revert cur u. induction s as [|c s IH]; intros cur u Hc Hu; cbn in Hu.
  - destruct cur; [by apply elem_of_nil in Hu|]. apply list_elem_of_singleton in Hu as ->.
    rewrite app_nil_r. split_and!; done.
  - destruct (Z.eqb_spec c SP) as [->|Hne].
    + assert (u ∈ words_from [] s → u ≠ [] ∧ SP ∉ u ∧ ∀ c, c ∈ u → c ∈ cur ++ SP :: s) as Hrec.
      { intros (H1 & H2 & H3)%IH; [|set_solver]. split_and!; try done. intros b Hb%H3. set_solver. }
      destruct cur; [by apply Hrec|]. apply elem_of_cons in Hu as [->|Hu]; [|by apply Hrec].
      split_and!; [done|done|set_solver].
    + apply IH in Hu as (H1 & H2 & H3); [|set_solver]. split_and!; try done.
      intros b Hb%H3. set_solver.
Qed.
Lemma words_ok s u : u ∈ words s → u ≠ [] ∧ SP ∉ u ∧ (∀ c, c ∈ u → c ∈ s).
Proof. intros Hu. by apply (words_from_ok [] s) in Hu; [|set_solver]. Qed.

(** The scan stops with its limit reached and the rest unscanned, or at the end. *)
Lemma tokenize_scan_spec max n cur s :
  (S n < max)%nat →
  let '(ts, cur', rest) := tokenize_scan max n cur s in
  let k := (max - 1 - n)%nat in
  ts ++ match cur' with [] => [] | _ => [word_token cur'] end = word_token <$> take k (words_from cur s) ∧
  words rest = drop k (words_from cur s) ∧ (rest = [] ∨ (k ≤ length (words_from cur s))%nat) ∧
  rest `suffix_of` s.
Proof.
  revert n cur. induction s as [|c s IH]; intros n cur Hn; cbn [tokenize_scan words_from].
  - destruct (max - 1 - n)%nat eqn:E; [lia|]. destruct cur; cbn; rewrite ?take_nil, ?drop_nil;
      split_and!; auto using suffix_nil.
  - assert (∀ n cur, (S n < max)%nat → let '(ts, cur', rest) := tokenize_scan max n cur s in
      let k := (max - 1 - n)%nat in
      ts ++ match cur' with [] => [] | _ => [word_token cur'] end = word_token <$> take k (words_from cur s) ∧
      words rest = drop k (words_from cur s) ∧ (rest = [] ∨ (k ≤ length (words_from cur s))%nat) ∧
      rest `suffix_of` c :: s) as IHs.
    { intros n' cur' Hn'. specialize (IH n' cur' Hn'). destruct (tokenize_scan max n' cur' s) as [[ts cur''] rest].
      destruct IH as (H1 & H2 & H3 & H4). split_and!; auto using suffix_cons_r. }
    destruct (c =? SP); [|by apply IHs]. destruct cur as [|b cur]; [by apply IHs|].
    destruct (max - 1 - n)%nat as [|k] eqn:E; [lia|].
    destruct (Nat.eqb_spec (S n) (max - 1)) as [Heq|Hne].
    + assert (k = O) as -> by lia. cbn. split_and!; [done|done|lia|by apply suffix_cons_r].
    + specialize (IHs (S n) [] ltac:(lia)).
      destruct (tokenize_scan max (S n) [] s) as [[ts cur'] rest].
      replace (max - 1 - S n)%nat with k in IHs by lia. destruct IHs as (IH1 & IH2 & IH3 & IH4).
      cbn. split_and!; [f_equal; exact IH1|exact IH2|destruct IH3; [by left|right; lia]|exact IH4].
Qed.

Definition blank_rest (rest : list Z) : option (list Z) := match rest with [] => None | _ => Some rest end.
Lemma tokenize_spec s max :
  (1 < max)%nat → ∃ rest, words rest = drop (max - 1) (words s) ∧
    tokenize_command s max = (word_token <$> take (max - 1) (words s)) ++ [Token (blank_rest rest) 0] ∧
    (rest = [] ∨ (max - 1 ≤ length (words s))%nat) ∧ rest `suffix_of` s.
Proof.
  intros Hm. unfold tokenize_command. pose proof (tokenize_scan_spec max 0 [] s ltac:(lia)) as H.
  destruct (tokenize_scan max 0 [] s) as [[ts cur] rest]. replace (max - 1 - 0)%nat with (max - 1)%nat in H by lia.
  destruct H as (H1 & H2 & H3). exists rest. split; [done|]. split; [|done]. rewrite app_assoc.
  unfold words. by rewrite <- H1.
Qed.

(** C37: the tokenizer.  The tokens of a line are its words - the maximal runs
    without a space - in order, at most [max - 1] of them, followed by a
    terminal token of length zero; the array of [max] tokens (at least two) is
    never overrun.  The terminal token points to the unscanned end of the line,
    whose words are the remaining ones, and is null when the whole line was
    scanned.  It is never null while a word is left, but it need not be null
    when none is: the scan stops behind the space after word [max - 1], and
    what follows may be spaces only. *)
Theorem tokenize_command_correct (command : list Z) (max_tokens : nat) (Hmax : (1 < max_tokens)%nat) :
  ∃ rest, rest `suffix_of` command ∧
    tokenize_command command max_tokens =
      (word_token <$> take (max_tokens - 1) (words command)) ++
        [Token (match rest with [] => None | _ => Some rest end) 0] ∧
    words rest = drop (max_tokens - 1) (words command) ∧
    (rest ≠ [] → (max_tokens - 1 ≤ length (words command))%nat) ∧
    (length (tokenize_command command max_tokens) ≤ max_tokens)%nat ∧
    Forall (λ u, u ≠ [] ∧ SP ∉ u) (words command).
Proof.
  destruct (tokenize_spec command max_tokens Hmax) as (rest & Hw & E & Hr & Hs).
  exists rest. split_and!; [done|done|done| | |].
  - intros Hne. by destruct Hr.
  - rewrite E, length_app, length_fmap, length_take. cbn. lia.
  - apply list.Forall_forall. intros u (H1 & H2 & _)%words_ok. done.
Qed.

Lemma tokenize_command_correct_witness :
  ∃ rest, rest `suffix_of` str "get  k1 k2 k3 " ∧
    tokenize_command (str "get  k1 k2 k3 ") 3 =
      [word_token (str "get"); word_token (str "k1"); Token (match rest with [] => None | _ => Some rest end) 0] ∧
    words rest = [str "k2"; str "k3"].
Proof.
  destruct (tokenize_command_correct (str "get  k1 k2 k3 ") 3 ltac:(lia)) as (rest & H0 & H1 & H2 & _).
  exists rest. split_and!; [exact H0|exact H1|exact H2].
Defined.

(** No word left, and a terminal token that is not null. *)
Example blank_tail :
  tokenize_command (str "a b  ") 3 = [word_token (str "a"); word_token (str "b"); Token (Some (str " ")) 0].
Proof. reflexivity. Qed.
