(* ===== verification/GetFacts.v ===== *)
(** * The get command: what the client is sent

    A [get] of any number of keys, over several rounds of the tokenizer: the
    reply is the concatenation, in the order of the request, of the blocks of
    the keys that are bound to a live item, and every item of the reply is
    pinned exactly as often as it occurs in it. *)
From Stdlib Require Import ZArith Lia.
From stdpp Require Import strings prelude gmap list functions.
From S2P Require Import Prelude Mem Util Hash Item State Memlog Assoc AssocFacts Items ItemFacts ItemSpec ItemClaims Store StoreFacts Pool Prefix Conn ConnOps Stats Ascii IovFacts IoFacts Tokens.

(** ** Lookups in a row *)
(** The item a lookup returns, in the cache [s] that binds the keys [K]. *)
Definition hit_of (s : cache) (K : gmap (list Z) Z) (key : list Z) : option Z :=
  p ← K !! key; x ← meta s !! p; if dead s x then None else Some p.

Definition occurs (p : Z) (H : list Z) : Z := Z.of_nat (count_occ Z.eq_dec H p).

(** Slot [y] is slot [x] with [n] more references, and perhaps a new time. *)
Record pinned (s0 : cache) (n : Z) (x y : item_metadata) : Prop := {
  pin_item : item y = item x;
  pin_flags : it_flags y = it_flags x;
  pin_class : slabs_clsid y = slabs_clsid x;
  pin_time : time y = time x ∨ (dead s0 x = false ∧ time y = current_time s0);
  pin_count : refcount y = refcount x + n
}.

(** State [s], reached from [s0] by lookups that returned [H]. *)
Record looked (s0 : cache) (K0 : gmap (list Z) Z) (H : list Z) (s : cache) (K : gmap (list Z) Z)
    (FL : list Z) : Prop := {
  lk_ok : cache_ok s K FL;
  lk_log : log s = log s0;
  lk_ml : ml s = ml s0;
  lk_cfg : cfg s = cfg s0;
  lk_now : current_time s = current_time s0;
  lk_sub : ∀ key p, K !! key = Some p → K0 !! key = Some p;
  lk_live : ∀ key p, hit_of s0 K0 key = Some p → K !! key = Some p;
  lk_slot : ∀ key p x, K !! key = Some p → meta s0 !! p = Some x →
    ∃ y, meta s !! p = Some y ∧ pinned s0 (occurs p H) x y
}.

Lemma hit_of_Some s K key p :
  hit_of s K key = Some p ↔ K !! key = Some p ∧ ∃ x, meta s !! p = Some x ∧ dead s x = false.
Proof.
  unfold hit_of. split.
  - destruct (K !! key) as [q|]; [|done]. cbn. destruct (meta s !! q) as [x|] eqn:Hx; [|done]. cbn.
    destruct (dead s x) eqn:Hd; [done|]. intros [= <-]. eauto.
  - intros (-> & x & Hx & Hd). cbn. rewrite Hx. cbn. by rewrite Hd.
Qed.

Lemma looked_refl s K FL : cache_ok s K FL → looked s K [] s K FL.
Proof.
  intros Hok. split; try done.
  - intros key p (HK & _)%hit_of_Some. done.
  - intros key p x HK Hx. exists x. split; [done|]. split; try done; [by left|]. unfold occurs. cbn. lia.
Qed.

Section looked.
Context {s0 : cache} {K0 : gmap (list Z) Z} {FL0 : list Z} (Hok0 : cache_ok s0 K0 FL0).
Context (Hpast : ∀ p x, meta s0 !! p = Some x → time x ≤ current_time s0).

(** A slot found again is alive exactly when it was. *)
Lemma pinned_dead s x y n :
  log s = log s0 → cfg s = cfg s0 → current_time s = current_time s0 → time x ≤ current_time s0 →
  pinned s0 n x y → dead s y = dead s0 x.
Proof.
  intros Hl Hc Ht Hp [P1 _ _ P4 _]. unfold dead, item_flushed. rewrite Hl, Hc, Ht, P1.
  destruct P4 as [->|[Hd ->]]; [done|]. unfold dead, item_flushed in Hd.
  apply orb_false_iff in Hd as [Hf _]. f_equal.
  destruct ((oldest_live (cfg s0) =? 0) || (oldest_live (cfg s0) >? current_time s0)); [done|].
  apply orb_false_iff in Hf as [Hf Hf2]. rewrite Hf, Hf2, orb_false_r. apply Z.leb_gt in Hf. apply Z.leb_gt. lia.
Qed.

Lemma looked_slot H s K FL key p :
  looked s0 K0 H s K FL → K !! key = Some p →
  ∃ x y, meta s0 !! p = Some x ∧ meta s !! p = Some y ∧ pinned s0 (occurs p H) x y ∧ dead s y = dead s0 x ∧
    is_linked y ∧ ¬ is_slabbed y ∧ item_key (log s0) (item x) = key.
Proof.
  intros HL HK. pose proof (lk_sub _ _ _ _ _ _ HL _ _ HK) as HK0.
  destruct (ok_linked _ _ _ Hok0 _ _ HK0) as (x & Hx & Hlx & _).
  destruct (lk_slot _ _ _ _ _ _ HL _ _ _ HK Hx) as (y & Hy & Hp).
  destruct (ok_linked _ _ _ (lk_ok _ _ _ _ _ _ HL) _ _ HK) as (y' & Hy' & Hly & Hsy & _).
  assert (y' = y) as -> by congruence. exists x, y.
  split_and!; try done.
  - eapply (pinned_dead s x y); [by destruct HL..|by eapply Hpast|done].
  - destruct (ok_rep _ _ _ Hok0) as [C HR]. pose proof (ok_table _ _ _ Hok0 _ _ Hx Hlx) as Ht.
    by apply (repr_inj HR _ _ p).
Qed.

(** Changing counters, or the time of a live slot that is found. *)
Lemma looked_cnt H s K FL c : looked s0 K0 H s K FL → looked s0 K0 H (set_cnt c s) K FL.
Proof. intros []. split; try done. by apply ok_cnt. Qed.

Lemma looked_time H s K FL key p y t :
  looked s0 K0 H s K FL → hit_of s0 K0 key = Some p → meta s !! p = Some y → t = time y ∨ t = current_time s →
  looked s0 K0 H (set_meta (<[p := set_time t y]> (meta s)) s) K FL.
Proof.
  intros HL Hh Hy Ht. pose proof (lk_live _ _ _ _ _ _ HL _ _ Hh) as HK.
  destruct (looked_slot _ _ _ _ _ _ HL HK) as (x & y' & Hx & Hy' & Hp & _ & Hly & Hsy & _).
  assert (y' = y) as -> by congruence.
  apply hit_of_Some in Hh as (_ & x' & Hx' & Hd). assert (x' = x) as -> by congruence.
  destruct HL as [L1 L2 L3 L4 L5 L6 L7 L8]. split; try done.
  - eapply ok_upd_meta; try done. intros _. cbn.
    destruct (ok_linked _ _ _ L1 _ _ HK) as (y2 & Hy2 & _ & _ & Hr). by assert (y2 = y) as -> by congruence.
  - intros k q xq HKq Hxq. cbn. destruct (decide (q = p)) as [->|Hq].
    + rewrite lookup_insert_eq. eexists. split; [done|]. assert (xq = x) as -> by congruence.
      destruct Hp as [P1 P2 P3 P4 P5]. split; try done. cbn. destruct Ht as [->|Ht]; [done|].
      right. by rewrite Ht.
    + rewrite lookup_insert_ne by done. by eapply L8.
Qed.

Lemma occurs_snoc p q H : occurs p (H ++ [q]) = occurs p H + if decide (q = p) then 1 else 0.
Proof.
  unfold occurs. rewrite count_occ_app. cbn. destruct (Z.eq_dec q p); case_decide; try done; lia.
Qed.

Lemma looked_get H s K FL key :
  looked s0 K0 H s K FL → Forall is_byte key →
  (∀ p x, K0 !! key = Some p → meta s0 !! p = Some x → refcount x + Z.of_nat (length H) < 2 ^ 16 - 1) →
  wp (item_get key) s (λ r s', r = hit_of s0 K0 key ∧
    ∃ K' FL', looked s0 K0 (H ++ option_list r) s' K' FL').
Proof.
  intros HL Hb Href. pose proof (lk_ok _ _ _ _ _ _ HL) as Hok.
  assert (∀ p x, K !! key = Some p → meta s !! p = Some x → refcount x < 2 ^ 16 - 1) as Hr.
  { intros p y HK Hy. destruct (looked_slot _ _ _ _ _ _ HL HK) as (x & y' & Hx & Hy' & Hp & _).
    assert (y' = y) as -> by congruence. rewrite (pin_count _ _ _ _ Hp).
    specialize (Href p x (lk_sub _ _ _ _ _ _ HL _ _ HK) Hx).
    pose proof (count_occ_bound Z.eq_dec p H). unfold occurs. lia. }
  unfold item_get. wp_step. wp_step.
  eapply wp_mono; [|apply (do_item_get_spec s K FL key Hok Hb Hr)]. intros r s' Hpost.
  destruct (K !! key) as [p|] eqn:HK.
  - destruct (looked_slot _ _ _ _ _ _ HL HK) as (x & y & Hx & Hy & Hp & Hdd & Hly & Hsy & Hkey).
    destruct Hpost as (y' & Hy' & Hpost). assert (y' = y) as -> by congruence.
    rewrite Hdd in Hpost. pose proof (lk_sub _ _ _ _ _ _ HL _ _ HK) as HK0.
    destruct (dead s0 x) eqn:Hd.
    + destruct Hpost as (-> & [F1 F2 F3 F4 F5 F6] & Hok' & _). split.
      { unfold hit_of. rewrite HK0. cbn. rewrite Hx. cbn. by rewrite Hd. }
      cbn. rewrite app_nil_r. eexists _, _. destruct HL as [L1 L2 L3 L4 L5 L6 L7 L8].
      split; try congruence; [exact Hok'|..].
      * intros k q Hk. apply lookup_delete_Some in Hk as [_ Hk]. by apply L6.
      * intros k q Hk. destruct (decide (k = key)) as [->|Hne].
        { apply hit_of_Some in Hk as (Hk & x' & Hx' & Hd'). assert (q = p) as -> by congruence.
          assert (x' = x) as -> by congruence. congruence. }
        rewrite lookup_delete_ne by done. by apply L7.
      * intros k q xq Hk Hxq. apply lookup_delete_Some in Hk as [Hne Hk].
        destruct (L8 _ _ _ Hk Hxq) as (yq & Hyq & Hpq).
        destruct (ok_linked _ _ _ L1 _ _ Hk) as (yq' & Hyq' & _ & Hsq & _).
        assert (yq' = yq) as -> by congruence.
        destruct (F6 q yq) as [v Hv]; [|by eapply free_slot|done|].
        { intros ->. apply Hne. destruct (ok_rep _ _ _ Hok) as [C HR]. by apply (repr_inj HR _ _ p). }
        exists (set_h_next v yq). split; [done|]. by destruct Hpq.
    + destruct Hpost as (-> & Hok' & ->). split.
      { symmetry. apply hit_of_Some. eauto. }
      cbn. exists K, FL. destruct HL as [L1 L2 L3 L4 L5 L6 L7 L8]. split; try done.
      intros k q xq Hk Hxq. cbn. rewrite occurs_snoc. destruct (decide (q = p)) as [->|Hq].
      * rewrite lookup_insert_eq. eexists. split; [done|]. assert (xq = x) as -> by congruence.
        destruct Hp as [P1 P2 P3 P4 P5]. split; try done. cbn. rewrite decide_True by done. lia.
      * rewrite lookup_insert_ne by done. destruct (L8 _ _ _ Hk Hxq) as (yq & Hyq & Hpq).
        exists yq. split; [done|]. rewrite decide_False by done. by rewrite Z.add_0_r.
  - destruct Hpost as [-> ->]. split.
    { destruct (hit_of s0 K0 key) as [p|] eqn:Hh; [|done]. pose proof (lk_live _ _ _ _ _ _ HL _ _ Hh). congruence. }
    cbn. rewrite app_nil_r. eauto.
Qed.
End looked.

(** The position of the transmission is not part of what is queued. *)
Lemma out_ok_msgcurr w V n st :
  out_ok w V → out_ok (set_cn (upd_ov (set_msgcurr n) (upd_core (set_state st) (cn w))) w) V.
Proof. intros [[] H]. by split. Qed.

(** ** One key *)
(** The block of an item in a reply. *)
Definition value_block (lg : memory) (d : Z) : list Z :=
  str "VALUE " ++ item_key lg d ++ load_bytes lg (ITEM_suffix lg d) (Z.to_nat (nsuffix lg d)) ++ item_value lg d.
Definition reply_to (s : cache) (K : gmap (list Z) Z) (key : list Z) : list Z :=
  match hit_of s K key ≫= λ p, meta s !! p with
  | Some x => value_block (log s) (item x)
  | None => []
  end.

(** What a get leaves alone. *)
Record get_frame (w0 w : world) : Prop := {
  gf_buffers : same_buffers w0 w;
  gf_core : core (cn w) = core (cn w0);
  gf_rd : rd (cn w) = rd (cn w0);
  gf_wr : wr (cn w) = wr (cn w0);
  gf_nr : nr (cn w) = nr (cn w0);
  gf_ud : ud (cn w) = ud (cn w0);
  gf_en : en w = en w0;
  gf_px : px w = px w0
}.
#[global] Instance get_frame_refl : Reflexive get_frame.
Proof. by split. Qed.
#[global] Instance get_frame_trans : Transitive get_frame.
Proof. intros w1 w2 w3 [] []. split; try congruence. by etrans. Qed.

(** After the keys [ks]. *)
Record get_inv (w0 : world) (K0 : gmap (list Z) Z) (V0 : list (list iovec)) (ks : list (list Z))
    (w : world) : Prop := {
  gi_looked : ∃ K FL, looked (kv w0) K0 (omap (hit_of (kv w0) K0) ks) (kv w) K FL;
  gi_frame : get_frame w0 w;
  gi_queue : ∃ V, out_ok w V ∧ V ≠ [] ∧
    queued_bytes w V = queued_bytes w0 V0 ++ concat (reply_to (kv w0) K0 <$> ks);
  gi_items : ∀ i p, omap (hit_of (kv w0) K0) ks !! i = Some p → ilist (il (cn w)) !! Z.of_nat i = Some p;
  gi_room : 0 < isize (il (cn w)) ∧ Z.of_nat (length (omap (hit_of (kv w0) K0) ks)) ≤ isize (il (cn w))
}.

Section get.
Context (w0 : world) (K0 : gmap (list Z) Z) (FL0 : list Z) (V0 : list (list iovec)) (N : nat).
Context (Hok0 : cache_ok (kv w0) K0 FL0) (Hm0 : mallocs (en w0) = []).
Context (Hdetail : detail_enabled (cfg (kv w0)) = 0) (Hlru : lru_log_enabled (cfg (kv w0)) = false).
Context (Hpast : ∀ p x, meta (kv w0) !! p = Some x → time x ≤ current_time (kv w0)).
Context (Hfew : ∀ p x, meta (kv w0) !! p = Some x → is_linked x → refcount x + Z.of_nat N < 2 ^ 16 - 1).

Notation hit := (hit_of (kv w0) K0).
Notation inv := (get_inv w0 K0 V0).

Lemma item_lens H s K FL key p y :
  looked (kv w0) K0 H s K FL → K !! key = Some p → meta s !! p = Some y →
  let lg := log s in let d := item y in
  0 ≤ nkey lg d < 2 ^ 31 ∧ 0 ≤ nsuffix lg d ∧ 0 ≤ nbytes lg d ∧ nsuffix lg d + nbytes lg d < 2 ^ 31.
Proof.
  intros HL HK Hy lg d. destruct (looked_slot Hok0 Hpast _ _ _ _ _ _ HL HK) as (x & y' & _ & Hy' & _ & _ & Hly & _).
  assert (y' = y) as -> by congruence.
  pose proof (ok_live _ _ _ (lk_ok _ _ _ _ _ _ HL) _ _ Hy Hly) as [L1 L2 L3 L4].
  pose proof (ok_geo _ _ _ (lk_ok _ _ _ _ _ _ HL)) as [Hg _].
  pose proof (nkey_range lg d). pose proof (nsuffix_range lg d). pose proof (cas_size_le lg d L2).
  pose proof (cas_size_range lg d). unfold lg, d in *. lia.
Qed.

Lemma queue_value_spec w V lg d :
  mallocs (en w) = [] → out_ok w V → V ≠ [] → log (kv w) = lg →
  0 ≤ nkey lg d < 2 ^ 31 → 0 ≤ nsuffix lg d → 0 ≤ nbytes lg d → nsuffix lg d + nbytes lg d < 2 ^ 31 →
  wp (queue_value lg d) w (λ r w', r = true ∧ ∃ o V', w' = with_ov o w ∧ out_ok w' V' ∧ V' ≠ [] ∧
    queued_bytes w' V' = queued_bytes w V ++ value_block lg d).
Proof.
  intros Hm HV Hne Hlg Hk Hs Hb Hsb. unfold queue_value. cbn [add_iovs].
  io_step. eapply wp_add_iov; [exact Hm|exact HV|exact Hne|lia|cbn; lia|].
  intros o1 V1 HV1 Hne1 Hq1. rewrite Z.eqb_refl. cbn [negb].
  io_step. eapply wp_add_iov; [exact Hm|exact HV1|exact Hne1|lia|exact I|].
  intros o2 V2 HV2 Hne2 Hq2. rewrite Z.eqb_refl. cbn [negb].
  io_step. eapply wp_add_iov; [exact Hm|exact HV2|exact Hne2|lia|exact I|].
  intros o3 V3 HV3 Hne3 Hq3. rewrite Z.eqb_refl. cbn [negb]. io_step.
  split; [done|]. exists o3, V3. split_and!; [done|done|done|].
  change (with_ov o3 (with_ov o2 (with_ov o1 w))) with (with_ov o3 w) in *.
  change (with_ov o2 (with_ov o1 w)) with (with_ov o2 w) in *.
  rewrite Hq3, Hq2, Hq1, <- !app_assoc. unfold value_block. f_equal. f_equal.
  unfold read_ptr. cbn [preg poff kv with_ov set_cn]. rewrite Hlg. unfold item_key. f_equal.
  rewrite Z2Nat.inj_add by lia. rewrite load_bytes_app. f_equal. unfold item_value. f_equal.
  unfold ITEM_suffix, ITEM_data. rewrite Z2Nat.id by lia. lia.
Qed.

(** Changes of the cache that keep the log, and of the item list. *)
Lemma get_frame_kv w s : log s = log (kv w) → get_frame w (set_kv s w).
Proof. intros Hl. by split. Qed.
Lemma get_frame_il w f : get_frame w (set_cn (upd_il f (cn w)) w).
Proof. by split. Qed.
Lemma get_frame_ov w o : get_frame w (with_ov o w).
Proof. by split. Qed.

Lemma keep_hit_spec w H K FL key p cls i :
  looked (kv w0) K0 H (kv w) K FL → hit key = Some p →
  wp (keep_hit p cls i) w (λ _ w', looked (kv w0) K0 H (kv w') K FL ∧ get_frame w w' ∧
    ov (cn w') = ov (cn w) ∧ il (cn w') = set_ilist (<[Z.of_nat i := p]> (ilist (il (cn w)))) (il (cn w))).
Proof.
  intros HL Hh. pose proof (lk_live _ _ _ _ _ _ HL _ _ Hh) as HK.
  destruct (looked_slot Hok0 Hpast _ _ _ _ _ _ HL HK) as (x & y & Hx & Hy & _ & _ & _ & Hsy & _).
  unfold keep_hit. io_step. apply wp_srv. apply wp_upd_cnt. io_step. apply wp_srv. apply wp_upd_cnt.
  io_step. apply wp_srv. match goal with |- wp _ ?s _ => set (s1 := s) end.
  assert (looked (kv w0) K0 H s1 K FL) as HL1 by (by do 2 apply looked_cnt).
  unfold item_update. wp_step. unfold item_hv. wp_steps.
  eapply wp_mono; [|apply (do_item_update_spec s1 p y Hy Hsy); by rewrite (lk_cfg _ _ _ _ _ _ HL1)].
  intros r s2 (-> & t & Ht & ->). io_steps. split_and!.
  - cbn. by apply (looked_time Hok0 Hpast H s1 K FL key p y t HL1 Hh Hy).
  - split; done.
  - done.
  - done.
Qed.

Lemma omap_snoc_hit (ks : list (list Z)) key : omap hit (ks ++ [key]) = omap hit ks ++ option_list (hit key).
Proof. by rewrite omap_app. Qed.

Lemma length_hits (ks : list (list Z)) : (length (omap hit ks) ≤ length ks)%nat.
Proof. induction ks as [|k ks IH]; [done|]. cbn. destruct (hit k); cbn; lia. Qed.

Lemma ensure_ilist_spec w i :
  mallocs (en w) = [] → 0 < isize (il (cn w)) → Z.of_nat i ≤ isize (il (cn w)) →
  wp (ensure_ilist i) w (λ r w', r = true ∧ kv w' = kv w ∧ get_frame w w' ∧ ov (cn w') = ov (cn w) ∧
    ilist (il (cn w')) = ilist (il (cn w)) ∧ Z.of_nat i < isize (il (cn w'))).
Proof.
  intros Hm H1 H2. unfold ensure_ilist. io_steps. rewrite Z.geb_leb. apply wp_ifw; intros Hi; reflect_bools.
  - io_step. apply wp_malloc_counted; [done|]. cbn [when]. io_steps. split_and!; try done. cbn. lia.
  - io_step. split_and!; try done; try lia.
Qed.

Lemma get_hit_spec w ks key p K FL :
  looked (kv w0) K0 (omap hit ks ++ [p]) (kv w) K FL → hit key = Some p →
  get_frame w0 w → (∃ V, out_ok w V ∧ V ≠ [] ∧
    queued_bytes w V = queued_bytes w0 V0 ++ concat (reply_to (kv w0) K0 <$> ks)) →
  (∀ i q, omap hit ks !! i = Some q → ilist (il (cn w)) !! Z.of_nat i = Some q) →
  0 < isize (il (cn w)) → Z.of_nat (length (omap hit ks)) ≤ isize (il (cn w)) →
  wp (get_hit false p (length (omap hit ks))) w (λ r w',
    r = TurnNext (length (omap hit (ks ++ [key]))) ∧ inv (ks ++ [key]) w').
Proof.
  intros HL Hh HF (V & HV & Hne & Hq) Hil Hs1 Hs2.
  pose proof (lk_live _ _ _ _ _ _ HL _ _ Hh) as HK.
  destruct (looked_slot Hok0 Hpast _ _ _ _ _ _ HL HK) as (x & y & Hx & Hy & Hp & _ & _ & _ & Hkey).
  destruct (item_lens _ _ _ _ _ _ _ HL HK Hy) as (Hl1 & Hl2 & Hl3 & Hl4).
  assert (mallocs (en w) = []) as Hm by (by rewrite (gf_en _ _ HF)).
  unfold get_hit. io_step. apply wp_srv. eapply wp_get_meta; [exact Hy|]. cbv beta.
  rewrite set_kv_id. io_step.
  eapply wp_mono; [|by apply (ensure_ilist_spec w _ Hm Hs1 Hs2)].
  intros r w1 (-> & Hkv1 & HF1 & Ho1 & Hi1 & Hs3). cbn [negb]. io_steps.
  eapply wp_mono; [|apply (queue_value_spec w1 V (log (kv w1)) (item y))].
  2: { by rewrite (gf_en _ _ HF1). }
  2: { eapply out_ok_frame; [apply HF1|exact Ho1|exact HV]. }
  2: exact Hne. 2: done. 2-5: rewrite Hkv1; lia.
  intros r w2 (-> & o & V2 & -> & HV2 & Hne2 & Hq2). cbn [negb]. io_step.
  eapply wp_mono; [|apply (keep_hit_spec (with_ov o w1) (omap hit ks ++ [p]) K FL key p); [|exact Hh]].
  2: { change (kv (with_ov o w1)) with (kv w1). by rewrite Hkv1. }
  intros _ w3 (HL3 & HF3 & Ho3 & Hi3). io_step. rewrite omap_snoc_hit, Hh. cbn [option_list].
  assert (get_frame w0 w3) as HF03 by (etrans; [exact HF|]; etrans; [exact HF1|]; etrans; [apply get_frame_ov|exact HF3]).
  split; [by rewrite length_app, Nat.add_1_r|]. split.
  - exists K, FL. by rewrite omap_snoc_hit, Hh.
  - exact HF03.
  - exists V2. split_and!; [by eapply out_ok_frame; [apply HF3|..]|done|].
    rewrite (queued_bytes_frame (with_ov o w1) w3 V2) by apply HF3.
    rewrite Hq2, (queued_bytes_frame w w1 V), Hq by apply HF1.
    rewrite fmap_app, concat_app, <- app_assoc. do 2 f_equal. cbn. rewrite app_nil_r.
    unfold reply_to. rewrite Hh. cbn. rewrite Hx, Hkv1, (lk_log _ _ _ _ _ _ HL). by rewrite (pin_item _ _ _ _ Hp).
  - rewrite omap_snoc_hit, Hh. cbn. intros i q Hiq. rewrite Hi3. cbn [ilist set_ilist].
    change (il (cn (with_ov o w1))) with (il (cn w1)).
    apply lookup_app_Some in Hiq as [Hiq|[Hge Hiq]].
    + rewrite lookup_insert_ne; [|apply lookup_lt_Some in Hiq; lia]. rewrite Hi1. by apply Hil.
    + apply list_lookup_singleton_Some in Hiq as [Hz ->]. replace i with (length (omap hit ks)) by lia.
      apply lookup_insert_eq.
  - rewrite omap_snoc_hit, Hh, length_app. cbn. rewrite Hi3. cbn. change (il (cn (with_ov o w1))) with (il (cn w1)). lia.
Qed.

Lemma get_key_spec w ks key :
  inv ks w → Forall is_byte key → Z.of_nat (length key) ≤ KEY_MAX_LENGTH → (length ks < N)%nat →
  wp (get_key false key (Z.of_nat (length key)) (length (omap hit ks))) w (λ r w',
    r = TurnNext (length (omap hit (ks ++ [key]))) ∧ inv (ks ++ [key]) w').
Proof.
  intros [(K & FL & HL) HF HQ HI [HR1 HR2]] Hb Hlen HN. unfold get_key.
  replace (Z.of_nat (length key) >? KEY_MAX_LENGTH) with false by (symmetry; rewrite Z.gtb_ltb; apply Z.ltb_ge; lia).
  io_step. apply wp_srv. eapply wp_mono; [|apply (looked_get Hok0 Hpast _ _ _ _ key HL Hb)].
  2: { intros p x Hp Hx. destruct (ok_linked _ _ _ Hok0 _ _ Hp) as (x' & Hx' & Hl & _).
       assert (x' = x) as -> by congruence. specialize (Hfew p x Hx Hl).
       pose proof (length_hits ks). lia. }
  intros r s' (-> & K' & FL' & HL'). unfold record_prefix. io_step. io_step. io_step.
  change (cfg (kv (set_kv s' w))) with (cfg s'). rewrite (lk_cfg _ _ _ _ _ _ HL'), Hdetail. cbn [Z.eqb negb when]. io_step.
  assert (get_frame w (set_kv s' w)) as HF'.
  { apply get_frame_kv. by rewrite (lk_log _ _ _ _ _ _ HL'), (lk_log _ _ _ _ _ _ HL). }
  destruct (hit key) as [p|] eqn:Hh; cbn [option_list] in HL'.
  - apply (get_hit_spec (set_kv s' w) ks key p K' FL' HL' Hh); try done; [by etrans|].
    destruct HQ as (V & HV & Hne & Hq). exists V. split_and!; [by eapply out_ok_frame; [apply HF'|..]|done|].
    rewrite <- Hq. by apply queued_bytes_frame, HF'.
  - rewrite app_nil_r in HL'. unfold get_miss. io_step. apply wp_srv, wp_upd_cnt. io_step. apply wp_srv, wp_upd_cnt.
    io_step. rewrite omap_snoc_hit, Hh. cbn. rewrite app_nil_r. split; [done|].
    assert (∀ c1 c2, get_frame w (set_kv (set_cnt c1 (set_cnt c2 s')) w)) as HF2 by (intros; by apply get_frame_kv, HF').
    split.
    + exists K', FL'. rewrite omap_snoc_hit, Hh. cbn. rewrite app_nil_r. by do 2 apply looked_cnt.
    + etrans; [exact HF|]. apply HF2.
    + destruct HQ as (V & HV & Hne & Hq). exists V. split_and!; [by eapply out_ok_frame; [apply HF2|..]|done|].
      rewrite (queued_bytes_frame w _ V) by apply HF2. rewrite Hq, fmap_app, concat_app. cbn.
      unfold reply_to at 3. rewrite Hh. cbn. by rewrite app_nil_r.
    + rewrite omap_snoc_hit, Hh. cbn. rewrite app_nil_r. exact HI.
    + rewrite omap_snoc_hit, Hh. cbn. rewrite app_nil_r. done.
Qed.

(** ** All keys *)
Context (keys : list (list Z)) (HN : length keys = N) (Hsmall : Z.of_nat N < 2 ^ 32).
Context (Hkeys : Forall (λ k, k ≠ [] ∧ Forall is_byte k ∧ Z.of_nat (length k) ≤ KEY_MAX_LENGTH) keys).

(** With [us] cut already and [rest] to be cut, at most [n] more turns. *)
Definition get_loop_inv (n : Z) (x : list token * nat) (w : world) : Prop :=
  ∃ ks us rest, x = ((word_token <$> us) ++ [Token (blank_rest rest) 0], length (omap hit ks)) ∧
    ks ++ us ++ words rest = keys ∧ inv ks w ∧
    n = 2 * Z.of_nat (length (us ++ words rest)) + (match us with [] => 1 | _ => 0 end).

Lemma get_body_spec n x w :
  get_loop_inv n x w →
  wp (get_body false x) w (λ r w', match r with
    | inl x' => ∃ n', 0 ≤ n' < n ∧ get_loop_inv n' x' w'
    | inr v => v = Some (length (omap hit keys), None) ∧ inv keys w'
    end).
Proof.
  intros (ks & us & rest & -> & Hk & Hinv & ->). unfold get_body.
  destruct us as [|u us]; cbn [app fmap list_fmap].
  - cbn [tlen value]. rewrite Z.eqb_refl. io_step.
    destruct rest as [|b rest]; cbn [blank_rest].
    { cbn in Hk. rewrite app_nil_r in Hk. by subst ks. }
    destruct (tokenize_spec (b :: rest) MAX_TOKENS ltac:(unfold MAX_TOKENS; lia)) as (rest' & Hw & -> & Hr & _).
    destruct (words (b :: rest)) as [|u us] eqn:Ew.
    { destruct Hr as [-> | Hr]; [|cbn in Hr; lia]. cbn. cbn in Hk. rewrite app_nil_r in Hk. by subst ks. }
    cbn [take MAX_TOKENS Nat.sub fmap list_fmap app next_tokens word_token value].
    exists (2 * Z.of_nat (length (u :: us))). split; [cbn; lia|].
    exists ks, (u :: take 6 us), rest'. split_and!; [done| |done|].
    + rewrite Hw. cbn. rewrite take_drop. exact Hk.
    + rewrite Hw. cbn. rewrite take_drop. lia.
  - assert (u ∈ keys) as Hu by (rewrite <- Hk; set_solver).
    rewrite list.Forall_forall in Hkeys. destruct (Hkeys u Hu) as (Hune & Hub & Hul).
    cbn [word_token tlen value]. destruct (Z.eqb_spec (Z.of_nat (length u)) 0) as [Hz|_]; [by destruct u|].
    io_step. eapply wp_mono; [|apply (get_key_spec w ks u Hinv Hub Hul)].
    2: { rewrite <- HN, <- Hk, !length_app. cbn. lia. }
    intros r w' (-> & Hinv'). io_step.
    exists (2 * Z.of_nat (length (us ++ words rest)) + match us with [] => 1 | _ => 0 end).
    split; [cbn; destruct us; lia|]. exists (ks ++ [u]), us, rest. split_and!; try done.
    by rewrite <- app_assoc.
Qed.

Lemma get_loop_spec w ts rest :
  inv [] w → ts = (word_token <$> take 6 keys) ++ [Token (blank_rest rest) 0] → words rest = drop 6 keys →
  wp (loop FUEL (get_body false) (ts, O)) w (λ r w',
    r = Some (length (omap hit keys), None) ∧ inv keys w').
Proof.
  intros Hinv -> Hr. eapply (loop_rule FUEL _ get_loop_inv).
  - apply get_body_spec.
  - exists [], (take 6 keys), rest. split_and!; [done| |done|done]. cbn. by rewrite Hr, take_drop.
  - rewrite Hr, take_drop. change (2 ^ Z.of_nat FUEL) with (2 ^ 64). destruct (take 6 keys); lia.
Qed.

(** The whole command. *)
Lemma process_get_spec w ts rest t0 :
  inv [] w → is_udp (cn w0) = false →
  ts = t0 :: (word_token <$> take 6 keys) ++ [Token (blank_rest rest) 0] → words rest = drop 6 keys →
  wp (process_get_command ts false) w (λ _ w',
    state (core (cn w')) = conn_mwrite ∧ msgcurr (ov (cn w')) = 0 ∧
    icurr (il (cn w')) = 0 ∧ ileft (il (cn w')) = Z.of_nat (length (omap hit keys)) ∧
    (∀ i p, omap hit keys !! i = Some p → ilist (il (cn w')) !! Z.of_nat i = Some p) ∧
    (∃ K FL, looked (kv w0) K0 (omap hit keys) (kv w') K FL) ∧
    ∃ V, out_ok w' V ∧ queued_bytes w' V =
      queued_bytes w0 V0 ++ concat (reply_to (kv w0) K0 <$> keys) ++ str "END" ++ crlf).
Proof.
  intros Hinv Hudp -> Hr. unfold process_get_command. cbn [drop]. io_step.
  eapply wp_mono; [|by eapply get_loop_spec].
  intros r w1 (-> & [HL HF (V & HV & Hne & Hq) HI HR]). cbn [when].
  io_step. io_step. io_step. io_step. io_step. io_step.
  set (w2 := set_cn _ w1).
  assert (same_buffers w1 w2) as Hsb by (by split).
  eapply (wp_add_iov w2 V); [by rewrite <- Hm0, <- (gf_en _ _ HF)|by eapply out_ok_frame|done|lia|cbn; lia|].
  intros o V' HV' Hne' Hq'. io_step. io_step. rewrite Z.eqb_refl. cbn [negb].
  change (is_udp (cn (with_ov o w2))) with (is_udp (cn w1)).
  assert (is_udp (cn w1) = false) as ->.
  { by rewrite (is_udp_frame _ _ (gf_buffers _ _ HF)). }
  io_step. cbv iota. io_step. io_step. io_step.
  split_and!; try done.
  exists V'. split; [exact (out_ok_msgcurr (with_ov o w2) V' 0 conn_mwrite HV')|].
  rewrite (queued_bytes_frame (with_ov o w2)) by (by split).
  rewrite Hq', (queued_bytes_frame w1 w2), Hq by done. by rewrite <- app_assoc.
Qed.
End get.

(** ** Properties *)
(** A connection on which a new command may be prepared. *)
Record conn_ready (c : conn) : Prop := {
  cr_msg : 0 < msgsize (ov c);
  cr_iov : 0 < iovsize (ov c);
  cr_items : 0 < isize (il c)
}.

Lemma reset_output_spec w :
  0 < msgsize (ov (cn w)) → 0 < iovsize (ov (cn w)) →
  ∃ o, reset_output w = Ok (tt, with_ov o w) ∧ out_repr o [].
Proof.
  intros H1 H2. eexists. split; [reflexivity|]. split; cbn; try done; lia.
Qed.

(** The first steps of [process_command]: one empty message. *)
Lemma command_start w :
  mallocs (en w) = [] → 0 < msgsize (ov (cn w)) → 0 < iovsize (ov (cn w)) →
  ∃ o, (_ ← reset_output; add_msghdr) w = Ok (0, with_ov o w) ∧
    out_ok (with_ov o w) [fresh_msg (is_udp (cn w))] ∧ queued_bytes (with_ov o w) [fresh_msg (is_udp (cn w))] = [].
Proof.
  intros Hm H1 H2. destruct (reset_output_spec w H1 H2) as (o & E & Hr).
  rewrite (bind_Ok _ _ _ _ _ E).
  destruct (add_msghdr_spec 2 (with_ov o w) [] Hm Hr) as (o2 & E2 & Hr2).
  exists o2. change (is_udp (cn (with_ov o w))) with (is_udp (cn w)) in Hr2. split_and!.
  - exact E2.
  - split; [exact Hr2|]. apply Forall_singleton. apply fresh_msg_ok.
  - unfold queued_bytes, pieces. change (is_udp (cn (with_ov o2 w))) with (is_udp (cn w)).
    by destruct (is_udp (cn w)).
Qed.

Lemma process_command_start `{background} inp w line (Q : unit → world → Prop) :
  mallocs (en w) = [] → 0 < msgsize (ov (cn w)) → 0 < iovsize (ov (cn w)) →
  (∀ o, out_ok (with_ov o w) [fresh_msg (is_udp (cn w))] →
     queued_bytes (with_ov o w) [fresh_msg (is_udp (cn w))] = [] →
     wp (dispatch_command inp (tokenize_command line MAX_TOKENS)) (with_ov o w) Q) →
  wp (process_command inp line) w Q.
Proof.
  intros Hm H1 H2 HQ. destruct (command_start w Hm H1 H2) as (o & E & Ho & Hq).
  destruct (HQ o Ho Hq) as (a & w' & E' & HQ'). exists a, w'. split; [|done].
  unfold process_command. rewrite <- bind_assocw. rewrite (bind_Ok _ _ _ _ _ E). exact E'.
Qed.

(** C2: the get command, on a TCP connection, with no allocation failing and with
    detailed statistics and LRU logging off (and no access time in the future).  For a request of at least one key
    of at most 250 bytes, spread over any number of rounds of the tokenizer, with
    so few keys that no item's 16-bit reference count passes 65534 (fewer than
    65534 less the references it has), the command ends with a reply to send that
    is, byte for byte, the VALUE blocks of the keys bound to a live item, in the
    order of the request, followed by END; each of those items is in the list to
    be released afterwards and holds one more reference per occurrence, no other
    reference changes, and only keys of dead items disappear from the cache. *)
Theorem get_command_correct `{background} (inp : stat_inputs) (w : world) (K : gmap (list Z) Z) (FL : list Z)
    (line cmd : list Z) (keys : list (list Z))
    (Hline : words line = cmd :: keys) (Hcmd : cmd = str "get" ∨ cmd = str "bget")
    (Hne : keys ≠ []) (Hmany : Z.of_nat (length keys) < 2 ^ 32)
    (Hkeys : Forall (λ k, Forall is_byte k ∧ Z.of_nat (length k) ≤ KEY_MAX_LENGTH) keys)
    (Hok : cache_ok (kv w) K FL) (Hready : conn_ready (cn w)) (Htcp : is_udp (cn w) = false)
    (Hm : mallocs (en w) = []) (Hdetail : detail_enabled (cfg (kv w)) = 0)
    (Hlru : lru_log_enabled (cfg (kv w)) = false)
    (Hpast : ∀ p x, meta (kv w) !! p = Some x → time x ≤ current_time (kv w))
    (Hfew : ∀ p x, meta (kv w) !! p = Some x → is_linked x →
       refcount x + Z.of_nat (length keys) < 2 ^ 16 - 1) :
  let hits := omap (hit_of (kv w) K) keys in
  ∃ w', process_command inp line w = Ok (tt, w') ∧
    state (core (cn w')) = conn_mwrite ∧ msgcurr (ov (cn w')) = 0 ∧
    icurr (il (cn w')) = 0 ∧ ileft (il (cn w')) = Z.of_nat (length hits) ∧
    (∀ i p, hits !! i = Some p → ilist (il (cn w')) !! Z.of_nat i = Some p) ∧
    (∃ K' FL', looked (kv w) K hits (kv w') K' FL') ∧
    ∃ V, out_ok w' V ∧
      queued_bytes w' V = concat (reply_to (kv w) K <$> keys) ++ str "END" ++ crlf.
Proof.
  intros hits. destruct Hready as [R1 R2 R3].
  enough (wp (process_command inp line) w (λ _ w',
    state (core (cn w')) = conn_mwrite ∧ msgcurr (ov (cn w')) = 0 ∧
    icurr (il (cn w')) = 0 ∧ ileft (il (cn w')) = Z.of_nat (length hits) ∧
    (∀ i p, hits !! i = Some p → ilist (il (cn w')) !! Z.of_nat i = Some p) ∧
    (∃ K' FL', looked (kv w) K hits (kv w') K' FL') ∧
    ∃ V, out_ok w' V ∧
      queued_bytes w' V = concat (reply_to (kv w) K <$> keys) ++ str "END" ++ crlf))
    as ([] & w' & E & HQ) by (exists w'; by split).
  apply process_command_start; [done..|]. intros o Ho Hq. rewrite Htcp in Ho, Hq. unfold dispatch_command.
  destruct (tokenize_spec line MAX_TOKENS ltac:(unfold MAX_TOKENS; lia)) as (rest & Hw & -> & _).
  rewrite Hline. rewrite Hline in Hw. cbn [MAX_TOKENS Nat.sub take drop fmap list_fmap app] in Hw |- *.
  destruct keys as [|k keys]; [done|].
  replace ((3 <=? _)%nat && _) with true.
  2: { symmetry. apply andb_true_iff. split; [apply Nat.leb_le; cbn; rewrite length_app; cbn; lia|].
       unfold tok_is. cbn. destruct Hcmd as [-> | ->]; done. }
  eapply wp_mono; [|apply (process_get_spec (with_ov o w) K FL [fresh_msg false] (length (k :: keys))
    ) with (keys := k :: keys) (rest := rest) (t0 := word_token cmd)].
  1: intros u w' H'; by rewrite Hq in H'.
  all: try done.
  - apply list.Forall_forall. intros u Hu. rewrite list.Forall_forall in Hkeys.
    split; [|by apply Hkeys]. apply (words_ok line). rewrite Hline. set_solver.
  - split; try done.
    + exists K, FL. by apply looked_refl.
    + exists [fresh_msg false]. split_and!; [done|done|]. by rewrite app_nil_r.
    + cbn. lia.
Qed.

(** A fresh connection to a server that holds one item. *)
Definition no_background : background :=
  Background (λ _ _, mret WATCHER_FAILED) (λ _ _, mret CRAWLER_NOTSTARTED) (mret (-1)) (mret (-1)).
Definition plain_inputs : stat_inputs :=
  StatInputs 1 (str "1.4.36") (str "2.0") (0, 0) (0, 0) [] None None (str "1.25") negotiating_prot
    (str "jenkins") None (λ _, str "tcp").
Definition one_item_world : world :=
  World (upd_core (set_transport tcp_transport) (fresh_conn DATA_BUFFER_SIZE)) linked_one
    stats_prefix_clear (Pool ∅ 40 64 0 ∅) blank_env.

Lemma one_item_slots (P : item_metadata → bool) :
  forallb (λ kx, P kx.2) (map_to_list (meta linked_one)) = true →
  ∀ p x, meta linked_one !! p = Some x → P x = true.
Proof.
  intros Hf p x Hx. rewrite forallb_forall in Hf. apply (Hf (p, x)).
  by apply list_elem_of_In, elem_of_map_to_list.
Qed.

Lemma get_command_correct_witness :
  let w := one_item_world in
  ∃ w', process_command (H := no_background) plain_inputs (str "get a b") w = Ok (tt, w') ∧
    ∃ V, out_ok w' V ∧ queued_bytes w' V =
      concat (reply_to (kv w) {[ str "a" := 3 ]} <$> [str "a"; str "b"]) ++ str "END" ++ crlf.
Proof.
  destruct (get_command_correct (H := no_background) plain_inputs one_item_world {[ str "a" := 3 ]} [2; 1; 0]
    (str "get a b") (str "get") [str "a"; str "b"]) as (w' & E & _ & _ & _ & _ & _ & _ & HV).
  - reflexivity.
  - by left.
  - discriminate.
  - cbn. lia.
  - repeat constructor; cbn; unfold KEY_MAX_LENGTH; lia.
  - exact linked_one_ok.
  - split; reflexivity.
  - reflexivity.
  - reflexivity.
  - reflexivity.
  - reflexivity.
  - intros p x Hx. apply Z.leb_le. revert p x Hx.
    apply (one_item_slots (λ x, time x <=? current_time linked_one)). vm_compute. reflexivity.
  - intros p x Hx _. apply Z.ltb_lt. revert p x Hx.
    apply (one_item_slots (λ x, refcount x + 2 <? 2 ^ 16 - 1)). vm_compute. reflexivity.
  - exists w'. split; [exact E|exact HV].
Defined.
