(* ===== verification/StatsFacts.v ===== *)
(** * Stats replies: the buffer holds exactly the lines that were appended *)
From Stdlib Require Import ZArith Lia.
From stdpp Require Import strings prelude gmap list functions.
From S2P Require Import Prelude Mem Util Hash Item State Memlog Items ItemClaims Store Pool Prefix Conn ConnOps Stats Ascii IovFacts IoFacts.

Definition with_sb (b : conn_sb) (w : world) : world := set_cn (upd_sb (λ _, b) (cn w)) w.
Lemma with_sb_with b b' w : with_sb b (with_sb b' w) = with_sb b w.
Proof. done. Qed.
Lemma with_sb_id w : with_sb (sb (cn w)) w = w.
Proof. by destruct w as [[] ? ? ? ?]. Qed.

(** The text collected so far. *)
Definition stats_text (b : conn_sb) : list Z :=
  match st_buffer b with
  | Some m => load_bytes m 0 (Z.to_nat (st_offset b))
  | None => []
  end.
(** The buffer, if there is one, holds the text. *)
Definition stats_ok (b : conn_sb) : Prop :=
  st_buffer b = None ∨ (0 ≤ st_offset b ≤ st_size b ∧ 0 < st_size b < 2 ^ 60).

(** ** Growing *)
Lemma grow_loop_spec w needed off nsize avail :
  0 < nsize < 2 ^ 61 → 0 ≤ off → 0 ≤ needed → off + needed < 2 ^ 59 →
  (avail = nsize - off ∧ off ≤ nsize ∨ avail = 0 ∧ off = 0 ∧ nsize = 1024) →
  wp (loop FUEL (grow_body needed off) (nsize, avail)) w (λ r w', w' = w ∧
    (r = nsize ∧ needed ≤ avail ∨ off + needed ≤ r ∧ 0 < r ∧ (r = nsize ∨ r < 2 ^ 60))).
Proof.
  intros Hn Ho Hd Hsum Ha.
  eapply (loop_rule FUEL _ (λ k x w', w' = w ∧ ∃ a b, x = (a, b) ∧ 0 < a < 2 ^ 61 ∧
    k = Z.max 0 (2 * (off + needed) + 4096 - a) ∧
    ((a, b) = (nsize, avail) ∨ b = a - off ∧ off ≤ a ∧ a < 2 ^ 60)) _
    (Z.max 0 (2 * (off + needed) + 4096 - nsize))).
  - intros k x w' (-> & a & b & -> & Ha1 & -> & Hab). unfold grow_body. rewrite Z.gtb_ltb.
    destruct (Z.ltb_spec b needed) as [Hlt|Hge].
    + assert (off ≤ a * 2 ∧ a < 2 * (off + needed) + 4095 ∧ a * 2 < 2 ^ 60) as (Hoa & Hva & Hlt60).
      { destruct Hab as [[= -> ->]|(-> & ? & ?)]; [|lia]. destruct Ha as [[-> ?]|(-> & -> & ->)]; lia. }
      io_step. apply wp_assert; [apply Z.gtb_lt; lia|]. io_step.
      rewrite Z.shiftl_mul_pow2 by lia. change (2 ^ 1) with 2.
      rewrite (u64_small (a * 2)), (u64_small (a * 2 - off)) by lia.
      eexists. split; [|split; [done|]; exists (a * 2), (a * 2 - off)].
      2: { split; [done|]. split; [lia|]. split; [reflexivity|]. right. lia. }
      lia.
    + io_step. split; [done|]. destruct Hab as [[= -> ->]|(-> & ? & ?)]; [left; split; [done|lia]|right; lia].
  - split; [done|]. exists nsize, avail. split_and!; try done; try lia. by left.
  - change (2 ^ Z.of_nat FUEL) with (2 ^ 64). lia.
Qed.

(** What growing achieves, from any world that only differs in the buffer. *)
Definition grown (w : world) (needed : Z) (r : bool) (w' : world) : Prop :=
  r = true ∧ ∃ b m, w' = with_sb b w ∧ st_buffer b = Some m ∧ stats_ok b ∧
    stats_text b = stats_text (sb (cn w)) ∧ st_offset b + needed ≤ st_size b ∧ st_size b < 2 ^ 60.

(** The size the doubling loop starts from and what it implies for its result. *)
Lemma grow_size_spec w needed off size (buf : option memory) :
  0 ≤ off → 0 < needed → off + needed < 2 ^ 59 →
  (∃ m, buf = Some m ∧ 0 < size < 2 ^ 60 ∧ off ≤ size) ∨ (buf = None ∧ off = 0 ∧ size = 0) →
  wp (loop FUEL (grow_body needed off) match buf with
        | None => (1024, 0) | Some _ => (size, size - off) end) w
    (λ r w', w' = w ∧ 0 < r < 2 ^ 60 ∧ off + needed ≤ r).
Proof.
  intros Ho Hn Hos Hbuf.
  set (start := match buf with None => (1024, 0) | Some _ => (size, size - off) end).
  assert (0 < start.1 < 2 ^ 61 ∧ (start.2 = start.1 - off ∧ off ≤ start.1 ∨ start.2 = 0 ∧ off = 0 ∧ start.1 = 1024) ∧
    (start.1 = size ∨ start.1 = 1024) ∧ (needed ≤ start.2 → start.1 = size ∧ start.2 = size - off))
    as (Hs1 & Hs2 & Hs3 & Hs4).
  { unfold start. destruct Hbuf as [(m & -> & ?)|(-> & -> & ->)]; cbn; lia. }
  rewrite (surjective_pairing start).
  eapply wp_mono; [|exact (grow_loop_spec w needed off start.1 start.2 Hs1 Ho ltac:(lia) Hos Hs2)].
  intros r w2 (-> & Hr). split; [done|].
  destruct Hbuf as [(m & -> & ?)|(-> & -> & ->)]; destruct Hr as [[-> ?]|(? & ? & [->| ?])]; lia.
Qed.

(** From the choice of the new size on. *)
Lemma grow_tail_spec (held : bool) w needed off size buf :
  mallocs (en w) = [] → 0 ≤ off → 0 < needed → off + needed < 2 ^ 59 →
  (∃ m, buf = Some m ∧ 0 < size < 2 ^ 60 ∧ off ≤ size) ∨ (buf = None ∧ off = 0 ∧ size = 0) →
  stats_text (Sb buf size off) = stats_text (sb (cn w)) →
  wp (nsize ← loop FUEL (grow_body needed off) match buf with
        | None => (1024, 0) | Some _ => (size, size - off) end;
      if nsize =? size then mret true
      else
        ok ← malloc_ok;
        if ok : bool then
          _ ← on_sb (λ s, set_st_size nsize (set_st_buffer (Some (default ∅ (st_buffer s))) s));
          mret true
        else if held then fail Deadlock
        else _ ← srv (stats_add malloc_fails 1); mret false) (with_sb (Sb buf size off) w) (grown w needed).
Proof.
  intros Hm Ho Hn Hos Hbuf Htext. io_step.
  eapply wp_mono; [|exact (grow_size_spec _ needed off size buf Ho Hn Hos Hbuf)]. intros r w2 (-> & Hr0 & Hr1).
  destruct (Z.eqb_spec r size) as [->|Hne].
  - io_step. split; [done|]. destruct Hbuf as [(m & -> & ?)|(-> & -> & ->)]; [|lia].
    exists (Sb (Some m) size off), m. split_and!; try done; cbn; try lia. right. cbn. lia.
  - io_step. apply wp_malloc_ok; [done|]. io_steps. split; [done|].
    exists (Sb (Some (default ∅ buf)) r off), (default ∅ buf). split_and!; try done; cbn; try lia.
    + right. cbn. lia.
    + rewrite <- Htext. unfold stats_text. cbn. destruct buf; [done|].
      destruct Hbuf as [(m & ? & _)|(_ & -> & _)]; done.
Qed.

(** When memory does not run out the buffer has room for [needed] bytes. *)
Lemma grow_spec held w needed :
  mallocs (en w) = [] → stats_ok (sb (cn w)) → 0 < needed →
  Z.of_nat (length (stats_text (sb (cn w)))) + needed < 2 ^ 59 →
  wp (grow_stats_buf held needed) w (grown w needed).
Proof.
  intros Hm Hok Hn Hsum. unfold grow_stats_buf. io_step. io_step. io_step.
  pose proof (grow_tail_spec held w needed) as Hmain.
  destruct (sb (cn w)) as [buf size off] eqn:Eb. cbn [st_buffer st_size st_offset] in *.
  destruct buf as [m|].
  - rewrite bool_decide_eq_false_2 by done. cbn [when]. io_step. io_step. io_step. rewrite Eb.
    cbn [st_size st_offset]. destruct Hok as [?|[H1 H2]]; [done|]. cbn in H1, H2.
    assert (length (stats_text (Sb (Some m) size off)) = Z.to_nat off) as Hl by apply load_bytes_length.
    rewrite Hl in Hsum. rewrite u64_small by lia.
    specialize (Hmain off size (Some m) Hm ltac:(lia) Hn ltac:(lia) ltac:(left; eauto with lia) eq_refl).
    rewrite <- Eb, with_sb_id in Hmain. exact Hmain.
  - rewrite bool_decide_eq_true_2 by done. cbn [when]. io_step. io_step. io_step.
    specialize (Hmain 0 0 None Hm ltac:(lia) Hn ltac:(cbn in Hsum; lia) ltac:(by right) eq_refl).
    assert (set_cn (upd_sb (λ s, set_st_size 0 (set_st_offset 0 s)) (cn w)) w = with_sb (Sb None 0 0) w) as ->.
    { unfold with_sb, upd_sb. by rewrite Eb. }
    change (st_offset (sb (cn (with_sb (Sb None 0 0) w)))) with 0.
    change (st_size (sb (cn (with_sb (Sb None 0 0) w)))) with 0. exact Hmain.
Qed.

(** ** Appending *)
(** The line of a statistic in the text protocol. *)
Definition stat_text (x : stat_line) : list Z :=
  let '(name, val) := x in
  match val with
  | [] => str "STAT " ++ name ++ crlf
  | _ => str "STAT " ++ name ++ [SP] ++ take 126 val ++ crlf
  end.
Definition line_ok (x : stat_line) : Prop :=
  x.1 ≠ [] ∧ Forall is_byte x.1 ∧ Forall is_byte x.2 ∧ Z.of_nat (length x.1 + length x.2) < 2 ^ 16.
#[global] Instance line_ok_dec x : Decision (line_ok x).
Proof. apply _. Defined.

Lemma stats_text_length b m :
  stats_ok b → st_buffer b = Some m → Z.of_nat (length (stats_text b)) = st_offset b.
Proof.
  intros [?|[H1 H2]] E; [congruence|]. unfold stats_text. rewrite E, load_bytes_length. lia.
Qed.

(** Text put at the end of the collected text, with the NUL of snprintf. *)
Lemma put_text_spec w m text :
  st_buffer (sb (cn w)) = Some m → stats_ok (sb (cn w)) → Forall is_byte text →
  st_offset (sb (cn w)) + Z.of_nat (length text) + 2 ≤ st_size (sb (cn w)) →
  wp (let pos := st_offset (sb (cn w)) in let room := st_size (sb (cn w)) - pos - 1 in
      _ ← put_stats pos (take (Z.to_nat (room - 1)) text ++ [0]);
      on_sb (λ s, set_st_offset (st_offset s + Z.of_nat (length text)) s)) w
    (λ _ w', ∃ b, w' = with_sb b w ∧ stats_ok b ∧ st_buffer b ≠ None ∧
       stats_text b = stats_text (sb (cn w)) ++ text ∧ st_offset b ≤ st_size b).
Proof.
  intros Em Hok Hb Hroom. cbv zeta. destruct Hok as [?|[H1 H2]]; [congruence|].
  rewrite (take_ge text) by lia. io_step. unfold put_stats. io_step. io_step. rewrite Em.
  rewrite (proj2 (Z.leb_le _ _)), (proj2 (Z.leb_le _ _)) by (rewrite ?length_app; cbn; lia). cbn [andb].
  io_steps.
  eexists (Sb (Some (store_bytes m (st_offset (sb (cn w))) (text ++ [0]))) _ _). split; [done|].
  cbn [st_buffer st_size st_offset sb upd_sb set_st_buffer cn set_cn].
  split_and!; [right; cbn; lia|done| |lia].
  assert (Forall is_byte (text ++ [0])) as Hb0 by (apply Forall_app; split; [done|]; repeat constructor; lia).
  unfold stats_text. rewrite Em. cbn [st_buffer st_offset].
  replace (Z.to_nat (st_offset (sb (cn w)) + Z.of_nat (length text)))
    with (Z.to_nat (st_offset (sb (cn w))) + length text)%nat by lia.
  rewrite load_bytes_app. f_equal.
  - apply load_bytes_agree, agree_store_out; [done|left; lia].
  - replace (0 + Z.of_nat (Z.to_nat (st_offset (sb (cn w))))) with (st_offset (sb (cn w))) by lia.
    pose proof (load_store_bytes_eq m (st_offset (sb (cn w))) (text ++ [0]) (length text + 1) Hb0) as E.
    rewrite length_app in E. specialize (E eq_refl). rewrite load_bytes_app in E.
    apply app_inj_1 in E as [E _]; [exact E|apply load_bytes_length].
Qed.

(** Any line in the text protocol. *)
Lemma append_stats_spec held w key val (vlen : Z) text :
  mallocs (en w) = [] → prot (core (cn w)) ≠ binary_prot → stats_ok (sb (cn w)) →
  let klen := Z.of_nat (length key) in
  (klen = 0 → vlen = 0) → 0 ≤ vlen < 2 ^ 17 → klen < 2 ^ 17 →
  text = (if (klen =? 0) && (vlen =? 0) then str "END" ++ crlf
          else if vlen =? 0 then str "STAT " ++ key ++ crlf
          else str "STAT " ++ key ++ [SP] ++ val ++ crlf) →
  Z.of_nat (length val) ≤ vlen → Forall is_byte text →
  Z.of_nat (length (stats_text (sb (cn w)))) < 2 ^ 58 →
  wp (append_stats held key klen val vlen) w (λ _ w', ∃ b, w' = with_sb b w ∧ stats_ok b ∧ st_buffer b ≠ None ∧
    stats_text b = stats_text (sb (cn w)) ++ text).
Proof.
  intros Hm Hp Hok klen Hkv Hv Hk Htext Hlv Hb Hlen. unfold append_stats.
  replace ((klen =? 0) && (vlen >? 0)) with false.
  2: { symmetry. apply andb_false_iff. destruct (Z.eqb_spec klen 0); [right|by left]. rewrite Hkv by done. done. }
  io_step. io_step. rewrite bool_decide_eq_false_2 by done. io_step.
  eapply wp_mono; [|apply grow_spec; [done|done|unfold klen; lia|unfold klen in *; lia]].
  intros r w1 (-> & b & m & -> & Eb & Hok1 & Ht & Hroom & _). cbn [negb]. io_step.
  unfold append_ascii_stats. io_step. io_step. rewrite <- Ht.
  rewrite <- Htext.
  eapply wp_mono; [|apply (put_text_spec (with_sb b w) m text Eb Hok1 Hb)].
  2: { change (sb (cn (with_sb b w))) with b. rewrite Htext.
       destruct (Z.eqb_spec klen 0), (Z.eqb_spec vlen 0); cbn [andb]; rewrite ?length_app; cbn; unfold klen in *; lia. }
  intros _ w2 (b2 & -> & Hok2 & Hb2 & Ht2 & Hle). io_step. io_step.
  apply wp_assert; [by apply Z.leb_le|]. exists b2. split_and!; done.
Qed.

Lemma append_stat_spec held w x :
  mallocs (en w) = [] → prot (core (cn w)) ≠ binary_prot → stats_ok (sb (cn w)) → line_ok x →
  Z.of_nat (length (stats_text (sb (cn w)))) < 2 ^ 58 →
  wp (append_stat held x.1 x.2) w (λ _ w', ∃ b, w' = with_sb b w ∧ stats_ok b ∧ st_buffer b ≠ None ∧
    stats_text b = stats_text (sb (cn w)) ++ stat_text x).
Proof.
  intros Hm Hp Hok (H1 & H2 & H3 & H4) Hlen. destruct x as [name val]. cbn [fst snd] in *. unfold append_stat.
  rewrite u32_small by lia.
  assert (Z.of_nat (length name) ≠ 0) by (destruct name; [done|cbn; lia]).
  apply append_stats_spec; try done; try lia.
  - unfold stat_text. rewrite (proj2 (Z.eqb_neq _ _)) by done. cbn [andb].
    destruct val; [done|]. by rewrite (proj2 (Z.eqb_neq _ _)) by (cbn; lia).
  - rewrite length_take. lia.
  - unfold stat_text. unfold crlf, CR, LF. destruct val; repeat apply Forall_app_2; auto using str_bytes, Forall_take;
      repeat constructor; unfold SP; lia.
Qed.

Lemma append_group_spec held g w :
  mallocs (en w) = [] → prot (core (cn w)) ≠ binary_prot → stats_ok (sb (cn w)) → Forall line_ok g →
  Z.of_nat (length (stats_text (sb (cn w)))) + 2 ^ 17 * Z.of_nat (length g) < 2 ^ 58 →
  wp (append_group held g) w (λ _ w', ∃ b, w' = with_sb b w ∧ stats_ok b ∧
    stats_text b = stats_text (sb (cn w)) ++ concat (stat_text <$> g)).
Proof.
  revert w. induction g as [|[name val] g IH]; intros w Hm Hp Hok Hg Hlen; cbn [append_group].
  - io_step. exists (sb (cn w)). rewrite with_sb_id. split_and!; [done|done|by rewrite app_nil_r].
  - apply Forall_cons_1 in Hg as [Hx Hg]. io_step.
    eapply wp_mono; [|apply (append_stat_spec held w (name, val)); try done; cbn [length] in Hlen; lia].
    intros _ w1 (b & -> & Hok1 & _ & Ht). eapply wp_mono; [|apply IH; try done].
    + intros _ w2 (b2 & -> & Hok2 & Ht2). exists b2. split_and!; [done|done|].
      rewrite Ht2. change (sb (cn (with_sb b w))) with b. rewrite Ht, <- app_assoc. done.
    + change (sb (cn (with_sb b w))) with b. rewrite Ht, length_app.
      assert (Z.of_nat (length (stat_text (name, val))) ≤ 2 ^ 17).
      { destruct Hx as (_ & _ & _ & Hl). cbn [fst snd] in Hl. unfold stat_text.
        destruct val; rewrite ?length_app, ?length_take; cbn [length str crlf] in *; lia. }
      cbn [length] in Hlen. lia.
Qed.

(** ** Properties *)
Definition general_lines (inp : stat_inputs) (s : cache) : list stat_line :=
  server_stat_lines inp s ++ engine_lines s ++ item_total_lines s.

Lemma general_lines_few inp s : (length (general_lines inp s) ≤ 100)%nat.
Proof.
  unfold general_lines, server_stat_lines, item_total_lines, engine_lines, opt. rewrite !length_app.
  destruct (maxconns_fast _), (negb _), (slab_reassign _), (lru_crawler _), (lru_maintainer_thread _); cbn; lia.
Qed.

Lemma stat_text_short g : Forall line_ok g → Z.of_nat (length (concat (stat_text <$> g))) ≤ 2 ^ 17 * Z.of_nat (length g).
Proof.
  induction 1 as [|[name val] g (_ & _ & _ & Hl) _ IH]; [cbn; lia|]. cbn [fst snd] in Hl.
  rewrite fmap_cons. cbn [concat]. rewrite length_app.
  assert (Z.of_nat (length (stat_text (name, val))) ≤ 2 ^ 17); [|cbn [length]; lia].
  unfold stat_text. destruct val; rewrite ?length_app, ?length_take; cbn [length str crlf] in *; lia.
Qed.

(** The reply that hands over [text]. *)
Definition stats_sent (w : world) (text : list Z) (w' : world) : Prop :=
  state (core (cn w')) = conn_write ∧ write_and_go (wr (cn w')) = conn_new_cmd ∧
  wbytes (wr (cn w')) = Z.of_nat (length text) ∧
  read_ptr w' (wcurr (wr (cn w'))) (wbytes (wr (cn w'))) = text ∧
  st_buffer (sb (cn w')) = None ∧ kv w' = kv w.

Lemma finish_stats_spec w b :
  mallocs (en w) = [] → prot (core (cn w)) ≠ binary_prot → stats_ok b →
  Z.of_nat (length (stats_text b)) < 2 ^ 58 →
  wp finish_stats (with_sb b w) (λ _ w', stats_sent w (stats_text b ++ str "END" ++ crlf) w').
Proof.
  intros Hm Hprot Hok Hlen. unfold finish_stats, append_end. io_step.
  eapply wp_mono; [|apply (append_stats_spec false (with_sb b w) [] [] 0 (str "END" ++ crlf)); try done].
  2: { apply Forall_app; split; [apply str_bytes|]. apply (bool_decide_unpack _). exact I. }
  intros _ w4 (b4 & -> & Hok4 & Hne4 & Ht4). rewrite with_sb_with. change (sb (cn (with_sb b w))) with b in Ht4.
  unfold send_stats. io_step. io_step. change (sb (cn (with_sb b4 w))) with b4.
  destruct (st_buffer b4) as [m|] eqn:Em; [|done]. cbn [write_and_free]. io_steps.
  pose proof (stats_text_length b4 m Hok4 Em) as Hl. rewrite <- Ht4.
  split_and!; [done|done|symmetry; exact Hl| |done|done].
  unfold read_ptr, stats_text. rewrite Em.
  cbn [wr cn set_cn upd_sb upd_wr upd_core with_sb wcurr wbytes set_write_and_go set_to_free set_wcurr set_wbytes preg poff].
  destruct Hok4 as [?|[Ho1 Ho2]]; [congruence|]. rewrite drop_0.
  replace (Z.to_nat (st_size b4)) with (Z.to_nat (st_offset b4) + (Z.to_nat (st_size b4) - Z.to_nat (st_offset b4)))%nat by lia.
  rewrite load_bytes_app. apply take_app_length'. by rewrite load_bytes_length.
Qed.

(** C32: the [stats] command.  When memory does not run out, a plain [stats]
    request is answered by exactly one STAT line per general, engine and item
    statistic, in order, with values cut at 126 bytes, followed by END; the
    buffer grows as needed and is never overrun, and it is handed over to the
    transmission. *)
Theorem stats_command_correct (inp : stat_inputs) (w : world) (t0 t1 : token)
    (Hm : mallocs (en w) = []) (Hprot : prot (core (cn w)) ≠ binary_prot)
    (Hbuf : st_buffer (sb (cn w)) = None) (Hlines : Forall line_ok (general_lines inp (kv w))) :
  let text := concat (stat_text <$> general_lines inp (kv w)) ++ str "END" ++ crlf in
  ∃ w', process_stat inp [t0; t1] w = Ok (tt, w') ∧
    state (core (cn w')) = conn_write ∧ write_and_go (wr (cn w')) = conn_new_cmd ∧
    wbytes (wr (cn w')) = Z.of_nat (length text) ∧
    read_ptr w' (wcurr (wr (cn w'))) (wbytes (wr (cn w'))) = text ∧
    st_buffer (sb (cn w')) = None ∧ kv w' = kv w.
Proof.
  intros text.
  enough (wp (process_stat inp [t0; t1]) w (λ _ w', stats_sent w text w')) as ([] & w' & E & HQ) by (exists w'; by split).
  unfold process_stat, server_stats, get_stats, item_stats_totals. cbn [length Nat.ltb Nat.eqb Nat.leb].
  pose proof (general_lines_few inp (kv w)) as Hfew.
  unfold general_lines in Hlines, Hfew. rewrite !length_app in Hfew.
  apply Forall_app in Hlines as [Hl1 [Hl2 Hl3]%Forall_app].
  pose proof (stat_text_short _ Hl1). pose proof (stat_text_short _ Hl2). pose proof (stat_text_short _ Hl3).
  assert (stats_text (sb (cn w)) = []) as Et by (unfold stats_text; by rewrite Hbuf).
  io_step. io_step. io_step.
  eapply wp_mono; [|apply append_group_spec; [done|done|by left|exact Hl1|rewrite Et; cbn [length]; lia]].
  intros _ w1 (b1 & -> & Hok1 & Ht1). rewrite Et in Ht1.
  io_step. io_step. io_step. io_step.
  eapply wp_mono; [|apply append_group_spec; [done|done|done|exact Hl2|]].
  2: { change (sb (cn (with_sb b1 w))) with b1. change (kv (with_sb b1 w)) with (kv w).
       rewrite Ht1. cbn [app]. lia. }
  intros _ w2 (b2 & -> & Hok2 & Ht2). rewrite with_sb_with. change (sb (cn (with_sb b1 w))) with b1 in Ht2.
  change (kv (with_sb b1 w)) with (kv w) in Ht2.
  assert (Z.of_nat (length (stats_text b2)) ≤ 2 ^ 17 * 100) as Hb2 by (rewrite Ht2, Ht1, length_app; cbn [app]; lia).
  io_step. io_step. io_step.
  eapply wp_mono; [|apply append_group_spec; [done|done|done|exact Hl3|]].
  2: { change (sb (cn (with_sb b2 w))) with b2. change (kv (with_sb b2 w)) with (kv w). lia. }
  intros _ w3 (b3 & -> & Hok3 & Ht3). rewrite with_sb_with. change (sb (cn (with_sb b2 w))) with b2 in Ht3.
  change (kv (with_sb b2 w)) with (kv w) in Ht3. io_step.
  replace text with (stats_text b3 ++ str "END" ++ crlf).
  - apply finish_stats_spec; try done. rewrite Ht3, length_app. lia.
  - unfold text, general_lines. rewrite !fmap_app, !concat_app, <- !app_assoc.
    rewrite Ht3, Ht2, Ht1, app_nil_l, <- !app_assoc. reflexivity.
Qed.

Definition stats_world : world :=
  World (fresh_conn DATA_BUFFER_SIZE) linked_one stats_prefix_clear (Pool ∅ 40 64 0 ∅) blank_env.
Definition stats_inputs : stat_inputs :=
  StatInputs 1 (str "1.4.36") (str "2.0") (0, 0) (0, 0) [] None None (str "1.25") negotiating_prot
    (str "jenkins") None (λ _, str "tcp").

Lemma stats_command_correct_witness :
  ∃ w', process_stat stats_inputs [Token (Some (str "stats")) 5; Token None 0] stats_world = Ok (tt, w') ∧
    state (core (cn w')) = conn_write ∧
    read_ptr w' (wcurr (wr (cn w'))) (wbytes (wr (cn w'))) =
      concat (stat_text <$> general_lines stats_inputs linked_one) ++ str "END" ++ crlf.
Proof.
  destruct (stats_command_correct stats_inputs stats_world (Token (Some (str "stats")) 5) (Token None 0)
    eq_refl ltac:(discriminate) eq_refl) as (w' & E & H1 & _ & _ & H2 & _).
  - apply (bool_decide_unpack _). vm_compute. exact I.
  - exists w'. split; [exact E|]. split; [exact H1|exact H2].
Defined.

(** A failing allocation during [stats].  [server_stats] holds [stats_lock]
    while it appends; if the reply buffer cannot be allocated, the failure path
    of [grow_stats_buf] locks [stats_lock] again and the worker never
    returns. *)
Theorem server_stats_deadlock (inp : stat_inputs) (w : world) (l : list bool)
    (Hbuf : st_buffer (sb (cn w)) = None) (Hm : mallocs (en w) = false :: l) :
  server_stats inp w = Fault Deadlock.
Proof.
  unfold server_stats. rewrite bind_getw. unfold server_stat_lines. cbn [app append_group num].
  assert (∀ name val : list Z, name ≠ [] → (length name < 1000)%nat → (length val < 1000)%nat →
    append_stat true name val w = Fault Deadlock) as Hf.
  2: { apply bind_Fault, Hf; [done|cbn; lia|].
       pose proof (fmt_u_length (in_pid inp)). lia. }
  intros name val Hn H1 H2. unfold append_stat, append_stats. rewrite u32_small by lia.
  assert (Z.of_nat (length name) ≠ 0) by (destruct name; [done|cbn; lia]).
  rewrite (proj2 (Z.eqb_neq _ _)) by done. cbn [andb]. rewrite bind_conn.
  apply bind_Fault. set (needed := _ + _ + _).
  assert (0 < needed < 5000) as Hneed by (unfold needed, SIZEOF_bin_header; destruct (bool_decide _); lia).
  unfold grow_stats_buf. rewrite bind_conn, Hbuf. rewrite bool_decide_eq_true_2 by done. cbn [when].
  unfold on_sb. rewrite bind_upd_cn, bind_conn. set (w1 := set_cn _ w).
  destruct (grow_loop_spec w1 needed (st_offset (sb (cn w1))) 1024 0) as (r & w2 & E & -> & Hr);
    [lia|cbn; lia|lia|cbn; lia|right; cbn; lia|].
  rewrite (bind_Ok _ _ _ _ _ E). clear E. change (st_size (sb (cn w1))) with 0.
  change (st_offset (sb (cn w1))) with 0 in Hr. rewrite (proj2 (Z.eqb_neq _ _)) by lia.
  assert (malloc_ok w1 = Ok (false, set_en (set_mallocs l (en w1)) w1)) as Em.
  { unfold malloc_ok. change (en w1) with (en w). by rewrite Hm. }
  by rewrite (bind_Ok _ _ _ _ _ Em).
Qed.

Lemma server_stats_deadlock_witness :
  server_stats stats_inputs (set_en (set_mallocs [false] blank_env) stats_world) = Fault Deadlock.
Proof.
  exact (server_stats_deadlock stats_inputs (set_en (set_mallocs [false] blank_env) stats_world) [] eq_refl eq_refl).
Defined.
