(* ===== verification/Binary.v ===== *)
(** * The binary protocol (memcached.c)

    The header of a request, the handlers of the commands and their dispatch.
    The byte order of the fields is fixed where they are read; the source does
    it in place, in a part of the buffer that is not read again.  The SASL
    library is the class [sasl_lib]. *)
From Stdlib Require Import ZArith Lia.
From stdpp Require Import strings prelude gmap list functions.
From S2P Require Import Prelude Mem Util Item State Memlog Items Store Pool Prefix Conn ConnOps Stats Ascii.

(** ** Reading the request *)
(** [n] bytes of the read buffer at [off]. *)
Definition read_rbuf (off n : Z) : io (list Z) :=
  c ← conn_;
  if (0 <=? off) && (off + n <=? rsize (rd c))
  then mret (load_bytes (rbuf (rd c)) off (Z.to_nat n))
  else fail OutOfBounds.

(** The header at [c->rcurr], keylen, bodylen and cas in host order. *)
Definition parse_header (bs : list Z) : bin_header :=
  let f := λ off n, take n (drop off bs) in
  BinHeader (le_decode (f 0 1)%nat) (le_decode (f 1 1)%nat) (be_decode (f 2 2)%nat) (le_decode (f 4 1)%nat)
    (le_decode (f 5 1)%nat) (le_decode (f 6 2)%nat) (be_decode (f 8 4)%nat) (le_decode (f 12 4)%nat)
    (ntohll (le_decode (f 16 8)%nat)).

Definition binary_get_request : io Z :=
  c ← conn_;
  let ret := rcurr (rd c) - (SIZEOF_bin_header + bkeylen (bh c) + extlen (bh c)) in
  _ ← assert_ (ret >=? 0);
  mret ret.

Definition binary_get_key : io Z := c ← conn_; mret (rcurr (rd c) - bkeylen (bh c)).
(** The key of the request. *)
Definition bin_key : io (list Z) :=
  k ← binary_get_key;
  c ← conn_;
  read_rbuf k (bkeylen (bh c)).

(** A field of the body of the request, in network order. *)
Definition body_field (off n : Z) : io Z :=
  r ← binary_get_request;
  bs ← read_rbuf (r + SIZEOF_bin_header + off) n;
  mret (be_decode bs).

(** [rsp->message.body], behind the header of the reply. *)
Definition rsp_body : ptr := Ptr RWbuf SIZEOF_bin_header.

(** Send what is queued, then [go]. *)
Definition mwrite_then (go : conn_states) : io unit :=
  _ ← conn_set_state conn_mwrite;
  on_wr (set_write_and_go go).

(** ** incr and decr *)
Definition INCR_MAX_STORAGE_LEN : Z := 24.

(** The value to start with is stored under the missing key. *)
Definition incr_initial (key : list Z) (initial expiration : Z) : io unit :=
  _ ← write_wbuf SIZEOF_bin_header (le_encode 8 (htonll initial));
  let text := take (Z.to_nat (INCR_MAX_STORAGE_LEN - 1)) (fmt_u initial) in
  let res := Z.of_nat (length text) in
  et ← gets (λ w, realtime (kv w) expiration);
  it ← srv (item_alloc key 0 et (res + 2));
  match it with
  | None => out_of_memory (str "SERVER_ERROR Out of memory allocating new item")
  | Some it =>
      x ← srv (get_meta it);
      _ ← srv (upd_log (λ m, store_bytes m (ITEM_data m (item x)) text));
      _ ← srv (upd_log (λ m, store_bytes m (ITEM_data m (item x) + res) crlf));
      ret ← conn_store_item it NREAD_ADD;
      _ ← (if bool_decide (ret ≠ NOT_STORED) then
             v ← gets (λ w, ITEM_get_cas (log (kv w)) (item x));
             _ ← on_core (set_cas v);
             write_bin_response rsp_body 0 0 8
           else write_bin_error BIN_NOT_STORED None 0);
      srv (item_remove it)
  end.

Definition complete_incr_bin : io unit :=
  _ ← binary_get_request;
  c ← conn_;
  _ ← assert_ (wsize (wr c) >=? SIZEOF_bin_header + 8);
  delta ← body_field 0 8;
  initial ← body_field 8 8;
  expiration ← body_field 16 4;
  key ← bin_key;
  let incr := cmd (core c) =? CMD_INCREMENT in
  '(r, buf, cas) ← srv (add_delta key incr (i64 delta) (Some (bcas (bh c))));
  match r with
  | OK =>
      _ ← write_wbuf SIZEOF_bin_header (le_encode 8 (htonll (strtoul_value buf)));
      _ ← match cas with
          | Some v => when (negb (v =? 0)) (on_core (set_cas v))
          | None => mret tt
          end;
      write_bin_response rsp_body 0 0 8
  | NON_NUMERIC => write_bin_error DELTA_BADVAL None 0
  | EOM => out_of_memory (str "SERVER_ERROR Out of memory incrementing value")
  | DELTA_ITEM_NOT_FOUND =>
      if negb (expiration =? 0xffffffff) then incr_initial key initial expiration
      else
        _ ← srv (thread_add (if incr then incr_misses else decr_misses) 1);
        write_bin_error KEY_ENOENT None 0
  | DELTA_ITEM_CAS_MISMATCH => write_bin_error KEY_EEXISTS None 0
  end.

(** ** Storage commands *)
Definition update_reply (ret : store_item_type) (cmd : Z) : option bin_status :=
  match ret with
  | STORED => None
  | EXISTS => Some KEY_EEXISTS
  | NOT_FOUND => Some KEY_ENOENT
  | NOT_STORED | TOO_LARGE | NO_MEMORY =>
      Some (if cmd =? nread_code NREAD_ADD then KEY_EEXISTS
            else if cmd =? nread_code NREAD_REPLACE then KEY_ENOENT
            else BIN_NOT_STORED)
  end.

Definition complete_update_bin : io unit :=
  c ← conn_;
  match c_item (nr c) with
  | None => fail NullDeref
  | Some it =>
      x ← srv (get_meta it);
      _ ← srv (slab_add (ITEM_clsid x) set_cmds 1);
      let d := item x in
      _ ← srv (upd_log (λ m, store_bytes m (ITEM_data m d + nbytes m d - 2) crlf));
      ret ← conn_store_item it (nread_of (cmd (core c)));
      _ ← match update_reply ret (cmd (core c)) with
          | None => write_bin_response null 0 0 0
          | Some eno => write_bin_error eno None 0
          end;
      _ ← srv (item_remove it);
      on_nr (set_c_item None)
  end.

(** No item for the value: reply and skip it. *)
Definition bin_alloc_failed (key : list Z) (flags vlen : Z) : io unit :=
  s ← gets kv;
  if negb (item_size_ok s (Z.of_nat (length key)) flags (i32 (vlen + 2)))
  then write_bin_error E2BIG None vlen
  else
    _ ← out_of_memory (str "SERVER_ERROR Out of memory allocating item");
    on_nr (set_sbytes vlen).

(** Read the value into the item. *)
Definition bin_read_value (it vlen code : Z) : io unit :=
  x ← srv (get_meta it);
  lg ← gets (λ w, log (kv w));
  _ ← on_core (set_cmd code);
  _ ← on_nr (λ s, set_rlbytes vlen (set_ritem (Ptr RLog (ITEM_data lg (item x))) (set_c_item (Some it) s)));
  _ ← conn_set_state conn_nread;
  on_core (set_substate bin_read_set_value).

Definition process_bin_update : io unit :=
  _ ← binary_get_request;
  key ← bin_key;
  flags ← body_field 0 4;
  expiration ← body_field 4 4;
  c ← conn_;
  let vlen := i32 (bodylen (bh c) - (bkeylen (bh c) + extlen (bh c))) in
  _ ← record_prefix stats_prefix_record_set key;
  et ← gets (λ w, realtime (kv w) expiration);
  it ← srv (item_alloc key flags et (i32 (vlen + 2)));
  match it with
  | None =>
      _ ← bin_alloc_failed key flags vlen;
      _ ← (if cmd (core c) =? CMD_SET then
             old ← srv (item_get key);
             match old with
             | Some it => _ ← srv (item_unlink it); srv (item_remove it)
             | None => mret tt
             end
           else mret tt);
      on_wr (set_write_and_go conn_swallow)
  | Some it =>
      x ← srv (get_meta it);
      _ ← srv (upd_log (ITEM_set_cas (item x) (bcas (bh c))));
      v ← gets (λ w, ITEM_get_cas (log (kv w)) (item x));
      comm ← (if cmd (core c) =? CMD_ADD then mret NREAD_ADD
              else if cmd (core c) =? CMD_SET then mret NREAD_SET
              else if cmd (core c) =? CMD_REPLACE then mret NREAD_REPLACE
              else fail AssertFailed);
      bin_read_value it vlen (nread_code (if negb (v =? 0) then NREAD_CAS else comm))
  end.

Definition process_bin_append_prepend : io unit :=
  key ← bin_key;
  c ← conn_;
  let vlen := i32 (bodylen (bh c) - bkeylen (bh c)) in
  _ ← record_prefix stats_prefix_record_set key;
  it ← srv (item_alloc key 0 0 (i32 (vlen + 2)));
  match it with
  | None =>
      _ ← bin_alloc_failed key 0 vlen;
      on_wr (set_write_and_go conn_swallow)
  | Some it =>
      x ← srv (get_meta it);
      _ ← srv (upd_log (ITEM_set_cas (item x) (bcas (bh c))));
      comm ← (if cmd (core c) =? CMD_APPEND then mret NREAD_APPEND
              else if cmd (core c) =? CMD_PREPEND then mret NREAD_PREPEND
              else fail AssertFailed);
      bin_read_value it vlen (nread_code comm)
  end.

(** ** get, getk, touch, gat *)
Definition should_touch (c : Z) : bool := (c =? CMD_TOUCH) || (c =? CMD_GAT) || (c =? CMD_GATK).
Definition should_return_key (c : Z) : bool := (c =? CMD_GETK) || (c =? CMD_GATK).
Definition should_return_value (c : Z) : bool := negb (c =? CMD_TOUCH).

Definition bin_hit (cm : Z) (key : list Z) (it : Z) : io unit :=
  let nk := Z.of_nat (length key) in
  x ← srv (get_meta it);
  body ← gets (λ w, u32 (4 + (nbytes (log (kv w)) (item x) - 2)));
  _ ← srv (item_update it);
  x ← srv (get_meta it);
  _ ← (if should_touch cm then
         _ ← srv (thread_add touch_cmds 1); srv (slab_add (ITEM_clsid x) touch_hits 1)
       else
         _ ← srv (thread_add get_cmds 1); srv (slab_add (ITEM_clsid x) get_hits 1));
  lg ← gets (λ w, log (kv w));
  let d := item x in
  let value_len := nbytes lg d - 2 in
  let body := if cm =? CMD_TOUCH then body - value_len else if should_return_key cm then body + nk else body in
  let kl := if (cm =? CMD_TOUCH) || negb (should_return_key cm) then 0 else nk in
  _ ← add_bin_header 0 4 kl (u32 body);
  _ ← write_wbuf 16 (le_encode 8 (htonll (ITEM_get_cas lg d)));
  _ ← write_wbuf SIZEOF_bin_header (be_encode 4 (u32 (strtoul_value (cstring lg (ITEM_suffix lg d)))));
  _ ← add_iov rsp_body 4;
  _ ← when (should_return_key cm) (_ ← add_iov (Ptr RLog (ITEM_key lg d)) nk; mret tt);
  _ ← when (should_return_value cm) (_ ← add_iov (Ptr RLog (ITEM_data lg d)) value_len; mret tt);
  _ ← mwrite_then conn_new_cmd;
  on_nr (set_c_item (Some it)).

Definition bin_miss (cm : Z) (key : list Z) : io unit :=
  let nk := Z.of_nat (length key) in
  _ ← (if should_touch cm then
         _ ← srv (thread_add touch_cmds 1); srv (thread_add touch_misses 1)
       else
         _ ← srv (thread_add get_cmds 1); srv (thread_add get_misses 1));
  c ← conn_;
  if noreply (core c) then conn_set_state conn_new_cmd
  else if should_return_key cm then
    _ ← add_bin_header (status_code KEY_ENOENT) 0 nk nk;
    _ ← write_wbuf SIZEOF_bin_header key;
    _ ← add_iov rsp_body nk;
    mwrite_then conn_new_cmd
  else write_bin_error KEY_ENOENT None 0.

Definition process_bin_get_or_touch : io unit :=
  key ← bin_key;
  c ← conn_;
  let cm := cmd (core c) in
  it ← (if should_touch cm then
          expiration ← body_field 0 4;
          et ← gets (λ w, realtime (kv w) expiration);
          '(it, cas) ← srv (item_touch key et);
          _ ← match cas with Some v => on_core (set_cas v) | None => mret tt end;
          mret it
        else srv (item_get key));
  _ ← match it with
      | Some it => bin_hit cm key it
      | None => bin_miss cm key
      end;
  record_prefix (λ h d k a b, stats_prefix_record_get h d k (bool_decide (it ≠ None)) a b) key.

(** ** flush, delete, stat *)
Definition process_bin_flush : io unit :=
  _ ← binary_get_request;
  s ← gets (λ w, cfg (kv w));
  if negb (flush_enabled s) then write_bin_error AUTH_ERROR None 0
  else
    c ← conn_;
    exptime ← (if extlen (bh c) =? 4 then body_field 0 4 else mret 0);
    _ ← flush_at exptime;
    _ ← srv (thread_add flush_cmds 1);
    write_bin_response null 0 0 0.

(** [req->message.header.request.cas] is the copy in the buffer. *)
Definition process_bin_delete : io unit :=
  r ← binary_get_request;
  key ← bin_key;
  _ ← record_prefix stats_prefix_record_delete key;
  it ← srv (item_get key);
  match it with
  | Some it =>
      bs ← read_rbuf (r + 16) 8;
      x ← srv (get_meta it);
      v ← gets (λ w, ITEM_get_cas (log (kv w)) (item x));
      let cas := ntohll (le_decode bs) in
      _ ← (if (cas =? 0) || (cas =? v) then
             _ ← srv (slab_add (ITEM_clsid x) delete_hits 1);
             _ ← srv (item_unlink it);
             write_bin_response null 0 0 0
           else write_bin_error KEY_EEXISTS None 0);
      srv (item_remove it)
  | None =>
      _ ← write_bin_error KEY_ENOENT None 0;
      srv (thread_add delete_misses 1)
  end.

(** [strncmp(s, lit, strlen(lit)) == 0] on the bytes of the buffer at [off]. *)
Definition rbuf_is (off : Z) (s : string) : io bool :=
  c ← conn_;
  mret (bool_decide (load_bytes (rbuf (rd c)) off (length (str s)) = str s)).

Definition bin_send_stats (msg : string) : io unit :=
  c ← conn_;
  match st_buffer (sb c) with
  | None => out_of_memory (str msg)
  | Some m =>
      _ ← write_and_free (Some (load_bytes m 0 (Z.to_nat (st_size (sb c))))) (st_offset (sb c));
      on_sb (set_st_buffer None)
  end.
Definition finish_bin_stats : io unit :=
  _ ← append_end false;
  bin_send_stats "SERVER_ERROR Out of memory preparing to send stats".

(** [stats detail ...]: whether the reply is still to be finished. *)
Definition bin_stat_detail (pos : Z) : io bool :=
  dump ← rbuf_is pos " dump";
  on_ ← rbuf_is pos " on";
  off_ ← rbuf_is pos " off";
  if dump : bool then
    t ← gets px;
    ok ← malloc_ok;
    match stats_prefix_dump t ok with
    | Fault f => fail f
    | Ok None =>
        _ ← out_of_memory (str "SERVER_ERROR Out of memory generating stats"); mret false
    | Ok (Some (text, len, _)) =>
        if len <=? 0 then _ ← out_of_memory (str "SERVER_ERROR Out of memory generating stats"); mret false
        else _ ← append_stats false (str "detailed") 8 text len; mret true
    end
  else if on_ : bool then _ ← srv (upd_cfg (set_detail_enabled 1)); mret true
  else if off_ : bool then _ ← srv (upd_cfg (set_detail_enabled 0)); mret true
  else _ ← write_bin_error KEY_ENOENT None 0; mret false.

Definition process_bin_stat (inp : stat_inputs) : io unit :=
  k ← binary_get_key;
  c ← conn_;
  key ← bin_key;
  reset ← rbuf_is k "reset";
  settings_ ← rbuf_is k "settings";
  detail ← rbuf_is k "detail";
  if bkeylen (bh c) =? 0 then
    _ ← server_stats inp;
    _ ← get_stats None;
    finish_bin_stats
  else if reset : bool then _ ← stats_reset; finish_bin_stats
  else if settings_ : bool then _ ← process_stat_settings inp; finish_bin_stats
  else if detail : bool then
    go ← bin_stat_detail (k + 6);
    if go : bool then finish_bin_stats else mret tt
  else
    known ← get_stats (Some key);
    if known : bool then bin_send_stats "SERVER_ERROR Out of memory generating stats"
    else write_bin_error KEY_ENOENT None 0.

(** ** Extras and key *)
(** [while (size > nsize) nsize *= 2] *)
Definition fit_body (size nsize : Z) : io (Z + Z) :=
  mret (if size >? nsize then inl (u64 (nsize * 2)) else inr nsize).

Definition bin_read_key (next_substate : bin_substates) (extra : Z) : io unit :=
  _ ← on_core (set_substate next_substate);
  _ ← upd_cn (λ c, upd_nr (set_rlbytes (keylen (core c) + extra)) c);
  c ← conn_;
  let offset := rcurr (rd c) + SIZEOF_bin_header in
  ok ← (if rlbytes (nr c) >? rsize (rd c) - offset then
          nsize ← loop FUEL (fit_body (rlbytes (nr c) + SIZEOF_bin_header)) (rsize (rd c));
          ok ← (if nsize =? rsize (rd c) then mret true else malloc_counted);
          if negb ok then mret false
          else
            _ ← on_rd (set_rsize nsize);
            _ ← on_rd repack;
            mret true
        else mret true);
  if negb ok then conn_set_state conn_closing
  else
    _ ← upd_cn (λ c, upd_nr (set_ritem (Ptr RRbuf (rcurr (rd c) + SIZEOF_bin_header))) c);
    conn_set_state conn_nread.

Definition handle_binary_protocol_error : io unit :=
  _ ← write_bin_error EINVAL None 0;
  on_wr (set_write_and_go conn_closing).

(** ** SASL *)
Definition SASL_OK : Z := 0.
Definition SASL_CONTINUE : Z := -1.
Definition MAX_SASL_MECH_LEN : Z := 32.
(** Calls of the SASL library: result code and output. *)
Class sasl_lib := SaslLib {
  sasl_server_new : io Z;
  sasl_listmech : io (Z * list Z);
  sasl_server_start : list Z → option (list Z) → io (Z * list Z);
  sasl_server_step : option (list Z) → io (Z * list Z)
}.

Section sasl.
Context `{sasl_lib}.

Definition init_sasl_conn : io unit :=
  s ← gets (λ w, cfg (kv w));
  if negb (sasl s) then mret tt
  else
    _ ← on_core (set_authenticated false);
    c ← conn_;
    if sasl_conn (core c) then mret tt
    else r ← sasl_server_new; on_core (set_sasl_conn (r =? SASL_OK)).

Definition sasl_disabled : io unit :=
  c ← conn_;
  write_bin_error UNKNOWN_COMMAND None (i32 (bodylen (bh c) - bkeylen (bh c))).

Definition bin_list_sasl_mechs : io unit :=
  s ← gets (λ w, cfg (kv w));
  if negb (sasl s) then sasl_disabled
  else
    _ ← init_sasl_conn;
    '(r, mechs) ← sasl_listmech;
    if negb (r =? SASL_OK) then write_bin_error AUTH_ERROR None 0
    else write_bin_response (Ptr (RLit mechs) 0) 0 0 (Z.of_nat (length mechs)).

Definition process_bin_sasl_auth : io unit :=
  s ← gets (λ w, cfg (kv w));
  if negb (sasl s) then sasl_disabled
  else
    c ← conn_;
    _ ← assert_ (extlen (bh c) =? 0);
    let vlen := i32 (bodylen (bh c) - bkeylen (bh c)) in
    if bkeylen (bh c) >? MAX_SASL_MECH_LEN then
      _ ← write_bin_error EINVAL None vlen;
      on_wr (set_write_and_go conn_swallow)
    else
      key ← bin_key;
      it ← srv (item_alloc key 0 0 vlen);
      match it with
      | None =>
          _ ← write_bin_error ENOMEM None vlen;
          on_wr (set_write_and_go conn_swallow)
      | Some it =>
          x ← srv (get_meta it);
          lg ← gets (λ w, log (kv w));
          _ ← on_nr (λ s, set_rlbytes vlen (set_ritem (Ptr RLog (ITEM_data lg (item x))) (set_c_item (Some it) s)));
          _ ← conn_set_state conn_nread;
          on_core (set_substate bin_reading_sasl_auth_data)
      end.

Definition process_bin_complete_sasl_auth : io unit :=
  s ← gets (λ w, cfg (kv w));
  _ ← assert_ (sasl s);
  c ← conn_;
  match c_item (nr c) with
  | None => fail AssertFailed
  | Some it =>
      _ ← init_sasl_conn;
      let vlen := i32 (bodylen (bh c) - bkeylen (bh c)) in
      x ← srv (get_meta it);
      lg ← gets (λ w, log (kv w));
      let mech := load_bytes lg (ITEM_key lg (item x)) (Z.to_nat (bkeylen (bh c))) in
      let challenge := if vlen =? 0 then None
                       else Some (load_bytes lg (ITEM_data lg (item x)) (Z.to_nat vlen)) in
      '(result, out) ← (if cmd (core c) =? CMD_SASL_AUTH then sasl_server_start mech challenge
                        else if cmd (core c) =? CMD_SASL_STEP then sasl_server_step challenge
                        else fail AssertFailed);
      _ ← srv (item_unlink it);
      if result =? SASL_OK then
        _ ← on_core (set_authenticated true);
        _ ← write_bin_response (lit "Authenticated") 0 0 13;
        srv (thread_add auth_cmds 1)
      else if result =? SASL_CONTINUE then
        let outlen := Z.of_nat (length out) in
        _ ← add_bin_header (status_code AUTH_CONTINUE) 0 0 outlen;
        _ ← when (outlen >? 0) (_ ← add_iov (Ptr (RLit out) 0) outlen; mret tt);
        mwrite_then conn_new_cmd
      else
        _ ← write_bin_error AUTH_ERROR None 0;
        _ ← srv (thread_add auth_cmds 1);
        srv (thread_add auth_errors 1)
  end.

(** Commands allowed without authentication. *)
Definition authenticated_ok (c : conn) : bool :=
  let cm := cmd (core c) in
  (cm =? CMD_SASL_LIST_MECHS) || (cm =? CMD_SASL_AUTH) || (cm =? CMD_SASL_STEP) || (cm =? CMD_VERSION)
  || authenticated (core c).

(** ** Dispatch *)
(** The loud command of a quiet one. *)
Definition unquiet (cm : Z) : option Z :=
  if cm =? CMD_SETQ then Some CMD_SET else if cm =? CMD_ADDQ then Some CMD_ADD
  else if cm =? CMD_REPLACEQ then Some CMD_REPLACE else if cm =? CMD_DELETEQ then Some CMD_DELETE
  else if cm =? CMD_INCREMENTQ then Some CMD_INCREMENT else if cm =? CMD_DECREMENTQ then Some CMD_DECREMENT
  else if cm =? CMD_QUITQ then Some CMD_QUIT else if cm =? CMD_FLUSHQ then Some CMD_FLUSH
  else if cm =? CMD_APPENDQ then Some CMD_APPEND else if cm =? CMD_PREPENDQ then Some CMD_PREPEND
  else if cm =? CMD_GETQ then Some CMD_GET else if cm =? CMD_GETKQ then Some CMD_GETK
  else if cm =? CMD_GATQ then Some CMD_GAT else if cm =? CMD_GATKQ then Some CMD_GATK
  else None.

(** Is [cm] one of the commands? *)
Definition one_of (cm : Z) (l : list Z) : bool := existsb (Z.eqb cm) l.

Definition bin_command (inp : stat_inputs) (cm kl el bl : Z) : io unit :=
  let guarded := λ (b : bool) (m : io unit), if b then m else handle_binary_protocol_error in
  let none := (el =? 0) && (kl =? 0) && (bl =? 0) in
  if cm =? CMD_VERSION then
    guarded none (write_bin_response (Ptr (RLit (in_version inp)) 0) 0 0 (Z.of_nat (length (in_version inp))))
  else if cm =? CMD_FLUSH then
    guarded ((kl =? 0) && (bl =? el) && ((el =? 0) || (el =? 4))) (bin_read_key bin_read_flush_exptime el)
  else if cm =? CMD_NOOP then guarded none (write_bin_response null 0 0 0)
  else if one_of cm [CMD_SET; CMD_ADD; CMD_REPLACE] then
    guarded ((el =? 8) && negb (kl =? 0) && (bl >=? kl + 8)) (bin_read_key bin_reading_set_header 8)
  else if one_of cm [CMD_GETQ; CMD_GET; CMD_GETKQ; CMD_GETK] then
    guarded ((el =? 0) && (bl =? kl) && (kl >? 0)) (bin_read_key bin_reading_get_key 0)
  else if cm =? CMD_DELETE then
    guarded ((kl >? 0) && (el =? 0) && (bl =? kl)) (bin_read_key bin_reading_del_header el)
  else if one_of cm [CMD_INCREMENT; CMD_DECREMENT] then
    guarded ((kl >? 0) && (el =? 20) && (bl =? kl + el)) (bin_read_key bin_reading_incr_header 20)
  else if one_of cm [CMD_APPEND; CMD_PREPEND] then
    guarded ((kl >? 0) && (el =? 0)) (bin_read_key bin_reading_set_header 0)
  else if cm =? CMD_STAT then guarded (el =? 0) (bin_read_key bin_reading_stat 0)
  else if cm =? CMD_QUIT then
    guarded ((kl =? 0) && (el =? 0) && (bl =? 0))
      (_ ← write_bin_response null 0 0 0;
       _ ← on_wr (set_write_and_go conn_closing);
       c ← conn_;
       when (noreply (core c)) (conn_set_state conn_closing))
  else if cm =? CMD_SASL_LIST_MECHS then guarded none bin_list_sasl_mechs
  else if one_of cm [CMD_SASL_AUTH; CMD_SASL_STEP] then
    guarded ((el =? 0) && negb (kl =? 0)) (bin_read_key bin_reading_sasl_auth 0)
  else if one_of cm [CMD_TOUCH; CMD_GAT; CMD_GATQ; CMD_GATK; CMD_GATKQ] then
    guarded ((el =? 4) && negb (kl =? 0)) (bin_read_key bin_reading_touch_key 4)
  else write_bin_error UNKNOWN_COMMAND None (i32 bl).

Definition dispatch_bin_command (inp : stat_inputs) : io unit :=
  c ← conn_;
  s ← gets (λ w, cfg (kv w));
  if sasl s && negb (authenticated_ok c) then
    _ ← write_bin_error AUTH_ERROR None 0;
    on_wr (set_write_and_go conn_closing)
  else
    _ ← on_core (set_noreply true);
    if bkeylen (bh c) >? KEY_MAX_LENGTH then handle_binary_protocol_error
    else
      _ ← match unquiet (cmd (core c)) with
          | Some cm => on_core (set_cmd cm)
          | None => on_core (set_noreply false)
          end;
      c ← conn_;
      bin_command inp (cmd (core c)) (bkeylen (bh c)) (extlen (bh c)) (bodylen (bh c)).

Definition complete_nread_binary (inp : stat_inputs) : io unit :=
  c ← conn_;
  _ ← assert_ (cmd (core c) >=? 0);
  match substate (core c) with
  | bin_reading_set_header =>
      if (cmd (core c) =? CMD_APPEND) || (cmd (core c) =? CMD_PREPEND)
      then process_bin_append_prepend
      else process_bin_update
  | bin_read_set_value => complete_update_bin
  | bin_reading_get_key | bin_reading_touch_key => process_bin_get_or_touch
  | bin_reading_stat => process_bin_stat inp
  | bin_reading_del_header => process_bin_delete
  | bin_reading_incr_header => complete_incr_bin
  | bin_read_flush_exptime => process_bin_flush
  | bin_reading_sasl_auth => process_bin_sasl_auth
  | bin_reading_sasl_auth_data => process_bin_complete_sasl_auth
  | bin_no_state | bin_reading_cas_header => fail AssertFailed
  end.
End sasl.
