(* ===== verification/Net.v ===== *)
(** * Reading, transmitting and the state machine (memcached.c)

    What [read] and [sendmsg] return comes from the environment; what is sent
    is recorded there.  The NULs the tokenizer writes into the read buffer are
    not kept: nothing reads the buffer before [rcurr] again. *)
From Stdlib Require Import ZArith Lia.
From stdpp Require Import strings prelude gmap list functions.
From S2P Require Import Prelude Mem Util Item State Memlog Items Store Pool Prefix Conn ConnOps Stats Ascii Binary.

(** ** Sockets *)
(** What a read returns; no bytes are the end of the stream. *)
Inductive got := Got (bs : list Z) | GotAgain | GotError.

(** [read(fd, buf, n)] on a stream: what does not fit stays in the socket. *)
Definition sock_read (n : Z) : io got := λ w,
  match recvs (en w) with
  | [] => Ok (GotAgain, w)
  | RecvAgain :: l => Ok (GotAgain, set_en (set_recvs l (en w)) w)
  | RecvError :: l => Ok (GotError, set_en (set_recvs l (en w)) w)
  | Received bs :: l =>
      let rest := drop (Z.to_nat n) bs in
      Ok (Got (take (Z.to_nat n) bs),
          set_en (set_recvs (match rest with [] => l | _ => Received rest :: l end) (en w)) w)
  end.
(** [recvfrom] on a datagram socket: what does not fit is lost. *)
Definition sock_recvfrom (n : Z) : io got := λ w,
  match recvs (en w) with
  | [] => Ok (GotAgain, w)
  | RecvAgain :: l => Ok (GotAgain, set_en (set_recvs l (en w)) w)
  | RecvError :: l => Ok (GotError, set_en (set_recvs l (en w)) w)
  | Received bs :: l => Ok (Got (take (Z.to_nat n) bs), set_en (set_recvs l (en w)) w)
  end.

(** Entry [i] of the array of pieces. *)
Definition get_iov (i : Z) : io iovec := λ w,
  let o := ov (cn w) in
  if (0 <=? i) && (i <? iovsize o) then
    match iov o !! i with Some x => Ok (x, w) | None => Fault OutOfBounds end
  else Fault OutOfBounds.

(** The bytes of [n] pieces from entry [i] on. *)
Fixpoint gather (n : nat) (i : Z) : io (list Z) :=
  match n with
  | O => mret []
  | S n =>
      x ← get_iov i;
      bs ← gets (λ w, read_ptr w (iov_base x) (iov_len x));
      rest ← gather n (i + 1);
      mret (bs ++ rest)
  end.

Inductive send_result := Sent (n : Z) | SentAgain | SentError.
(** [sendmsg]: the socket takes a prefix of the message, all of it when the
    environment says nothing. *)
Definition sock_send (data : list Z) : io send_result := λ w,
  let all := Z.of_nat (length data) in
  let take_ n := Ok (Sent n, set_en (set_sent (take (Z.to_nat n) data :: sent (en w))
                                       (set_sends (tail (sends (en w))) (en w))) w) in
  match sends (en w) with
  | [] => take_ all
  | Accepted n :: _ => take_ (Z.max 0 (Z.min n all))
  | SendAgain :: l => Ok (SentAgain, set_en (set_sends l (en w)) w)
  | SendError :: l => Ok (SentError, set_en (set_sends l (en w)) w)
  end.

(** ** Transmission *)
Inductive transmit_result : Set :=
  | TRANSMIT_COMPLETE | TRANSMIT_INCOMPLETE | TRANSMIT_SOFT_ERROR | TRANSMIT_HARD_ERROR.

(** Remove the entries of message [k] that were sent completely. *)
Definition sent_body (k : Z) (res : Z) : io (Z + Z) :=
  m ← get_msg k;
  if msg_iovlen m >? 0 then
    x ← get_iov (msg_iov m);
    if res >=? iov_len x then
      _ ← on_ov (λ o, set_msglist (<[k := Msghdr (msg_iov m + 1) (msg_iovlen m - 1) (msg_namelen m)]> (msglist o)) o);
      mret (inl (res - iov_len x))
    else mret (inr res)
  else mret (inr res).

(** Cut what was sent off the first remaining entry. *)
Definition trim_iov (k res : Z) : io unit :=
  m ← get_msg k;
  x ← get_iov (msg_iov m);
  on_ov (λ o, set_iov (<[msg_iov m := Iovec (padd (iov_base x) res) (iov_len x - res)]> (iov o)) o).

(** Skip the current message when nothing of it is left. *)
Definition next_msg : io unit :=
  c ← conn_;
  if msgcurr (ov c) <? msgused (ov c) then
    m ← get_msg (msgcurr (ov c));
    when (msg_iovlen m =? 0) (on_ov (λ o, set_msgcurr (msgcurr o + 1) o))
  else mret tt.

Definition transmit : io transmit_result :=
  _ ← next_msg;
  c ← conn_;
  if msgcurr (ov c) <? msgused (ov c) then
    let k := msgcurr (ov c) in
    m ← get_msg k;
    data ← gather (Z.to_nat (msg_iovlen m)) (msg_iov m);
    r ← sock_send data;
    match r with
    | SentAgain =>
        ok ← update_event (Z.lor EV_WRITE EV_PERSIST);
        if negb ok then _ ← conn_set_state conn_closing; mret TRANSMIT_HARD_ERROR
        else mret TRANSMIT_SOFT_ERROR
    | Sent res =>
        if res >? 0 then
          _ ← srv (thread_add bytes_written res);
          res ← loop FUEL (sent_body k) res;
          _ ← when (res >? 0) (trim_iov k res);
          mret TRANSMIT_INCOMPLETE
        else
          _ ← conn_set_state (if is_udp c then conn_read else conn_closing);
          mret TRANSMIT_HARD_ERROR
    | SentError =>
        _ ← conn_set_state (if is_udp c then conn_read else conn_closing);
        mret TRANSMIT_HARD_ERROR
    end
  else mret TRANSMIT_COMPLETE.

(** ** Reading *)
Inductive try_read_result : Set :=
  | READ_DATA_RECEIVED | READ_NO_DATA_RECEIVED | READ_ERROR | READ_MEMORY_ERROR.

(** The address of the peer of a datagram takes 28 bytes. *)
Definition try_read_udp : io try_read_result :=
  _ ← on_ud (set_request_addr_size 28);
  c ← conn_;
  r ← sock_recvfrom (rsize (rd c));
  match r with
  | Got bs =>
      let res := Z.of_nat (length bs) in
      _ ← write_rbuf 0 bs;
      if res >? 8 then
        _ ← srv (thread_add bytes_read res);
        let b := λ i, bs !!! (i : nat) in
        _ ← on_ud (set_request_id (b 0%nat * 256 + b 1%nat));
        if negb (b 4%nat =? 0) || negb (b 5%nat =? 1) then
          _ ← out_string (str "SERVER_ERROR multi-packet request not supported");
          mret READ_NO_DATA_RECEIVED
        else
          _ ← write_rbuf 0 (drop 8 bs);
          _ ← on_rd (λ s, set_rbytes (res - 8) (set_rcurr 0 s));
          mret READ_DATA_RECEIVED
      else mret READ_NO_DATA_RECEIVED
  | GotAgain | GotError => mret READ_NO_DATA_RECEIVED
  end.

(** The loop, over [gotdata] and [num_allocs]. *)
Definition read_body (x : try_read_result * Z) : io ((try_read_result * Z) + try_read_result) :=
  let '(gotdata, num_allocs) := x in
  c ← conn_;
  let full := rbytes (rd c) >=? rsize (rd c) in
  if full && (num_allocs =? 4) then mret (inr gotdata)
  else
    let num_allocs := if full then num_allocs + 1 else num_allocs in
    ok ← (if full then malloc_counted else mret true);
    if negb ok then
      _ ← on_rd (set_rbytes 0);
      _ ← out_of_memory (str "SERVER_ERROR out of memory reading request");
      _ ← on_wr (set_write_and_go conn_closing);
      mret (inr READ_MEMORY_ERROR)
    else
      _ ← when full (on_rd (λ s, set_rsize (rsize s * 2) (set_rcurr 0 s)));
      c ← conn_;
      let avail := rsize (rd c) - rbytes (rd c) in
      r ← sock_read avail;
      match r with
      | Got [] => mret (inr READ_ERROR)
      | Got bs =>
          let res := Z.of_nat (length bs) in
          _ ← write_rbuf (rbytes (rd c)) bs;
          _ ← srv (thread_add bytes_read res);
          _ ← on_rd (λ s, set_rbytes (rbytes s + res) s);
          if res =? avail then mret (inl (READ_DATA_RECEIVED, num_allocs)) else mret (inr READ_DATA_RECEIVED)
      | GotAgain => mret (inr gotdata)
      | GotError => mret (inr READ_ERROR)
      end.

Definition try_read_network : io try_read_result :=
  _ ← on_rd repack;
  loop FUEL read_body (READ_NO_DATA_RECEIVED, 0).

(** ** Finding a command *)
(** [memchr(rcurr, '\n', rbytes)]: its offset from [rcurr]. *)
Fixpoint find_lf (bs : list Z) : option nat :=
  match bs with
  | [] => None
  | c :: bs => if c =? LF then Some O else S <$> find_lf bs
  end.

(** One byte of the buffer. *)
Definition rbuf_at (p : Z) : io Z :=
  c ← conn_;
  if (0 <=? p) && (p <? rsize (rd c)) then mret (mget (rbuf (rd c)) p) else fail OutOfBounds.

Definition skip_space (p : Z) : io (Z + Z) :=
  b ← rbuf_at p;
  mret (if b =? SP then inl (p + 1) else inr p).

(** [strncmp(p, s, strlen(s)) == 0], stopping at the first difference. *)
Fixpoint rbuf_starts (p : Z) (s : list Z) : io bool :=
  match s with
  | [] => mret true
  | c :: s =>
      b ← rbuf_at p;
      if b =? c then rbuf_starts (p + 1) s else mret false
  end.

(** No line end in the first kilobyte: only a large multiget may go on. *)
Definition long_line : io bool :=
  c ← conn_;
  p ← loop FUEL skip_space (rcurr (rd c));
  if p - rcurr (rd c) >? 100 then mret true
  else
    get ← rbuf_starts p (str "get ");
    if get : bool then mret false
    else gets_ ← rbuf_starts p (str "gets "); mret (negb gets_).

Section machine.
Context `{background} `{sasl_lib} (inp : stat_inputs).

(** A binary request: the header, if it is complete. *)
Definition try_read_binary : io Z :=
  c ← conn_;
  if rbytes (rd c) <? SIZEOF_bin_header then mret 0
  else
    bs ← read_rbuf (rcurr (rd c)) SIZEOF_bin_header;
    let h := parse_header bs in
    _ ← upd_cn (upd_bh (λ _, h));
    if negb (magic h =? PROTOCOL_BINARY_REQ) then
      _ ← conn_set_state conn_closing; mret (-1)
    else
      _ ← reset_output;
      r ← add_msghdr;
      if negb (r =? 0) then
        _ ← out_of_memory (str "SERVER_ERROR Out of memory allocating headers"); mret 0
      else
        _ ← on_core (λ s, set_cas 0 (set_opaque (bopaque h) (set_keylen (bkeylen h) (set_cmd (opcode h) s))));
        _ ← dispatch_bin_command inp;
        _ ← on_rd (λ s, set_rcurr (rcurr s + SIZEOF_bin_header) (set_rbytes (rbytes s - SIZEOF_bin_header) s));
        mret 1.

(** A line of the text protocol, if it is complete. *)
Definition try_read_ascii : io Z :=
  c ← conn_;
  if rbytes (rd c) =? 0 then mret 0
  else
    let start := rcurr (rd c) in
    match find_lf (load_bytes (rbuf (rd c)) start (Z.to_nat (rbytes (rd c)))) with
    | None =>
        if rbytes (rd c) >? 1024 then
          nuke ← long_line;
          if nuke : bool then _ ← conn_set_state conn_closing; mret 1 else mret 0
        else mret 0
    | Some n =>
        let el := start + Z.of_nat n in
        let cont := el + 1 in
        let el := if (el - start >? 1) && (mget (rbuf (rd c)) (el - 1) =? CR) then el - 1 else el in
        _ ← write_rbuf el [0];
        _ ← assert_ (cont <=? start + rbytes (rd c));
        now ← gets (λ w, current_time (kv w));
        _ ← on_core (set_last_cmd_time now);
        line ← gets (λ w, cstring (rbuf (rd (cn w))) start);
        _ ← process_command inp line;
        _ ← on_rd (λ s, set_rcurr cont (set_rbytes (rbytes s - (cont - start)) s));
        c ← conn_;
        _ ← assert_ (rcurr (rd c) <=? rsize (rd c));
        mret 1
    end.

Definition try_read_command : io Z :=
  c ← conn_;
  _ ← assert_ (rcurr (rd c) <=? rsize (rd c));
  _ ← assert_ (rbytes (rd c) >? 0);
  _ ← when (bool_decide (prot (core c) = negotiating_prot) || is_udp c)
        (b ← rbuf_at 0;
         on_core (set_prot (if b =? PROTOCOL_BINARY_REQ then binary_prot else ascii_prot)));
  c ← conn_;
  if bool_decide (prot (core c) = binary_prot) then try_read_binary else try_read_ascii.

(** ** The state machine *)
Definition reset_cmd_handler : io unit :=
  _ ← on_core (λ s, set_substate bin_no_state (set_cmd (-1) s));
  _ ← release_citem;
  _ ← conn_shrink;
  c ← conn_;
  conn_set_state (if rbytes (rd c) >? 0 then conn_parse_cmd else conn_waiting).

Definition complete_nread : io unit :=
  c ← conn_;
  match prot (core c) with
  | ascii_prot => complete_nread_ascii
  | binary_prot => complete_nread_binary inp
  | negotiating_prot => fail AssertFailed
  end.

(** Stop listening, or listen again [elapsed] microseconds later; the
    connection served is the only listener. *)
Definition do_accept_new_conns (do_accept : bool) (elapsed : Z) : io unit :=
  if do_accept then
    _ ← update_event (Z.lor EV_READ EV_PERSIST);
    _ ← srv (stats_add time_in_listen_disabled_us elapsed);
    srv (flag_put accepting_conns true)
  else
    _ ← update_event 0;
    _ ← srv (flag_put accepting_conns false);
    _ ← srv (stats_add listen_disabled_num 1);
    on_en (set_allow_new_conns false).

(** The timer that starts listening again. *)
Definition maxconns_handler (fd elapsed : Z) : io unit :=
  e ← gets en;
  if (fd =? -42) || negb (allow_new_conns e) then mret tt
  else do_accept_new_conns true elapsed.

Definition sock_accept : io accepted := λ w,
  match accepts (en w) with
  | [] => Ok (AcceptAgain, w)
  | a :: l => Ok (a, set_en (set_accepts l (en w)) w)
  end.

(** Turn of the loop: go on with [nreqs], or stop. *)
Definition go (nreqs : Z) : io (Z + unit) := mret (inl nreqs).
Definition stop : io (Z + unit) := mret (inr tt).

(** [update_event] or close; [k] when it worked. *)
Definition wait_for (flags nreqs : Z) (k : io (Z + unit)) : io (Z + unit) :=
  ok ← update_event flags;
  if negb ok then _ ← conn_set_state conn_closing; go nreqs else k.

Definition step_listening : io (Z + unit) :=
  r ← sock_accept;
  match r with
  | AcceptAgain | AcceptError => stop
  | AcceptEmfile => _ ← do_accept_new_conns false 0; stop
  | NewSocket fd =>
      s ← gets kv;
      if maxconns_fast (cfg s) &&
         (u64 (stats_state (cnt s) curr_conns + stats_state (cnt s) reserved_fds) >=? u64 (maxconns (cfg s) - 1)) then
        _ ← srv (stats_add rejected_conns 1); stop
      else
        _ ← on_en (λ e, set_dispatched (fd :: dispatched e) e); stop
  end.

Definition step_read (nreqs : Z) : io (Z + unit) :=
  c ← conn_;
  r ← (if is_udp c then try_read_udp else try_read_network);
  _ ← match r with
      | READ_NO_DATA_RECEIVED => conn_set_state conn_waiting
      | READ_DATA_RECEIVED => conn_set_state conn_parse_cmd
      | READ_ERROR => conn_set_state conn_closing
      | READ_MEMORY_ERROR => mret tt
      end;
  go nreqs.

Definition step_new_cmd (nreqs : Z) : io (Z + unit) :=
  let nreqs := nreqs - 1 in
  if nreqs >=? 0 then _ ← reset_cmd_handler; go nreqs
  else
    _ ← srv (thread_add conn_yields 1);
    c ← conn_;
    if rbytes (rd c) >? 0 then wait_for (Z.lor EV_WRITE EV_PERSIST) nreqs stop else stop.

(** Store bytes where the value goes. *)
Definition write_ritem (bs : list Z) : io unit :=
  c ← conn_;
  match preg (ritem (nr c)) with
  | RRbuf => write_rbuf (poff (ritem (nr c))) bs
  | RLog => srv (upd_log (λ m, store_bytes m (poff (ritem (nr c))) bs))
  | _ => fail OutOfBounds
  end.

(** Does the value go where the read buffer is being consumed? *)
Definition ritem_is_rcurr (c : conn) : bool :=
  match preg (ritem (nr c)) with RRbuf => poff (ritem (nr c)) =? rcurr (rd c) | _ => false end.

Definition take_leftover : io unit :=
  c ← conn_;
  let tocopy := Z.min (rbytes (rd c)) (rlbytes (nr c)) in
  _ ← when (negb (ritem_is_rcurr c)) (write_ritem (load_bytes (rbuf (rd c)) (rcurr (rd c)) (Z.to_nat tocopy)));
  _ ← on_nr (λ s, set_rlbytes (rlbytes s - tocopy) (set_ritem (padd (ritem s) tocopy) s));
  on_rd (λ s, set_rbytes (rbytes s - tocopy) (set_rcurr (rcurr s + tocopy) s)).

Definition step_nread (nreqs : Z) : io (Z + unit) :=
  c ← conn_;
  if rlbytes (nr c) =? 0 then _ ← complete_nread; go nreqs
  else if rlbytes (nr c) <? 0 then _ ← conn_set_state conn_closing; go nreqs
  else
    _ ← when (rbytes (rd c) >? 0) take_leftover;
    c ← conn_;
    if rlbytes (nr c) =? 0 then go nreqs
    else
      r ← sock_read (rlbytes (nr c));
      match r with
      | Got [] | GotError => _ ← conn_set_state conn_closing; go nreqs
      | Got bs =>
          let res := Z.of_nat (length bs) in
          _ ← write_ritem bs;
          _ ← srv (thread_add bytes_read res);
          _ ← when (ritem_is_rcurr c) (on_rd (λ s, set_rcurr (rcurr s + res) s));
          _ ← on_nr (λ s, set_rlbytes (rlbytes s - res) (set_ritem (padd (ritem s) res) s));
          go nreqs
      | GotAgain => wait_for (Z.lor EV_READ EV_PERSIST) nreqs stop
      end.

Definition step_swallow (nreqs : Z) : io (Z + unit) :=
  c ← conn_;
  if sbytes (nr c) =? 0 then _ ← conn_set_state conn_new_cmd; go nreqs
  else if rbytes (rd c) >? 0 then
    let tocopy := Z.min (rbytes (rd c)) (sbytes (nr c)) in
    _ ← on_nr (λ s, set_sbytes (sbytes s - tocopy) s);
    _ ← on_rd (λ s, set_rbytes (rbytes s - tocopy) (set_rcurr (rcurr s + tocopy) s));
    go nreqs
  else
    r ← sock_read (Z.min (rsize (rd c)) (sbytes (nr c)));
    match r with
    | Got [] | GotError => _ ← conn_set_state conn_closing; go nreqs
    | Got bs =>
        let res := Z.of_nat (length bs) in
        _ ← write_rbuf 0 bs;
        _ ← srv (thread_add bytes_read res);
        _ ← on_nr (λ s, set_sbytes (sbytes s - res) s);
        go nreqs
    | GotAgain => wait_for (Z.lor EV_READ EV_PERSIST) nreqs stop
    end.

(** After the last byte of a reply. *)
Definition transmit_complete : io unit :=
  c ← conn_;
  match state (core c) with
  | conn_mwrite =>
      _ ← conn_release_items;
      conn_set_state (if bool_decide (prot (core c) = binary_prot) then write_and_go (wr c) else conn_new_cmd)
  | conn_write =>
      _ ← on_wr (set_to_free None);
      conn_set_state (write_and_go (wr c))
  | _ => conn_set_state conn_closing
  end.

Definition step_mwrite (nreqs : Z) : io (Z + unit) :=
  c ← conn_;
  r ← (if is_udp c && (msgcurr (ov c) =? 0) then build_udp_headers else mret 0);
  if negb (r =? 0) then _ ← conn_set_state conn_closing; go nreqs
  else
    r ← transmit;
    match r with
    | TRANSMIT_COMPLETE => _ ← transmit_complete; go nreqs
    | TRANSMIT_INCOMPLETE | TRANSMIT_HARD_ERROR => go nreqs
    | TRANSMIT_SOFT_ERROR => stop
    end.

Definition step_write (nreqs : Z) : io (Z + unit) :=
  c ← conn_;
  r ← (if (iovused (ov c) =? 0) || (is_udp c && (iovused (ov c) =? 1))
       then add_iov (wcurr (wr c)) (wbytes (wr c)) else mret 0);
  if negb (r =? 0) then _ ← conn_set_state conn_closing; go nreqs else step_mwrite nreqs.

Definition step_closing : io (Z + unit) :=
  c ← conn_;
  _ ← (if is_udp c then conn_cleanup else conn_close);
  stop.

(** One turn of [drive_machine]. *)
Definition drive_body (nreqs : Z) : io (Z + unit) :=
  c ← conn_;
  match state (core c) with
  | conn_listening => step_listening
  | conn_waiting =>
      wait_for (Z.lor EV_READ EV_PERSIST) nreqs (_ ← conn_set_state conn_read; stop)
  | conn_read => step_read nreqs
  | conn_parse_cmd =>
      r ← try_read_command;
      _ ← when (r =? 0) (conn_set_state conn_waiting);
      go nreqs
  | conn_new_cmd => step_new_cmd nreqs
  | conn_nread => step_nread nreqs
  | conn_swallow => step_swallow nreqs
  | conn_write => step_write nreqs
  | conn_mwrite => step_mwrite nreqs
  | conn_closing => step_closing
  | conn_closed => fail (Exited SIGABRT)
  | conn_watch => stop
  | conn_max_state => fail AssertFailed
  end.

Definition drive_machine : io unit :=
  s ← gets (λ w, cfg (kv w));
  loop FUEL drive_body (reqs_per_event s).

Definition event_handler (fd which : Z) : io unit :=
  _ ← on_core (set_which which);
  c ← conn_;
  if negb (fd =? sfd (core c)) then conn_close else drive_machine.

Definition conn_close_idle : io unit :=
  s ← gets kv;
  c ← conn_;
  if (idle_timeout (cfg s) >? 0) && (u32 (current_time s - last_cmd_time (core c)) >? idle_timeout (cfg s)) then
    if bool_decide (state (core c) ≠ conn_new_cmd ∧ state (core c) ≠ conn_read) then mret tt
    else
      _ ← srv (thread_add idle_kicks 1);
      _ ← conn_set_state conn_closing;
      drive_machine
  else mret tt.
End machine.
