(* ===== verification/TxFacts.v ===== *)
(** * Transmission: every queued byte is sent once, in order

    A view of the output that is still to be sent, the proof that [transmit]
    only moves bytes from it to the socket, and the delivery of a reply by the
    state machine when the socket accepts something each time. *)
From Stdlib Require Import ZArith Lia.
From stdpp Require Import strings prelude gmap list functions relations.
From S2P Require Import Prelude Mem Util Item State Memlog Items Store Pool Prefix Conn ConnOps IovFacts Stats Ascii IoFacts GetFacts Binary Net.

(** ** The output still to be sent *)
(** [l] are the entries message [m] still has. *)
Definition msg_pieces (o : conn_ov) (m : msghdr) (l : list iovec) : Prop :=
  msg_iovlen m = Z.of_nat (length l) ∧
  ∀ j x, l !! j = Some x →
    0 ≤ msg_iov m + Z.of_nat j < iovsize o ∧ iov o !! (msg_iov m + Z.of_nat j) = Some x.

(** [P] are the messages from the current one on. *)
Record tx_repr (o : conn_ov) (P : list (list iovec)) : Prop := {
  tx_curr : 0 ≤ msgcurr o;
  tx_used : msgcurr o + Z.of_nat (length P) = msgused o;
  tx_size : msgused o ≤ msgsize o;
  tx_msg : ∀ i l, P !! i = Some l → ∃ m,
      msglist o !! (msgcurr o + Z.of_nat i) = Some m ∧ msg_pieces o m l;
  tx_apart : ∀ i j mi mj, (i < j < length P)%nat →
      msglist o !! (msgcurr o + Z.of_nat i) = Some mi → msglist o !! (msgcurr o + Z.of_nat j) = Some mj →
      msg_iov mi + msg_iovlen mi ≤ msg_iov mj
}.

Definition piece_ok (x : iovec) : Prop := 0 ≤ iov_len x ∧ readable (iov_base x) (iov_len x).
Definition bytes_of (w : world) (l : list iovec) : list Z := concat (iov_bytes w <$> l).
Definition pending_bytes (w : world) (P : list (list iovec)) : list Z := bytes_of w (concat P).
Definition sent_bytes (w : world) : list Z := concat (rev (sent (en w))).

(** What is left of [l] after [n] bytes. *)
Fixpoint unsent (l : list iovec) (n : Z) : list iovec :=
  match l with
  | [] => []
  | x :: l => if n >=? iov_len x then unsent l (n - iov_len x)
              else Iovec (padd (iov_base x) n) (iov_len x - n) :: l
  end.

Lemma read_ptr_length w p n : 0 ≤ n → readable p n → Z.of_nat (length (read_ptr w p n)) = n.
Proof.
  intros Hn Hr. unfold read_ptr, readable in *. destruct (preg p); try done;
    rewrite ?load_bytes_length, ?length_take, ?length_drop; lia.
Qed.

Lemma bytes_of_app w l1 l2 : bytes_of w (l1 ++ l2) = bytes_of w l1 ++ bytes_of w l2.
Proof. unfold bytes_of. by rewrite fmap_app, concat_app. Qed.
Lemma bytes_of_cons w x l : bytes_of w (x :: l) = iov_bytes w x ++ bytes_of w l.
Proof. done. Qed.

Lemma bytes_of_length w l : Forall piece_ok l → Z.of_nat (length (bytes_of w l)) = msg_size l.
Proof.
  induction 1 as [|x l [Hn Hr] _ IH]; [done|]. rewrite bytes_of_cons, length_app. cbn [msg_size foldr].
  fold (msg_size l). unfold iov_bytes. rewrite Nat2Z.inj_add, read_ptr_length by done. lia.
Qed.

Lemma msg_size_nonneg l : Forall piece_ok l → 0 ≤ msg_size l.
Proof. induction 1 as [|x l [Hn _] _ IH]; cbn; [lia|]. unfold msg_size in IH. lia. Qed.

Lemma unsent_bytes w l n :
  Forall piece_ok l → 0 ≤ n ≤ msg_size l → bytes_of w (unsent l n) = drop (Z.to_nat n) (bytes_of w l).
Proof.
  intros Hl. revert n. induction Hl as [|x l [Hx Hr] Hl IH]; intros n Hn; [by destruct (Z.to_nat n)|].
  cbn in Hn. fold (msg_size l) in Hn. pose proof (msg_size_nonneg l Hl). cbn [unsent]. rewrite bytes_of_cons.
  pose proof (read_ptr_length w _ _ Hx Hr) as Hlen. fold (iov_bytes w x) in Hlen.
  rewrite Z.geb_leb. destruct (Z.leb_spec (iov_len x) n) as [Hge|Hlt].
  - rewrite IH by lia. rewrite drop_app_ge by lia. f_equal. lia.
  - rewrite drop_app_le by lia. rewrite bytes_of_cons. f_equal. unfold iov_bytes in *. cbn [iov_base iov_len].
    rewrite (read_ptr_split w (iov_base x) n (iov_len x)) by (done || lia).
    rewrite drop_app_ge; rewrite (Nat2Z.inj (length (read_ptr w (iov_base x) n)) (Z.to_nat n)); try done.
    + by rewrite Nat.sub_diag.
    + rewrite read_ptr_length; [lia|lia|]. unfold readable in *. destruct (preg (iov_base x)); try done. lia.
    + rewrite read_ptr_length; [lia|lia|]. unfold readable in *. destruct (preg (iov_base x)); try done. lia.
Qed.

Lemma unsent_ok l n : Forall piece_ok l → 0 ≤ n → Forall piece_ok (unsent l n).
Proof.
  intros Hl. revert n. induction Hl as [|x l [Hx Hr] Hl IH]; intros n Hn; [constructor|]. cbn [unsent].
  rewrite Z.geb_leb. destruct (Z.leb_spec (iov_len x) n); [apply IH; lia|]. constructor; [|done].
  split; cbn; [lia|]. apply readable_padd; [done|lia].
Qed.

Lemma unsent_all l : Forall piece_ok l → unsent l (msg_size l) = [].
Proof.
  induction 1 as [|x l [Hx Hr] Hl IH]; [done|]. cbn. fold (msg_size l). pose proof (msg_size_nonneg l Hl).
  rewrite Z.geb_leb, (proj2 (Z.leb_le _ _)) by lia. replace (iov_len x + msg_size l - iov_len x) with (msg_size l) by lia.
  done.
Qed.

(** ** The representation under the updates of [transmit] *)
Lemma tx_next o P : tx_repr o ([] :: P) → tx_repr (set_msgcurr (msgcurr o + 1) o) P.
Proof.
  intros [H1 H2 H3 H4 H5]. split; cbn in *; try lia.
  - intros i l Hl. destruct (H4 (S i) l Hl) as (m & Hm & Hp). exists m. split; [|exact Hp].
    rewrite <- Hm. f_equal. lia.
  - intros i j mi mj Hij Hi Hj. apply (H5 (S i) (S j)); [cbn; lia| |].
    + rewrite <- Hi. f_equal. lia.
    + rewrite <- Hj. f_equal. lia.
Qed.

Lemma tx_head o l P : tx_repr o (l :: P) → ∃ m, msglist o !! msgcurr o = Some m ∧ msg_pieces o m l.
Proof. intros H. destruct (tx_msg o _ H 0 l eq_refl) as (m & Hm & Hp). rewrite Z.add_0_r in Hm. eauto. Qed.

Lemma tx_advance o x l P m :
  tx_repr o ((x :: l) :: P) → msglist o !! msgcurr o = Some m →
  tx_repr (set_msglist (<[msgcurr o := Msghdr (msg_iov m + 1) (msg_iovlen m - 1) (msg_namelen m)]> (msglist o)) o)
          (l :: P).
Proof.
  intros Hr Hm. destruct (tx_head _ _ _ Hr) as (m' & Hm' & Hlen & Hp). simplify_eq.
  destruct Hr as [H1 H2 H3 H4 H5]. split; cbn in *; try done.
  - intros [|i] l' Hl'; cbn in Hl'.
    + simplify_eq. exists (Msghdr (msg_iov m + 1) (msg_iovlen m - 1) (msg_namelen m)).
      rewrite Z.add_0_r, lookup_insert_eq. split; [done|]. split; cbn; [cbn in Hlen; lia|].
      intros j y Hy. destruct (Hp (S j) y Hy) as [Hb Hi]. replace (msg_iov m + 1 + Z.of_nat j) with
        (msg_iov m + Z.of_nat (S j)) by lia. done.
    + destruct (H4 (S i) l' Hl') as (m1 & Hm1 & Hp1). exists m1. rewrite lookup_insert_ne by lia. done.
  - intros i j mi mj Hij Hi Hj. rewrite lookup_insert_ne in Hj by lia. destruct i as [|i].
    + rewrite Z.add_0_r, lookup_insert_eq in Hi. simplify_eq. cbn.
      pose proof (H5 0%nat j m mj Hij) as Ha. rewrite Z.add_0_r in Ha. specialize (Ha Hm Hj). lia.
    + rewrite lookup_insert_ne in Hi by lia. by apply (H5 (S i) j).
Qed.

Lemma tx_trim o x y l P m :
  tx_repr o ((x :: l) :: P) → msglist o !! msgcurr o = Some m →
  tx_repr (set_iov (<[msg_iov m := y]> (iov o)) o) ((y :: l) :: P).
Proof.
  intros Hr Hm. destruct (tx_head _ _ _ Hr) as (m' & Hm' & Hlen & Hp). simplify_eq.
  destruct Hr as [H1 H2 H3 H4 H5]. split; cbn in *; try done.
  intros [|i] l' Hl'; cbn in Hl'.
  - simplify_eq. exists m. rewrite Z.add_0_r. split; [done|]. split; [done|]. cbn.
    intros [|j] z Hz; cbn in Hz.
    + simplify_eq. destruct (Hp 0%nat x eq_refl) as [Hb _]. split; [done|]. rewrite Z.add_0_r. apply lookup_insert_eq.
    + destruct (Hp (S j) z Hz) as [Hb Hi]. split; [done|]. rewrite lookup_insert_ne by lia. done.
  - destruct (H4 (S i) l' Hl') as (m1 & Hm1 & Hl1 & Hp1). exists m1. split; [done|]. split; [done|]. cbn.
    intros j z Hz. destruct (Hp1 j z Hz) as [Hb Hi]. split; [done|]. rewrite lookup_insert_ne; [done|].
    assert (S i < S (length P))%nat by (apply lookup_lt_Some in Hl'; lia).
    pose proof (H5 0%nat (S i) m m1 ltac:(lia)) as Ha. rewrite Z.add_0_r in Ha. specialize (Ha Hm Hm1).
    cbn in Hlen. lia.
Qed.

(** What [add_iov] built is what is to be sent. *)
Lemma out_repr_tx o V : out_repr o V → msgcurr o = 0 → tx_repr o V.
Proof.
  intros [H1 H2 H3 H4 H5 H6 H7] Hc. split; rewrite ?Hc; try lia.
  - intros i l Hl. destruct (H3 i l Hl) as (nl & Hm). eexists. split; [exact Hm|]. split; [done|]. cbn.
    intros j x Hx.
    assert (concat V !! (length (concat (take i V)) + j)%nat = Some x) as Hk.
    { assert (concat V = concat (take i V) ++ l ++ concat (drop (S i) V)) as ->.
      { rewrite <- (take_drop_middle V i l Hl) at 1. by rewrite concat_app. }
      rewrite lookup_app_r by lia.
      replace (length (concat (take i V)) + j - length (concat (take i V)))%nat with j by lia.
      rewrite lookup_app_l; [done|by apply lookup_lt_Some in Hx]. }
    pose proof (lookup_lt_Some _ _ _ Hk). specialize (H4 _ _ Hk). rewrite Nat2Z.inj_add in H4. split; [lia|done].
  - intros i j mi mj Hij Hi Hj. destruct (lookup_lt_is_Some_2 V i ltac:(lia)) as [li Hli].
    destruct (lookup_lt_is_Some_2 V j ltac:(lia)) as [lj Hlj].
    destruct (H3 _ _ Hli) as (? & Hmi). destruct (H3 _ _ Hlj) as (? & Hmj).
    rewrite Z.add_0_l, Hmi in Hi. rewrite Z.add_0_l, Hmj in Hj. simplify_eq. cbn.
    assert (length (concat (take i V)) + length li ≤ length (concat (take j V)))%nat; [|lia].
    assert (length (concat (take (S i) V)) = length (concat (take i V)) + length li)%nat as <-.
    { rewrite (take_S_r _ _ _ Hli), concat_app, length_app. cbn. by rewrite app_nil_r. }
    rewrite <- (firstn_skipn (S i) (take j V)), concat_app, length_app, take_take.
    replace (S i `min` j)%nat with (S i) by lia. lia.
Qed.

(** ** [transmit] *)
Definition msg_tx (l : list iovec) : Prop := Forall piece_ok l ∧ Z.of_nat (length l) ≤ IOV_MAX.
(** The messages after [next_msg]. *)
Definition skip_sent (P : list (list iovec)) : list (list iovec) :=
  match P with [] :: P => P | _ => P end.

Lemma unsent_length l n : (length (unsent l n) ≤ length l)%nat.
Proof. revert n. induction l as [|x l IH]; intros n; cbn; [done|]. destruct (n >=? _); cbn; [specialize (IH (n - iov_len x)); lia|lia]. Qed.
Lemma msg_tx_unsent l n : msg_tx l → 0 ≤ n → msg_tx (unsent l n).
Proof. intros [H1 H2] Hn. split; [by apply unsent_ok|]. pose proof (unsent_length l n). lia. Qed.
Lemma skip_sent_ok P : Forall msg_tx P → Forall msg_tx (skip_sent P).
Proof. destruct 1 as [|[|x l] P H1 H2]; cbn; [constructor|done|by constructor]. Qed.
Lemma skip_sent_bytes w P : pending_bytes w (skip_sent P) = pending_bytes w P.
Proof. by destruct P as [|[|x l] P]. Qed.

Lemma get_msg_tx w l P :
  tx_repr (ov (cn w)) (l :: P) →
  ∃ m, get_msg (msgcurr (ov (cn w))) w = Ok (m, w) ∧
       msglist (ov (cn w)) !! msgcurr (ov (cn w)) = Some m ∧ msg_pieces (ov (cn w)) m l.
Proof.
  intros Hr. destruct (tx_head _ _ _ Hr) as (m & Hm & Hp). exists m. split_and!; [|done|done].
  destruct Hr as [H1 H2 H3 _ _]. cbn in H2. unfold get_msg.
  rewrite (proj2 (Z.leb_le _ _)), (proj2 (Z.ltb_lt _ _)) by lia. cbn. by rewrite Hm.
Qed.

Lemma get_iov_piece w m l j x :
  msg_pieces (ov (cn w)) m l → l !! j = Some x → get_iov (msg_iov m + Z.of_nat j) w = Ok (x, w).
Proof.
  intros [_ Hp] Hx. destruct (Hp j x Hx) as [Hb Hi]. unfold get_iov.
  rewrite (proj2 (Z.leb_le _ _)), (proj2 (Z.ltb_lt _ _)) by lia. cbn. by rewrite Hi.
Qed.

Lemma gather_spec w l i :
  (∀ j x, l !! j = Some x → get_iov (i + Z.of_nat j) w = Ok (x, w)) →
  gather (length l) i w = Ok (bytes_of w l, w).
Proof.
  revert i. induction l as [|x l IH]; intros i Hi; [done|]. cbn [length gather].
  pose proof (Hi 0%nat x eq_refl) as H0. rewrite Z.add_0_r in H0. rewrite (bind_Ok _ _ _ _ _ H0).
  assert (gather (length l) (i + 1) w = Ok (bytes_of w l, w)) as Hl.
  { apply IH. intros j y Hy. replace (i + 1 + Z.of_nat j) with (i + Z.of_nat (S j)) by lia. by apply Hi. }
  assert (gets (λ w, read_ptr w (iov_base x) (iov_len x)) w = Ok (iov_bytes w x, w)) as Hg by done.
  rewrite (bind_Ok _ _ _ _ _ Hg), (bind_Ok _ _ _ _ _ Hl). done.
Qed.

Lemma next_msg_spec w P :
  tx_repr (ov (cn w)) P → ∃ o, next_msg w = Ok (tt, with_ov o w) ∧ tx_repr o (skip_sent P) ∧ iovused o = iovused (ov (cn w)).
Proof.
  intros Hr. unfold next_msg. rewrite bind_conn. pose proof (tx_used _ _ Hr) as Hu. destruct P as [|l P].
  - cbn in Hu. rewrite (proj2 (Z.ltb_ge _ _)) by lia. exists (ov (cn w)). by rewrite with_ov_id.
  - cbn in Hu. rewrite (proj2 (Z.ltb_lt _ _)) by lia.
    destruct (get_msg_tx w l P Hr) as (m & Hg & Hm & [Hlen _]). rewrite (bind_Ok _ _ _ _ _ Hg), Hlen.
    destruct l as [|x l]; cbn [length skip_sent].
    + eexists. split; [reflexivity|]. split; [by apply tx_next|done].
    + rewrite (proj2 (Z.eqb_neq _ _)) by lia. exists (ov (cn w)). by rewrite with_ov_id.
Qed.

(** The loop that removes the entries sent completely. *)
Lemma sent_loop w l P res :
  tx_repr (ov (cn w)) (l :: P) → msg_tx l → 0 ≤ res ≤ msg_size l →
  let k := msgcurr (ov (cn w)) in
  wp (loop FUEL (sent_body k) res) w (λ r w', ∃ o l', w' = with_ov o w ∧ msgcurr o = k ∧ iovused o = iovused (ov (cn w)) ∧ tx_repr o (l' :: P) ∧
    0 ≤ r ≤ msg_size l' ∧ unsent l' r = unsent l res ∧ match l' with [] => True | x :: _ => r < iov_len x end).
Proof.
  intros Hr [Hl Hmax] Hres k.
  set (I := λ (n r : Z) (w' : world), ∃ o l', w' = with_ov o w ∧ msgcurr o = k ∧ iovused o = iovused (ov (cn w)) ∧ tx_repr o (l' :: P) ∧
    Forall piece_ok l' ∧ 0 ≤ r ≤ msg_size l' ∧ unsent l' r = unsent l res ∧ n = Z.of_nat (length l')).
  apply (loop_rule _ _ I _ (Z.of_nat (length l))).
  - intros n r w' (o & l' & -> & Hk & Hiu & Hr' & Hl' & Hb & Hu & ->). unfold sent_body. subst k.
    destruct (get_msg_tx (with_ov o w) l' P Hr') as (m & Hg & Hm & Hp). cbn in Hm, Hp. rewrite <- Hk.
    apply wp_bind. eapply wp_eq; [exact Hg|]. pose proof Hp as [Hlen _]. rewrite Hlen. destruct l' as [|x l'].
    + cbn. apply wp_ret. by exists o, [].
    + rewrite (proj2 (Z.gtb_lt _ _)) by (cbn; lia). apply wp_bind.
      pose proof (get_iov_piece (with_ov o w) m _ 0 x Hp eq_refl) as Hi. rewrite Z.add_0_r in Hi.
      eapply wp_eq; [exact Hi|]. rewrite Z.geb_leb. apply Forall_cons_1 in Hl' as [[Hx Hrx] Hl'].
      cbn [msg_size foldr] in Hb. fold (msg_size l') in Hb. cbn [unsent] in Hu. rewrite Z.geb_leb in Hu.
      destruct (Z.leb_spec (iov_len x) r) as [Hge|Hlt].
      * io_steps. exists (Z.of_nat (length l')). split; [cbn; lia|]. eexists _, l'.
        split; [reflexivity|]. split; [done|]. split_and!; try done; try lia.
        pose proof (tx_advance o x l' P m Hr' Hm) as Ha. rewrite Hlen in Ha. exact Ha.
      * apply wp_ret. exists o, (x :: l'). split_and!; try done; try lia.
        -- cbn. fold (msg_size l'). lia.
        -- cbn. rewrite Z.geb_leb. rewrite (proj2 (Z.leb_gt _ _)) by lia. done.
  - exists (ov (cn w)), l. rewrite with_ov_id. done.
  - change (2 ^ Z.of_nat FUEL) with (2 ^ 64). unfold IOV_MAX in Hmax. lia.
Qed.

(** After [res] bytes of the current message. *)
Lemma consume_sent w l P res :
  tx_repr (ov (cn w)) (l :: P) → msg_tx l → 0 ≤ res ≤ msg_size l →
  let k := msgcurr (ov (cn w)) in
  ∃ o, (res ← loop FUEL (sent_body k) res; _ ← when (res >? 0) (trim_iov k res); mret TRANSMIT_INCOMPLETE) w =
         Ok (TRANSMIT_INCOMPLETE, with_ov o w) ∧ tx_repr o (unsent l res :: P) ∧ iovused o = iovused (ov (cn w)).
Proof.
  intros Hr Hl Hres k. destruct (sent_loop w l P res Hr Hl Hres) as (r & w' & E & o & l' & -> & Hk & Hiu & Hr' & Hb & Hu & Hx).
  subst k. rewrite (bind_Ok _ _ _ _ _ E), <- Hk. rewrite <- Hu.
  destruct (Z.gtb_spec r 0) as [Hpos|Hz].
  - destruct l' as [|x l']; [cbn in Hb; lia|]. cbn [when]. unfold trim_iov.
    destruct (get_msg_tx (with_ov o w) _ P Hr') as (m & Hg & Hm & Hp).
    change (msgcurr (ov (cn (with_ov o w)))) with (msgcurr o) in Hg, Hm.
    pose proof (get_iov_piece (with_ov o w) m _ 0 x Hp eq_refl) as Hi. rewrite Z.add_0_r in Hi.
    rewrite !bind_assocw, (bind_Ok _ _ _ _ _ Hg), bind_assocw, (bind_Ok _ _ _ _ _ Hi).
    eexists. split; [reflexivity|]. cbn [unsent]. rewrite Z.geb_leb, (proj2 (Z.leb_gt _ _)) by lia.
    split; [by apply (tx_trim o x)|done].
  - exists o. split; [done|]. split; [|done]. replace r with 0 by lia. destruct l' as [|x l']; [done|].
    cbn [unsent]. rewrite Z.geb_leb, (proj2 (Z.leb_gt _ _)) by lia. rewrite padd_0, Z.sub_0_r.
    by destruct x.
Qed.

(** Only what waiting for the socket changes. *)
Record waited (w w' : world) : Prop := {
  wt_buffers : same_buffers w w';
  wt_ov : ov (cn w') = ov (cn w);
  wt_state : state (core (cn w')) = state (core (cn w));
  wt_sent : sent (en w') = sent (en w)
}.
#[global] Instance waited_refl : Reflexive waited.
Proof. by split. Qed.

Lemma event_ok_spec w (Q : bool → world → Prop) :
  (∀ b l, Q b (set_en (set_ev_ops l (en w)) w)) → wp event_ok w Q.
Proof.
  intros HQ. unfold event_ok, wp. destruct (ev_ops (en w)) as [|b l] eqn:E; eexists _, _; (split; [reflexivity|]).
  - replace w with (set_en (set_ev_ops [] (en w)) w) at 1; [apply HQ|]. rewrite <- E. by destruct w as [? ? ? ? []].
  - apply HQ.
Qed.

Lemma update_event_waits f w : wp (update_event f) w (λ _ w', waited w w').
Proof.
  unfold update_event. io_steps. apply wp_ifw; intros _; [by apply wp_ret|]. apply wp_bind, event_ok_spec.
  intros b l. apply wp_ifw; intros _; [by apply wp_ret|]. io_steps. apply event_ok_spec. by intros.
Qed.

(** What a call of [transmit] with the messages [P] to send leaves. *)
Definition transmit_post (w : world) (P : list (list iovec)) (r : transmit_result) (w' : world) : Prop :=
  ∃ o, match r with
  | TRANSMIT_COMPLETE => w' = with_ov o w ∧ tx_repr o [] ∧ P = [] ∧ iovused o = iovused (ov (cn w))
  | TRANSMIT_INCOMPLETE => ∃ l P1 n c, P = l :: P1 ∧ 0 < n ≤ msg_size l ∧
      w' = set_en (set_sent (take (Z.to_nat n) (bytes_of w l) :: sent (en w)) (set_sends (tail (sends (en w))) (en w)))
             (set_kv (set_cnt c (kv w)) (with_ov o w)) ∧ tx_repr o (unsent l n :: P1) ∧
      iovused o = iovused (ov (cn w))
  | TRANSMIT_SOFT_ERROR => same_buffers w w' ∧ ov (cn w') = o ∧ sent_bytes w' = sent_bytes w ∧ tx_repr o P ∧
      state (core (cn w')) = state (core (cn w)) ∧ SendAgain ∈ sends (en w)
  | TRANSMIT_HARD_ERROR => same_buffers w w' ∧ ov (cn w') = o ∧ sent_bytes w' = sent_bytes w ∧ tx_repr o P ∧
      (state (core (cn w')) = conn_closing ∨ is_udp (cn w) = true ∧ state (core (cn w')) = conn_read) ∧
      ¬ (Forall (λ s, ∃ n, s = Accepted n ∧ 0 < n) (sends (en w)) ∧ Forall (λ l, 0 < msg_size l) P)
  end.

(** The socket took [n] bytes of the current message. *)
Lemma transmit_sent w o1 l P1 n :
  tx_repr o1 (l :: P1) → iovused o1 = iovused (ov (cn w)) → msg_tx l → 0 ≤ n ≤ msg_size l →
  (Forall (λ s, ∃ n, s = Accepted n ∧ 0 < n) (sends (en w)) → 0 < msg_size l → 0 < n) →
  wp (if n >? 0 then
        _ ← srv (thread_add bytes_written n);
        res ← loop FUEL (sent_body (msgcurr o1)) n;
        _ ← when (res >? 0) (trim_iov (msgcurr o1) res);
        mret TRANSMIT_INCOMPLETE
      else
        _ ← conn_set_state (if is_udp (cn w) then conn_read else conn_closing);
        mret TRANSMIT_HARD_ERROR)
     (set_en (set_sent (take (Z.to_nat n) (bytes_of w l) :: sent (en w)) (set_sends (tail (sends (en w))) (en w)))
        (with_ov o1 w))
     (transmit_post w (l :: P1)).
Proof.
  intros Hr1 Hiu Hl Hn Hall. set (w1 := set_en _ _). destruct (Z.gtb_spec n 0) as [Hpos|Hz].
  - apply wp_bind, wp_srv. wp_step. set (w2 := set_kv _ w1).
    destruct (consume_sent w2 l P1 n Hr1 Hl Hn) as (o & E & Hr2 & Hiu2).
    change (msgcurr (ov (cn w2))) with (msgcurr o1) in E. eapply wp_eq; [exact E|].
    exists o, l, P1, n. eexists. split; [done|]. split; [lia|]. split; [reflexivity|]. split; [exact Hr2|]. by rewrite Hiu2.
  - assert (n = 0) as -> by lia. apply wp_bind, wp_set_state; [by destruct (is_udp (cn w))|]. apply wp_ret. eexists.
    split_and!; [by split|reflexivity| |exact Hr1| |].
    + unfold sent_bytes. cbn. by rewrite concat_app, app_nil_r.
    + cbn. destruct (is_udp (cn w)); auto.
    + intros [Hs Hpos]. apply Forall_cons_1 in Hpos as [Hpos _]. specialize (Hall Hs Hpos). lia.
Qed.

Lemma transmit_spec w P :
  tx_repr (ov (cn w)) P → Forall msg_tx P → wp transmit w (transmit_post w (skip_sent P)).
Proof.
  intros Hr HP. destruct (next_msg_spec w P Hr) as (o1 & E1 & Hr1 & Hiu). unfold transmit.
  apply wp_bind. eapply wp_eq; [exact E1|]. clear E1. apply wp_bind, wp_conn.
  change (ov (cn (with_ov o1 w))) with o1. pose proof (tx_used _ _ Hr1) as Hu.
  pose proof (skip_sent_ok P HP) as HP1. destruct (skip_sent P) as [|l P1].
  { cbn in Hu. rewrite (proj2 (Z.ltb_ge _ _)) by lia. apply wp_ret. by exists o1. }
  cbn in Hu. rewrite (proj2 (Z.ltb_lt _ _)) by lia. apply Forall_cons_1 in HP1 as [Hl HP1].
  destruct (get_msg_tx (with_ov o1 w) l P1 Hr1) as (m & Hg & Hm & Hp). apply wp_bind. eapply wp_eq; [exact Hg|].
  apply wp_bind. eapply wp_eq.
  { rewrite (proj1 Hp), Nat2Z.id. apply gather_spec. intros j x. by apply get_iov_piece. }
  change (bytes_of (with_ov o1 w) l) with (bytes_of w l). apply wp_bind.
  pose proof (bytes_of_length w l (proj1 Hl)) as Hlen. pose proof (msg_size_nonneg l (proj1 Hl)) as Hsz.
  pose proof (λ n, transmit_sent w o1 l P1 n Hr1 Hiu Hl) as Hsent.
  change (is_udp (cn (with_ov o1 w))) with (is_udp (cn w)).
  destruct (sends (en w)) as [|[n| |] ss] eqn:Es.
  - eexists _, _. split; [unfold sock_send; change (en (with_ov o1 w)) with (en w); rewrite Es; reflexivity|]. cbv beta iota. rewrite Hlen. apply Hsent; [lia|done].
  - eexists _, _. split; [unfold sock_send; change (en (with_ov o1 w)) with (en w); rewrite Es; reflexivity|]. cbv beta iota. rewrite Hlen. apply Hsent; [lia|].
    intros Hf Hp0. apply Forall_cons_1 in Hf as [(n' & [= <-] & Hn') _]. lia.
  - eexists _, _. split; [unfold sock_send; change (en (with_ov o1 w)) with (en w); rewrite Es; reflexivity|]. apply wp_bind. eapply wp_mono; [|apply update_event_waits].
    intros ok w' [H1 H2 H3 H4]. assert (same_buffers w w') by (etrans; [|exact H1]; by split).
    apply wp_ifw; intros _.
    + apply wp_bind, wp_set_state; [done|]. apply wp_ret. exists o1.
      split_and!; [|done| |done|by left|].
      * etrans; [done|]. by split.
      * unfold sent_bytes. cbn. cbn in H4. by rewrite H4.
      * rewrite Es. intros [Hf _]. apply Forall_cons_1 in Hf as [(n' & ? & _) _]. done.
    + apply wp_ret. exists o1. split_and!; try done.
      * unfold sent_bytes. cbn in H4. by rewrite H4.
      * rewrite Es. left.
  - eexists _, _. split; [unfold sock_send; change (en (with_ov o1 w)) with (en w); rewrite Es; reflexivity|]. apply wp_bind, wp_set_state; [by destruct (is_udp (cn w))|]. apply wp_ret.
    exists o1. split_and!; [by split|done|done|done| |].
    + cbn. destruct (is_udp (cn w)); auto.
    + rewrite Es. intros [Hf _]. apply Forall_cons_1 in Hf as [(n' & ? & _) _]. done.
Qed.

(** ** Claims *)
Lemma pending_cons w l P : pending_bytes w (l :: P) = bytes_of w l ++ pending_bytes w P.
Proof. apply bytes_of_app. Qed.
Lemma bytes_of_frame w w' l : same_buffers w w' → bytes_of w' l = bytes_of w l.
Proof.
  intros Hs. unfold bytes_of. f_equal. apply list_fmap_ext. intros _ x _. unfold iov_bytes. by apply read_ptr_frame.
Qed.

(** What a partial write leaves pending. *)
Lemma sent_part w w' l P1 n :
  msg_tx l → 0 < n ≤ msg_size l → same_buffers w w' →
  sent (en w') = take (Z.to_nat n) (bytes_of w l) :: sent (en w) →
  sent_bytes w' ++ pending_bytes w' (unsent l n :: P1) = sent_bytes w ++ bytes_of w l ++ pending_bytes w P1 ∧
  length (sent_bytes w') = (length (sent_bytes w) + Z.to_nat n)%nat.
Proof.
  intros [Hl Hmax] Hn Hs Hsent. pose proof (bytes_of_length w l Hl) as Hlen.
  assert (sent_bytes w' = sent_bytes w ++ take (Z.to_nat n) (bytes_of w l)) as He.
  { unfold sent_bytes. rewrite Hsent. cbn. rewrite concat_app. cbn. by rewrite app_nil_r. }
  split.
  - rewrite He, pending_cons. unfold pending_bytes. rewrite !(bytes_of_frame w w') by done.
    rewrite unsent_bytes by (done || lia). rewrite <- !app_assoc. f_equal. by rewrite app_assoc, take_drop.
  - rewrite He, length_app, length_take. lia.
Qed.

(** C4: transmission.  Whatever part of a message the socket accepts, [transmit]
    keeps the sequence of bytes sent and still to be sent the same: no byte of
    a reply is lost, repeated or reordered, over any number of messages and
    pieces.  It reports completion only when nothing is left, a partial write
    only when bytes went out, and an error only with the output unchanged and
    the connection waiting, closing or (UDP) reading again. *)
Theorem transmit_correct (w : world) (P : list (list iovec))
    (Hr : tx_repr (ov (cn w)) P) (HP : Forall msg_tx P) :
  ∃ r w' P', transmit w = Ok (r, w') ∧ tx_repr (ov (cn w')) P' ∧ Forall msg_tx P' ∧
    sent_bytes w' ++ pending_bytes w' P' = sent_bytes w ++ pending_bytes w P ∧
    match r with
    | TRANSMIT_COMPLETE => pending_bytes w' P' = []
    | TRANSMIT_INCOMPLETE => (length (sent_bytes w) < length (sent_bytes w'))%nat
    | TRANSMIT_SOFT_ERROR => sent_bytes w' = sent_bytes w ∧ state (core (cn w')) = state (core (cn w))
    | TRANSMIT_HARD_ERROR => sent_bytes w' = sent_bytes w ∧
        (state (core (cn w')) = conn_closing ∨ is_udp (cn w) = true ∧ state (core (cn w')) = conn_read)
    end.
Proof.
  destruct (transmit_spec w P Hr HP) as (r & w' & E & o & Hpost). exists r, w'.
  rewrite <- (skip_sent_bytes w P). pose proof (skip_sent_ok P HP) as HP1. destruct r.
  - destruct Hpost as (-> & Hr' & -> & _). exists []. split_and!; try done.
  - destruct Hpost as (l & P1 & n & c & Hsk & Hn & -> & Hr' & _). rewrite Hsk in HP1 |- *.
    apply Forall_cons_1 in HP1 as [Hl HP1]. exists (unsent l n :: P1).
    set (w' := set_en _ _) in *.
    destruct (sent_part w w' l P1 n Hl Hn) as [H1 H2]; [by split|done|].
    rewrite (pending_cons w l). split_and!; [done|exact Hr'| |exact H1|lia].
    constructor; [|done]. apply msg_tx_unsent; [done|lia].
  - destruct Hpost as (Hs & Ho & Hsent & Hr' & Hst & _). exists (skip_sent P). rewrite Ho, Hsent.
    split_and!; try done. unfold pending_bytes. by rewrite (bytes_of_frame w w').
  - destruct Hpost as (Hs & Ho & Hsent & Hr' & Hst & _). exists (skip_sent P). rewrite Ho, Hsent.
    split_and!; try done. unfold pending_bytes. by rewrite (bytes_of_frame w w').
Qed.

(** A reply of two messages, and a socket that takes seven bytes first. *)
Definition two_messages : list (list iovec) :=
  [[Iovec (lit "VALUE k 0 5") 11; Iovec (lit "!") 1]; [Iovec (lit "hello") 5]].
Definition sending_ov : conn_ov :=
  Ov (<[0 := Iovec (lit "VALUE k 0 5") 11]> (<[1 := Iovec (lit "!") 1]> {[2 := Iovec (lit "hello") 5]})) 400 3
     (<[0 := Msghdr 0 2 0]> {[1 := Msghdr 2 1 0]}) 10 2 0 5.
Definition sending_world (ss : list send) : world :=
  let w := with_ov sending_ov (blank_world tcp_transport) in set_en (set_sends ss (en w)) w.

Lemma sending_repr ss : tx_repr (ov (cn (sending_world ss))) two_messages.
Proof.
  apply out_repr_tx; [|done]. split; try done.
  - intros [|[|i]] l Hl; cbn in Hl; simplify_eq; by exists 0.
  - intros [|[|[|k]]] x Hx; cbn in Hx; by simplify_eq.
  - by intros l [= <-].
Qed.
Lemma two_messages_tx : Forall msg_tx two_messages.
Proof. repeat constructor; cbn; unfold IOV_MAX; lia. Qed.

Lemma transmit_correct_witness :
  let w := sending_world [Accepted 7] in
  ∃ r w' P', transmit w = Ok (r, w') ∧ tx_repr (ov (cn w')) P' ∧ Forall msg_tx P' ∧
    sent_bytes w' ++ pending_bytes w' P' = sent_bytes w ++ pending_bytes w two_messages ∧
    match r with
    | TRANSMIT_COMPLETE => pending_bytes w' P' = []
    | TRANSMIT_INCOMPLETE => (length (sent_bytes w) < length (sent_bytes w'))%nat
    | TRANSMIT_SOFT_ERROR => sent_bytes w' = sent_bytes w ∧ state (core (cn w')) = state (core (cn w))
    | TRANSMIT_HARD_ERROR => sent_bytes w' = sent_bytes w ∧
        (state (core (cn w')) = conn_closing ∨ is_udp (cn w) = true ∧ state (core (cn w')) = conn_read)
    end.
Proof. apply (transmit_correct (sending_world [Accepted 7]) two_messages (sending_repr _) two_messages_tx). Defined.

(** ** Delivery by the state machine *)
Lemma unsent_pos l n : Forall piece_ok l → unsent l n = [] ∨ 0 < msg_size (unsent l n).
Proof.
  intros Hl. revert n. induction Hl as [|x l [Hx Hr] Hl IH]; intros n; [by left|]. cbn [unsent].
  rewrite Z.geb_leb. destruct (Z.leb_spec (iov_len x) n); [apply IH|]. right. cbn. fold (msg_size l).
  pose proof (msg_size_nonneg l Hl). lia.
Qed.

(** The socket takes at least one byte each time. *)
Definition accepting (e : env) : Prop := Forall (λ s, ∃ n, s = Accepted n ∧ 0 < n) (sends e).
Lemma accepting_tail e e' : accepting e → sends e' = tail (sends e) → accepting e'.
Proof. unfold accepting. intros H ->. by destruct H. Qed.

(** Only sending happened between [w] and [w']. *)
Definition sent_frame (w w' : world) : Prop :=
  ∃ o c ss l, w' = set_en (set_sent l (set_sends ss (en w))) (set_kv (set_cnt c (kv w)) (with_ov o w)) ∧
              iovused o = iovused (ov (cn w)).
Lemma sent_frame_refl w : sent_frame w w.
Proof.
  exists (ov (cn w)), (cnt (kv w)), (sends (en w)), (sent (en w)). split; [|done].
  by destruct w as [[] [] ? ? []].
Qed.
Lemma sent_frame_trans w1 w2 w3 : sent_frame w1 w2 → sent_frame w2 w3 → sent_frame w1 w3.
Proof.
  intros (o1 & c1 & s1 & l1 & -> & H1) (o2 & c2 & s2 & l2 & -> & H2). exists o2, c2, s2, l2.
  split; [done|]. by rewrite H2.
Qed.
Lemma sent_frame_buffers w w' : sent_frame w w' → same_buffers w w'.
Proof. intros (o & c & s & l & -> & _). by split. Qed.

(** ** Queueing does not touch the position of the transmission *)
Abbreviation keeps_curr := (frame (λ w, msgcurr (ov (cn w)))).

Lemma keeps_get_msg i : keeps_curr (get_msg i).
Proof. intros w a w'. unfold get_msg. destruct (_ && _); [|done]. destruct (_ !! _); [|done]. by intros [= <- <-]. Qed.
Lemma keeps_srv {A} (m : server A) : keeps_curr (srv m).
Proof. by apply frame_zoom_out. Qed.
Lemma keeps_malloc : keeps_curr malloc_ok.
Proof. intros w a w'. unfold malloc_ok. destruct (mallocs (en w)); by intros [= <- <-]. Qed.
#[local] Hint Resolve keeps_get_msg keeps_srv keeps_malloc : frames.
Lemma keeps_malloc_counted : keeps_curr malloc_counted.
Proof. unfold malloc_counted. frame_tac. Qed.
#[local] Hint Resolve keeps_malloc_counted : frames.
Lemma keeps_add_msghdr add : (∀ p n, keeps_curr (add p n)) → keeps_curr (add_msghdr_with add).
Proof. intros Ha. unfold add_msghdr_with, conn_, on_ov, upd_cn. frame_tac. Qed.
Lemma keeps_add_iov_body add x : keeps_curr add → keeps_curr (add_iov_body add x).
Proof.
  intros Ha. destruct x as [buf len]. unfold add_iov_body, ensure_iov_space, put_iov, conn_, on_ov, upd_cn. frame_tac.
Qed.
Lemma keeps_add_iov_n d buf len : keeps_curr (add_iov_n d buf len).
Proof.
  revert buf len. induction d as [|d IH]; intros buf len; [apply frame_fail|]. rewrite add_iov_n_S.
  apply frame_loop. intros x. by apply keeps_add_iov_body, keeps_add_msghdr.
Qed.

Lemma keeps_add_iov buf len : keeps_curr (add_iov buf len).
Proof. unfold add_iov. apply keeps_add_iov_n. Qed.

Section delivery.
Context `{background} `{sasl_lib} (inp : stat_inputs).

(** One turn of [drive_machine] that goes on. *)
Definition turn (x y : Z * world) : Prop := drive_body inp x.1 x.2 = Ok (inl y.1, y.2).

(** The connection is sending a reply that is queued. *)
Definition sending (w : world) : Prop :=
  is_udp (cn w) = false ∧
  (state (core (cn w)) = conn_mwrite ∨ state (core (cn w)) = conn_write ∧ iovused (ov (cn w)) ≠ 0).

Lemma sending_turn n w :
  sending w →
  drive_body inp n w = (r ← transmit; match r with
    | TRANSMIT_COMPLETE => _ ← transmit_complete; go n
    | TRANSMIT_INCOMPLETE | TRANSMIT_HARD_ERROR => go n
    | TRANSMIT_SOFT_ERROR => stop
    end) w.
Proof.
  intros [Hu [Hs|[Hs Hi]]]; unfold drive_body; rewrite bind_conn, Hs; unfold step_write, step_mwrite;
    rewrite bind_conn, Hu; cbn [andb orb].
  - rewrite bind_retw. done.
  - rewrite orb_false_r, (proj2 (Z.eqb_neq _ _)) by done. rewrite bind_retw. cbn [negb Z.eqb].
    rewrite bind_conn, Hu. cbn [andb]. rewrite bind_retw. done.
Qed.

Lemma sending_frame w w' : sent_frame w w' → sending w → sending w'.
Proof. intros (o & c & s & l & -> & Hi) [H1 H2]. split; [exact H1|]. cbn. by rewrite Hi. Qed.

(** The turns that send everything that is pending. *)
Lemma transmit_delivers k n w P :
  sending w → tx_repr (ov (cn w)) P → Forall msg_tx P → Forall (λ l, 0 < msg_size l) (skip_sent P) →
  accepting (en w) → (length (pending_bytes w P) ≤ k)%nat →
  ∃ w' o, rtc turn (n, w) (n, w') ∧ sent_frame w w' ∧ sent_bytes w' = sent_bytes w ++ pending_bytes w P ∧
    transmit w' = Ok (TRANSMIT_COMPLETE, with_ov o w').
Proof.
  revert w P. induction k as [k IH] using lt_wf_ind. intros w P Hs Hr HP Hpos Hacc Hk.
  destruct (transmit_spec w P Hr HP) as (r & w1 & E & o & Hpost). destruct r.
  - destruct Hpost as (-> & Hr' & Hsk & _). exists w, o. split_and!; [done|apply sent_frame_refl| |done].
    rewrite <- skip_sent_bytes, Hsk. by rewrite app_nil_r.
  - destruct Hpost as (l & P1 & m & c & Hsk & Hm & -> & Hr' & Hiu). set (w1 := set_en _ _) in *.
    assert (sent_frame w w1) as Hf by (eexists o, c, (tail (sends (en w))), _; done).
    pose proof (skip_sent_ok P HP) as HP1. rewrite Hsk in HP1, Hpos. apply Forall_cons_1 in HP1 as [Hl HP1].
    apply Forall_cons_1 in Hpos as [_ Hpos].
    destruct (sent_part w w1 l P1 m Hl Hm) as [H1 H2]; [by apply sent_frame_buffers|done|].
    rewrite <- pending_cons, <- Hsk, skip_sent_bytes in H1.
    assert (length (pending_bytes w1 (unsent l m :: P1)) < length (pending_bytes w P))%nat as Hlt.
    { apply (f_equal length) in H1. rewrite !length_app in H1. lia. }
    destruct (IH (length (pending_bytes w1 (unsent l m :: P1))) ltac:(lia) w1 (unsent l m :: P1))
      as (w2 & o2 & Ht & Hf2 & Hb & Hc).
    + by apply (sending_frame w).
    + exact Hr'.
    + constructor; [|done]. apply msg_tx_unsent; [done|lia].
    + destruct (unsent_pos l m (proj1 Hl)) as [->|Hp]; [done|].
      destruct (unsent l m); cbn in *; [done|]. by constructor.
    + by apply (accepting_tail (en w)).
    + done.
    + exists w2, o2. split_and!; [|by apply (sent_frame_trans w w1)|by rewrite Hb|done].
      eapply rtc_l; [|exact Ht]. unfold turn. cbn [fst snd]. rewrite sending_turn by done.
      by rewrite (bind_Ok _ _ _ _ _ E).
  - destruct Hpost as (_ & _ & _ & _ & _ & Hin). unfold accepting in Hacc. rewrite list.Forall_forall in Hacc.
    by destruct (Hacc _ Hin) as (? & ? & _).
  - destruct Hpost as (_ & _ & _ & _ & _ & Hn). by destruct Hn.
Qed.

Lemma wp_write_wbuf w off bs (Q : unit → world → Prop) :
  0 ≤ off → off + Z.of_nat (length bs) ≤ wsize (wr (cn w)) →
  Q tt (set_cn (upd_wr (λ s, set_wbuf (store_bytes (wbuf s) off bs) s) (cn w)) w) → wp (write_wbuf off bs) w Q.
Proof.
  intros H1 H2 HQ. unfold write_wbuf. io_steps. rewrite (proj2 (Z.leb_le _ _)), (proj2 (Z.leb_le _ _)) by lia.
  cbn [andb]. by io_steps.
Qed.

Lemma load_store_two m a bs1 bs2 :
  Forall is_byte bs1 → Forall is_byte bs2 →
  load_bytes (store_bytes (store_bytes m a bs1) (a + Z.of_nat (length bs1)) bs2) a (length bs1 + length bs2) = bs1 ++ bs2.
Proof.
  intros H1 H2. rewrite load_bytes_app. f_equal; [|by apply load_store_bytes_eq].
  etrans; [|by apply (load_store_bytes_eq m a bs1)]. apply load_bytes_agree, agree_store_out; [done|lia].
Qed.

(** A simple reply on a stream connection, queued. *)
Record reply_queued (w : world) (s : list Z) (w1 : world) : Prop := {
  rq_ov : out_repr (ov (cn w1)) [[]];
  rq_curr : msgcurr (ov (cn w1)) = 0;
  rq_en : en w1 = en w;
  rq_tcp : is_udp (cn w1) = false;
  rq_state : state (core (cn w1)) = conn_write;
  rq_go : write_and_go (wr (cn w1)) = conn_new_cmd;
  rq_wcurr : wcurr (wr (cn w1)) = Ptr RWbuf 0;
  rq_wbytes : wbytes (wr (cn w1)) = Z.of_nat (length s) + 2;
  rq_bytes : read_ptr w1 (Ptr RWbuf 0) (Z.of_nat (length s) + 2) = s ++ crlf;
  rq_kv : kv w1 = kv w;
  rq_rd : rd (cn w1) = rd (cn w)
}.

(** The first message needs no memory. *)
Lemma add_msghdr_first add w :
  out_repr (ov (cn w)) [] → is_udp (cn w) = false →
  ∃ o, add_msghdr_with add w = Ok (0, with_ov o w) ∧ out_repr o [[]].
Proof.
  intros Hr Hudp. unfold add_msghdr_with. rewrite bind_conn, Hudp. cbn [andb].
  pose proof (or_msgs _ _ Hr) as Hu. pose proof (or_msgsize _ _ Hr) as Hs. cbn in Hu.
  rewrite (proj2 (Z.eqb_neq _ _)) by lia. rewrite bind_retw. cbn [negb when]. eexists. split; [reflexivity|].
  apply (new_msg_repr _ [] 0 false Hr). right. lia.
Qed.

Lemma out_string_spec w s :
  noreply (core (cn w)) = false → is_udp (cn w) = false →
  0 < msgsize (ov (cn w)) → 0 < iovsize (ov (cn w)) →
  Forall is_byte s → Z.of_nat (length s) + 2 ≤ wsize (wr (cn w)) →
  wp (out_string s) w (λ _ w1, reply_queued w s w1).
Proof.
  intros Hno Hu H1 H2 Hb Hw. unfold out_string, reset_output. io_steps. rewrite Hno. cbv iota. io_steps.
  set (w0 := set_cn _ w). destruct (add_msghdr_first (add_iov_n 3) w0) as (o & E & Hr); [|done|].
  { split; cbn; try done; lia. }
  eapply wp_eq; [exact E|]. assert (msgcurr o = 0) as Hc.
  { apply (keeps_add_msghdr (add_iov_n 3) (keeps_add_iov_n 3)) in E. exact E. }
  rewrite Z.gtb_ltb, (proj2 (Z.ltb_ge _ _)) by lia. apply wp_bind, wp_write_wbuf; [lia|cbn; lia|].
  apply wp_bind, wp_write_wbuf; [lia|cbn; lia|]. io_steps. split; try done.
  unfold read_ptr. cbn [preg poff]. replace (Z.to_nat (Z.of_nat (length s) + 2)) with (length s + length crlf)%nat by (cbn; lia).
  apply (load_store_two _ 0); [done|]. repeat constructor; unfold is_byte, CR, LF; lia.
Qed.

(** One short piece goes into the first message. *)
Lemma add_iov_short w buf len :
  mallocs (en w) = [] → out_repr (ov (cn w)) [[]] → is_udp (cn w) = false → 0 ≤ len ≤ UDP_MAX_PAYLOAD_SIZE →
  ∃ o, add_iov buf len w = Ok (0, with_ov o w) ∧ out_repr o [[Iovec buf len]].
Proof.
  intros Hm Hr Hu Hlen. destruct (add_iov_body_last w [] [] (add_msghdr_with (add_iov_n 2)) buf len Hm Hr) as (o & E & Hr').
  { by rewrite Hu. }
  rewrite Hu in E, Hr'. cbn [orb app length Nat.eqb] in E, Hr'. assert (fit true [] len = len) as Hf.
  { unfold fit. cbn. rewrite Z.add_0_r, Z.gtb_ltb, (proj2 (Z.ltb_ge _ _)) by lia. done. }
  rewrite Hf in E, Hr'. rewrite Z.ltb_irrefl in E. exists o. split; [|done].
  unfold add_iov. rewrite add_iov_n_S. by apply loop_first.
Qed.

Lemma transmit_complete_write w :
  state (core (cn w)) = conn_write → write_and_go (wr (cn w)) ≠ conn_max_state →
  ∃ w', transmit_complete w = Ok (tt, w') ∧ state (core (cn w')) = write_and_go (wr (cn w)) ∧ en w' = en w ∧
    rd (cn w') = rd (cn w) ∧ kv w' = kv w.
Proof.
  intros Hs Hg. unfold transmit_complete. rewrite bind_conn, Hs.
  assert (wp (_ ← on_wr (set_to_free None); conn_set_state (write_and_go (wr (cn w)))) w
    (λ _ w', state (core (cn w')) = write_and_go (wr (cn w)) ∧ en w' = en w ∧ rd (cn w') = rd (cn w) ∧ kv w' = kv w))
    as ([] & w' & E & HQ); [|by exists w'].
  by io_steps.
Qed.

(** The first turn queues the reply and goes on as if it had been queued. *)
Lemma reply_first_turn w s w1 o k :
  reply_queued w s w1 →
  add_iov (Ptr RWbuf 0) (Z.of_nat (length s) + 2) w1 = Ok (0, with_ov o w1) → sending (with_ov o w1) →
  drive_body inp k w1 = drive_body inp k (with_ov o w1).
Proof.
  intros Hq E Hsend. rewrite (sending_turn k _ Hsend). unfold drive_body. rewrite bind_conn, (rq_state _ _ _ Hq).
  unfold step_write. rewrite bind_conn, (rq_tcp _ _ _ Hq), (or_iovs _ _ (rq_ov _ _ _ Hq)).
  rewrite (rq_wcurr _ _ _ Hq), (rq_wbytes _ _ _ Hq).
  change (Z.of_nat (length (concat [[]])) =? 0) with true. cbv beta iota delta [orb].
  rewrite (bind_Ok _ _ _ _ _ E). change (negb (0 =? 0)) with false. cbv iota.
  unfold step_mwrite. rewrite bind_conn, (proj1 Hsend). change (false && (msgcurr (ov (cn (with_ov o w1))) =? 0)) with false.
  cbv iota. rewrite bind_retw. change (negb (0 =? 0)) with false. cbv iota. reflexivity.
Qed.

(** The turns that deliver a queued reply. *)
Lemma reply_turns w s w1 n :
  reply_queued w s w1 → mallocs (en w) = [] → accepting (en w) →
  0 < Z.of_nat (length s) + 2 ≤ UDP_MAX_PAYLOAD_SIZE →
  ∃ w2, rtc turn (n, w1) (n, w2) ∧ state (core (cn w2)) = conn_new_cmd ∧ sent_bytes w2 = sent_bytes w ++ s ++ crlf ∧
    rd (cn w2) = rd (cn w).
Proof.
  intros Hq Hm Hacc Hlen. destruct (add_iov_short w1 (Ptr RWbuf 0) (Z.of_nat (length s) + 2)) as (o & E & Hr);
    [by rewrite (rq_en _ _ _ Hq)|by apply rq_ov in Hq|by apply rq_tcp in Hq|lia|].
  set (w2 := with_ov o w1) in *.
  assert (msgcurr o = 0) as Hc.
  { pose proof (keeps_add_iov _ _ _ _ _ E) as Hk. cbv beta in Hk. rewrite (rq_curr _ _ _ Hq) in Hk. exact Hk. }
  assert (iovused o = 1) as Hi by (rewrite (or_iovs _ _ Hr); reflexivity).
  assert (sending w2) as Hsend.
  { split; [by apply rq_tcp in Hq|]. right. split; [by apply rq_state in Hq|]. cbn. lia. }
  assert (piece_ok (Iovec (Ptr RWbuf 0) (Z.of_nat (length s) + 2))) as Hp by (split; cbn; [lia|done]).
  pose proof (λ k, reply_first_turn w s w1 o k Hq E Hsend) as Hsame. fold w2 in Hsame.
  destruct (transmit_delivers (length (pending_bytes w2 [[Iovec (Ptr RWbuf 0) (Z.of_nat (length s) + 2)]])) n w2
    [[Iovec (Ptr RWbuf 0) (Z.of_nat (length s) + 2)]] Hsend) as (w3 & o3 & Ht & Hf & Hb & Hc3).
  - by apply out_repr_tx.
  - apply Forall_singleton. split; [by apply Forall_singleton|]. cbn. unfold IOV_MAX. lia.
  - apply Forall_singleton. cbn. lia.
  - cbn. by rewrite (rq_en _ _ _ Hq).
  - done.
  - pose proof (sending_frame _ _ Hf Hsend) as Hs3. destruct Hf as (o' & c & ss & l & Hw3 & _).
    destruct (transmit_complete_write (with_ov o3 w3)) as (w4 & E4 & Hst & Hen & Hrd & _).
    { rewrite Hw3. by apply rq_state in Hq. }
    { rewrite Hw3. cbn. by rewrite (rq_go _ _ _ Hq). }
    assert (turn (n, w3) (n, w4)) as Hlast.
    { unfold turn. cbn [fst snd]. rewrite sending_turn by done. rewrite (bind_Ok _ _ _ _ _ Hc3).
      by rewrite (bind_Ok _ _ _ _ _ E4). }
    exists w4. split_and!.
    + assert (∀ y, turn (n, w2) y → turn (n, w1) y) as Hfirst.
      { intros y. unfold turn. cbn [fst snd]. by rewrite Hsame. }
      apply rtc_inv in Ht as [[= <-]|(y & Hstep & Hrest)]; [by apply rtc_once, Hfirst|].
      eapply rtc_l; [by apply Hfirst|]. by eapply rtc_r.
    + rewrite Hst, Hw3. cbn. by rewrite (rq_go _ _ _ Hq).
    + replace (sent_bytes w4) with (sent_bytes w3) by (unfold sent_bytes; by rewrite Hen). rewrite Hb.
      replace (sent_bytes w2) with (sent_bytes w) by (unfold sent_bytes; cbn; by rewrite (rq_en _ _ _ Hq)).
      f_equal. unfold pending_bytes, bytes_of. cbn [concat app fmap list_fmap]. rewrite app_nil_r.
      apply (rq_bytes _ _ _ Hq).
    + rewrite Hrd, Hw3. cbn. by rewrite (rq_rd _ _ _ Hq).
Qed.
End delivery.

(** C11: delivery of a reply.  A reply written with [out_string] to a stream
    connection reaches the client completely: when the socket takes at least
    one byte at each call - however it cuts the reply up - finitely many turns
    of the state machine send exactly the text and its line end, and leave the
    connection ready for the next command with the unread input untouched. *)
Theorem reply_delivered `{background} `{sasl_lib} (inp : stat_inputs) (w : world) (s : list Z) (n : Z)
    (Hno : noreply (core (cn w)) = false) (Htcp : is_udp (cn w) = false) (Hm : mallocs (en w) = [])
    (Hmsg : 0 < msgsize (ov (cn w))) (Hiov : 0 < iovsize (ov (cn w)))
    (Hb : Forall is_byte s) (Hw : Z.of_nat (length s) + 2 ≤ wsize (wr (cn w)))
    (Hmtu : Z.of_nat (length s) + 2 ≤ UDP_MAX_PAYLOAD_SIZE) (Hacc : accepting (en w)) :
  ∃ w1 w2, out_string s w = Ok (tt, w1) ∧ rtc (turn inp) (n, w1) (n, w2) ∧
    state (core (cn w2)) = conn_new_cmd ∧ sent_bytes w2 = sent_bytes w ++ s ++ crlf ∧ rd (cn w2) = rd (cn w).
Proof.
  destruct (out_string_spec w s Hno Htcp Hmsg Hiov Hb Hw) as ([] & w1 & E & Hq).
  destruct (reply_turns inp w s w1 n Hq Hm Hacc ltac:(lia)) as (w2 & Ht & Hst & Hs & Hrd).
  by exists w1, w2.
Qed.

(** A server without the SASL library. *)
Definition no_sasl : sasl_lib :=
  SaslLib (mret (-1)) (mret (-1, [])) (λ _ _, mret (-1, [])) (λ _, mret (-1, [])).
(** "STORED" to a socket that takes three bytes, one byte, then the rest. *)
Lemma reply_delivered_witness :
  let w := sending_world [Accepted 3; Accepted 1] in
  ∃ w1 w2, out_string (str "STORED") w = Ok (tt, w1) ∧
    rtc (@turn no_background no_sasl plain_inputs) (20, w1) (20, w2) ∧
    state (core (cn w2)) = conn_new_cmd ∧ sent_bytes w2 = sent_bytes w ++ str "STORED" ++ crlf ∧ rd (cn w2) = rd (cn w).
Proof.
  apply (@reply_delivered no_background no_sasl plain_inputs (sending_world [Accepted 3; Accepted 1]) (str "STORED") 20);
    try reflexivity; try (vm_compute; discriminate).
  - apply str_bytes.
  - repeat constructor; eexists; (split; [reflexivity|lia]).
Defined.
