(* ===== verification/RxFacts.v ===== *)
(** * Reading: the input stream is consumed in order

    The bytes a connection has still to process are those of its read buffer
    and those that arrive at its socket.  [try_read_network] only moves them
    into the buffer; the states that read a value or swallow one consume
    exactly the number of bytes they are to, however the stream is cut up. *)
From Stdlib Require Import ZArith Lia.
From stdpp Require Import strings prelude gmap list functions relations.
From S2P Require Import Prelude Mem Util Item State Memlog Items Store Pool Prefix Conn ConnOps IovFacts Stats Ascii IoFacts GetFacts Binary Net TxFacts.

(** ** The input stream *)
Definition arrived (r : recv) : list Z := match r with Received bs => bs | _ => [] end.
Definition arriving (l : list recv) : list Z := concat (arrived <$> l).
Definition unread (s : conn_rd) : list Z := load_bytes (rbuf s) (rcurr s) (Z.to_nat (rbytes s)).
Definition stream (w : world) : list Z := unread (rd (cn w)) ++ arriving (recvs (en w)).

Record rd_ok (s : conn_rd) : Prop := {
  ro_curr : 0 ≤ rcurr s;
  ro_bytes : 0 ≤ rbytes s;
  ro_size : rcurr s + rbytes s ≤ rsize s;
  ro_pos : 0 < rsize s
}.
Definition recvs_ok (l : list recv) : Prop := Forall (λ r, Forall is_byte (arrived r)) l.

(** Only reading happened between [w] and [w']: [s] is the read buffer. *)
Definition with_rd (s : conn_rd) (w : world) : world := set_cn (upd_rd (λ _, s) (cn w)) w.
Definition read_world (s : conn_rd) (l : list recv) (m : list bool) (c : counters) (w : world) : world :=
  set_en (set_recvs l (set_mallocs m (en w))) (set_kv (set_cnt c (kv w)) (with_rd s w)).

Lemma read_world_id w : read_world (rd (cn w)) (recvs (en w)) (mallocs (en w)) (cnt (kv w)) w = w.
Proof. by destruct w as [[] [] ? ? []]. Qed.

Lemma sock_read_spec n w (Q : got → world → Prop) :
  recvs_ok (recvs (en w)) →
  (∀ r l, recvs_ok l →
     match r with
     | Got bs => Forall is_byte bs ∧ Z.of_nat (length bs) ≤ Z.max 0 n ∧ bs ++ arriving l = arriving (recvs (en w))
     | _ => arriving l = arriving (recvs (en w))
     end → Q r (set_en (set_recvs l (en w)) w)) →
  wp (sock_read n) w Q.
Proof.
  intros Hok HQ. unfold sock_read, wp. destruct (recvs (en w)) as [|[bs| |] l] eqn:E; eexists _, _; (split; [reflexivity|]).
  - replace w with (set_en (set_recvs [] (en w)) w) at 1; [by apply HQ|]. rewrite <- E. by destruct w as [? ? ? ? []].
  - apply Forall_cons_1 in Hok as [Hb Hl]. cbn in Hb. apply HQ.
    + destruct (drop (Z.to_nat n) bs) eqn:Ed; [done|]. constructor; [|done]. cbn. rewrite <- Ed. by apply Forall_drop.
    + split_and!; [by apply Forall_take|rewrite length_take; lia|].
      unfold arriving. cbn. rewrite <- (take_drop (Z.to_nat n) bs) at 3.
      destruct (drop (Z.to_nat n) bs); cbn; by rewrite ?app_nil_r, <- ?app_assoc.
  - apply Forall_cons_1 in Hok as [_ Hl]. by apply HQ.
  - apply Forall_cons_1 in Hok as [_ Hl]. by apply HQ.
Qed.

Lemma wp_write_rbuf w off bs (Q : unit → world → Prop) :
  0 ≤ off → off + Z.of_nat (length bs) ≤ rsize (rd (cn w)) →
  Q tt (set_cn (upd_rd (λ s, set_rbuf (store_bytes (rbuf s) off bs) s) (cn w)) w) → wp (write_rbuf off bs) w Q.
Proof.
  intros H1 H2 HQ. unfold write_rbuf. io_steps. rewrite (proj2 (Z.leb_le _ _)), (proj2 (Z.leb_le _ _)) by lia.
  cbn [andb]. by io_steps.
Qed.

(** New bytes behind the unread ones. *)
Lemma unread_append s bs n :
  rcurr s = 0 → n = rbytes s + Z.of_nat (length bs) → 0 ≤ rbytes s → Forall is_byte bs →
  unread (set_rbytes n (set_rbuf (store_bytes (rbuf s) (rbytes s) bs) s)) = unread s ++ bs.
Proof.
  intros Hc -> Hn Hb. unfold unread. cbn. rewrite Hc. rewrite Z2Nat.inj_add, Nat2Z.id, load_bytes_app by lia.
  rewrite Z2Nat.id, Z.add_0_l by lia. f_equal.
  - apply load_bytes_agree, agree_store_out; [done|lia].
  - by apply load_store_bytes_eq.
Qed.

Lemma repack_spec s : rd_ok s →
  rd_ok (repack s) ∧ unread (repack s) = unread s ∧ rcurr (repack s) = 0 ∧ rsize (repack s) = rsize s ∧
  rbytes (repack s) = rbytes s.
Proof.
  intros [H1 H2 H3 H4]. unfold repack, unread. destruct (Z.eqb_spec (rcurr s) 0) as [Hz|Hz]; cbn.
  - split_and!; try done; [|by rewrite Hz]. split; cbn; lia.
  - split_and!; try done; [split; cbn; lia|]. apply load_store_bytes_eq; [auto with mc|by rewrite load_bytes_length].
Qed.

(** ** [try_read_network] *)
Definition mem_error : list Z := str "SERVER_ERROR out of memory reading request".

(** The state the out-of-memory branch leaves. *)
Record mem_failed (w w' : world) : Prop := {
  mf_rbytes : rbytes (rd (cn w')) = 0;
  mf_state : state (core (cn w')) = conn_write;
  mf_go : write_and_go (wr (cn w')) = conn_closing;
  mf_reply : read_ptr w' (wcurr (wr (cn w'))) (wbytes (wr (cn w'))) = mem_error ++ crlf
}.

(** A connection that can report the error. *)
Record can_report (w : world) : Prop := {
  cp_tcp : is_udp (cn w) = false;
  cp_prot : prot (core (cn w)) ≠ binary_prot;
  cp_reply : noreply (core (cn w)) = false;
  cp_msg : 0 < msgsize (ov (cn w));
  cp_iov : 0 < iovsize (ov (cn w));
  cp_wbuf : Z.of_nat (length mem_error) + 2 ≤ wsize (wr (cn w))
}.

Lemma wp_malloc_counted_any w (Q : bool → world → Prop) :
  (∀ b m c, m ⊆ mallocs (en w) → (b = false → false ∈ mallocs (en w)) →
     Q b (set_en (set_mallocs m (en w)) (set_kv (set_cnt c (kv w)) w))) → wp malloc_counted w Q.
Proof.
  intros HQ. unfold malloc_counted, malloc_ok. apply wp_bind. unfold wp at 1.
  assert (∀ b w1 m, w1 = set_en (set_mallocs m (en w)) w → m ⊆ mallocs (en w) →
    (b = false → false ∈ mallocs (en w)) →
    wp (_ ← when (negb b) (srv (stats_add malloc_fails 1)); mret b) w1 Q) as Hk.
  { intros b w1 m -> Hm Hb. apply wp_bind. destruct b; cbn [negb when].
    - apply wp_ret, wp_ret. replace (set_en _ w) with (set_en (set_mallocs m (en w)) (set_kv (set_cnt (cnt (kv w)) (kv w)) w));
        [by apply HQ|]. by destruct w as [? [] ? ? []].
    - apply wp_srv. wp_step. apply wp_ret. by apply HQ. }
  destruct (mallocs (en w)) as [|b m] eqn:E; eexists _, _; (split; [reflexivity|]).
  - apply (Hk true w []); [|set_solver|done]. rewrite <- E. by destruct w as [? ? ? ? []].
  - apply (Hk b _ m); [done|set_solver|]. intros ->. set_solver.
Qed.

Lemma out_of_memory_text w :
  can_report w → wp (out_of_memory mem_error) w (λ _ w1, reply_queued w mem_error w1).
Proof.
  intros [H1 H2 H3 H4 H5 H6]. unfold out_of_memory. cbn [out_of_memory_n]. io_steps.
  rewrite bool_decide_eq_false_2 by done. apply out_string_spec; try done. apply str_bytes.
Qed.

(** The buffer [s] and the socket [l] hold the stream of [w]; [a] times the
    buffer was doubled. *)
Record read_ok (w : world) (a : Z) (s : conn_rd) (l : list recv) : Prop := {
  rk_ok : rd_ok s;
  rk_curr : rcurr s = 0;
  rk_recvs : recvs_ok l;
  rk_stream : unread s ++ arriving l = stream w;
  rk_allocs : 0 ≤ a ≤ 4;
  rk_size : rsize s = rsize (rd (cn w)) * 2 ^ a;
  rk_grows : rbytes (rd (cn w)) ≤ rbytes s
}.
(** What the loop has to report. *)
Definition got_of (w : world) (s : conn_rd) : try_read_result :=
  if rbytes s >? rbytes (rd (cn w)) then READ_DATA_RECEIVED else READ_NO_DATA_RECEIVED.
Definition read_post (w : world) (r : try_read_result) (w' : world) : Prop :=
  match r with
  | READ_MEMORY_ERROR => mem_failed w w' ∧ false ∈ mallocs (en w)
  | _ => ∃ a s l m c, w' = read_world s l m c w ∧ read_ok w a s l ∧ (r = READ_ERROR ∨ r = got_of w s)
  end.

(** The part of a turn after the space check. *)
Lemma read_some w a s l m c num (I : Z → try_read_result * Z → world → Prop) k :
  read_ok w a s l → rbytes s < rsize s →
  (∀ s' l' c', read_ok w a s' l' → rbytes s' = rsize s' → rbytes (rd (cn w)) < rbytes s' →
     ∃ k', 0 ≤ k' < k ∧ I k' (READ_DATA_RECEIVED, num) (read_world s' l' m c' w)) →
  let avail := rsize s - rbytes s in
  wp (r ← sock_read avail;
      match r with
      | Got [] => mret (inr READ_ERROR)
      | Got bs =>
          let res := Z.of_nat (length bs) in
          _ ← write_rbuf (rbytes s) bs;
          _ ← srv (thread_add bytes_read res);
          _ ← on_rd (λ s, set_rbytes (rbytes s + res) s);
          if res =? avail then mret (inl (READ_DATA_RECEIVED, num)) else mret (inr READ_DATA_RECEIVED)
      | GotAgain => mret (inr (got_of w s))
      | GotError => mret (inr READ_ERROR)
      end) (read_world s l m c w)
    (λ r w', match r with inl x => ∃ k', 0 ≤ k' < k ∧ I k' x w' | inr v => read_post w v w' end).
Proof.
  intros Hk Hroom HI avail. pose proof Hk as [[O1 O2 O3 O4] Hc Hrv Hst Ha Hsz Hgr].
  apply wp_bind, sock_read_spec; [done|]. cbn [recvs en read_world set_en set_recvs]. intros r l' Hl' Hr.
  destruct r as [[|b bs]| |].
  - destruct Hr as (_ & _ & Hr). cbn in Hr. apply wp_ret. exists a, s, l', m, c. split; [done|]. split; [|by left].
    split; try done. by rewrite Hr.
  - destruct Hr as (Hb & Hlen & Hr). remember (b :: bs) as d. assert (0 < Z.of_nat (length d)) by (subst; cbn; lia).
    cbv zeta. apply wp_bind, wp_write_rbuf; [lia|cbn; lia|]. apply wp_bind, wp_srv. wp_step. io_steps.
    set (s' := set_rbytes (rbytes s + Z.of_nat (length d)) (set_rbuf (store_bytes (rbuf s) (rbytes s) d) s)).
    assert (read_ok w a s' l') as Hk'.
    { split; try done; [split; cbn; lia| |cbn; lia]. rewrite <- Hst, <- Hr. unfold s'.
      rewrite unread_append by done. by rewrite app_assoc. }
    destruct (Z.eqb_spec (Z.of_nat (length d)) avail) as [He|He].
    + apply wp_ret. apply (HI s' l' _ Hk'); cbn; lia.
    + apply wp_ret. eexists a, s', l', m, _. split; [reflexivity|]. split; [done|]. right. unfold got_of.
      rewrite Z.gtb_ltb, (proj2 (Z.ltb_lt _ _)); [done|]. cbn. lia.
  - apply wp_ret. unfold got_of. destruct (rbytes s >? _) eqn:E; exists a, s, l', m, c; (split; [done|]; split;
      [|right; unfold got_of; by rewrite E]); split; try done; by rewrite Hr.
  - apply wp_ret. exists a, s, l', m, c. split; [done|]. split; [|by left]. split; try done. by rewrite Hr.
Qed.

Definition read_inv (w : world) (k : Z) (x : try_read_result * Z) (w' : world) : Prop :=
  ∃ s l m c, w' = read_world s l m c w ∧ m ⊆ mallocs (en w) ∧ read_ok w x.2 s l ∧ x.1 = got_of w s ∧
    k = 4 - x.2 + (if rbytes s >=? rsize s then 0 else 1).

Lemma read_body_spec w k x w' :
  can_report w ∨ false ∉ mallocs (en w) → read_inv w k x w' →
  wp (read_body x) w' (λ r w1, match r with inl y => ∃ k', 0 ≤ k' < k ∧ read_inv w k' y w1 | inr v => read_post w v w1 end).
Proof.
  intros Hrep (s & l & m & c & -> & Hm & Hk & Hg & ->). destruct x as [g a]. cbn [fst snd] in *. subst g.
  pose proof Hk as [[O1 O2 O3 O4] Hc Hrv Hst Ha Hsz Hgr]. unfold read_body. io_steps.
  change (rd (cn (read_world s l m c w))) with s. rewrite Z.geb_leb. destruct (Z.leb_spec (rsize s) (rbytes s)) as [Hfull|Hroom].
  - cbn [andb]. destruct (Z.eqb_spec a 4) as [->|Ha4].
    { apply wp_ret. unfold got_of. destruct (rbytes s >? _) eqn:E; exists 4, s, l, m, c; (split; [done|]; split; [done|]);
        right; unfold got_of; by rewrite E. }
    apply wp_bind, wp_malloc_counted_any. cbn [mallocs en read_world set_en set_mallocs].
    intros [] m' c' Hm' Hf; cbn [negb].
    + cbn [when]. apply wp_bind. io_step. apply wp_bind, wp_conn. cbv beta zeta.
      set (s2 := set_rsize (rsize s * 2) (set_rcurr 0 s)).
      match goal with |- wp _ ?w2 _ => change w2 with (read_world s2 l m' c' w) end.
      change (rd (cn (read_world s2 l m' c' w))) with s2.
      assert (read_ok w (a + 1) s2 l) as Hk2.
      { split; try done; [split; cbn; lia| |lia|].
        - rewrite <- Hst. unfold unread, s2. cbn. by rewrite Hc.
        - cbn. rewrite Hsz, Z.pow_add_r by lia. lia. }
      change (got_of w s) with (got_of w s2). apply (read_some w (a + 1) s2 l m' c' (a + 1)); [done|cbn; lia|].
      intros s' l' c2 Hk' He Hg. exists (4 - (a + 1)). split; [lia|]. exists s', l', m', c2. split_and!; try done.
      * by etrans.
      * cbn. unfold got_of. by rewrite Z.gtb_ltb, (proj2 (Z.ltb_lt _ _)).
      * cbn. rewrite He, Z.geb_leb, Z.leb_refl. lia.
    + io_steps. set (w2 := set_cn _ _).
      assert (false ∈ mallocs (en w)) as Hfail by (by apply Hm, Hf).
      assert (can_report w2) as Hrep2 by (by destruct Hrep as [[]|]).
      eapply wp_mono; [|by apply out_of_memory_text]. intros u w3 Hq. io_steps. destruct Hq. split; [|done]. split; cbn; try done.
      * by rewrite rq_rd.
      * rewrite rq_wcurr, rq_wbytes. exact rq_bytes.
  - cbn [andb]. apply wp_bind, wp_ret. cbn [negb when]. apply wp_bind, wp_ret, wp_bind, wp_conn. cbv beta zeta.
    change (rd (cn (read_world s l m c w))) with s. apply (read_some w a s l m c a); [done|done|].
    intros s' l' c2 Hk' He Hg. exists (4 - a). split; [lia|]. exists s', l', m, c2. split_and!; try done.
    + cbn. unfold got_of. by rewrite Z.gtb_ltb, (proj2 (Z.ltb_lt _ _)).
    + cbn. rewrite He, Z.geb_leb, Z.leb_refl. lia.
Qed.

(** C8: reading from the network.  On a connection with well-formed read-buffer
    pointers, whatever the protocol, [try_read_network] returns when every
    allocation succeeds, and then it neither loses, repeats nor reorders a byte:
    the unread bytes of the buffer followed by what is still in the socket are
    the same as before, the pointers stay well-formed, and the buffer grows to at
    most 16 times its size.  [READ_DATA_RECEIVED] means that the buffer gained
    bytes and [READ_NO_DATA_RECEIVED] that it did not.  When an allocation may
    fail, the same is shown for a TCP connection of the text protocol that wants
    replies; there, and only if one fails, the result can also be the memory
    error: the input is dropped, the error line is queued and the connection will
    be closed after it. *)
Theorem try_read_network_correct (w : world)
    (Hrd : rd_ok (rd (cn w))) (Hrv : recvs_ok (recvs (en w)))
    (Hrep : can_report w ∨ false ∉ mallocs (en w)) :
  ∃ r w', try_read_network w = Ok (r, w') ∧
    match r with
    | READ_MEMORY_ERROR => mem_failed w w' ∧ false ∈ mallocs (en w)
    | _ => rd_ok (rd (cn w')) ∧ stream w' = stream w ∧
        rsize (rd (cn w)) ≤ rsize (rd (cn w')) ≤ 16 * rsize (rd (cn w)) ∧
        (r = READ_DATA_RECEIVED → rbytes (rd (cn w)) < rbytes (rd (cn w'))) ∧
        (r = READ_NO_DATA_RECEIVED → rbytes (rd (cn w')) = rbytes (rd (cn w)))
    end.
Proof.
  destruct (repack_spec _ Hrd) as (Hok & Hun & Hc & Hsz & Hby).
  assert (wp try_read_network w (read_post w)) as (r & w' & E & Hpost).
  { unfold try_read_network. io_steps.
    apply (loop_rule _ _ (read_inv w) _ (4 + (if rbytes (rd (cn w)) >=? rsize (rd (cn w)) then 0 else 1))).
    - intros k x w'. by apply read_body_spec.
    - exists (repack (rd (cn w))), (recvs (en w)), (mallocs (en w)), (cnt (kv w)). split_and!.
      + by destruct w as [[] [] ? ? []].
      + done.
      + split; try done; try (unfold stream; by rewrite Hun); cbn [snd]; rewrite ?Hsz, ?Hby; lia.
      + cbn [fst]. unfold got_of. by rewrite Hby, Z.gtb_ltb, Z.ltb_irrefl.
      + cbn [snd]. rewrite Hby, Hsz. lia.
    - change (2 ^ Z.of_nat FUEL) with (2 ^ 64). destruct (_ >=? _); lia. }
  exists r, w'. split; [exact E|]. destruct r; try exact Hpost;
    destruct Hpost as (a & s & l & m & c & -> & [O1 O2 O3 O4 O5 O6 O7] & Hr); (split; [exact O1|]; split; [exact O4|]);
    cbn [rd cn read_world set_en set_kv with_rd set_cn upd_rd].
  all: (split; [pose proof (Z.pow_le_mono_r 2 a 4 ltac:(lia) ltac:(lia)); pose proof (Z.pow_pos_nonneg 2 a ltac:(lia) ltac:(lia));
          pose proof (ro_pos _ Hrd); rewrite O6; nia|]).
  all: split; intros Hx; try discriminate Hx; destruct Hr as [Hr|Hr]; try discriminate Hr; unfold got_of in Hr;
    rewrite Z.gtb_ltb in Hr; destruct (Z.ltb_spec (rbytes (rd (cn w))) (rbytes s)); try discriminate Hr; lia.
Qed.

(** The first byte of "get k" in the buffer, the others in one packet and the
    line end in the next. *)
Definition reading_world : world :=
  let w := with_rd (Rd (store_bytes ∅ 3 (str "g")) 3 2048 1) (blank_world tcp_transport) in
  set_en (set_recvs [Received (str "et k"); Received crlf] (en w)) w.

Lemma try_read_network_correct_witness :
  let w := reading_world in
  ∃ r w', try_read_network w = Ok (r, w') ∧
    match r with
    | READ_MEMORY_ERROR => mem_failed w w' ∧ false ∈ mallocs (en w)
    | _ => rd_ok (rd (cn w')) ∧ stream w' = stream w ∧
        rsize (rd (cn w)) ≤ rsize (rd (cn w')) ≤ 16 * rsize (rd (cn w)) ∧
        (r = READ_DATA_RECEIVED → rbytes (rd (cn w)) < rbytes (rd (cn w'))) ∧
        (r = READ_NO_DATA_RECEIVED → rbytes (rd (cn w')) = rbytes (rd (cn w)))
    end.
Proof.
  apply (try_read_network_correct reading_world).
  - split; cbn; lia.
  - apply Forall_cons. split; [apply str_bytes|]. apply Forall_singleton. repeat constructor; unfold is_byte, CR, LF; lia.
  - right. cbn. by intros ?%elem_of_nil.
Defined.

(** ** A stream that keeps arriving *)
Definition flowing (l : list recv) : Prop := Forall (λ r, ∃ bs, r = Received bs ∧ bs ≠ [] ∧ Forall is_byte bs) l.

Lemma flowing_ok l : flowing l → recvs_ok l.
Proof. intros H. eapply Forall_impl; [exact H|]. by intros r (bs & -> & _ & Hb). Qed.

Lemma sock_read_flow n w (Q : got → world → Prop) :
  0 < n → flowing (recvs (en w)) → arriving (recvs (en w)) ≠ [] →
  (∀ bs l, bs ≠ [] → Z.of_nat (length bs) ≤ n → Forall is_byte bs → flowing l →
     bs ++ arriving l = arriving (recvs (en w)) → Q (Got bs) (set_en (set_recvs l (en w)) w)) →
  wp (sock_read n) w Q.
Proof.
  intros Hn Hf Ha HQ. unfold sock_read, wp. destruct (recvs (en w)) as [|r l]; [done|].
  apply Forall_cons_1 in Hf as [(bs & -> & Hne & Hb) Hf]. eexists _, _. split; [reflexivity|]. apply HQ.
  - destruct bs; [done|]. destruct (Z.to_nat n) eqn:E; [lia|done].
  - rewrite length_take. lia.
  - by apply Forall_take.
  - destruct (drop (Z.to_nat n) bs) eqn:Ed; [done|]. constructor; [|done]. eexists. split; [done|].
    split; [done|]. rewrite <- Ed. by apply Forall_drop.
  - unfold arriving. cbn. rewrite <- (take_drop (Z.to_nat n) bs) at 3.
    destruct (drop (Z.to_nat n) bs); cbn; by rewrite ?app_nil_r, <- ?app_assoc.
Qed.

(** Bytes taken from the front of the buffer. *)
Definition eat (n : Z) (s : conn_rd) : conn_rd := set_rbytes (rbytes s - n) (set_rcurr (rcurr s + n) s).
Lemma unread_eat n s : 0 ≤ n ≤ rbytes s → unread (eat n s) = drop (Z.to_nat n) (unread s).
Proof.
  intros Hn. unfold unread, eat. cbn. rewrite load_bytes_drop, Z2Nat.id by lia. f_equal. lia.
Qed.
Lemma eat_ok n s : 0 ≤ n ≤ rbytes s → rd_ok s → rd_ok (eat n s).
Proof. intros Hn [H1 H2 H3 H4]. split; cbn; lia. Qed.
Lemma unread_length s : rd_ok s → Z.of_nat (length (unread s)) = rbytes s.
Proof. intros H. unfold unread. rewrite load_bytes_length. pose proof (ro_bytes _ H). lia. Qed.
Lemma unread_empty s : rbytes s = 0 → unread s = [].
Proof. intros H. unfold unread. by rewrite H. Qed.

Lemma store_bytes_insert m a v c bs : a < c → store_bytes (<[a := v]> m) c bs = <[a := v]> (store_bytes m c bs).
Proof.
  revert c. induction bs as [|b bs IH]; intros c Hc; cbn; [done|]. rewrite IH by lia. apply insert_insert_ne. lia.
Qed.
Lemma store_bytes_app m a bs1 bs2 :
  store_bytes m a (bs1 ++ bs2) = store_bytes (store_bytes m a bs1) (a + Z.of_nat (length bs1)) bs2.
Proof.
  revert a. induction bs1 as [|b bs1 IH]; intros a; cbn [app store_bytes length]; [by rewrite Z.add_0_r|].
  rewrite store_bytes_insert by lia. f_equal. rewrite IH. f_equal. lia.
Qed.

(** ** Swallowing *)
Section consuming.
Context `{background} `{sasl_lib} (inp : stat_inputs).

(** Only the input moved and counters changed; [f] is what happened to the rest
    of the connection. *)
Definition consumed (f : conn → conn) (w w' : world) : Prop :=
  ∃ s l c, w' = set_en (set_recvs l (en w)) (set_kv (set_cnt c (kv w)) (set_cn (upd_rd (λ _, s) (f (cn w))) w)) ∧
           rd_ok s ∧ flowing l.

(** A turn that reads from the socket. *)
Lemma swallow_socket n w :
  rd_ok (rd (cn w)) → flowing (recvs (en w)) → arriving (recvs (en w)) ≠ [] → 0 < sbytes (nr (cn w)) →
  wp (r ← sock_read (Z.min (rsize (rd (cn w))) (sbytes (nr (cn w))));
      match r with
      | Got [] | GotError => _ ← conn_set_state conn_closing; go n
      | Got bs =>
          let res := Z.of_nat (length bs) in
          _ ← write_rbuf 0 bs;
          _ ← srv (thread_add bytes_read res);
          _ ← on_nr (λ s, set_sbytes (sbytes s - res) s);
          go n
      | GotAgain => wait_for (Z.lor EV_READ EV_PERSIST) n stop
      end) w (λ r w1, r = inl n ∧ ∃ bs l c s,
    bs ≠ [] ∧ Z.of_nat (length bs) ≤ sbytes (nr (cn w)) ∧ flowing l ∧ rd_ok s ∧ rbytes s = rbytes (rd (cn w)) ∧
    bs ++ arriving l = arriving (recvs (en w)) ∧
    w1 = set_en (set_recvs l (en w)) (set_kv (set_cnt c (kv w))
           (set_cn (upd_rd (λ _, s) (upd_nr (set_sbytes (sbytes (nr (cn w)) - Z.of_nat (length bs))) (cn w))) w))).
Proof.
  intros Hrd Hfl Ha Hsb. pose proof (ro_pos _ Hrd). apply wp_bind, sock_read_flow; [lia|done|done|].
  intros bs l Hne Hlen Hbs Hl Hcat. destruct bs as [|b bs]; [done|]. remember (b :: bs) as d. cbv zeta.
  apply wp_bind, wp_write_rbuf; [lia|cbn; lia|]. apply wp_bind, wp_srv. wp_step. unfold go. io_steps.
  split; [done|]. eexists d, l, _, (set_rbuf (store_bytes (rbuf (rd (cn w))) 0 d) (rd (cn w))).
  split_and!; [done|lia|done|by destruct Hrd|done|done|reflexivity].
Qed.

Lemma swallow_turns j n w :
  state (core (cn w)) = conn_swallow → rd_ok (rd (cn w)) → flowing (recvs (en w)) →
  sbytes (nr (cn w)) = Z.of_nat j → (j ≤ length (stream w))%nat →
  ∃ w', rtc (turn inp) (n, w) (n, w') ∧ stream w' = drop j (stream w) ∧
    consumed (λ c, upd_core (set_state conn_new_cmd) (upd_nr (set_sbytes 0) c)) w w'.
Proof.
  revert w. induction j as [j IH] using lt_wf_ind. intros w Hst Hrd Hfl Hsb Hj.
  assert (drive_body inp n w = step_swallow n w) as Hstep.
  { unfold drive_body. by rewrite bind_conn, Hst. }
  unfold step_swallow in Hstep. rewrite bind_conn, Hsb in Hstep.
  destruct (Z.eqb_spec (Z.of_nat j) 0) as [Hz|Hz].
  - assert (j = 0%nat) as -> by lia. eexists. split.
    { apply rtc_once. unfold turn. cbn [fst snd]. rewrite Hstep. reflexivity. }
    split; [done|]. exists (rd (cn w)), (recvs (en w)), (cnt (kv w)). split; [|done].
    destruct w as [[? ? ? [] ? ? ? ? ?] [] ? ? []]. cbn in *. by subst.
  - destruct (Z.gtb_spec (rbytes (rd (cn w))) 0) as [Hb|Hb].
    + cbv zeta in Hstep. set (k := Z.min (rbytes (rd (cn w))) (Z.of_nat j)) in Hstep.
      set (w1 := set_cn (upd_rd (eat k) (upd_nr (λ s, set_sbytes (sbytes s - k) s) (cn w))) w).
      assert (stream w1 = drop (Z.to_nat k) (stream w)) as Hs1.
      { unfold stream. cbn. rewrite unread_eat by lia. rewrite drop_app_le; [done|].
        apply Nat2Z.inj_le. rewrite unread_length by done. lia. }
      destruct (IH (j - Z.to_nat k)%nat ltac:(lia) w1) as (w' & Ht & Hs & s & l & c & -> & Hs' & Hl').
      * done.
      * cbn. apply eat_ok; [lia|done].
      * done.
      * cbn. lia.
      * rewrite Hs1, length_drop. lia.
      * eexists. split.
        { eapply rtc_l; [|exact Ht]. unfold turn. cbn [fst snd]. rewrite Hstep. reflexivity. }
        split; [|by exists s, l, c]. rewrite Hs, Hs1, drop_drop. f_equal. lia.
    + assert (rbytes (rd (cn w)) = 0) as Hr0 by (pose proof (ro_bytes _ Hrd); lia).
      pose proof (unread_empty _ Hr0) as Hu. assert (arriving (recvs (en w)) ≠ []) as Ha.
      { intros Ha. unfold stream in Hj. rewrite Hu, Ha in Hj. cbn in Hj. lia. }
      destruct (swallow_socket n w Hrd Hfl Ha ltac:(lia)) as (r & w1 & E & -> & bs & l & c & s & Hne & Hlen & Hl & Hs & Hs0 & Hcat & ->).
      rewrite Hsb in E, Hlen. pose proof (eq_trans Hstep E) as Hturn.
      set (w1 := set_en _ _) in *.
      assert (stream w1 = drop (length bs) (stream w)) as Hs1.
      { unfold stream. cbn. rewrite Hu, (unread_empty s) by lia. rewrite <- Hcat. cbn. by rewrite drop_app_length. }
      assert (0 < length bs)%nat by (destruct bs; [done|cbn; lia]).
      destruct (IH (j - length bs)%nat ltac:(lia) w1) as (w' & Ht & Hst' & s' & l' & c' & -> & Hs' & Hl'); try done.
      * cbn. lia.
      * rewrite Hs1, length_drop. lia.
      * eexists. split.
        { eapply rtc_l; [|exact Ht]. exact Hturn. }
        split; [|by exists s', l', c']. rewrite Hst', Hs1, drop_drop. f_equal. lia.
Qed.

(** ** Reading a value *)
(** The value goes to the log. *)
Definition value_read (d : Z) (bs : list Z) (w w' : world) : Prop :=
  ∃ s l c, w' = set_en (set_recvs l (en w)) (set_kv (set_cnt c (set_log (store_bytes (log (kv w)) d bs) (kv w)))
      (set_cn (upd_rd (λ _, s) (upd_nr (λ x, set_rlbytes (rlbytes x - Z.of_nat (length bs))
                                              (set_ritem (padd (ritem x) (Z.of_nat (length bs))) x)) (cn w))) w)) ∧
    rd_ok s ∧ flowing l ∧ unread s ++ arriving l = drop (length bs) (stream w) ∧ bs = take (length bs) (stream w).

Lemma value_read_trans d bs1 bs2 w w1 w2 :
  value_read d bs1 w w1 → value_read (d + Z.of_nat (length bs1)) bs2 w1 w2 → value_read d (bs1 ++ bs2) w w2.
Proof.
  intros (s1 & l1 & c1 & -> & O1 & F1 & S1 & B1) (s2 & l2 & c2 & -> & O2 & F2 & S2 & B2). exists s2, l2, c2.
  assert (∀ w', w' = set_en (set_recvs l1 (en w)) (set_kv (set_cnt c1 (set_log (store_bytes (log (kv w)) d bs1) (kv w)))
      (set_cn (upd_rd (λ _, s1) (upd_nr (λ x, set_rlbytes (rlbytes x - Z.of_nat (length bs1))
                                              (set_ritem (padd (ritem x) (Z.of_nat (length bs1))) x)) (cn w))) w)) →
    stream w' = drop (length bs1) (stream w)) as Hstr by (intros w' ->; exact S1).
  rewrite (Hstr _ eq_refl) in S2, B2. split_and!; try done.
  - rewrite length_app, Nat2Z.inj_add, store_bytes_app. unfold set_en, set_kv, set_cn, upd_rd, upd_nr. cbn.
    rewrite padd_padd, Z.sub_add_distr. reflexivity.
  - by rewrite S2, length_app, drop_drop.
  - rewrite length_app, <- take_take_drop. by rewrite <- B1, <- B2.
Qed.

(** A connection that reads a value of the log at [d]. *)
Record reading (d : Z) (w : world) : Prop := {
  rg_rd : rd_ok (rd (cn w));
  rg_flow : flowing (recvs (en w));
  rg_ritem : ritem (nr (cn w)) = Ptr RLog d
}.
Lemma value_read_reading d bs w w' :
  value_read d bs w w' → reading d w → reading (d + Z.of_nat (length bs)) w'.
Proof.
  intros (s & l & c & -> & Hs & Hl & _) [_ _ Hi]. split; try done. cbn. by rewrite Hi.
Qed.

Lemma take_leftover_spec d w :
  reading d w → 0 < rbytes (rd (cn w)) → 0 < rlbytes (nr (cn w)) →
  let k := Z.min (rbytes (rd (cn w))) (rlbytes (nr (cn w))) in
  ∃ w1, take_leftover w = Ok (tt, w1) ∧ value_read d (take (Z.to_nat k) (unread (rd (cn w)))) w w1 ∧
    rbytes (rd (cn w1)) = rbytes (rd (cn w)) - k.
Proof.
  intros [Hrd Hfl Hi] Hb Hl k. pose proof (unread_length _ Hrd) as Hlen.
  assert (load_bytes (rbuf (rd (cn w))) (rcurr (rd (cn w))) (Z.to_nat k) = take (Z.to_nat k) (unread (rd (cn w)))) as Ht.
  { unfold unread. rewrite <- (drop_0 (load_bytes _ _ (Z.to_nat (rbytes (rd (cn w)))))), load_bytes_slice, Z.add_0_r.
    f_equal. lia. }
  assert (length (take (Z.to_nat k) (unread (rd (cn w)))) = Z.to_nat k) as Hk by (rewrite length_take; lia).
  set (bs := take (Z.to_nat k) (unread (rd (cn w)))) in *.
  eexists. split; [|split].
  - unfold take_leftover. rewrite bind_conn. cbv zeta. fold k. unfold ritem_is_rcurr, write_ritem. rewrite Hi.
    cbn [preg negb when]. rewrite bind_assocw, bind_conn, Hi. cbn [preg poff]. rewrite Ht. reflexivity.
  - exists (eat k (rd (cn w))), (recvs (en w)), (cnt (kv w)). split_and!.
    + rewrite Hk, Z2Nat.id by lia. by destruct w as [[] [] ? ? []].
    + apply eat_ok; [lia|done].
    + done.
    + rewrite unread_eat by lia. unfold stream. rewrite Hk, drop_app_le by lia. done.
    + unfold stream. rewrite Hk, take_app_le by lia. done.
  - done.
Qed.

(** The socket is read when the buffer is empty. *)
Lemma nread_socket d n w :
  reading d w → rbytes (rd (cn w)) = 0 → 0 < rlbytes (nr (cn w)) → arriving (recvs (en w)) ≠ [] →
  ∃ w1 bs, (r ← sock_read (rlbytes (nr (cn w)));
      match r with
      | Got [] | GotError => _ ← conn_set_state conn_closing; go n
      | Got bs =>
          let res := Z.of_nat (length bs) in
          _ ← write_ritem bs;
          _ ← srv (thread_add bytes_read res);
          _ ← when (ritem_is_rcurr (cn w)) (on_rd (λ s, set_rcurr (rcurr s + res) s));
          _ ← on_nr (λ s, set_rlbytes (rlbytes s - res) (set_ritem (padd (ritem s) res) s));
          go n
      | GotAgain => wait_for (Z.lor EV_READ EV_PERSIST) n stop
      end) w = Ok (inl n, w1) ∧ value_read d bs w w1 ∧ 0 < Z.of_nat (length bs) ≤ rlbytes (nr (cn w)).
Proof.
  intros [Hrd Hfl Hi] Hb Hl Ha.
  match goal with |- ∃ w1 bs, ?m w = _ ∧ _ => assert (wp m w (λ r w1, r = inl n ∧ ∃ bs, value_read d bs w w1 ∧
    0 < Z.of_nat (length bs) ≤ rlbytes (nr (cn w)))) as (r & w1 & E & -> & bs & Hv); [|by exists w1, bs] end.
  apply wp_bind, sock_read_flow; [lia|done|done|]. intros bs l Hne Hlen Hbs Hl' Hcat.
  destruct bs as [|b bs]; [done|]. remember (b :: bs) as x. assert (0 < Z.of_nat (length x)) by (subst; cbn; lia). cbv zeta.
  unfold write_ritem, ritem_is_rcurr. rewrite Hi. apply wp_bind. apply wp_bind, wp_conn.
  change (nr (cn (set_en (set_recvs l (en w)) w))) with (nr (cn w)). rewrite Hi. cbn [preg poff].
  apply wp_srv. apply wp_upd_log. cbv beta. apply wp_bind, wp_srv. wp_step. cbn [when]. unfold go. io_steps.
  split; [done|]. exists x. split; [|lia]. eexists (rd (cn w)), l, _. split; [reflexivity|].
  unfold stream. rewrite (unread_empty _ Hb), <- Hcat. cbn [app]. split_and!; try done.
  - by rewrite drop_app_length.
  - by rewrite take_app_length.
Qed.

Lemma value_read_rlbytes d bs w w' : value_read d bs w w' → rlbytes (nr (cn w')) = rlbytes (nr (cn w)) - Z.of_nat (length bs).
Proof. by intros (s & l & c & -> & _). Qed.
Lemma value_read_stream d bs w w' : value_read d bs w w' → stream w' = drop (length bs) (stream w).
Proof. by intros (s & l & c & -> & _ & _ & Hs & _). Qed.
Lemma stream_arriving w : rbytes (rd (cn w)) = 0 → stream w = arriving (recvs (en w)).
Proof. intros Hb. unfold stream. by rewrite unread_empty. Qed.

Lemma nread_turn d n w :
  state (core (cn w)) = conn_nread → reading d w → 0 < rlbytes (nr (cn w)) ≤ Z.of_nat (length (stream w)) →
  ∃ w1 bs, drive_body inp n w = Ok (inl n, w1) ∧ value_read d bs w w1 ∧ 0 < Z.of_nat (length bs) ≤ rlbytes (nr (cn w)).
Proof.
  intros Hst Hr Hl. unfold drive_body. rewrite bind_conn, Hst. unfold step_nread. rewrite bind_conn.
  rewrite (proj2 (Z.eqb_neq _ _)), (proj2 (Z.ltb_ge _ _)) by lia. pose proof (rg_rd _ _ Hr) as Hrd.
  pose proof (ro_bytes _ Hrd). destruct (Z.gtb_spec (rbytes (rd (cn w))) 0) as [Hb|Hb]; cbn [when].
  - destruct (take_leftover_spec d w Hr Hb ltac:(lia)) as (w1 & E & Hv & Hb1). rewrite (bind_Ok _ _ _ _ _ E), bind_conn.
    set (k := Z.min _ _) in *. set (bs := take _ _) in *.
    assert (Z.of_nat (length bs) = k) as Hk by (unfold bs; rewrite length_take; pose proof (unread_length _ Hrd); lia).
    pose proof (value_read_rlbytes _ _ _ _ Hv) as Hl1. destruct (Z.eqb_spec (rlbytes (nr (cn w1))) 0) as [Hz|Hz].
    + exists w1, bs. split_and!; [done|done|lia..].
    + assert (rbytes (rd (cn w1)) = 0) as Hb0 by lia. pose proof (value_read_reading _ _ _ _ Hv Hr) as Hr1.
      destruct (nread_socket _ n w1 Hr1 Hb0 ltac:(lia)) as (w2 & bs2 & E2 & Hv2 & Hlen2).
      { intros Ha. rewrite <- (stream_arriving _ Hb0), (value_read_stream _ _ _ _ Hv) in Ha.
        apply (f_equal length) in Ha. rewrite length_drop in Ha. cbn in Ha. lia. }
      exists w2, (bs ++ bs2). split; [exact E2|]. split; [by eapply value_read_trans|]. rewrite length_app. lia.
  - rewrite bind_retw, bind_conn. rewrite (proj2 (Z.eqb_neq _ _)) by lia. assert (rbytes (rd (cn w)) = 0) as Hb0 by lia.
    destruct (nread_socket d n w Hr Hb0 ltac:(lia)) as (w2 & bs2 & E2 & Hv2 & Hlen2).
    { intros Ha. rewrite (stream_arriving _ Hb0), Ha in Hl. cbn in Hl. lia. }
    by exists w2, bs2.
Qed.

Lemma nread_turns k d n w :
  state (core (cn w)) = conn_nread → reading d w → 0 < rlbytes (nr (cn w)) ≤ Z.of_nat (length (stream w)) →
  rlbytes (nr (cn w)) ≤ Z.of_nat k →
  ∃ w' bs, rtc (turn inp) (n, w) (n, w') ∧ value_read d bs w w' ∧ Z.of_nat (length bs) = rlbytes (nr (cn w)).
Proof.
  revert d w. induction k as [|k IH]; intros d w Hst Hr Hl Hk; [lia|].
  destruct (nread_turn d n w Hst Hr Hl) as (w1 & bs & E & Hv & Hlen).
  pose proof (value_read_rlbytes _ _ _ _ Hv) as Hl1. pose proof (value_read_stream _ _ _ _ Hv) as Hs1.
  destruct (Z.eq_dec (Z.of_nat (length bs)) (rlbytes (nr (cn w)))) as [He|He].
  - exists w1, bs. split_and!; [by apply rtc_once|done|done].
  - destruct (IH (d + Z.of_nat (length bs)) w1) as (w2 & bs2 & Ht & Hv2 & Hlen2).
    + by destruct Hv as (s & l & c & -> & _).
    + by apply (value_read_reading d bs w).
    + rewrite Hs1, length_drop. lia.
    + lia.
    + exists w2, (bs ++ bs2). split; [apply (rtc_l _ _ (n, w1)); [exact E|exact Ht]|]. split; [by eapply value_read_trans|]. rewrite length_app. lia.
Qed.
End consuming.

(** C7: reading a value.  A connection in [conn_nread] with [rlbytes] bytes of a
    value to read into the log reads exactly the next [rlbytes] bytes of its
    input stream, whether they are in the read buffer or arrive later in
    packets of any sizes: after finitely many turns the value in the log is
    those bytes, every other byte of the log is as it was, and the rest of the
    stream is still to be processed. *)
Theorem read_value_correct `{background} `{sasl_lib} (inp : stat_inputs) (w : world) (d n : Z)
    (Hst : state (core (cn w)) = conn_nread) (Hr : reading d w)
    (Hl : 0 < rlbytes (nr (cn w)) ≤ Z.of_nat (length (stream w))) :
  let len := Z.to_nat (rlbytes (nr (cn w))) in
  ∃ w', rtc (turn inp) (n, w) (n, w') ∧ state (core (cn w')) = conn_nread ∧ rlbytes (nr (cn w')) = 0 ∧
    c_item (nr (cn w')) = c_item (nr (cn w)) ∧ log (kv w') = store_bytes (log (kv w)) d (take len (stream w)) ∧
    load_bytes (log (kv w')) d len = take len (stream w) ∧ stream w' = drop len (stream w).
Proof.
  intros len. destruct (nread_turns inp len d n w Hst Hr Hl ltac:(lia)) as (w' & bs & Ht & Hv & Hlen).
  pose proof (value_read_rlbytes _ _ _ _ Hv) as Hl'. pose proof (value_read_stream _ _ _ _ Hv) as Hs'.
  assert (length bs = len) as Hbl by lia. destruct Hv as (s & l & c & -> & _ & _ & _ & Hb). rewrite Hbl in *.
  exists (set_en (set_recvs l (en w)) (set_kv (set_cnt c (set_log (store_bytes (log (kv w)) d bs) (kv w)))
      (set_cn (upd_rd (λ _, s) (upd_nr (λ x, set_rlbytes (rlbytes x - Z.of_nat len)
                                              (set_ritem (padd (ritem x) (Z.of_nat len)) x)) (cn w))) w))).
  split_and!; try done; [lia|cbn; by rewrite Hb|].
  cbn. rewrite Hb at 1. apply load_store_bytes_eq; [|by rewrite <- Hb].
  apply Forall_take. unfold stream. apply Forall_app. split; [apply load_bytes_bytes|].
  pose proof (rg_flow _ _ Hr) as Hf. unfold arriving. induction Hf as [|r l0 (bs0 & -> & _ & Hb0) _ IH]; [constructor|].
  cbn. apply Forall_app. done.
Qed.

(** Swallowing.  The data block of a request that was refused is skipped
    exactly: after finitely many turns a connection in [conn_swallow] has
    dropped the next [sbytes] bytes of its input stream, no more and no less,
    and is ready to parse the command that follows. *)
Theorem swallow_exact `{background} `{sasl_lib} (inp : stat_inputs) (w : world) (n : Z)
    (Hst : state (core (cn w)) = conn_swallow) (Hrd : rd_ok (rd (cn w))) (Hfl : flowing (recvs (en w)))
    (Hl : 0 ≤ sbytes (nr (cn w)) ≤ Z.of_nat (length (stream w))) :
  ∃ w', rtc (turn inp) (n, w) (n, w') ∧ state (core (cn w')) = conn_new_cmd ∧
    stream w' = drop (Z.to_nat (sbytes (nr (cn w)))) (stream w) ∧ rd_ok (rd (cn w')) ∧ log (kv w') = log (kv w).
Proof.
  destruct (swallow_turns inp (Z.to_nat (sbytes (nr (cn w)))) n w Hst Hrd Hfl ltac:(lia) ltac:(lia))
    as (w' & Ht & Hs & s & l & c & -> & Hs' & _). eexists. split; [exact Ht|]. done.
Qed.

(** A value of seven bytes: two in the buffer, the others in two packets, with
    the next command behind them. *)
Definition value_world (st : conn_states) : world :=
  let w := with_rd (Rd (store_bytes ∅ 0 (str "he")) 0 2048 2) (blank_world tcp_transport) in
  let w := set_cn (upd_core (set_state st) (upd_nr (λ _, Nr (Ptr RLog 600) 7 None 7) (cn w))) w in
  set_en (set_recvs [Received (str "ll"); Received (str "o" ++ crlf ++ str "get k" ++ crlf)] (en w)) w.

Lemma value_world_flow st : flowing (recvs (en (value_world st))).
Proof.
  apply Forall_cons. split; [by exists (str "ll"); split_and!; [done..|apply str_bytes]|]. apply Forall_singleton.
  eexists. split_and!; [reflexivity|done|]. repeat constructor; unfold is_byte; vm_compute; done.
Qed.
Lemma value_world_rd st : rd_ok (rd (cn (value_world st))).
Proof. split; cbn; lia. Qed.

Lemma read_value_correct_witness :
  let w := value_world conn_nread in
  ∃ w', rtc (@turn no_background no_sasl plain_inputs) (20, w) (20, w') ∧ state (core (cn w')) = conn_nread ∧
    rlbytes (nr (cn w')) = 0 ∧ c_item (nr (cn w')) = c_item (nr (cn w)) ∧
    log (kv w') = store_bytes (log (kv w)) 600 (str "hello" ++ crlf) ∧
    load_bytes (log (kv w')) 600 7 = str "hello" ++ crlf ∧ stream w' = str "get k" ++ crlf.
Proof.
  apply (@read_value_correct no_background no_sasl plain_inputs (value_world conn_nread) 600 20).
  - reflexivity.
  - split; [apply value_world_rd|apply value_world_flow|reflexivity].
  - split; vm_compute; [reflexivity|discriminate].
Defined.

Lemma swallow_exact_witness :
  let w := value_world conn_swallow in
  ∃ w', rtc (@turn no_background no_sasl plain_inputs) (20, w) (20, w') ∧ state (core (cn w')) = conn_new_cmd ∧
    stream w' = str "get k" ++ crlf ∧ rd_ok (rd (cn w')) ∧ log (kv w') = log (kv w).
Proof.
  apply (@swallow_exact no_background no_sasl plain_inputs (value_world conn_swallow) 20).
  - reflexivity.
  - apply value_world_rd.
  - apply value_world_flow.
  - split; vm_compute; discriminate.
Defined.
