(* ===== verification/NetFacts.v ===== *)
(** * Requests and replies at the boundary

    The end of the read buffer in [try_read_command], and the error replies of
    the binary protocol. *)
From Stdlib Require Import ZArith Lia.
From stdpp Require Import strings prelude gmap list functions relations.
From S2P Require Import Prelude Mem Util Item State Memlog Items Store Pool Prefix Conn ConnOps IovFacts Stats Ascii IoFacts GetFacts Binary Net TxFacts RxFacts.

Lemma find_lf_none bs : Forall (λ b, b ≠ LF) bs → find_lf bs = None.
Proof.
  induction 1 as [|b bs Hb _ IH]; cbn; [done|]. rewrite (proj2 (Z.eqb_neq _ _)) by done. by rewrite IH.
Qed.

(** A buffer full of spaces.  When the read buffer is filled to its last
    byte with spaces (more than a kilobyte, no line end), the loop of
    [try_read_command] that skips the leading spaces has no bound: it reads
    past the end of the allocated buffer. *)
Theorem spaces_overread `{background} (inp : stat_inputs) (w : world)
    (Hrd : rd_ok (rd (cn w))) (Hlong : 1024 < rbytes (rd (cn w)))
    (Hfull : rcurr (rd (cn w)) + rbytes (rd (cn w)) = rsize (rd (cn w))) (Hint : rsize (rd (cn w)) < 2 ^ 31)
    (Hsp : ∀ a, rcurr (rd (cn w)) ≤ a < rsize (rd (cn w)) → mget (rbuf (rd (cn w))) a = SP) :
  try_read_ascii inp w = Fault OutOfBounds.
Proof.
  pose proof (ro_curr _ Hrd). unfold try_read_ascii. rewrite bind_conn, (proj2 (Z.eqb_neq _ _)) by lia.
  rewrite find_lf_none.
  - rewrite (proj2 (Z.gtb_lt _ _)) by lia. apply bind_Fault. unfold long_line. rewrite bind_conn.
    apply bind_Fault. set (rs := rsize (rd (cn w))) in *.
    apply (loop_faults _ _ (λ k p w', w' = w ∧ rcurr (rd (cn w)) ≤ p ∧ k = rs - p ∧ p ≤ rs) OutOfBounds
      (rs - rcurr (rd (cn w)))); [|split_and!; (done || lia)|change (2 ^ Z.of_nat FUEL) with (2 ^ 64); lia].
    intros k p w' (-> & Hp & -> & Hle). unfold skip_space, rbuf_at. rewrite bind_assocw, bind_conn. fold rs.
    rewrite (proj2 (Z.leb_le 0 p)) by lia. destruct (Z.ltb_spec p rs) as [Hlt|Hge]; cbn [andb].
    + right. rewrite bind_retw, (Hsp p) by lia. exists (p + 1), w, (rs - (p + 1)). split_and!; (done || lia).
    + by left.
  - apply list.Forall_forall. intros b (i & Hi)%list_elem_of_lookup. pose proof (lookup_lt_Some _ _ _ Hi) as Hlt.
    rewrite load_bytes_length in Hlt. rewrite load_bytes_lookup in Hi by done. simplify_eq.
    rewrite Hsp by lia. done.
Qed.

Definition spaces_world : world :=
  with_rd (Rd (store_bytes ∅ 0 (replicate 2048 SP)) 0 2048 2048) (blank_world tcp_transport).
Lemma spaces_overread_witness : @try_read_ascii no_background plain_inputs spaces_world = Fault OutOfBounds.
Proof.
  apply (@spaces_overread no_background plain_inputs spaces_world).
  - split; cbn; lia.
  - cbn; lia.
  - reflexivity.
  - cbn; lia.
  - cbn [rd cn spaces_world with_rd set_cn upd_rd rbuf rcurr rsize]. intros a Ha. rewrite mget_store_bytes.
    + rewrite length_replicate, bool_decide_eq_true_2 by lia. rewrite Z.sub_0_r.
      apply list_lookup_total_correct, lookup_replicate. split; [done|lia].
    + apply Forall_replicate. unfold is_byte, SP. lia.
Defined.

(** ** Headers of the binary protocol *)
Lemma be_decode_encode n v : be_decode (be_encode n v) = v mod 256 ^ Z.of_nat n.
Proof. unfold be_encode. by rewrite be_decode_rev, le_decode_encode. Qed.

Lemma response_fields op err hl kl bl opq c :
  0 ≤ op < 256 → 0 ≤ err < 2 ^ 16 → 0 ≤ kl < 2 ^ 16 → 0 ≤ hl < 256 → 0 ≤ bl < 2 ^ 32 → 0 ≤ opq < 2 ^ 32 → 0 ≤ c < 2 ^ 64 →
  let hdr := bin_response_header op err hl kl bl opq c in
  parse_header hdr = BinHeader PROTOCOL_BINARY_RES op kl hl PROTOCOL_BINARY_RAW_BYTES (le_decode (be_encode 2 err)) bl opq c ∧
  be_decode (take 2 (drop 6 hdr)) = err ∧ length hdr = Z.to_nat SIZEOF_bin_header ∧ Forall is_byte hdr.
Proof.
  intros Hop Herr Hkl Hhl Hbl Hopq Hc hdr.
  unfold hdr, bin_response_header. rewrite !u8_small, (u16_small kl), (u16_small err), (u32_small bl) by lia.
  destruct (swap64_involutive c Hc) as [Hsw _].
  split_and!.
  - unfold parse_header. cbv zeta. f_equal.
    + cbn. lia.
    + change (be_decode (be_encode 2 kl) = kl). rewrite be_decode_encode. change (256 ^ Z.of_nat 2) with (2 ^ 16). by apply Z.mod_small.
    + cbn. lia.
    + change (be_decode (be_encode 4 bl) = bl). rewrite be_decode_encode. change (256 ^ Z.of_nat 4) with (2 ^ 32). by apply Z.mod_small.
    + change (le_decode (le_encode 4 opq) = opq). rewrite le_decode_encode. change (256 ^ Z.of_nat 4) with (2 ^ 32). by apply Z.mod_small.
    + change (ntohll (le_decode (le_encode 8 (htonll c))) = c). rewrite le_decode_encode.
      change (256 ^ Z.of_nat 8) with (2 ^ 64). rewrite Z.mod_small; [done|]. apply mc_swap64_range.
  - change (be_decode (be_encode 2 err) = err). rewrite be_decode_encode. change (256 ^ Z.of_nat 2) with (2 ^ 16). by apply Z.mod_small.
  - reflexivity.
  - rewrite !Forall_app. split_and!; try apply le_encode_bytes; try (apply Forall_rev, le_encode_bytes);
      repeat (apply Forall_cons; split); try apply Forall_nil; try done;
      unfold is_byte, PROTOCOL_BINARY_RES, PROTOCOL_BINARY_RAW_BYTES; lia.
Qed.

(** The header of a reply, queued. *)
Lemma wp_add_bin_header oom w err hl kl bl (Q : unit → world → Prop) :
  mallocs (en w) = [] → 0 < msgsize (ov (cn w)) → 0 < iovsize (ov (cn w)) → SIZEOF_bin_header ≤ wsize (wr (cn w)) →
  let hdr := bin_response_header (opcode (bh (cn w))) err hl kl bl (opaque (core (cn w))) (cas (core (cn w))) in
  length hdr = Z.to_nat SIZEOF_bin_header → Forall is_byte hdr →
  (∀ o V m, let w1 := with_ov o (set_cn (upd_wr (set_wbuf m) (cn w)) w) in
     out_ok w1 V → V ≠ [] → queued_bytes w1 V = hdr → Q tt w1) →
  wp (add_bin_header_with oom err hl kl bl) w Q.
Proof.
  intros Hm H1 H2 Hw hdr Hlen Hb HQ. unfold SIZEOF_bin_header in *. destruct (command_start w Hm H1 H2) as (o & E & Ho & _).
  assert (wp (c ← conn_;
    _ ← write_wbuf 0 (bin_response_header (opcode (bh c)) err hl kl bl (opaque (core c)) (cas (core c)));
    _ ← add_iov (Ptr RWbuf 0) SIZEOF_bin_header; mret tt) (with_ov o w) Q) as (u & w2 & E2 & HQ2).
  { apply wp_bind, wp_conn, wp_bind, wp_write_wbuf; [done|cbn; fold hdr; lia|].
    set (V0 := [fresh_msg (is_udp (cn w))]) in *. set (w1 := set_cn _ (with_ov o w)).
    change (bin_response_header _ err hl kl bl _ _) with hdr in w1.
    assert (queued_bytes w1 V0 = []) as Hq0.
    { unfold queued_bytes, pieces, V0. change (is_udp (cn w1)) with (is_udp (cn w)). by destruct (is_udp (cn w)). }
    apply wp_bind. apply (wp_add_iov w1 V0); [done|exact Ho|done|unfold SIZEOF_bin_header; lia|done|].
    intros o2 V2 Ho2 Hne2 Hq2. apply wp_ret. apply (HQ o2 V2 (store_bytes (wbuf (wr (cn w))) 0 hdr) Ho2 Hne2).
    etrans; [exact Hq2|]. rewrite Hq0. apply (load_store_bytes_eq _ 0 hdr); [done|by rewrite Hlen]. }
  exists u, w2. split; [|done]. unfold add_bin_header_with. rewrite <- bind_assocw, (bind_Ok _ _ _ _ _ E). exact E2.
Qed.

(** C35: error replies of the binary protocol.  For every status with a text (or
    a text of the caller's, shorter than 2^31 bytes), as long as no allocation
    fails, the lists have an entry and the write buffer has room for a header,
    [write_bin_error] succeeds and what is queued is one well-formed
    packet: a 24-byte response header that decodes to the status, the opcode
    of the request, the connection's opaque and cas fields and the length of
    the text, followed by the text; the connection sends it, and then swallows
    the announced number of body bytes or takes the next command.  The cas
    field is the connection's, which the dispatch clears for every request, not
    the cas of the request: unless a command set it, the reply carries 0. *)
Theorem bin_error_reply (w : world) (err : bin_status) (errstr : option (list Z)) (swallow : Z) (s : list Z)
    (Hs : match errstr with Some s => Some s | None => status_text err end = Some s)
    (Hlen : Z.of_nat (length s) < 2 ^ 31) (Hm : mallocs (en w) = [])
    (Hmsg : 0 < msgsize (ov (cn w))) (Hiov : 0 < iovsize (ov (cn w))) (Hw : SIZEOF_bin_header ≤ wsize (wr (cn w)))
    (Hop : 0 ≤ opcode (bh (cn w)) < 256) (Hopq : 0 ≤ opaque (core (cn w)) < 2 ^ 32) (Hcas : 0 ≤ cas (core (cn w)) < 2 ^ 64) :
  ∃ w' V hdr, write_bin_error err errstr swallow w = Ok (tt, w') ∧ out_ok w' V ∧ queued_bytes w' V = hdr ++ s ∧
    length hdr = 24%nat ∧ be_decode (take 2 (drop 6 hdr)) = status_code err ∧
    (let h := parse_header hdr in magic h = PROTOCOL_BINARY_RES ∧ opcode h = opcode (bh (cn w)) ∧
       bopaque h = opaque (core (cn w)) ∧ bcas h = cas (core (cn w)) ∧ bkeylen h = 0 ∧ extlen h = 0 ∧
       bodylen h = Z.of_nat (length s)) ∧
    state (core (cn w')) = conn_mwrite ∧
    (if swallow >? 0 then write_and_go (wr (cn w')) = conn_swallow ∧ sbytes (nr (cn w')) = swallow
     else write_and_go (wr (cn w')) = conn_new_cmd).
Proof.
  set (hdr := bin_response_header (opcode (bh (cn w))) (status_code err) 0 0 (Z.of_nat (length s))
    (opaque (core (cn w))) (cas (core (cn w)))).
  destruct (response_fields (opcode (bh (cn w))) (status_code err) 0 0 (Z.of_nat (length s)) (opaque (core (cn w)))
    (cas (core (cn w)))) as (Hp & Hst & Hhl & Hb); try lia; [by destruct err; cbn; lia|]. fold hdr in Hp, Hst, Hhl, Hb.
  cut (wp (write_bin_error err errstr swallow) w (λ _ w', ∃ V, out_ok w' V ∧ queued_bytes w' V = hdr ++ s ∧
    state (core (cn w')) = conn_mwrite ∧
    (if swallow >? 0 then write_and_go (wr (cn w')) = conn_swallow ∧ sbytes (nr (cn w')) = swallow
     else write_and_go (wr (cn w')) = conn_new_cmd))).
  { intros ([] & w' & E & V & H1 & H2 & H3 & H4). exists w', V, hdr. rewrite Hp. by split_and!. }
  unfold write_bin_error, write_bin_error_with. rewrite Hs.
  apply wp_bind, wp_add_bin_header; try done. intros o V m w1 Ho Hne Hq.
  assert (∀ w2 V2, out_ok w2 V2 → queued_bytes w2 V2 = hdr ++ s →
    wp (_ ← conn_set_state conn_mwrite;
        if swallow >? 0 then _ ← on_nr (set_sbytes swallow); on_wr (set_write_and_go conn_swallow)
        else on_wr (set_write_and_go conn_new_cmd)) w2
    (λ _ w', ∃ V, out_ok w' V ∧ queued_bytes w' V = hdr ++ s ∧ state (core (cn w')) = conn_mwrite ∧
      (if swallow >? 0 then write_and_go (wr (cn w')) = conn_swallow ∧ sbytes (nr (cn w')) = swallow
       else write_and_go (wr (cn w')) = conn_new_cmd))) as Hend.
  { intros w2 V2 Ho2 Hq2. io_step. io_step. destruct (swallow >? 0); io_steps; exists V2;
      (split; [eapply out_ok_frame; [|reflexivity|exact Ho2]; by split|]);
      (split; [rewrite <- Hq2; apply queued_bytes_frame; by split|]); done. }
  apply wp_bind. destruct (Z.gtb_spec (Z.of_nat (length s)) 0) as [Hpos|Hz]; cbn [when].
  - apply wp_bind. apply (wp_add_iov w1 V); [done|done|done|lia|cbn; lia|]. intros o2 V2 Ho2 Hne2 Hq2.
    apply wp_ret. apply (Hend _ V2 Ho2). rewrite Hq2, Hq. f_equal. unfold read_ptr. cbn [preg poff].
    rewrite Nat2Z.id. change (Z.to_nat 0) with 0%nat. rewrite drop_0. apply firstn_all.
  - apply wp_ret. apply (Hend _ V Ho). rewrite Hq. destruct s; [by rewrite app_nil_r|cbn in Hz; lia].
Qed.

Lemma bin_error_reply_witness :
  let w := set_cn (upd_bh (λ _, BinHeader 0x80 0x01 3 8 0 0 20 7 0) (cn (blank_world udp_transport))) (blank_world udp_transport) in
  ∃ w' V hdr, write_bin_error E2BIG None 9 w = Ok (tt, w') ∧ out_ok w' V ∧ queued_bytes w' V = hdr ++ str "Too large." ∧
    length hdr = 24%nat ∧ be_decode (take 2 (drop 6 hdr)) = 3 ∧
    (let h := parse_header hdr in magic h = PROTOCOL_BINARY_RES ∧ opcode h = 1 ∧
       bopaque h = opaque (core (cn w)) ∧ bcas h = cas (core (cn w)) ∧ bkeylen h = 0 ∧ extlen h = 0 ∧ bodylen h = 10) ∧
    state (core (cn w')) = conn_mwrite ∧ write_and_go (wr (cn w')) = conn_swallow ∧ sbytes (nr (cn w')) = 9.
Proof.
  apply (bin_error_reply (set_cn (upd_bh (λ _, BinHeader 0x80 0x01 3 8 0 0 20 7 0) (cn (blank_world udp_transport)))
    (blank_world udp_transport)) E2BIG None 9 (str "Too large.")); try reflexivity; vm_compute;
    repeat split; discriminate.
Defined.
