(* ===== verification/Thread.v ===== *)
(** * Worker threads (thread.c): connection queues, notifications, pausing

    The main thread accepts connections and hands them to the workers through
    a queue of [CQ_ITEM]s per worker and a byte on the worker's pipe; side
    threads (logger, crawler) give a borrowed connection back the same way.
    The queues and the free list of items are linked lists in memory, as in the
    code; the theorems show that they behave as one FIFO per worker, served
    round-robin, and what pausing the workers does and does not guarantee. *)
From Stdlib Require Import ZArith Lia.
From stdpp Require Import strings prelude gmap list functions relations.
From S2P Require Import Prelude Mem Util Item State Assoc Items Store Conn ConnOps Stats Ascii Binary Net.

(** ** State *)
Record cq_item := CqItem {
  cq_sfd : Z;
  cq_init_state : conn_states;
  cq_event_flags : Z;
  cq_read_buffer_size : Z;
  cq_transport : network_transport;
  cq_c : option Z;        (* the connection, by its index in conns[] *)
  cq_next : option Z
}.
Definition set_cq_next (v : option Z) (x : cq_item) : cq_item :=
  CqItem (cq_sfd x) (cq_init_state x) (cq_event_flags x) (cq_read_buffer_size x) (cq_transport x) (cq_c x) v.

(** What is written to a worker's pipe.  Every write is at most five bytes,
    hence atomic, so the pipe is a list of messages: the bytes 'c', 'r', 'p',
    and 't' with a descriptor. *)
Inductive notice : Set := NewConn | Readd | Pause | Timeout (fd : Z).
#[global] Instance notice_eq_dec : EqDecision notice.
Proof. solve_decision. Defined.

(** A worker: its queue, its pipe, and whether it waits for
    [worker_hang_lock] in [register_thread_initialized]. *)
Record worker := Worker {
  q_head : option Z;
  q_tail : option Z;
  pipe : list notice;
  parked : bool
}.
Definition set_q_head (v : option Z) (w : worker) : worker := Worker v (q_tail w) (pipe w) (parked w).
Definition set_q_tail (v : option Z) (w : worker) : worker := Worker (q_head w) v (pipe w) (parked w).
Definition set_pipe (v : list notice) (w : worker) : worker := Worker (q_head w) (q_tail w) v (parked w).
Definition set_parked (v : bool) (w : worker) : worker := Worker (q_head w) (q_tail w) (pipe w) v.

(** [cq_brk] is where malloc will place the next block of items: malloc
    returns fresh memory.  [conn_thread] is [c->thread]. *)
Record system := System {
  cq_items : gmap Z cq_item;
  cqi_freelist : option Z;
  cq_brk : Z;
  workers : list worker;
  last_thread : Z;
  conn_thread : gmap Z Z;
  closed_fds : list Z;
  init_count : Z;
  worker_hang_lock : bool;
  item_lock_hashpower : Z;
  wd : world
}.
Definition set_cq_items (v : gmap Z cq_item) (s : system) : system := System v (cqi_freelist s) (cq_brk s) (workers s) (last_thread s) (conn_thread s) (closed_fds s) (init_count s) (worker_hang_lock s) (item_lock_hashpower s) (wd s).
Definition set_cqi_freelist (v : option Z) (s : system) : system := System (cq_items s) v (cq_brk s) (workers s) (last_thread s) (conn_thread s) (closed_fds s) (init_count s) (worker_hang_lock s) (item_lock_hashpower s) (wd s).
Definition set_cq_brk (v : Z) (s : system) : system := System (cq_items s) (cqi_freelist s) v (workers s) (last_thread s) (conn_thread s) (closed_fds s) (init_count s) (worker_hang_lock s) (item_lock_hashpower s) (wd s).
Definition set_workers (v : list worker) (s : system) : system := System (cq_items s) (cqi_freelist s) (cq_brk s) v (last_thread s) (conn_thread s) (closed_fds s) (init_count s) (worker_hang_lock s) (item_lock_hashpower s) (wd s).
Definition set_last_thread (v : Z) (s : system) : system := System (cq_items s) (cqi_freelist s) (cq_brk s) (workers s) v (conn_thread s) (closed_fds s) (init_count s) (worker_hang_lock s) (item_lock_hashpower s) (wd s).
Definition set_conn_thread (v : gmap Z Z) (s : system) : system := System (cq_items s) (cqi_freelist s) (cq_brk s) (workers s) (last_thread s) v (closed_fds s) (init_count s) (worker_hang_lock s) (item_lock_hashpower s) (wd s).
Definition set_closed_fds (v : list Z) (s : system) : system := System (cq_items s) (cqi_freelist s) (cq_brk s) (workers s) (last_thread s) (conn_thread s) v (init_count s) (worker_hang_lock s) (item_lock_hashpower s) (wd s).
Definition set_init_count (v : Z) (s : system) : system := System (cq_items s) (cqi_freelist s) (cq_brk s) (workers s) (last_thread s) (conn_thread s) (closed_fds s) v (worker_hang_lock s) (item_lock_hashpower s) (wd s).
Definition set_worker_hang_lock (v : bool) (s : system) : system := System (cq_items s) (cqi_freelist s) (cq_brk s) (workers s) (last_thread s) (conn_thread s) (closed_fds s) (init_count s) v (item_lock_hashpower s) (wd s).
Definition set_item_lock_hashpower (v : Z) (s : system) : system := System (cq_items s) (cqi_freelist s) (cq_brk s) (workers s) (last_thread s) (conn_thread s) (closed_fds s) (init_count s) (worker_hang_lock s) v (wd s).
Definition set_wd (v : world) (s : system) : system := System (cq_items s) (cqi_freelist s) (cq_brk s) (workers s) (last_thread s) (conn_thread s) (closed_fds s) (init_count s) (worker_hang_lock s) (item_lock_hashpower s) v.

Definition sys (A : Type) : Type := M system A.
Definition wio {A} (m : io A) : sys A := zoom wd set_wd m.

Definition get_cqi (a : Z) : sys cq_item := λ s,
  match cq_items s !! a with Some x => Ok (x, s) | None => Fault OutOfBounds end.
Definition upd_cqi (a : Z) (f : cq_item → cq_item) : sys unit :=
  x ← get_cqi a;
  modify (λ s, set_cq_items (<[a := f x]> (cq_items s)) s).
Definition get_worker (t : Z) : sys worker := λ s,
  if t <? 0 then Fault OutOfBounds
  else match workers s !! Z.to_nat t with Some w => Ok (w, s) | None => Fault OutOfBounds end.
Definition upd_worker (t : Z) (f : worker → worker) : sys unit :=
  w ← get_worker t;
  modify (λ s, set_workers (<[Z.to_nat t := f w]> (workers s)) s).
(** [write(thread->notify_send_fd, ...)] *)
Definition notify (t : Z) (n : notice) : sys unit := upd_worker t (λ w, set_pipe (pipe w ++ [n]) w).
Definition close_fd (fd : Z) : sys unit := modify (λ s, set_closed_fds (fd :: closed_fds s) s).

(** ** Connection queues *)
Definition cq_init (w : worker) : worker := set_q_tail None (set_q_head None w).

Definition cq_pop (t : Z) : sys (option Z) :=
  w ← get_worker t;
  match q_head w with
  | None => mret None
  | Some it =>
      x ← get_cqi it;
      _ ← upd_worker t (set_q_head (cq_next x));
      _ ← when (bool_decide (cq_next x = None)) (upd_worker t (set_q_tail None));
      mret (Some it)
  end.

Definition cq_push (t it : Z) : sys unit :=
  _ ← upd_cqi it (set_cq_next None);
  w ← get_worker t;
  _ ← match q_tail w with
      | None => upd_worker t (set_q_head (Some it))
      | Some tl => upd_cqi tl (set_cq_next (Some it))
      end;
  upd_worker t (set_q_tail (Some it)).

(** ** Items *)
Definition ITEMS_PER_ALLOC : Z := 64.
(** What malloc leaves in an item is indeterminate; no claim depends on it. *)
Definition uninit : cq_item := CqItem 0 conn_closed 0 0 local_transport None None.
(** The items of a new block at [b], before they are linked. *)
Definition new_block (b : Z) : gmap Z cq_item :=
  list_to_map ((λ i, (b + i, uninit)) <$> seqZ 0 ITEMS_PER_ALLOC).
(** [for (i = 2; i < ITEMS_PER_ALLOC; i++) item[i - 1].next = &item[i]] *)
Definition link_items (b : Z) : sys unit :=
  foldl (λ m i, _ ← m; upd_cqi (b + i - 1) (set_cq_next (Some (b + i)))) (mret tt) (seqZ 2 (ITEMS_PER_ALLOC - 2)).

Definition cqi_new : sys (option Z) :=
  fl ← gets cqi_freelist;
  match fl with
  | Some it =>
      x ← get_cqi it;
      _ ← modify (set_cqi_freelist (cq_next x));
      mret (Some it)
  | None =>
      ok ← wio malloc_counted;
      if negb ok then mret None
      else
        b ← gets cq_brk;
        _ ← modify (λ s, set_cq_brk (b + ITEMS_PER_ALLOC) (set_cq_items (new_block b ∪ cq_items s) s));
        _ ← link_items b;
        fl ← gets cqi_freelist;
        _ ← upd_cqi (b + (ITEMS_PER_ALLOC - 1)) (set_cq_next fl);
        _ ← modify (set_cqi_freelist (Some (b + 1)));
        mret (Some b)
  end.

Definition cqi_free (it : Z) : sys unit :=
  fl ← gets cqi_freelist;
  _ ← upd_cqi it (set_cq_next fl);
  modify (set_cqi_freelist (Some it)).

(** ** Handing connections over *)
Definition fill_new (sfd : Z) (st : conn_states) (fl rbs : Z) (tr : network_transport) (x : cq_item) : cq_item :=
  CqItem sfd st fl rbs tr (cq_c x) (cq_next x).
Definition fill_readd (sfd fd : Z) (x : cq_item) : cq_item :=
  CqItem sfd conn_new_cmd (cq_event_flags x) (cq_read_buffer_size x) (cq_transport x) (Some fd) (cq_next x).

(** [dispatch_conn_new] up to the write to the pipe: the chosen worker. *)
Definition dispatch_push (sfd : Z) (st : conn_states) (fl rbs : Z) (tr : network_transport) : sys (option Z) :=
  item ← cqi_new;
  match item with
  | None => _ ← close_fd sfd; mret None
  | Some it =>
      s ← gets id;
      let tid := Z.rem (last_thread s + 1) (num_threads (cfg (kv (wd s)))) in
      _ ← modify (set_last_thread tid);
      _ ← upd_cqi it (fill_new sfd st fl rbs tr);
      _ ← cq_push tid it;
      mret (Some tid)
  end.
Definition dispatch_conn_new (sfd : Z) (st : conn_states) (fl rbs : Z) (tr : network_transport) : sys unit :=
  t ← dispatch_push sfd st fl rbs tr;
  match t with
  | None => mret tt
  | Some tid => notify tid NewConn
  end.

(** The connection [fd] as the one an operation works on. *)
Definition with_conn {A} (fd : Z) (m : io A) : io A :=
  e ← gets en;
  match conns e !! fd with
  | None => fail NullDeref
  | Some c =>
      _ ← upd_cn (λ _, c);
      r ← m;
      _ ← modify (λ w, set_en (set_conns (<[fd := cn w]> (conns (en w))) (en w)) w);
      mret r
  end.

(** [redispatch_conn], up to the write: the worker the connection belongs to. *)
Definition redispatch_push (fd : Z) : sys (option Z) :=
  item ← cqi_new;
  c ← gets (λ s, conns (en (wd s)) !! fd);
  match c with
  | None => fail NullDeref
  | Some c =>
      match item with
      | None =>
          _ ← wio (with_conn fd (on_core (set_state conn_closed)));
          _ ← close_fd (sfd (core c));
          mret None
      | Some it =>
          th ← gets (λ s, conn_thread s !! fd);
          match th with
          | None => fail NullDeref
          | Some tid =>
              _ ← upd_cqi it (fill_readd (sfd (core c)) fd);
              _ ← cq_push tid it;
              mret (Some tid)
          end
      end
  end.
Definition redispatch_conn (fd : Z) : sys unit :=
  t ← redispatch_push fd;
  match t with
  | None => mret tt
  | Some tid => notify tid Readd
  end.

Definition sidethread_conn_close (fd : Z) : sys unit :=
  _ ← wio (with_conn fd (on_core (set_state conn_closed)));
  c ← gets (λ s, conns (en (wd s)) !! fd);
  _ ← close_fd (match c with Some c => sfd (core c) | None => fd end);
  wio (srv (state_add curr_conns (-1))).

(** ** Pausing *)
(** [register_thread_initialized]: report in, then stop at [worker_hang_lock]
    until it can be taken. *)
Definition register_thread_initialized (t : Z) : sys unit :=
  _ ← modify (λ s, set_init_count (init_count s + 1) s);
  upd_worker t (set_parked true).

(** The worker has taken and released the lock. *)
Definition pass_hang_lock (t : Z) : sys unit := upd_worker t (set_parked false).

Inductive pause_thread_types : Set :=
  | PAUSE_WORKER_THREADS | PAUSE_ALL_THREADS | RESUME_ALL_THREADS | RESUME_WORKER_THREADS.

(** The switch of [pause_threads]: whether there is a message to send.  The
    caller blocks while another thread holds the lock. *)
Definition pause_lock (type : pause_thread_types) : sys bool :=
  match type with
  | PAUSE_ALL_THREADS | PAUSE_WORKER_THREADS =>
      held ← gets worker_hang_lock;
      if held : bool then fail Deadlock
      else _ ← modify (set_worker_hang_lock true); mret true
  | RESUME_ALL_THREADS | RESUME_WORKER_THREADS =>
      _ ← modify (set_worker_hang_lock false); mret false
  end.

(** The messages of [pause_threads], under [init_lock]. *)
Definition pause_signal : sys unit :=
  _ ← modify (set_init_count 0);
  n ← gets (λ s, num_threads (cfg (kv (wd s))));
  foldl (λ m i, _ ← m; notify i Pause) (mret tt) (seqZ 0 n).

(** The condition [wait_for_thread_registration] waits for. *)
Definition registered (s : system) : bool := num_threads (cfg (kv (wd s))) <=? init_count s.

(** ** Idle connections *)
(** One connection of a pass of [conn_timeout_thread]: the oldest command time
    seen so far. *)
Definition timeout_check (oldest_last_cmd i : Z) : sys Z :=
  s ← gets wd;
  match conns (en s) !! i with
  | None => mret oldest_last_cmd
  | Some c =>
      if bool_decide (transport (core c) ≠ tcp_transport) then mret oldest_last_cmd
      else if bool_decide (state (core c) ≠ conn_new_cmd ∧ state (core c) ≠ conn_read) then mret oldest_last_cmd
      else if u32 (current_time (kv s) - last_cmd_time (core c)) >? u32 (idle_timeout (cfg (kv s))) then
        th ← gets (λ s, conn_thread s !! i);
        match th with
        | None => fail NullDeref
        | Some t => _ ← notify t (Timeout i); mret oldest_last_cmd
        end
      else mret (Z.min oldest_last_cmd (last_cmd_time (core c)))
  end.

(** A pass over all connections: the seconds to sleep afterwards. *)
Definition timeout_pass : sys Z :=
  s ← gets wd;
  oldest ← foldl (λ m i, o ← m; timeout_check o i) (mret (current_time (kv s))) (seqZ 0 (max_fds (en s)));
  let sleep_time := i32 (u32 (u32 (idle_timeout (cfg (kv s)) - u32 (current_time (kv s) - oldest)) + 1)) in
  mret (if sleep_time <=? 0 then 1 else sleep_time).

(** ** The workers *)
Section workers.
Context `{background} `{sasl_lib} (inp : stat_inputs) (binding : protocol) (socketpath : bool).

Definition serve_new (t : Z) : sys unit :=
  item ← cq_pop t;
  match item with
  | None => mret tt
  | Some it =>
      x ← get_cqi it;
      c ← wio (conn_new (cq_sfd x) (cq_init_state x) (cq_event_flags x) (cq_read_buffer_size x)
                 (cq_transport x) binding socketpath);
      _ ← match c with
          | None =>
              if bool_decide (cq_transport x = udp_transport) then fail (Exited 1)
              else close_fd (cq_sfd x)
          | Some _ => modify (λ s, set_conn_thread (<[cq_sfd x := t]> (conn_thread s)) s)
          end;
      cqi_free it
  end.

Definition serve_readd (t : Z) : sys unit :=
  item ← cq_pop t;
  match item with
  | None => mret tt
  | Some it =>
      x ← get_cqi it;
      _ ← match cq_c x with
          | None => fail NullDeref
          | Some fd => wio (with_conn fd conn_worker_readd)
          end;
      cqi_free it
  end.

Definition thread_libevent_process (t : Z) : sys unit :=
  w ← get_worker t;
  match pipe w with
  | [] => mret tt
  | n :: l =>
      _ ← upd_worker t (set_pipe l);
      match n with
      | NewConn => serve_new t
      | Readd => serve_readd t
      | Pause => register_thread_initialized t
      | Timeout fd => wio (with_conn fd (conn_close_idle inp))
      end
  end.

(** ** The threads together

    The pausing thread (the hash table's maintainer) is idle, has taken the
    lock, waits for the workers to report, or has them paused. *)
Inductive phase : Set := Idle | Locked | Waiting | Paused.

Inductive step : phase * system → phase * system → Prop :=
  | step_dispatch ph s s' sfd st fl rbs tr :
      dispatch_conn_new sfd st fl rbs tr s = Ok (tt, s') → step (ph, s) (ph, s')
  | step_redispatch ph s s' fd :
      redispatch_conn fd s = Ok (tt, s') → step (ph, s) (ph, s')
  | step_timeout ph s s' n :
      timeout_pass s = Ok (n, s') → step (ph, s) (ph, s')
  | step_serve ph s s' t w :
      workers s !! Z.to_nat t = Some w → parked w = false →
      thread_libevent_process t s = Ok (tt, s') → step (ph, s) (ph, s')
  | step_pass ph s s' t w :
      workers s !! Z.to_nat t = Some w → parked w = true → worker_hang_lock s = false →
      pass_hang_lock t s = Ok (tt, s') → step (ph, s) (ph, s')
  | step_lock s s' type :
      pause_lock type s = Ok (true, s') → step (Idle, s) (Locked, s')
  | step_signal s s' :
      pause_signal s = Ok (tt, s') → step (Locked, s) (Waiting, s')
  | step_registered s :
      registered s = true → step (Waiting, s) (Paused, s)
  | step_resume s s' type :
      pause_lock type s = Ok (false, s') → step (Paused, s) (Idle, s').
End workers.

(** ** Start-up *)
(** The size of the table of item locks, as a power of two. *)
Definition item_lock_power (nthreads : Z) : Z :=
  if nthreads <? 3 then 10 else if nthreads <? 4 then 11 else if nthreads <? 5 then 12 else 13.
(** The lock of a hash value, [&item_locks[hv & hashmask(item_lock_hashpower)]]. *)
Definition item_lock_index (power hv : Z) : Z := Z.land hv (hashmask power).

(** [exit(1)] when an allocation failed. *)
Definition need (ok : bool) : sys unit := if ok then mret tt else fail (Exited 1).

(** The event base, the queue and the suffix cache of a worker are allocated
    and its pipe is watched. *)
Definition setup_thread : sys worker :=
  ok ← wio malloc_ok; _ ← need ok;
  ok ← wio event_ok; _ ← need ok;
  ok ← wio malloc_ok; _ ← need ok;
  ok ← wio malloc_ok; _ ← need ok;
  mret (cq_init (Worker None None [] false)).

(** [memcached_thread_init], until the workers have registered; nobody holds
    [worker_hang_lock] yet, so they run on.  Whether a pipe can be made is asked
    of the event library's list of answers. *)
Definition memcached_thread_init (n : Z) : sys unit :=
  _ ← modify (λ s, set_worker_hang_lock false (set_cqi_freelist None s));
  let power := item_lock_power n in
  hp ← gets (λ s, hashpower (tab (kv (wd s))));
  _ ← need (negb (power >=? hp));
  _ ← modify (set_item_lock_hashpower power);
  ok ← wio malloc_ok; _ ← need ok;
  ok ← wio malloc_ok; _ ← need ok;
  ws ← foldl (λ m _, l ← m; ok ← wio event_ok; _ ← need ok; w ← setup_thread;
                _ ← wio (srv (state_add reserved_fds 5)); mret (l ++ [w]))
         (mret []) (seqZ 0 n);
  modify (λ s, set_workers ws (set_init_count n s)).

(** The system [memcached_thread_init] leaves: [n] running workers with empty
    queues. *)
Definition started (n : nat) (w : world) : system :=
  System ∅ None 0 (replicate n (cq_init (Worker None None [] false))) (-1) ∅ [] (Z.of_nat n) false
    (item_lock_power (Z.of_nat n)) w.
