(* ===== verification/ThreadFacts.v ===== *)
(** * The connection queues are FIFOs

    The linked lists of thread.c against their abstract contents, and the
    refinement of the hand-over of connections. *)
From Stdlib Require Import ZArith Lia.
From stdpp Require Import strings prelude gmap list functions relations.
From S2P Require Import Prelude Mem Util Item State Assoc Items Store Pool Conn ConnOps Stats Ascii Binary Net IovFacts IoFacts GetFacts TxFacts RxFacts Thread.

(** ** Linked lists of items *)
Fixpoint chain (m : gmap Z cq_item) (p : option Z) (l : list Z) : Prop :=
  match l with
  | [] => p = None
  | a :: l => p = Some a ∧ ∃ x, m !! a = Some x ∧ chain m (cq_next x) l
  end.

Lemma chain_ext m m' p l :
  (∀ a, a ∈ l → cq_next <$> m' !! a = cq_next <$> m !! a) → chain m p l → chain m' p l.
Proof.
  revert p. induction l as [|a l IH]; intros p Hm; [done|]. intros [-> (x & Hx & Hl)]. split; [done|].
  specialize (Hm a ltac:(set_solver)) as Ha. rewrite Hx in Ha. apply fmap_Some in Ha as (y & Hy & E).
  exists y. split; [done|]. rewrite <- E. apply IH; [|done]. intros b Hb. apply Hm. set_solver.
Qed.
Lemma chain_insert m p l a x : a ∉ l → chain m p l → chain (<[a := x]> m) p l.
Proof.
  intros Ha. apply chain_ext. intros b Hb. rewrite lookup_insert_ne; [done|]. by intros ->.
Qed.
Lemma cqchain_elem m p l a : chain m p l → a ∈ l → is_Some (m !! a).
Proof.
  revert p. induction l as [|b l IH]; intros p; [set_solver|].
  intros [-> (x & Hx & Hl)] [->|Ha]%elem_of_cons; [by eexists|by eapply IH].
Qed.

(** Hanging one more item behind the last one. *)
Lemma chain_snoc m p l t x a y :
  chain m p l → last l = Some t → NoDup l → a ∉ l → m !! t = Some x → m !! a = Some y → cq_next y = None →
  chain (<[t := set_cq_next (Some a) x]> m) p (l ++ [a]).
Proof.
  revert p. induction l as [|b l IH]; intros p; [done|]. intros [-> (z & Hz & Hl)] Hlast Hnd Ha Ht Hy Hn.
  apply NoDup_cons in Hnd as [Hb Hnd]. destruct l as [|c l].
  - cbn in Hlast. simplify_eq. cbn. split; [done|]. rewrite lookup_insert_eq. eexists. split; [done|]. cbn.
    split; [done|]. exists y. split; [|done]. rewrite lookup_insert_ne; [done|]. intros ->. set_solver.
  - rewrite last_cons_cons in Hlast. cbn [app]. split; [done|]. exists z. split.
    + rewrite lookup_insert_ne; [done|]. intros ->. apply Hb. by apply last_Some_elem_of.
    + apply IH; try done. set_solver.
Qed.

(** ** Abstract queues *)
Inductive request : Set :=
  | RNew (sfd : Z) (st : conn_states) (fl rbs : Z) (tr : network_transport)
  | RReadd (fd : Z).
Definition kind (r : request) : notice := match r with RNew _ _ _ _ _ => NewConn | RReadd _ => Readd end.
Definition holds (x : cq_item) (r : request) : Prop :=
  match r with
  | RNew sfd st fl rbs tr =>
      cq_sfd x = sfd ∧ cq_init_state x = st ∧ cq_event_flags x = fl ∧ cq_read_buffer_size x = rbs ∧ cq_transport x = tr
  | RReadd fd => cq_init_state x = conn_new_cmd ∧ cq_c x = Some fd
  end.
Lemma holds_next x r v : holds (set_cq_next v x) r ↔ holds x r.
Proof. by destruct r. Qed.

(** The queue of a worker: addresses and what the items ask for. *)
Definition cqueue := list (Z * request).
Record queue_ok (m : gmap Z cq_item) (w : worker) (q : cqueue) : Prop := {
  qo_chain : chain m (q_head w) q.*1;
  qo_tail : q_tail w = last q.*1;
  qo_nodup : NoDup q.*1;
  qo_holds : ∀ a r, (a, r) ∈ q → ∃ x, m !! a = Some x ∧ holds x r
}.

Definition unowned (a : Z) (F : list Z) (Q : list cqueue) : Prop :=
  a ∉ F ∧ ∀ t q, Q !! t = Some q → a ∉ q.*1.

(** The queues [Q] and the free list [F] are disjoint lists in memory. *)
Record cq_ok (s : system) (Q : list cqueue) (F : list Z) : Prop := {
  ok_free : chain (cq_items s) (cqi_freelist s) F;
  ok_free_nodup : NoDup F;
  ok_queues : Forall2 (queue_ok (cq_items s)) (workers s) Q;
  ok_apart_free : ∀ t q, Q !! t = Some q → F ## q.*1;
  ok_apart : ∀ t t' q q', t ≠ t' → Q !! t = Some q → Q !! t' = Some q' → q.*1 ## q'.*1;
  ok_brk : ∀ a, is_Some (cq_items s !! a) → a < cq_brk s
}.

Lemma queue_ok_insert m w q a x :
  a ∉ q.*1 → queue_ok m w q → queue_ok (<[a := x]> m) w q.
Proof.
  intros Ha [Q1 Q2 Q3 Q4]. split; [by apply chain_insert|done|done|].
  intros b r Hb. destruct (Q4 b r Hb) as (y & Hy & Hr). exists y. split; [|done].
  rewrite lookup_insert_ne; [done|]. intros ->. apply Ha. apply list_elem_of_fmap. by exists (b, r).
Qed.

Lemma queues_insert m ws Q a x :
  (∀ t q, Q !! t = Some q → a ∉ q.*1) → Forall2 (queue_ok m) ws Q → Forall2 (queue_ok (<[a := x]> m)) ws Q.
Proof.
  intros Ha HQ. apply Forall2_same_length_lookup_2; [by eapply Forall2_length|].
  intros t w q Hw Hq. apply queue_ok_insert; [by eapply Ha|]. by eapply (Forall2_lookup_lr _ _ _ _ _ _ HQ).
Qed.

(** An item nobody owns can be written at will. *)
Lemma ok_write s Q F a x :
  cq_ok s Q F → unowned a F Q → is_Some (cq_items s !! a) → cq_ok (set_cq_items (<[a := x]> (cq_items s)) s) Q F.
Proof.
  intros [O1 O2 O3 O4 O5 O6] [U1 U2] Ha. split; try done.
  - by apply chain_insert.
  - by apply queues_insert.
  - cbn. intros b [[= <-]|[_ Hb]]%lookup_insert_is_Some; [by apply O6|by apply O6].
Qed.

(** ** Primitive operations *)
Lemma wp_get_cqi a x s (P : cq_item → system → Prop) : cq_items s !! a = Some x → P x s → wp (get_cqi a) s P.
Proof. intros Hx HP. exists x, s. unfold get_cqi. by rewrite Hx. Qed.
Lemma wp_upd_cqi a f x s (P : unit → system → Prop) :
  cq_items s !! a = Some x → P tt (set_cq_items (<[a := f x]> (cq_items s)) s) → wp (upd_cqi a f) s P.
Proof. intros Hx HP. apply wp_bind, (wp_get_cqi _ x); [done|]. by apply wp_modify. Qed.
Lemma wp_get_worker (t : nat) w s (P : worker → system → Prop) :
  workers s !! t = Some w → P w s → wp (get_worker (Z.of_nat t)) s P.
Proof.
  intros Hw HP. exists w, s. unfold get_worker. rewrite (proj2 (Z.ltb_ge _ _)) by lia.
  by rewrite Nat2Z.id, Hw.
Qed.
Lemma wp_upd_worker (t : nat) f w s (P : unit → system → Prop) :
  workers s !! t = Some w → P tt (set_workers (<[t := f w]> (workers s)) s) → wp (upd_worker (Z.of_nat t) f) s P.
Proof. intros Hw HP. apply wp_bind, (wp_get_worker _ w); [done|]. apply wp_modify. by rewrite Nat2Z.id. Qed.

(** ** Allocation of items *)
Definition linked_upto (b n : Z) (m m' : gmap Z cq_item) : Prop :=
  ∀ a, m' !! a = if (b + 1 <=? a) && (a <? b + 1 + n) then set_cq_next (Some (a + 1)) <$> m !! a else m !! a.

Lemma seqZ_snoc a (n : nat) : seqZ a (Z.of_nat (S n)) = seqZ a (Z.of_nat n) ++ [a + Z.of_nat n].
Proof. replace (Z.of_nat (S n)) with (Z.of_nat n + 1) by lia. rewrite seqZ_app by lia. done. Qed.

Lemma link_items_spec b s (n : nat) :
  (∀ i, 0 ≤ i < Z.of_nat n + 1 → is_Some (cq_items s !! (b + i))) →
  wp (foldl (λ m i, _ ← m; upd_cqi (b + i - 1) (set_cq_next (Some (b + i)))) (mret tt) (seqZ 2 (Z.of_nat n))) s
    (λ _ s', ∃ m', s' = set_cq_items m' s ∧ linked_upto b (Z.of_nat n) (cq_items s) m').
Proof.
  induction n as [|n IH]; intros Hs.
  - cbn. apply wp_ret. exists (cq_items s). split; [by destruct s|]. intros a.
    rewrite Z.add_0_r. destruct (Z.leb_spec (b + 1) a), (Z.ltb_spec a (b + 1)); try done; lia.
  - rewrite seqZ_snoc, foldl_app. cbn [foldl]. apply wp_bind.
    eapply wp_mono; [|apply IH; intros i Hi; apply Hs; lia]. intros _ s1 (m1 & -> & H1).
    destruct (Hs (1 + Z.of_nat n) ltac:(lia)) as [x Hx].
    assert (m1 !! (b + (2 + Z.of_nat n) - 1) = Some x) as Hx1.
    { rewrite H1, (proj2 (Z.ltb_ge _ _)), andb_false_r by lia. rewrite <- Hx. f_equal. lia. }
    eapply wp_upd_cqi; [exact Hx1|]. eexists. split; [reflexivity|]. intros a. cbn [cq_items set_cq_items].
    destruct (decide (a = b + (2 + Z.of_nat n) - 1)) as [->|Hne].
    + rewrite lookup_insert_eq. rewrite (proj2 (Z.leb_le _ _)), (proj2 (Z.ltb_lt _ _)) by lia. cbn [andb].
      replace (b + (2 + Z.of_nat n) - 1) with (b + (1 + Z.of_nat n)) by lia. rewrite Hx. cbn. do 3 f_equal. lia.
    + rewrite lookup_insert_ne by done. rewrite H1.
      destruct (Z.leb_spec (b + 1) a), (Z.ltb_spec a (b + 1 + Z.of_nat n)), (Z.ltb_spec a (b + 1 + Z.of_nat (S n)));
        try done; lia.
Qed.

Lemma new_block_lookup b a :
  new_block b !! a = if (b <=? a) && (a <? b + ITEMS_PER_ALLOC) then Some uninit else None.
Proof.
  unfold new_block. destruct ((b <=? a) && (a <? b + ITEMS_PER_ALLOC)) eqn:E.
  - apply andb_true_iff in E as [E1%Z.leb_le E2%Z.ltb_lt]. apply elem_of_list_to_map_1.
    + rewrite <- list_fmap_compose. apply NoDup_fmap_2; [|apply NoDup_seqZ]. intros i j. cbn. lia.
    + apply list_elem_of_fmap. exists (a - b). split; [f_equal; lia|]. apply elem_of_seqZ. lia.
  - apply not_elem_of_list_to_map_1. intros (p & -> & (i & -> & Hi%elem_of_seqZ)%list_elem_of_fmap)%list_elem_of_fmap.
    cbn in E. rewrite (proj2 (Z.leb_le _ _)), (proj2 (Z.ltb_lt _ _)) in E by lia. done.
Qed.

(** The free items of a new block. *)
Lemma block_chain b (m : gmap Z cq_item) (n : nat) :
  (∀ i, 1 ≤ i → i < Z.of_nat n → cq_next <$> m !! (b + i) = Some (Some (b + i + 1))) →
  (0 < n)%nat → cq_next <$> m !! (b + Z.of_nat n) = Some None →
  chain m (Some (b + 1)) (seqZ (b + 1) (Z.of_nat n)).
Proof.
  revert b. induction n as [|n IH]; intros b Hm Hn Hlast; [lia|]. rewrite seqZ_cons by lia.
  destruct n as [|n].
  - cbn. split; [done|]. change (Z.of_nat 1) with 1 in Hlast. apply fmap_Some in Hlast as (x & Hx & E).
    by exists x.
  - pose proof (Hm 1 ltac:(lia) ltac:(lia)) as H1. apply fmap_Some in H1 as (x & Hx & E).
    split; [done|]. exists x. split; [done|]. rewrite <- E.
    replace (Z.pred (Z.of_nat (S (S n)))) with (Z.of_nat (S n)) by lia.
    replace (Z.succ (b + 1)) with (b + 1 + 1) by lia.
    apply (IH (b + 1)); [|lia|].
    + intros i H1 H2. rewrite <- Z.add_assoc, (Z.add_comm 1 i), Z.add_assoc. rewrite <- (Z.add_assoc b i 1).
      rewrite Hm by lia. done.
    + rewrite <- Hlast. do 2 f_equal. lia.
Qed.

(** What an allocation may change. *)
Definition alloc_frame (s s' : system) : Prop :=
  ∃ m fl b w, s' = set_wd w (set_cq_brk b (set_cqi_freelist fl (set_cq_items m s))) ∧
    cn w = cn (wd s) ∧ cfg (kv w) = cfg (kv (wd s)) ∧ conns (en w) = conns (en (wd s)).

Lemma malloc_counted_frame w (P : bool → world → Prop) :
  (∀ b w', cn w' = cn w ∧ cfg (kv w') = cfg (kv w) ∧ conns (en w') = conns (en w) ∧
     (mallocs (en w) = [] → b = true ∧ w' = w) → P b w') →
  wp malloc_counted w P.
Proof.
  intros HP. unfold malloc_counted. apply wp_bind.
  assert (malloc_ok w = match mallocs (en w) with [] => Ok (true, w) | b :: l => Ok (b, set_en (set_mallocs l (en w)) w) end)
    as Em by done.
  destruct (mallocs (en w)) as [|b l] eqn:E; (eapply wp_eq; [exact Em|]).
  - apply wp_bind, wp_ret, wp_ret. by apply HP.
  - destruct b; apply wp_bind.
    + apply wp_ret, wp_ret. apply HP. by split_and!.
    + eexists _, _. split; [reflexivity|]. apply wp_ret. apply HP. by split_and!.
Qed.

Lemma wp_wio {A} (m : io A) s (P : A → system → Prop) :
  wp m (wd s) (λ a w, P a (set_wd w s)) → wp (wio m) s P.
Proof. intros (a & w & E & HP). exists a, (set_wd w s). split; [|done]. unfold wio, zoom. by rewrite E. Qed.

Lemma ok_elem s Q F t q a : cq_ok s Q F → Q !! t = Some q → a ∈ q.*1 → is_Some (cq_items s !! a).
Proof.
  intros Hok Hq Ha. destruct (Forall2_lookup_r _ _ _ _ _ (ok_queues _ _ _ Hok) Hq) as (w & _ & Hw).
  exact (cqchain_elem _ _ _ _ (qo_chain _ _ _ Hw) Ha).
Qed.

(** Items outside the lists may be added and changed. *)
Lemma ok_extend s Q F F' m' fl' brk' w' :
  cq_ok s Q F → (∀ a, is_Some (cq_items s !! a) → m' !! a = cq_items s !! a) →
  chain m' fl' F' → NoDup F' → (∀ t q, Q !! t = Some q → F' ## q.*1) →
  (∀ a, is_Some (m' !! a) → a < brk') →
  cq_ok (set_wd w' (set_cq_brk brk' (set_cqi_freelist fl' (set_cq_items m' s)))) Q F'.
Proof.
  intros Hok Hm Hc Hnd Hd Hb. pose proof Hok as [O1 O2 O3 O4 O5 O6]. split; try done.
  cbn. apply Forall2_same_length_lookup_2; [by eapply Forall2_length|]. intros t w q Hw Hq.
  destruct (Forall2_lookup_lr _ _ _ _ _ _ O3 Hw Hq) as [Q1 Q2 Q3 Q4]. split; try done.
  - eapply chain_ext; [|exact Q1]. intros a Ha. by rewrite Hm by by eapply ok_elem.
  - intros a r Ha. destruct (Q4 a r Ha) as (x & Hx & Hr). exists x. split; [|done]. rewrite Hm; [done|by eexists].
Qed.

(** The map of the items after a block was added at [b] and its items but the
    first were linked, the last one to nothing. *)
Section block.
Context (s : system) (Q : list cqueue) (m2 : gmap Z cq_item).
Context (Hok : cq_ok s Q []) (H2 : linked_upto (cq_brk s) 62 (new_block (cq_brk s) ∪ cq_items s) m2).
#[local] Notation b := (cq_brk s).
#[local] Notation m3 := (<[b + (ITEMS_PER_ALLOC - 1) := set_cq_next None uninit]> m2).

Lemma block_new i : 0 ≤ i < ITEMS_PER_ALLOC → (new_block b ∪ cq_items s) !! (b + i) = Some uninit.
Proof using.
  intros Hi. apply lookup_union_Some_l. rewrite new_block_lookup.
  by rewrite (proj2 (Z.leb_le _ _)), (proj2 (Z.ltb_lt _ _)) by lia.
Qed.
Lemma block_linked i : 0 < i < 63 → m3 !! (b + i) = Some (set_cq_next (Some (b + i + 1)) uninit).
Proof using H2.
  intros Hi. rewrite lookup_insert_ne by (unfold ITEMS_PER_ALLOC; lia).
  rewrite H2, (proj2 (Z.leb_le _ _)), (proj2 (Z.ltb_lt _ _)) by lia. cbn [andb].
  by rewrite block_new by (unfold ITEMS_PER_ALLOC; lia).
Qed.
Lemma block_old a : is_Some (cq_items s !! a) → m3 !! a = cq_items s !! a.
Proof using Hok H2.
  intros Ha. pose proof (ok_brk _ _ _ Hok a Ha) as Hlt. rewrite lookup_insert_ne by (unfold ITEMS_PER_ALLOC; lia).
  rewrite H2, (proj2 (Z.leb_gt _ _)) by lia. cbn [andb].
  apply lookup_union_r. rewrite new_block_lookup. by rewrite (proj2 (Z.leb_gt _ _)) by lia.
Qed.
Lemma block_brk a : is_Some (m3 !! a) → a < b + ITEMS_PER_ALLOC.
Proof using Hok H2.
  intros [y Hy]. destruct (decide (a < b + ITEMS_PER_ALLOC)) as [|Hge]; [done|exfalso]. unfold ITEMS_PER_ALLOC in *.
  rewrite lookup_insert_ne in Hy by lia. rewrite H2, (proj2 (Z.ltb_ge _ _)), andb_false_r in Hy by lia.
  apply lookup_union_Some_raw in Hy as [Hy|[_ Hy]].
  - rewrite new_block_lookup, (proj2 (Z.ltb_ge _ _)), andb_false_r in Hy by (unfold ITEMS_PER_ALLOC; lia). done.
  - pose proof (ok_brk _ _ _ Hok a ltac:(by eexists)). lia.
Qed.

Lemma block_ok w1 :
  let s' := set_wd w1 (set_cq_brk (b + ITEMS_PER_ALLOC) (set_cqi_freelist (Some (b + 1)) (set_cq_items m3 s))) in
  let F' := seqZ (b + 1) (Z.of_nat 63) in
  cq_ok s' Q F' ∧ unowned b F' Q ∧ is_Some (cq_items s' !! b).
Proof using Hok H2.
  assert (∀ t q a, Q !! t = Some q → a ∈ q.*1 → a < b) as Hlt.
  { intros t q a Hq Ha. exact (ok_brk _ _ _ Hok a (ok_elem _ _ _ _ _ _ Hok Hq Ha)). }
  split_and!; [|split|].
  - apply (ok_extend s Q [] _ m3 (Some (b + 1)) (b + ITEMS_PER_ALLOC) w1 Hok block_old).
    + apply block_chain; [|lia|by rewrite lookup_insert_eq]. intros i Hi1 Hi2. by rewrite block_linked by lia.
    + apply NoDup_seqZ.
    + intros t q Hq a Ha%elem_of_seqZ Haq. pose proof (Hlt _ _ _ Hq Haq). lia.
    + exact block_brk.
  - intros Hb%elem_of_seqZ. lia.
  - intros t q Hq Hb. pose proof (Hlt _ _ _ Hq Hb). lia.
  - cbn. rewrite lookup_insert_ne by (unfold ITEMS_PER_ALLOC; lia). rewrite H2, (proj2 (Z.leb_gt _ _)) by lia. cbn [andb].
    pose proof (block_new 0 ltac:(done)) as Hb. rewrite Z.add_0_r in Hb. rewrite Hb. by eexists.
Qed.
End block.

(** An item from the free list. *)
Lemma free_item_ok s Q it F x :
  cq_ok s Q (it :: F) → cq_items s !! it = Some x →
  cqi_freelist s = Some it ∧
  cq_ok (set_cqi_freelist (cq_next x) s) Q F ∧ unowned it F Q.
Proof.
  intros Hok Hx. pose proof Hok as [O1 O2 O3 O4 O5 O6]. destruct O1 as [-> (x' & Hx' & Hc)]. simplify_eq.
  apply NoDup_cons in O2 as [Ha Hnd]. split; [done|]. split; [|split; [done|]].
  - replace (set_cqi_freelist (cq_next x) s) with
      (set_wd (wd s) (set_cq_brk (cq_brk s) (set_cqi_freelist (cq_next x) (set_cq_items (cq_items s) s)))) by by destruct s.
    eapply ok_extend; try done. intros t q Hq. specialize (O4 t q Hq). set_solver.
  - intros t q Hq. specialize (O4 t q Hq). set_solver.
Qed.

Lemma cqi_new_spec s Q F :
  cq_ok s Q F →
  wp cqi_new s (λ r s', alloc_frame s s' ∧ match r with
    | None => mallocs (en (wd s)) ≠ [] ∧ cq_ok s' Q F
    | Some it => ∃ F', cq_ok s' Q F' ∧ unowned it F' Q ∧ is_Some (cq_items s' !! it)
    end).
Proof.
  intros Hok. pose proof Hok as [O1 O2 O3 O4 O5 O6]. unfold cqi_new. apply wp_bind, wp_gets.
  destruct (cqi_freelist s) as [it|] eqn:Efl.
  - destruct F as [|a F]; [done|]. destruct O1 as [[= ->] (x & Hx & Hc)].
    apply wp_bind, (wp_get_cqi _ x); [done|]. apply wp_bind, wp_modify, wp_ret.
    destruct (free_item_ok s Q a F x Hok Hx) as (_ & Hok' & Hun). split.
    + exists (cq_items s), (cq_next x), (cq_brk s), (wd s). split; [by destruct s|done].
    + exists F. split_and!; [done|done|by eexists].
  - destruct F as [|a F]; [|by destruct O1]. apply wp_bind, wp_wio, malloc_counted_frame.
    intros ok w1 (W1 & W2 & W3 & W4). destruct ok; cbn [negb].
    2: { apply wp_ret. split; [|split].
         - exists (cq_items s), None, (cq_brk s), w1. rewrite <- Efl. split; [by destruct s|done].
         - intros E. by destruct (W4 E).
         - by split. }
    apply wp_bind, wp_gets, wp_bind, wp_modify. set (s1 := set_cq_brk _ _).
    apply wp_bind. unfold link_items. change (ITEMS_PER_ALLOC - 2) with (Z.of_nat 62).
    eapply wp_mono; [|apply link_items_spec]; [|intros i Hi; cbn; rewrite (block_new s); [by eexists|unfold ITEMS_PER_ALLOC; lia]].
    intros _ s2 (m2 & -> & H2). apply wp_bind, wp_gets. change (cqi_freelist (set_cq_items m2 s1)) with (cqi_freelist s).
    rewrite Efl. apply wp_bind, (wp_upd_cqi _ _ uninit).
    { cbn [cq_items set_cq_items]. rewrite H2, (proj2 (Z.ltb_ge _ _)), andb_false_r by (cbn; unfold ITEMS_PER_ALLOC; lia).
      by apply (block_new s). }
    apply wp_bind, wp_modify, wp_ret. split.
    + eexists _, (Some (cq_brk s + 1)), (cq_brk s + ITEMS_PER_ALLOC), w1. by split_and!.
    + exists (seqZ (cq_brk s + 1) (Z.of_nat 63)). exact (block_ok s Q m2 Hok H2 w1).
Qed.

(** ** Queue operations *)
(** A worker's record changed, its queue with it. *)
Lemma ok_set_queue s Q F (t : nat) q w' q' m' :
  cq_ok s Q F → Q !! t = Some q → queue_ok m' w' q' →
  (∀ t' w q, t ≠ t' → workers s !! t' = Some w → Q !! t' = Some q → queue_ok m' w q) →
  chain m' (cqi_freelist s) F → F ## q'.*1 →
  (∀ t' q2, t ≠ t' → Q !! t' = Some q2 → q'.*1 ## q2.*1) →
  (∀ a, is_Some (m' !! a) → a < cq_brk s) →
  cq_ok (set_workers (<[t := w']> (workers s)) (set_cq_items m' s)) (<[t := q']> Q) F.
Proof.
  intros Hok Hq Hw' Hr Hc Hd Hdq Hb. pose proof Hok as [O1 O2 O3 O4 O5 O6].
  pose proof (Forall2_length _ _ _ O3) as Hlen.
  split; cbn [cq_items workers cqi_freelist cq_brk set_workers set_cq_items]; try done.
  - apply Forall2_same_length_lookup_2; [by rewrite !length_insert|]. intros t' w q2 Hw Hq2.
    destruct (decide (t = t')) as [<-|Hne].
    + apply lookup_lt_Some in Hq as Hlt. rewrite list_lookup_insert_eq in Hq2 by done.
      rewrite list_lookup_insert_eq in Hw by lia. by simplify_eq.
    + rewrite list_lookup_insert_ne in Hw by done. rewrite list_lookup_insert_ne in Hq2 by done. by eapply Hr.
  - intros t' q2 Hq2. destruct (decide (t = t')) as [<-|Hne].
    + apply lookup_lt_Some in Hq as Hlt. rewrite list_lookup_insert_eq in Hq2 by done. by simplify_eq.
    + rewrite list_lookup_insert_ne in Hq2 by done. by eapply O4.
  - apply lookup_lt_Some in Hq as Hlt. intros t1 t2 q1 q2 Hne H1 H2.
    destruct (decide (t = t1)) as [<-|N1].
    + rewrite list_lookup_insert_eq in H1 by done. rewrite list_lookup_insert_ne in H2 by done. simplify_eq. by eapply Hdq.
    + rewrite list_lookup_insert_ne in H1 by done. destruct (decide (t = t2)) as [<-|N2].
      * rewrite list_lookup_insert_eq in H2 by done. simplify_eq. intros a Ha1 Ha2. by apply (Hdq t1 q1 ltac:(done) H1 a).
      * rewrite list_lookup_insert_ne in H2 by done. by apply (O5 t1 t2).
Qed.

(** The worker's record changed beside its queue. *)
Definition moved (s s' : system) (t : nat) : Prop :=
  ∃ m w w', workers s !! t = Some w ∧ pipe w' = pipe w ∧ parked w' = parked w ∧
    s' = set_workers (<[t := w']> (workers s)) (set_cq_items m s).

Lemma set_workers_id s (t : nat) w : workers s !! t = Some w → set_workers (<[t := w]> (workers s)) s = s.
Proof. intros Hw. rewrite list_insert_id by done. by destruct s. Qed.

(** The item behind the last one of a queue. *)
Lemma queue_snoc m w q it x r tl y :
  queue_ok m w q → last q.*1 = Some tl → it ∉ q.*1 → m !! it = Some (set_cq_next None x) → holds x r → m !! tl = Some y →
  queue_ok (<[tl := set_cq_next (Some it) y]> m) (set_q_tail (Some it) w) (q ++ [(it, r)]).
Proof.
  intros [Q1 Q2 Q3 Q4] Htl Hit Hx Hr Hy. split; [|rewrite fmap_app; symmetry; apply last_snoc|..].
  - rewrite fmap_app. eapply chain_snoc; done.
  - rewrite fmap_app. apply NoDup_app. split_and!; [done|set_solver|apply NoDup_singleton].
  - intros a r' [Ha|Ha%list_elem_of_singleton]%elem_of_app.
    + destruct (Q4 a r' Ha) as (z & Hz & Hhz). destruct (decide (a = tl)) as [->|Hne].
      * rewrite lookup_insert_eq. eexists. split; [done|]. apply holds_next. by simplify_eq.
      * rewrite lookup_insert_ne by done. eauto.
    + simplify_eq. rewrite lookup_insert_ne.
      * eexists. split; [done|]. by apply holds_next.
      * intros ->. apply Hit. by eapply last_Some_elem_of.
Qed.
Lemma queue_single m w it x r :
  m !! it = Some (set_cq_next None x) → holds x r →
  queue_ok m (set_q_tail (Some it) (set_q_head (Some it) w)) [(it, r)].
Proof.
  intros Hx Hr. split; [| done| apply NoDup_singleton|].
  - cbn. split; [done|]. by eexists.
  - intros a r' Ha%list_elem_of_singleton. simplify_eq. eexists. split; [done|]. by apply holds_next.
Qed.

(** A longer queue is still apart from the other lists. *)
Lemma push_apart s Q F t q it r :
  cq_ok s Q F → unowned it F Q → Q !! t = Some q →
  F ## (q ++ [(it, r)]).*1 ∧ ∀ t' q2, t ≠ t' → Q !! t' = Some q2 → (q ++ [(it, r)]).*1 ## q2.*1.
Proof.
  intros Hok [U1 U2] Hq. rewrite fmap_app. split.
  - pose proof (ok_apart_free _ _ _ Hok t q Hq). set_solver.
  - intros t' q2 Hne Hq2. pose proof (ok_apart _ _ _ Hok t t' q q2 Hne Hq Hq2). specialize (U2 t' q2 Hq2). set_solver.
Qed.

Lemma cq_push_spec s Q F (t : nat) q it x r :
  cq_ok s Q F → unowned it F Q → cq_items s !! it = Some x → holds x r → Q !! t = Some q →
  wp (cq_push (Z.of_nat t) it) s (λ _ s', moved s s' t ∧ cq_ok s' (<[t := q ++ [(it, r)]]> Q) F).
Proof.
  intros Hok Hun Hx Hr Hq. unfold cq_push. apply wp_bind, (wp_upd_cqi _ _ x); [done|].
  pose proof (ok_write s Q F it (set_cq_next None x) Hok Hun ltac:(by eexists)) as Hok1.
  set (m1 := <[it := set_cq_next None x]> (cq_items s)) in *. set (s1 := set_cq_items m1 s) in *.
  destruct (Forall2_lookup_r _ _ _ _ _ (ok_queues _ _ _ Hok1) Hq) as (w & Hw & Hwq).
  assert (m1 !! it = Some (set_cq_next None x)) as Hit by apply lookup_insert_eq.
  destruct (push_apart _ _ _ _ _ it r Hok Hun Hq) as [HdF Hdq].
  apply wp_bind, (wp_get_worker _ w); [done|]. apply wp_bind. pose proof (qo_tail _ _ _ Hwq) as Q2. symmetry in Q2.
  destruct (q_tail w) as [tl|] eqn:Etl.
  - (* behind the last item *)
    pose proof (last_Some_elem_of _ _ Q2) as Htl. destruct (ok_elem _ _ _ _ _ _ Hok1 Hq Htl) as [y Hy].
    cbn in Hy. apply (wp_upd_cqi _ _ y); [done|].
    eapply (wp_upd_worker _ _ w); [done|]. cbn [workers set_cq_items].
    split; [exists (<[tl := set_cq_next (Some it) y]> m1), w, (set_q_tail (Some it) w); by split_and!|].
    eapply (ok_set_queue s1 Q F t q _ _ (<[tl := set_cq_next (Some it) y]> m1) Hok1 Hq); try done.
    + eapply queue_snoc; try done. by apply (proj2 Hun t).
    + intros t' w2 q2 Hne Hw2 Hq2. apply queue_ok_insert.
      * pose proof (ok_apart _ _ _ Hok t t' q q2 Hne Hq Hq2). set_solver.
      * by eapply (Forall2_lookup_lr _ _ _ _ _ _ (ok_queues _ _ _ Hok1)).
    + apply chain_insert; [|by apply (ok_free _ _ _ Hok1)]. pose proof (ok_apart_free _ _ _ Hok t q Hq). set_solver.
    + intros a [[= <-]|[_ Ha]]%lookup_insert_is_Some; apply (ok_brk _ _ _ Hok1); [by eexists|done].
  - (* into an empty queue *)
    destruct q as [|p q]; [|rewrite fmap_cons in Q2; by apply last_None in Q2].
    apply (wp_upd_worker _ _ w); [done|]. eapply (wp_upd_worker _ _ (set_q_head (Some it) w)).
    { cbn. apply list_lookup_insert_eq. by eapply lookup_lt_Some. }
    cbn [workers set_workers]. rewrite list_insert_insert_eq.
    set (w' := set_q_tail _ _). split; [exists m1, w, w'; by split_and!|].
    change (set_workers (<[t := w']> (workers s1)) (set_workers (<[t := set_q_head (Some it) w]> (workers s1)) s1))
      with (set_workers (<[t := w']> (workers s1)) (set_cq_items m1 s1)).
    eapply (ok_set_queue s1 Q F t [] _ _ m1 Hok1 Hq); try done; [by eapply queue_single| |apply Hok1..].
    intros t' w2 q2 _ Hw2 Hq2. by eapply (Forall2_lookup_lr _ _ _ _ _ _ (ok_queues _ _ _ Hok1)).
Qed.

Lemma cq_pop_spec s Q F (t : nat) q :
  cq_ok s Q F → Q !! t = Some q →
  wp (cq_pop (Z.of_nat t)) s (λ r s', match q with
    | [] => r = None ∧ s' = s
    | (a, rq) :: q' => r = Some a ∧ moved s s' t ∧ cq_ok s' (<[t := q']> Q) F ∧ unowned a F (<[t := q']> Q) ∧
        ∃ x, cq_items s' !! a = Some x ∧ holds x rq
    end).
Proof.
  intros Hok Hq. unfold cq_pop.
  destruct (Forall2_lookup_r _ _ _ _ _ (ok_queues _ _ _ Hok) Hq) as (w & Hw & [Q1 Q2 Q3 Q4]).
  apply wp_bind, (wp_get_worker _ w); [done|]. destruct q as [|[a rq] q].
  { cbn in Q1. rewrite Q1. by apply wp_ret. }
  cbn in Q1. destruct Q1 as [-> (x & Hx & Hc)]. apply NoDup_cons in Q3 as [Ha Hnd]. fold (q.*1) in Ha, Hnd.
  apply wp_bind, (wp_get_cqi _ x); [done|]. apply wp_bind, (wp_upd_worker _ _ w); [done|].
  set (w' := if bool_decide (cq_next x = None) then set_q_tail None (set_q_head (cq_next x) w) else set_q_head (cq_next x) w).
  apply wp_bind. eapply (wp_eq _ _ tt (set_workers (<[t := w']> (workers s)) s)).
  { unfold w'. destruct (bool_decide (cq_next x = None)); [|done]. cbn [when]. apply lookup_lt_Some in Hw as Hlt.
    unfold upd_worker, get_worker, mbind, M_bind. rewrite (proj2 (Z.ltb_ge _ _)) by lia. rewrite Nat2Z.id.
    cbn [workers set_workers]. rewrite list_lookup_insert_eq by done. unfold modify. cbn [workers set_workers].
    by rewrite list_insert_insert_eq. }
  apply wp_ret. split; [done|]. split.
  { exists (cq_items s), w, w'. split_and!; [done|..]; unfold w'; [by destruct (bool_decide _)|by destruct (bool_decide _)|by destruct s]. }
  assert (queue_ok (cq_items s) w' q) as Hq'.
  { split; [| |done|intros b r Hb; apply Q4; set_solver].
    - unfold w'. by destruct (bool_decide _).
    - unfold w'. destruct q as [|[b r] q].
      + cbn in Hc. rewrite Hc. by rewrite bool_decide_eq_true_2.
      + destruct Hc as [Hc _]. rewrite Hc, bool_decide_eq_false_2 by done. cbn. rewrite Q2.
        rewrite !fmap_cons. by rewrite last_cons_cons. }
  split_and!; [|split|].
  - replace (set_workers _ s) with (set_workers (<[t := w']> (workers s)) (set_cq_items (cq_items s) s)) by by destruct s.
    eapply (ok_set_queue s Q F t _ w' q _ Hok Hq); try done.
    + intros t' w2 q2 _ Hw2 Hq2. by eapply (Forall2_lookup_lr _ _ _ _ _ _ (ok_queues _ _ _ Hok)).
    + apply Hok.
    + pose proof (ok_apart_free _ _ _ Hok t _ Hq). set_solver.
    + intros t' q2 Hne Hq2. pose proof (ok_apart _ _ _ Hok t t' _ q2 Hne Hq Hq2). set_solver.
    + apply Hok.
  - pose proof (ok_apart_free _ _ _ Hok t _ Hq). set_solver.
  - intros t' q2 Hq2. destruct (decide (t = t')) as [<-|Hne].
    + apply lookup_lt_Some in Hq as Hlt. rewrite list_lookup_insert_eq in Hq2 by done. by simplify_eq.
    + rewrite list_lookup_insert_ne in Hq2 by done. pose proof (ok_apart _ _ _ Hok t t' _ q2 Hne Hq Hq2). set_solver.
  - exists x. split; [done|]. destruct (Q4 a rq ltac:(set_solver)) as (y & Hy & Hr). by simplify_eq.
Qed.

Lemma cqi_free_spec s Q F a :
  cq_ok s Q F → unowned a F Q → is_Some (cq_items s !! a) →
  wp (cqi_free a) s (λ _ s', (∃ m, s' = set_cqi_freelist (Some a) (set_cq_items m s)) ∧ cq_ok s' Q (a :: F)).
Proof.
  intros Hok Hun [x Hx]. unfold cqi_free. apply wp_bind, wp_gets, wp_bind, (wp_upd_cqi _ _ x); [done|].
  pose proof (ok_write s Q F a (set_cq_next (cqi_freelist s) x) Hok Hun ltac:(by eexists)) as Hok1.
  destruct Hun as [U1 U2]. apply wp_modify. split; [by eexists|]. pose proof Hok1 as [O1 O2 O3 O4 O5 O6]. split; try done.
  - cbn [chain]. split; [done|]. cbn [cq_items set_cqi_freelist set_cq_items]. rewrite lookup_insert_eq. by eexists.
  - by apply NoDup_cons.
  - intros t q Hq. specialize (O4 t q Hq). specialize (U2 t q Hq). set_solver.
Qed.

(** Notifications do not touch the queues. *)
Lemma ok_set_pipe s Q F (t : nat) w l :
  workers s !! t = Some w → cq_ok s Q F → cq_ok (set_workers (<[t := set_pipe l w]> (workers s)) s) Q F.
Proof.
  intros Hw [O1 O2 O3 O4 O5 O6]. split; try done. cbn.
  destruct (Forall2_lookup_l _ _ _ _ _ O3 Hw) as (q & Hq & [Q1 Q2 Q3 Q4]).
  rewrite <- (list_insert_id Q t q Hq). apply Forall2_insert; [done|by split].
Qed.

Lemma notify_spec s (t : nat) n w (P : unit → system → Prop) :
  workers s !! t = Some w → P tt (set_workers (<[t := set_pipe (pipe w ++ [n]) w]> (workers s)) s) →
  wp (notify (Z.of_nat t) n) s P.
Proof. intros Hw HP. unfold notify. by apply (wp_upd_worker _ _ w). Qed.

(** ** The number of threads does not change *)
Definition nthreads (w : world) : Z := num_threads (cfg (kv w)).
Definition cache_threads (s : cache) : Z := num_threads (cfg s).

Lemma frame_srv {A} (m : server A) : frame cache_threads m → frame nthreads (srv m).
Proof. by apply frame_zoom. Qed.
Lemma frame_get_meta p : frame cache_threads (get_meta p).
Proof. intros s a s'. unfold get_meta. destruct (_ !! _); [|done]. by intros [= <- <-]. Qed.
Lemma frame_upd_meta p f : frame cache_threads (upd_meta p f).
Proof. intros s a s'. unfold upd_meta. destruct (_ !! _); [|done]. by intros [= <- <-]. Qed.
Lemma frame_state_add k d : frame cache_threads (state_add k d).
Proof. by apply frame_modify. Qed.
Lemma frame_stats_add k d : frame cache_threads (stats_add k d).
Proof. by apply frame_modify. Qed.
Lemma frame_thread_add k d : frame cache_threads (thread_add k d).
Proof. by apply frame_modify. Qed.
#[local] Hint Resolve frame_get_meta frame_upd_meta frame_state_add frame_stats_add frame_thread_add : frames.
Lemma frame_item_remove it : frame cache_threads (item_remove it).
Proof.
  unfold item_remove, item_hv, do_item_remove, refcount_decr, item_free, freelist_free, do_freelist_free. frame_tac.
Qed.
Lemma frame_malloc : frame nthreads malloc_ok.
Proof. intros w a w'. unfold malloc_ok. destruct (mallocs (en w)); by intros [= <- <-]. Qed.
Lemma frame_event : frame nthreads event_ok.
Proof. intros w a w'. unfold event_ok. destruct (ev_ops (en w)); by intros [= <- <-]. Qed.
Lemma frame_get_ilist i : frame nthreads (get_ilist i).
Proof. intros w a w'. unfold get_ilist. destruct (_ && _); [|done]. destruct (_ !! _); [|done]. by intros [= <- <-]. Qed.
Lemma frame_get_suffix i : frame nthreads (get_suffix i).
Proof. intros w a w'. unfold get_suffix. destruct (_ && _); [|done]. destruct (_ !! _); [|done]. by intros [= <- <-]. Qed.
Lemma frame_sfx {A} (m : M pool A) : frame nthreads (zoom sfx set_sfx m).
Proof. by apply frame_zoom_out. Qed.
#[local] Hint Resolve frame_srv frame_item_remove frame_malloc frame_event frame_get_ilist frame_get_suffix frame_sfx : frames.

Lemma frame_conn_cleanup : frame nthreads conn_cleanup.
Proof.
  unfold conn_cleanup, conn_release_items, release_citem. unfold conn_, on_nr, on_wr, on_core, on_il, upd_cn, conn_set_state. frame_tac.
  - apply frame_loop. intros x. unfold release_item. unfold conn_, on_il, upd_cn. frame_tac.
  - apply frame_loop. intros x. unfold release_suffix, suffix_free, conn_, on_il, upd_cn. frame_tac.
  - unfold on_core, upd_cn. frame_tac.
Qed.
#[local] Hint Resolve frame_conn_cleanup : frames.

Lemma frame_step_closing : frame nthreads step_closing.
Proof. unfold step_closing, conn_close, conn_, conn_set_state, on_core, on_en, upd_cn, stop. frame_tac. Qed.

Lemma loop_first_fault {S X R} n (body : X → M S (X + R)) x s e : body x s = Fault e → loop n body x s = Fault e.
Proof.
  intros Hb. assert (iterate n body x s = Fault e) as Hi.
  { induction n as [|n IH]; cbn [iterate]; [done|]. by rewrite (bind_Fault _ _ _ _ IH). }
  unfold loop. by rewrite (bind_Fault _ _ _ _ Hi).
Qed.

(** A connection that is closing is closed in the first turn. *)
Lemma frame_drive_closing `{background} `{sasl_lib} inp w a w' :
  state (core (cn w)) = conn_closing → drive_machine inp w = Ok (a, w') → nthreads w' = nthreads w.
Proof.
  intros Hst. unfold drive_machine. rewrite (bind_Ok _ _ _ _ _ (eq_refl : gets _ w = Ok (_, w))).
  set (n := reqs_per_event _). assert (drive_body inp n w = step_closing w) as Hb.
  { unfold drive_body. rewrite (bind_Ok _ _ _ _ _ (eq_refl : conn_ w = Ok (cn w, w))). by rewrite Hst. }
  destruct (step_closing w) as [[r w1]|e] eqn:E.
  - assert (∃ v, r = inr v) as [v ->].
    { apply bind_inv in E as (c & w2 & _ & E). apply bind_inv in E as ([] & w3 & _ & E). injection E as <- _. by eexists. }
    rewrite (loop_first _ _ _ _ _ _ Hb). intros [= <- <-]. by apply (frame_step_closing _ _ _ E).
  - by rewrite (loop_first_fault _ _ _ _ _ Hb).
Qed.

Lemma frame_with_conn {A} fd (m : io A) : frame nthreads m → frame nthreads (with_conn fd m).
Proof. intros Hm. unfold with_conn, upd_cn. frame_tac. Qed.

Lemma frame_close_idle `{background} `{sasl_lib} inp : frame nthreads (conn_close_idle inp).
Proof.
  assert (frame nthreads (_ ← conn_set_state conn_closing; drive_machine inp)) as Hd.
  { intros w a w' ([] & w1 & E1 & E)%bind_inv. unfold conn_set_state, on_core, upd_cn in E1. cbn in E1. injection E1 as <-.
    by apply frame_drive_closing in E. }
  unfold conn_close_idle, conn_. repeat (apply frame_bind; [apply frame_gets|intros ?]).
  apply frame_if; [apply frame_if|apply frame_ret]; [apply frame_ret|]. apply frame_bind; [frame_tac|done].
Qed.

Lemma frame_conn_new fd st fl rbs tr binding socketpath :
  frame nthreads (conn_new fd st fl rbs tr binding socketpath).
Proof.
  unfold conn_new, malloc_counted, conn_buffers, on_en. frame_tac.
Qed.
Lemma frame_worker_readd : frame nthreads conn_worker_readd.
Proof. unfold conn_worker_readd, on_core, upd_cn. frame_tac. Qed.

(** ** The hand-over *)
Definition conn_notices (l : list notice) : list notice := filter (λ n, n = NewConn ∨ n = Readd) l.
Definition pauses (l : list notice) : nat := length (filter (λ n, n = Pause) l).

(** The queues, and in every pipe one notification per queued item, of the
    right kind and in the order of the queue. *)
Record hand_ok (s : system) (Q : list cqueue) (F : list Z) : Prop := {
  ho_cq : cq_ok s Q F;
  ho_aligned : Forall2 (λ w q, conn_notices (pipe w) = kind <$> q.*2) (workers s) Q;
  ho_threads : nthreads (wd s) = Z.of_nat (length (workers s));
  ho_some : (0 < length (workers s))%nat;
  ho_last : -1 ≤ last_thread s < Z.of_nat (length (workers s));
  ho_owners : ∀ fd t, conn_thread s !! fd = Some t → 0 ≤ t < Z.of_nat (length (workers s))
}.

(** What concerns pausing is as before. *)
Definition same_waiting (w w' : worker) : Prop := parked w' = parked w ∧ pauses (pipe w') = pauses (pipe w).
#[global] Instance same_waiting_preorder : PreOrder same_waiting.
Proof. split; [done|]. intros w1 w2 w3 [A1 A2] [B1 B2]. split; congruence. Qed.
Record same_pausing (s s' : system) : Prop := {
  sp_lock : worker_hang_lock s' = worker_hang_lock s;
  sp_count : init_count s' = init_count s;
  sp_workers : Forall2 same_waiting (workers s) (workers s');
  sp_threads : nthreads (wd s') = nthreads (wd s)
}.
#[global] Instance same_pausing_preorder : PreOrder same_pausing.
Proof.
  split; [by split|]. intros s1 s2 s3 [A1 A2 A3 A4] [B1 B2 B3 B4]. split; try congruence. by etrans.
Qed.
Lemma same_pausing_workers s (t : nat) w w' s' :
  workers s !! t = Some w → parked w' = parked w → pauses (pipe w') = pauses (pipe w) →
  worker_hang_lock s' = worker_hang_lock s → init_count s' = init_count s → nthreads (wd s') = nthreads (wd s) →
  workers s' = <[t := w']> (workers s) → same_pausing s s'.
Proof.
  intros Hw Hp Hn H1 H2 H3 H4. split; try done. rewrite H4. rewrite <- (list_insert_id (workers s) t w Hw) at 1.
  by apply Forall2_insert.
Qed.
Lemma moved_pausing s s' t : moved s s' t → same_pausing s s'.
Proof. intros (m & w & w' & Hw & Hpi & Hpa & ->). eapply (same_pausing_workers s t w w'); try done. by rewrite Hpi. Qed.
Lemma alloc_pausing s s' : alloc_frame s s' → same_pausing s s'.
Proof.
  intros (m & fl & b & w & -> & _ & Hc & _). split; try done.
  unfold nthreads. cbn. by rewrite Hc.
Qed.

Lemma pauses_app l n : n ≠ Pause → pauses (l ++ [n]) = pauses l.
Proof. intros Hn. unfold pauses. rewrite filter_app, filter_cons_False, filter_nil, app_nil_r; done. Qed.
Lemma conn_notices_snoc l n : n = NewConn ∨ n = Readd → conn_notices (l ++ [n]) = conn_notices l ++ [n].
Proof. intros Hn. unfold conn_notices. by rewrite filter_app, filter_cons_True, filter_nil. Qed.
Lemma conn_notices_other l n : n ≠ NewConn → n ≠ Readd → conn_notices (l ++ [n]) = conn_notices l.
Proof. intros H1 H2. unfold conn_notices. rewrite filter_app, filter_cons_False, filter_nil, app_nil_r; naive_solver. Qed.

Lemma aligned_insert (ws : list worker) (Q : list cqueue) (t : nat) w w' (q' : cqueue) :
  Forall2 (λ w q, conn_notices (pipe w) = kind <$> q.*2) ws Q → ws !! t = Some w →
  conn_notices (pipe w') = kind <$> q'.*2 →
  Forall2 (λ w q, conn_notices (pipe w) = kind <$> q.*2) (<[t := w']> ws) (<[t := q']> Q).
Proof. intros HQ Hw Hw'. by apply Forall2_insert. Qed.

(** A filled item is pushed and announced. *)
Lemma give_spec s Q F (t : nat) q it x r :
  hand_ok s Q F → unowned it F Q → cq_items s !! it = Some x → holds x r → Q !! t = Some q →
  wp (cq_push (Z.of_nat t) it) s (λ _ s1, wp (notify (Z.of_nat t) (kind r)) s1 (λ _ s',
    hand_ok s' (<[t := q ++ [(it, r)]]> Q) F ∧ same_pausing s s' ∧ last_thread s' = last_thread s ∧ wd s' = wd s)).
Proof.
  intros [H1 H2 H3 H4 H5 H6] Hun Hx Hr Hq. eapply wp_mono; [|by eapply (cq_push_spec s Q F t q it x r)].
  intros _ s1 (Hmv & Hok1). pose proof (moved_pausing _ _ _ Hmv) as Hsp.
  destruct Hmv as (m & w & w' & Hw & Hpi & Hpa & ->). apply lookup_lt_Some in Hw as Hlt.
  set (s1 := set_workers _ _) in *.
  assert (workers s1 !! t = Some w') as Hw' by (cbn; by apply list_lookup_insert_eq).
  apply (notify_spec _ _ _ w' _ Hw'). set (w2 := set_pipe _ w').
  pose proof (Forall2_lookup_lr _ _ _ _ _ _ H2 Hw Hq) as Hal. cbn in Hal.
  assert (kind r ≠ Pause ∧ (kind r = NewConn ∨ kind r = Readd)) as [Hk1 Hk2] by (destruct r; naive_solver).
  split_and!; try done.
  - assert (length (workers s1) = length (workers s)) as Hl by (cbn; by rewrite length_insert).
    split; cbn [workers set_workers wd]; rewrite ?length_insert, ?Hl; try done.
    + by apply ok_set_pipe.
    + cbn. rewrite list_insert_insert_eq. eapply aligned_insert; [done|done|].
      cbn. rewrite conn_notices_snoc by done. rewrite Hpi, Hal, !fmap_app. done.
  - etrans; [exact Hsp|]. eapply (same_pausing_workers s1 t w' w2); try done. cbn. by apply pauses_app.
Qed.

(** The invariant only looks at parts of the state. *)
Lemma hand_ok_parts s s' Q F :
  hand_ok s Q F → cq_ok s' Q F → workers s' = workers s → nthreads (wd s') = nthreads (wd s) →
  -1 ≤ last_thread s' < Z.of_nat (length (workers s)) → conn_thread s' = conn_thread s → hand_ok s' Q F.
Proof. intros [H1 H2 H3 H4 H5 H6] E1 E2 E3 E4 E5. split; rewrite ?E2, ?E3; try done. by rewrite E5. Qed.
Lemma ok_parts s s' Q F :
  cq_ok s Q F → cq_items s' = cq_items s → cqi_freelist s' = cqi_freelist s → cq_brk s' = cq_brk s → workers s' = workers s →
  cq_ok s' Q F.
Proof. intros [O1 O2 O3 O4 O5 O6] E1 E2 E3 E4. split; rewrite ?E1, ?E2, ?E3, ?E4; done. Qed.

Definition enqueued (Q : list cqueue) (t : nat) (r : request) (Q' : list cqueue) : Prop :=
  ∃ q a, Q !! t = Some q ∧ Q' = <[t := q ++ [(a, r)]]> Q.

Lemma hand_ok_alloc s s' Q F F' : hand_ok s Q F → alloc_frame s s' → cq_ok s' Q F' → hand_ok s' Q F'.
Proof.
  intros [H1 H2 H3 H4 H5 H6] (m & fl & b & w & -> & _ & Hc & _) Hok. split; try done.
  cbn. unfold nthreads in *. by rewrite Hc.
Qed.
(** The item between its allocation and the queue. *)
Lemma hand_ok_write s Q F a x :
  hand_ok s Q F → unowned a F Q → is_Some (cq_items s !! a) → hand_ok (set_cq_items (<[a := x]> (cq_items s)) s) Q F.
Proof. intros Hh Hun Ha. apply (hand_ok_parts s); try done; [|apply Hh]. apply ok_write; [apply Hh|done|done]. Qed.

Lemma queue_of s Q F (t : nat) : hand_ok s Q F → (t < length (workers s))%nat → ∃ q, Q !! t = Some q.
Proof.
  intros Hh Ht. apply lookup_lt_is_Some. by rewrite <- (Forall2_length _ _ _ (ok_queues _ _ _ (ho_cq _ _ _ Hh))).
Qed.

(** A new connection goes to the next worker in turn, or is closed when there
    is no memory for the item. *)
Lemma dispatch_spec s Q F sfd st fl rbs tr :
  hand_ok s Q F →
  wp (dispatch_conn_new sfd st fl rbs tr) s (λ _ s', same_pausing s s' ∧ ∃ Q' F', hand_ok s' Q' F' ∧
    ((mallocs (en (wd s)) ≠ [] ∧ Q' = Q ∧ last_thread s' = last_thread s ∧ closed_fds s' = sfd :: closed_fds s) ∨
     ∃ t, enqueued Q t (RNew sfd st fl rbs tr) Q' ∧ last_thread s' = Z.of_nat t ∧
       Z.of_nat t = (last_thread s + 1) mod nthreads (wd s))).
Proof.
  intros Hh. unfold dispatch_conn_new, dispatch_push. do 2 apply wp_bind.
  eapply wp_mono; [|by apply (cqi_new_spec s Q F), Hh]. intros r s1 (Haf & Hr).
  pose proof (alloc_pausing _ _ Haf) as Hsp. pose proof Hh as [_ _ Hn Hpos Hl _].
  assert (last_thread s1 = last_thread s ∧ closed_fds s1 = closed_fds s) as [El Ec]
    by (destruct Haf as (m & f & b & w & -> & _); done).
  destruct r as [it|].
  - destruct Hr as (F' & Hok1 & Hun & [x Hx]). pose proof (hand_ok_alloc _ _ _ _ _ Hh Haf Hok1) as Hh1.
    apply wp_bind, wp_gets. cbn [id]. fold (nthreads (wd s1)). rewrite El, (sp_threads _ _ Hsp).
    set (n := nthreads (wd s)) in *.
    pose proof (Z.mod_pos_bound (last_thread s + 1) n ltac:(lia)) as Hm.
    rewrite Z.rem_mod_nonneg by lia. set (t := Z.to_nat ((last_thread s + 1) mod n)).
    replace ((last_thread s + 1) mod n) with (Z.of_nat t) by lia.
    assert (length (workers s1) = length (workers s)) as Hlen by (destruct Haf as (m & f & b & w & -> & _); done).
    destruct (queue_of s1 Q F' t Hh1) as [q Hq]; [lia|].
    apply wp_bind, wp_modify, wp_bind, (wp_upd_cqi _ _ x); [done|]. apply wp_bind.
    set (s2 := set_last_thread (Z.of_nat t) s1).
    assert (hand_ok s2 Q F') as Hh2.
    { apply (hand_ok_parts s1); try done; [by eapply ok_parts|cbn; lia]. }
    pose proof (hand_ok_write s2 Q F' it (fill_new sfd st fl rbs tr x) Hh2 Hun ltac:(by eexists)) as Hh3.
    eapply wp_mono; [|eapply (give_spec _ Q F' t q it _ (RNew sfd st fl rbs tr) Hh3 Hun)];
      [|apply lookup_insert_eq|done|done].
    intros [] s4 H4. apply wp_ret. eapply wp_mono; [|exact H4]. intros _ s5 (Hh5 & Hsp5 & El5 & _).
    split; [etrans; [exact Hsp|]; etrans; [|exact Hsp5]; by split|].
    eexists _, F'. split; [exact Hh5|]. right. exists t. split; [by exists q, it|]. split; [done|lia].
  - destruct Hr as [Hm Hok1]. unfold close_fd. apply wp_bind, wp_modify, wp_ret, wp_ret.
    pose proof (hand_ok_alloc _ _ _ _ _ Hh Haf Hok1) as Hh1.
    split; [etrans; [exact Hsp|]; by split|]. exists Q, F. split.
    + apply (hand_ok_parts s1); try done; [by eapply ok_parts|apply Hh1].
    + left. cbn. rewrite El, Ec. done.
Qed.

Lemma wp_inv {S A} (m : M S A) s (P : A → S → Prop) a s' : wp m s P → m s = Ok (a, s') → P a s'.
Proof. intros (a1 & s1 & E1 & HP) E. rewrite E1 in E. by simplify_eq. Qed.

(** A borrowed connection goes back to its own worker. *)
Lemma redispatch_spec s Q F fd :
  hand_ok s Q F →
  yields (λ _, conns (en (wd s)) !! fd = None ∨ conn_thread s !! fd = None) (redispatch_conn fd) s (λ _ s',
    same_pausing s s' ∧ last_thread s' = last_thread s ∧ ∃ Q' F', hand_ok s' Q' F' ∧
    (Q' = Q ∧ mallocs (en (wd s)) ≠ [] ∨ ∃ t, conn_thread s !! fd = Some (Z.of_nat t) ∧ enqueued Q t (RReadd fd) Q')).
Proof.
  set (E := λ _ : fault, _). intros Hh. unfold redispatch_conn, redispatch_push. do 2 apply yields_bind.
  eapply yields_mono; [|apply yields_wp, (cqi_new_spec s Q F (ho_cq _ _ _ Hh))]. intros r s1 (Haf & Hr).
  pose proof (alloc_pausing _ _ Haf) as Hsp. apply yields_bind, yields_gets.
  assert (last_thread s1 = last_thread s ∧ conns (en (wd s1)) = conns (en (wd s)) ∧ conn_thread s1 = conn_thread s ∧
    workers s1 = workers s) as (El & Ec & Et & Ew) by (destruct Haf as (m & f & b & w & -> & _ & _ & ?); done).
  destruct (conns (en (wd s1)) !! fd) as [c|] eqn:Hc; [|apply yields_fail; left; congruence]. destruct r as [it|].
  - destruct Hr as (F' & Hok1 & Hun & [x Hx]). pose proof (hand_ok_alloc _ _ _ _ _ Hh Haf Hok1) as Hh1.
    apply yields_bind, yields_gets. rewrite Et.
    destruct (conn_thread s !! fd) as [t|] eqn:Hth; [|apply yields_fail; by right].
    pose proof (ho_owners _ _ _ Hh _ _ Hth) as Hrange. assert (∃ k, t = Z.of_nat k) as [k ->] by (exists (Z.to_nat t); lia).
    destruct (queue_of s1 Q F' k Hh1) as [q Hq]; [rewrite Ew; lia|].
    pose proof (hand_ok_write s1 Q F' it (fill_readd (sfd (core c)) fd x) Hh1 Hun ltac:(by eexists)) as Hh3.
    apply yields_bind, yields_wp, (wp_upd_cqi _ _ x); [done|]. apply yields_bind.
    eapply yields_mono; [|apply yields_wp, (give_spec _ Q F' k q it _ (RReadd fd) Hh3 Hun (lookup_insert_eq _ _ _) ltac:(done) Hq)].
    intros [] s4 H4. apply yields_ret, yields_wp. eapply wp_mono; [|exact H4]. intros _ s5 (Hh5 & Hsp5 & El5 & _).
    split; [etrans; [exact Hsp|]; etrans; [|exact Hsp5]; by split|]. split; [by rewrite El5|].
    eexists _, F'. split; [exact Hh5|]. right. exists k. split; [done|]. by exists q, it.
  - destruct Hr as [Hm Hok1]. pose proof (hand_ok_alloc _ _ _ _ _ Hh Haf Hok1) as Hh1.
    unfold yields, wio, zoom, with_conn, close_fd, on_core, upd_cn, mbind, M_bind, gets, modify. rewrite Hc. cbn.
    split; [etrans; [exact Hsp|]; by split|]. split; [done|]. exists Q, F. split; [|by left].
    apply (hand_ok_parts s1); try done; [by eapply ok_parts|apply Hh1].
Qed.
Lemma redispatch_inv s Q F fd s' :
  hand_ok s Q F → redispatch_conn fd s = Ok (tt, s') →
  same_pausing s s' ∧ last_thread s' = last_thread s ∧ ∃ Q' F', hand_ok s' Q' F' ∧
    (Q' = Q ∧ mallocs (en (wd s)) ≠ [] ∨ ∃ t, conn_thread s !! fd = Some (Z.of_nat t) ∧ enqueued Q t (RReadd fd) Q').
Proof. intros Hh E. exact (yields_inv _ _ _ _ _ _ (redispatch_spec s Q F fd Hh) E). Qed.

(** The worker reads a notification and takes the item it announces. *)
Lemma take_spec s Q F (k : nat) w n l :
  hand_ok s Q F → workers s !! k = Some w → pipe w = n :: l → n = NewConn ∨ n = Readd →
  let s1 := set_workers (<[k := set_pipe l w]> (workers s)) s in
  ∃ a r q, Q !! k = Some ((a, r) :: q) ∧ kind r = n ∧
  wp (cq_pop (Z.of_nat k)) s1 (λ it s2, it = Some a ∧ hand_ok s2 (<[k := q]> Q) F ∧ unowned a F (<[k := q]> Q) ∧
    same_pausing s s2 ∧ wd s2 = wd s ∧ last_thread s2 = last_thread s ∧ length (workers s2) = length (workers s) ∧
    ∃ x, cq_items s2 !! a = Some x ∧ holds x r).
Proof.
  intros [H1 H2 H3 H4 H5 H6] Hw Hp Hn s1. destruct (Forall2_lookup_l _ _ _ _ _ H2 Hw) as (q0 & Hq & Hal). cbn in Hal.
  rewrite Hp in Hal. unfold conn_notices in Hal. rewrite filter_cons_True in Hal by done.
  destruct q0 as [|[a r] q]; [done|]. rewrite !fmap_cons in Hal. cbn in Hal. injection Hal as Hk Hal.
  exists a, r, q. split; [done|]. split; [done|].
  apply lookup_lt_Some in Hw as Hlt.
  assert (workers s1 !! k = Some (set_pipe l w)) as Hw1 by (cbn; by apply list_lookup_insert_eq).
  pose proof (ok_set_pipe s Q F k w l Hw H1) as Hok1. fold s1 in Hok1.
  eapply wp_mono; [|exact (cq_pop_spec s1 Q F k _ Hok1 Hq)].
  intros it s2 (-> & Hmv & Hok2 & Hun & Hx). split; [done|].
  pose proof (moved_pausing _ _ _ Hmv) as Hsp. destruct Hmv as (m & w1 & w' & Hw1' & Hpi & Hpa & ->).
  assert (w1 = set_pipe l w) as -> by congruence.
  assert (workers (set_workers (<[k:=w']> (workers s1)) (set_cq_items m s1)) = <[k := w']> (workers s)) as Ew
    by (cbn; by rewrite list_insert_insert_eq).
  split_and!; try done.
  - split; try done; rewrite ?Ew, ?length_insert; try done. eapply aligned_insert; [done|done|].
    rewrite Hpi. exact Hal.
  - eapply (same_pausing_workers s k w w'); try done. rewrite Hpi. cbn. rewrite Hp. unfold pauses.
    rewrite filter_cons_False by (destruct Hn; subst; done). done.
  - by rewrite Ew, length_insert.
Qed.

(** Reporting in reads the announcement of the pause. *)
Lemma hand_ok_park s Q F (k : nat) w l :
  hand_ok s Q F → workers s !! k = Some w → pipe w = Pause :: l →
  hand_ok (set_workers (<[k := set_parked true (set_pipe l w)]> (workers s)) (set_init_count (init_count s + 1) s)) Q F.
Proof.
  intros [H1 H2 H3 H4 H5 H6] Hw Hp. split; cbn; rewrite ?length_insert; try done.
  - pose proof (ok_set_pipe s Q F k w l Hw H1) as [O1 O2 O3 O4 O5 O6]. split; try done.
    cbn in *. destruct (Forall2_lookup_l _ _ _ _ _ (ok_queues _ _ _ H1) Hw) as (q & Hq & [Q1 Q2 Q3 Q4]).
    rewrite <- (list_insert_id Q k q Hq). apply Forall2_insert; [apply H1|by split].
  - destruct (Forall2_lookup_l _ _ _ _ _ H2 Hw) as (q & Hq & Hal). rewrite <- (list_insert_id Q k q Hq).
    eapply aligned_insert; try done. cbn. by rewrite <- Hal, Hp.
Qed.

Section serving.
Context `{background} `{sasl_lib} (inp : stat_inputs) (binding : protocol) (socketpath : bool).

(** What the worker does with a request. *)
Definition served (r : request) (w w' : world) : Prop :=
  match r with
  | RNew sfd st fl rbs tr => ∃ c, conn_new sfd st fl rbs tr binding socketpath w = Ok (c, w')
  | RReadd fd => with_conn fd conn_worker_readd w = Ok (tt, w')
  end.

Lemma served_threads r w w' : served r w w' → nthreads w' = nthreads w.
Proof.
  destruct r; cbn.
  - intros [c E]. by apply frame_conn_new in E.
  - intros E. apply frame_with_conn in E; [done|apply frame_worker_readd].
Qed.

(** After the request is served its item is free again. *)
Lemma release_spec s1 s2 s' Q F a x r w' ct cl :
  hand_ok s2 Q F → unowned a F Q → cq_items s2 !! a = Some x → same_pausing s1 s2 → served r (wd s2) w' →
  (∀ fd t, ct !! fd = Some t → 0 ≤ t < Z.of_nat (length (workers s2))) →
  cqi_free a (set_closed_fds cl (set_conn_thread ct (set_wd w' s2))) = Ok (tt, s') →
  same_pausing s1 s' ∧ last_thread s' = last_thread s2 ∧ hand_ok s' Q (a :: F) ∧ wd s' = w'.
Proof.
  intros Hh Hun Hx Hsp Hserved Hct E. pose proof (served_threads _ _ _ Hserved) as Hnt.
  set (s3 := set_closed_fds cl _) in E.
  assert (cq_ok s3 Q F) as Hok3 by (eapply (ok_parts s2); try done; apply Hh).
  pose proof (wp_inv _ _ _ _ _ (cqi_free_spec s3 Q F a Hok3 Hun ltac:(by eexists)) E) as [[m ->] Hok4].
  destruct Hh as [H1 H2 H3 H4 H5 H6]. split_and!; try done.
  - etrans; [exact Hsp|]. by split.
  - split; try done. change (nthreads w' = Z.of_nat (length (workers s2))). by rewrite Hnt.
Qed.

(** A worker that has read the notice of a new connection. *)
Lemma serve_new_inv s Q F (k : nat) w l s' :
  hand_ok s Q F → workers s !! k = Some w → pipe w = NewConn :: l →
  serve_new binding socketpath (Z.of_nat k) (set_workers (<[k := set_pipe l w]> (workers s)) s) = Ok (tt, s') →
  last_thread s' = last_thread s ∧ same_pausing s s' ∧ ∃ a r q F',
    kind r = NewConn ∧ Q !! k = Some ((a, r) :: q) ∧ hand_ok s' (<[k := q]> Q) F' ∧ served r (wd s) (wd s').
Proof.
  intros Hh Hw Ep E. apply lookup_lt_Some in Hw as Hlt.
  destruct (take_spec s Q F k w NewConn l Hh Hw Ep ltac:(by left)) as (a & r & q & Hq & Hk & it & s2 & Epop & -> & Hh2 & Hun & Hsp & Ewd & El & Elen & x & Hx & Hr).
  unfold serve_new in E. rewrite (bind_Ok _ _ _ _ _ Epop) in E.
  assert (get_cqi a s2 = Ok (x, s2)) as Ex by (unfold get_cqi; by rewrite Hx).
  rewrite (bind_Ok _ _ _ _ _ Ex) in E. destruct r as [sf st fl rbs tr|]; [|done]. destruct Hr as (R1 & R2 & R3 & R4 & R5).
  rewrite R1, R2, R3, R4, R5 in E.
  apply bind_inv in E as (c & s3 & Ec & E). unfold wio, zoom in Ec.
  destruct (conn_new sf st fl rbs tr binding socketpath (wd s2)) as [[c' w']|] eqn:En; [|done]. injection Ec as -> <-.
  assert (∃ ct cl, (∀ fd t, ct !! fd = Some t → 0 ≤ t < Z.of_nat (length (workers s2))) ∧
    cqi_free a (set_closed_fds cl (set_conn_thread ct (set_wd w' s2))) = Ok (tt, s')) as (ct & cl & Hct & Ef).
  { pose proof (ho_owners _ _ _ Hh2) as Ho. apply bind_inv in E as ([] & s4 & Em & Ef). destruct c as [c|].
    - injection Em as <-. exists (<[sf := Z.of_nat k]> (conn_thread s2)), (closed_fds s2). split; [|by destruct s2].
      intros fd t [[<- <-]|[_ Ht]]%lookup_insert_Some; [lia|by eapply Ho].
    - destruct (bool_decide _); [done|]. injection Em as <-. exists (conn_thread s2), (sf :: closed_fds s2).
      split; [exact Ho|by destruct s2]. }
  destruct (release_spec s s2 s' _ F a x (RNew sf st fl rbs tr) w' ct cl Hh2 Hun Hx Hsp ltac:(by eexists) Hct Ef) as (A & B & C & D).
  split; [by rewrite B|]. split; [done|].
  exists a, (RNew sf st fl rbs tr), q, (a :: F). split_and!; try done. exists c. by rewrite D, <- Ewd.
Qed.

(** A worker that has read the notice of a connection given back. *)
Lemma serve_readd_inv s Q F (k : nat) w l s' :
  hand_ok s Q F → workers s !! k = Some w → pipe w = Readd :: l →
  serve_readd (Z.of_nat k) (set_workers (<[k := set_pipe l w]> (workers s)) s) = Ok (tt, s') →
  last_thread s' = last_thread s ∧ same_pausing s s' ∧ ∃ a r q F',
    kind r = Readd ∧ Q !! k = Some ((a, r) :: q) ∧ hand_ok s' (<[k := q]> Q) F' ∧ served r (wd s) (wd s').
Proof.
  intros Hh Hw Ep E.
  destruct (take_spec s Q F k w Readd l Hh Hw Ep ltac:(by right)) as (a & r & q & Hq & Hk & it & s2 & Epop & -> & Hh2 & Hun & Hsp & Ewd & El & Elen & x & Hx & Hr).
  unfold serve_readd in E. rewrite (bind_Ok _ _ _ _ _ Epop) in E.
  assert (get_cqi a s2 = Ok (x, s2)) as Ex by (unfold get_cqi; by rewrite Hx).
  rewrite (bind_Ok _ _ _ _ _ Ex) in E. destruct r as [|fd]; [done|]. destruct Hr as [_ Hc]. rewrite Hc in E.
  apply bind_inv in E as ([] & s3 & Ec & E). unfold wio, zoom in Ec.
  destruct (with_conn fd conn_worker_readd (wd s2)) as [[[] w']|] eqn:En; [|done]. injection Ec as <-.
  assert (cqi_free a (set_closed_fds (closed_fds s2) (set_conn_thread (conn_thread s2) (set_wd w' s2))) = Ok (tt, s')) as Ef
    by by destruct s2.
  destruct (release_spec s s2 s' _ F a x (RReadd fd) w' _ _ Hh2 Hun Hx Hsp En (ho_owners _ _ _ Hh2) Ef) as (A & B & C & D).
  split; [by rewrite B|]. split; [done|].
  exists a, (RReadd fd), q, (a :: F). split_and!; try done. cbn. by rewrite D, <- Ewd.
Qed.

(** A worker that has read that a connection is idle. *)
Lemma serve_idle_inv s Q F (k : nat) w fd l s' :
  hand_ok s Q F → workers s !! k = Some w → pipe w = Timeout fd :: l →
  wio (with_conn fd (conn_close_idle inp)) (set_workers (<[k := set_pipe l w]> (workers s)) s) = Ok (tt, s') →
  last_thread s' = last_thread s ∧ same_pausing s s' ∧ hand_ok s' Q F.
Proof.
  intros Hh Hw Ep E. set (s1 := set_workers _ s) in E. unfold wio, zoom in E.
  destruct (with_conn fd (conn_close_idle inp) (wd s1)) as [[[] w']|] eqn:En; [|done].
  injection E as <-. apply frame_with_conn in En; [|apply frame_close_idle].
  split; [done|]. split.
  - eapply (same_pausing_workers s k w (set_pipe l w)); try done. cbn. by rewrite Ep.
  - destruct Hh as [H1 H2 H3 H4 H5 H6]. split; cbn; rewrite ?length_insert; try done.
    + eapply (ok_parts s1); try done. by apply ok_set_pipe.
    + destruct (Forall2_lookup_l _ _ _ _ _ H2 Hw) as (q & Hq & Hal). rewrite <- (list_insert_id Q k q Hq).
      eapply aligned_insert; try done. cbn. by rewrite <- Hal, Ep.
    + by rewrite En.
Qed.

Lemma serve_inv s Q F (k : nat) w s' :
  hand_ok s Q F → workers s !! k = Some w →
  thread_libevent_process inp binding socketpath (Z.of_nat k) s = Ok (tt, s') →
  last_thread s' = last_thread s ∧ ∃ Q' F', hand_ok s' Q' F' ∧
  match pipe w with
  | [] => s' = s ∧ Q' = Q
  | Pause :: l => Q' = Q ∧ s' = set_workers (<[k := set_parked true (set_pipe l w)]> (workers s)) (set_init_count (init_count s + 1) s)
  | Timeout _ :: _ => Q' = Q ∧ same_pausing s s'
  | n :: l => same_pausing s s' ∧ ∃ a r q, kind r = n ∧ Q !! k = Some ((a, r) :: q) ∧ Q' = <[k := q]> Q ∧ served r (wd s) (wd s')
  end.
Proof.
  intros Hh Hw E. unfold thread_libevent_process in E. apply lookup_lt_Some in Hw as Hlt.
  assert (get_worker (Z.of_nat k) s = Ok (w, s)) as Eg.
  { destruct (wp_get_worker k w s (λ a s', a = w ∧ s' = s) Hw) as (? & ? & ? & -> & ->); done. }
  rewrite (bind_Ok _ _ _ _ _ Eg) in E. destruct (pipe w) as [|n l] eqn:Ep.
  { injection E as <-. split; [done|]. exists Q, F. done. }
  set (s1 := set_workers (<[k := set_pipe l w]> (workers s)) s).
  assert (upd_worker (Z.of_nat k) (set_pipe l) s = Ok (tt, s1)) as Eu.
  { destruct (wp_upd_worker k (set_pipe l) w s (λ _ s', s' = s1) Hw) as ([] & ? & ? & ->); done. }
  rewrite (bind_Ok _ _ _ _ _ Eu) in E.
  destruct n as [| | |fd].
  - destruct (serve_new_inv s Q F k w l s' Hh Hw Ep E) as (A & B & a & r & q & F' & H1 & H2 & H3 & H4).
    split; [done|]. exists (<[k := q]> Q), F'. split; [done|]. split; [done|]. by exists a, r, q.
  - destruct (serve_readd_inv s Q F k w l s' Hh Hw Ep E) as (A & B & a & r & q & F' & H1 & H2 & H3 & H4).
    split; [done|]. exists (<[k := q]> Q), F'. split; [done|]. split; [done|]. by exists a, r, q.
  - unfold register_thread_initialized in E. rewrite (bind_Ok _ _ _ _ _ (eq_refl : modify _ s1 = Ok (tt, _))) in E.
    assert (s' = set_workers (<[k := set_parked true (set_pipe l w)]> (workers s)) (set_init_count (init_count s + 1) s)) as ->.
    { refine (wp_inv _ _ (λ _ s', s' = _) _ _ _ E). apply (wp_upd_worker _ _ (set_pipe l w)).
      - cbn. by apply list_lookup_insert_eq.
      - cbn. by rewrite list_insert_insert_eq. }
    split; [done|]. exists Q, F. split; [|done]. by apply (hand_ok_park s Q F k w l).
  - destruct (serve_idle_inv s Q F k w fd l s' Hh Hw Ep E) as (A & B & C). split; [done|]. by exists Q, F.
Qed.
End serving.

(** ** The other steps *)
(** A notification that announces no connection. *)
Lemma hand_ok_notify s Q F (k : nat) w n :
  hand_ok s Q F → workers s !! k = Some w → n ≠ NewConn → n ≠ Readd →
  hand_ok (set_workers (<[k := set_pipe (pipe w ++ [n]) w]> (workers s)) s) Q F.
Proof.
  intros [H1 H2 H3 H4 H5 H6] Hw N1 N2. split; cbn; rewrite ?length_insert; try done.
  - by apply ok_set_pipe.
  - destruct (Forall2_lookup_l _ _ _ _ _ H2 Hw) as (q & Hq & Hal). rewrite <- (list_insert_id Q k q Hq).
    eapply aligned_insert; try done. cbn. by rewrite conn_notices_other.
Qed.

Lemma timeout_check_inv s Q F o i o' s' :
  hand_ok s Q F → timeout_check o i s = Ok (o', s') →
  hand_ok s' Q F ∧ same_pausing s s' ∧ last_thread s' = last_thread s.
Proof.
  intros Hh E. unfold timeout_check in E. rewrite (bind_Ok _ _ _ _ _ (eq_refl : gets _ s = Ok (_, s))) in E.
  destruct (conns (en (wd s)) !! i) as [c|]; [|by injection E as _ <-].
  destruct (bool_decide _); [by injection E as _ <-|]. destruct (bool_decide _); [by injection E as _ <-|].
  destruct (_ >? _); [|by injection E as _ <-]. rewrite (bind_Ok _ _ _ _ _ (eq_refl : gets _ s = Ok (_, s))) in E.
  destruct (conn_thread s !! i) as [t|] eqn:Ht; [|done]. pose proof (ho_owners _ _ _ Hh _ _ Ht) as Hr.
  assert (∃ k, t = Z.of_nat k) as [k ->] by (exists (Z.to_nat t); lia).
  destruct (lookup_lt_is_Some_2 (workers s) k ltac:(lia)) as [w Hw].
  apply bind_inv in E as ([] & s1 & E1 & E2). injection E2 as _ <-.
  refine (wp_inv _ _ (λ _ s1, hand_ok s1 Q F ∧ same_pausing s s1 ∧ last_thread s1 = last_thread s) _ _ _ E1).
  apply (notify_spec _ _ _ w _ Hw). split_and!; [by apply hand_ok_notify| |done].
  eapply (same_pausing_workers s k w (set_pipe (pipe w ++ [Timeout i]) w)); try done. cbn. by apply pauses_app.
Qed.

Lemma timeout_pass_inv s Q F n s' :
  hand_ok s Q F → timeout_pass s = Ok (n, s') →
  hand_ok s' Q F ∧ same_pausing s s' ∧ last_thread s' = last_thread s.
Proof.
  intros Hh E. unfold timeout_pass in E. rewrite (bind_Ok _ _ _ _ _ (eq_refl : gets _ s = Ok (_, s))) in E.
  apply bind_inv in E as (o & s1 & E & E2). injection E2 as _ <-.
  assert (∀ l m, (∀ o s1, m s = Ok (o, s1) → hand_ok s1 Q F ∧ same_pausing s s1 ∧ last_thread s1 = last_thread s) →
    foldl (λ m i, o ← m; timeout_check o i) m l s = Ok (o, s1) →
    hand_ok s1 Q F ∧ same_pausing s s1 ∧ last_thread s1 = last_thread s) as Hfold.
  { clear E. induction l as [|i l IH]; intros m Hm E; [by eapply Hm|]. cbn [foldl] in E. eapply IH; [|exact E].
    intros o1 s2 (o2 & s3 & E3 & E4)%bind_inv. destruct (Hm _ _ E3) as (A1 & A2 & A3).
    destruct (timeout_check_inv _ _ _ _ _ _ _ A1 E4) as (B1 & B2 & B3).
    split_and!; [done|by etrans|by rewrite B3]. }
  eapply Hfold; [|exact E]. intros o1 s2 [= _ <-]. done.
Qed.

(** ** Properties of the hand-over *)
(** The queues of [s] hold the requests [R], worker by worker. *)
Definition queues_hold (s : system) (R : list (list request)) : Prop :=
  ∃ Q F, hand_ok s Q F ∧ R = (λ q : cqueue, q.*2) <$> Q.

Lemma started_ok (n : nat) w :
  (0 < n)%nat → nthreads w = Z.of_nat n → hand_ok (started n w) (replicate n []) [].
Proof.
  intros Hn Hw. split; cbn [started wd workers last_thread conn_thread]; rewrite ?length_replicate; try done; [|by apply Forall2_replicate|lia].
  split; cbn; try done.
  - apply NoDup_nil_2.
  - apply Forall2_replicate. split; try done; [apply NoDup_nil_2|set_solver].
  - intros t q [-> _]%lookup_replicate. set_solver.
  - intros t t' q q' _ [-> _]%lookup_replicate. set_solver.
  - intros a [x Hx]. by rewrite lookup_empty in Hx.
Qed.

Lemma requests_insert (Q : list cqueue) t q : (λ q : cqueue, q.*2) <$> <[t := q]> Q = <[t := q.*2]> ((λ q : cqueue, q.*2) <$> Q).
Proof. apply list_fmap_insert. Qed.



(** The queue and the pipe are written one after the other: when the
    accepting thread queues a new connection and a side thread queues and
    announces a returned one before the accepting thread writes its
    notification, the worker takes the new connection's item for a returned
    connection and dereferences its uninitialised pointer. *)
Definition race_system : system :=
  set_conn_thread {[ 5 := 0 ]}
    (started 4 (set_en (set_conns {[ 5 := fresh_conn DATA_BUFFER_SIZE ]} blank_env) one_item_world)).
Example readd_race :
  (_ ← dispatch_push 9 conn_new_cmd 18 2048 tcp_transport;
   _ ← redispatch_push 5; _ ← notify 0 Readd;
   _ ← notify 0 NewConn;
   @thread_libevent_process no_background no_sasl plain_inputs ascii_prot false 0) race_system = Fault NullDeref.
Proof. vm_compute. reflexivity. Qed.
(** In the intended order both are served. *)
Example readd_in_order :
  match (_ ← dispatch_conn_new 9 conn_new_cmd 18 2048 tcp_transport;
         _ ← redispatch_conn 5;
         _ ← @thread_libevent_process no_background no_sasl plain_inputs ascii_prot false 0;
         @thread_libevent_process no_background no_sasl plain_inputs ascii_prot false 0) race_system with
  | Ok (_, s) => conn_thread s !! 9 = Some 0 ∧ (state ∘ core) <$> conns (en (wd s)) !! 5 = Some conn_new_cmd
  | Fault _ => False
  end.
Proof. vm_compute. split; reflexivity. Qed.

