(* ===== verification/PauseFacts.v ===== *)
(** * What pausing the workers and locking items guarantees

    The pausing protocol of thread.c as an invariant over all interleavings,
    the interleaving in which pausing twice hangs, and the relation between
    the item locks and the buckets of the hash table. *)
From Stdlib Require Import ZArith Lia.
From stdpp Require Import strings prelude gmap list functions relations.
From S2P Require Import Prelude Mem Util Item State Assoc Items Store Pool Conn ConnOps Stats Ascii Binary Net IovFacts IoFacts GetFacts TxFacts RxFacts Thread ThreadFacts.

(** ** Announcing a pause *)
Definition announce (w : worker) : worker := set_pipe (pipe w ++ [Pause]) w.

Lemma pause_signal_spec s Q F :
  hand_ok s Q F →
  wp pause_signal s (λ _ s', s' = set_workers (announce <$> workers s) (set_init_count 0 s) ∧ hand_ok s' Q F).
Proof.
  intros Hh. unfold pause_signal. apply wp_bind, wp_modify, wp_bind, wp_gets.
  change (num_threads (cfg (kv (wd (set_init_count 0 s))))) with (nthreads (wd s)). rewrite (ho_threads _ _ _ Hh).
  set (s0 := set_init_count 0 s). assert (hand_ok s0 Q F) as Hh0.
  { apply (hand_ok_parts s); try done; [by eapply (ok_parts s); [apply Hh|..]|apply Hh]. }
  assert (∀ k, (k ≤ length (workers s))%nat →
    wp (foldl (λ m i, _ ← m; notify i Pause) (mret tt) (seqZ 0 (Z.of_nat k))) s0 (λ _ s',
      s' = set_workers ((announce <$> take k (workers s)) ++ drop k (workers s)) s0 ∧ hand_ok s' Q F)) as Hk.
  { induction k as [|k IH]; intros Hle.
    - apply wp_ret. split; [by destruct s|]. done.
    - rewrite seqZ_snoc, foldl_app. cbn [foldl]. apply wp_bind. eapply wp_mono; [|apply IH; lia].
      intros _ s1 [-> Hh1]. destruct (lookup_lt_is_Some_2 (workers s) k ltac:(lia)) as [w Hw].
      set (ws := (announce <$> take k (workers s)) ++ drop k (workers s)) in *.
      assert (length (announce <$> take k (workers s)) = k) as Hlk by (rewrite length_fmap, length_take; lia).
      assert (ws !! k = Some w) as Hw1.
      { unfold ws. rewrite lookup_app_r, Hlk, Nat.sub_diag, lookup_drop, Nat.add_0_r by lia. done. }
      rewrite Z.add_0_l. apply (notify_spec _ _ _ w); [exact Hw1|]. split; [|by apply hand_ok_notify].
      cbn [workers set_workers]. match goal with |- set_workers ?l _ = _ => change (set_workers l s0 = set_workers ((announce <$> take (S k) (workers s)) ++ drop (S k) (workers s)) s0) end.
      f_equal. unfold ws. rewrite (drop_S _ _ _ Hw), (take_S_r _ _ _ Hw), fmap_app, <- app_assoc. cbn.
      rewrite insert_app_r_alt, Hlk, Nat.sub_diag by lia. done. }
  eapply wp_mono; [|apply (Hk (length (workers s))); lia]. intros _ s1 [-> Hh1]. split; [|done].
  by rewrite take_ge, drop_ge, app_nil_r by lia.
Qed.

Lemma pass_spec s Q F (k : nat) w :
  hand_ok s Q F → workers s !! k = Some w →
  wp (pass_hang_lock (Z.of_nat k)) s (λ _ s', s' = set_workers (<[k := set_parked false w]> (workers s)) s ∧ hand_ok s' Q F).
Proof.
  intros [H1 H2 H3 H4 H5 H6] Hw. apply (wp_upd_worker _ _ w _ _ Hw). split; [done|].
  split; cbn; rewrite ?length_insert; try done.
  - destruct H1 as [O1 O2 O3 O4 O5 O6]. split; try done. cbn.
    destruct (Forall2_lookup_l _ _ _ _ _ O3 Hw) as (q & Hq & [Q1 Q2 Q3 Q4]).
    rewrite <- (list_insert_id Q k q Hq). apply Forall2_insert; [done|by split].
  - destruct (Forall2_lookup_l _ _ _ _ _ H2 Hw) as (q & Hq & Hal). rewrite <- (list_insert_id Q k q Hq).
    by eapply aligned_insert.
Qed.

(** ** Pausing *)
Definition quiet (w : worker) : Prop := pauses (pipe w) = 0%nat.
#[global] Instance quiet_dec w : Decision (quiet w).
Proof. unfold quiet. apply _. Defined.

(** The invariant of the pausing protocol. *)
Definition pausing_ok (ph : phase) (s : system) : Prop :=
  match ph with
  | Idle => worker_hang_lock s = false ∧ Forall quiet (workers s)
  | Locked => worker_hang_lock s = true ∧ Forall quiet (workers s)
  | Waiting => worker_hang_lock s = true ∧
      init_count s = Z.of_nat (length (filter quiet (workers s))) ∧
      Forall (λ w, (pauses (pipe w) ≤ 1)%nat ∧ (quiet w → parked w = true)) (workers s)
  | Paused => worker_hang_lock s = true ∧ Forall (λ w, quiet w ∧ parked w = true) (workers s)
  end.

Lemma Forall_waiting (P : worker → Prop) ws ws' :
  (∀ w w', same_waiting w w' → P w → P w') → Forall2 same_waiting ws ws' → Forall P ws → Forall P ws'.
Proof.
  intros HP Hs Hf. induction Hs as [|w w' ws ws' Hw Hs IH]; [done|]. apply Forall_cons in Hf as [H1 H2].
  constructor; [by eapply HP|by apply IH].
Qed.
Lemma filter_waiting ws ws' :
  Forall2 same_waiting ws ws' → length (filter quiet ws') = length (filter quiet ws).
Proof.
  induction 1 as [|w w' ws ws' [_ Hp] _ IH]; [done|]. rewrite !filter_cons.
  destruct (decide (quiet w')), (decide (quiet w)); unfold quiet in *; cbn; congruence.
Qed.
Lemma filter_full ws : (length ws ≤ length (filter quiet ws))%nat → Forall quiet ws.
Proof.
  induction ws as [|w ws IH]; [done|]. rewrite filter_cons. pose proof (length_filter quiet ws).
  destruct (decide (quiet w)); cbn; intros Hle; [|lia]. constructor; [done|]. apply IH. lia.
Qed.

Lemma pausing_same ph s s' : same_pausing s s' → pausing_ok ph s → pausing_ok ph s'.
Proof.
  intros [S1 S2 S3 S4]. unfold pausing_ok. rewrite S1, S2. 
  destruct ph; intros Hp; destruct_and? Hp; split_and?; try done;
    try (eapply Forall_waiting; [|exact S3|eassumption]; intros w w' [Ha Hb]; unfold quiet; rewrite ?Ha, ?Hb; done).
  by rewrite (filter_waiting _ _ S3).
Qed.

(** A worker reports in. *)
Lemma filter_report ws k w l :
  ws !! k = Some w → pipe w = Pause :: l → quiet (set_parked true (set_pipe l w)) →
  length (filter quiet (<[k := set_parked true (set_pipe l w)]> ws)) = S (length (filter quiet ws)).
Proof.
  intros Hw Hp Hq. rewrite <- (take_drop_middle ws k w Hw) at 2. apply lookup_lt_Some in Hw as Hlt.
  rewrite insert_take_drop by done. rewrite !filter_app, !filter_cons, !length_app.
  rewrite decide_True by done. rewrite decide_False; [cbn; lia|]. unfold quiet, pauses. rewrite Hp.
  by rewrite filter_cons_True.
Qed.

(** ** Each step keeps the invariant *)
(** A worker reads the announcement of a pause. *)
Lemma report_pausing ph s (k : nat) w l :
  workers s !! k = Some w → pipe w = Pause :: l → pausing_ok ph s →
  pausing_ok ph (set_workers (<[k := set_parked true (set_pipe l w)]> (workers s)) (set_init_count (init_count s + 1) s)).
Proof.
  intros Hw Ep Hp.
  assert (¬ quiet w) as Hnq by (unfold quiet, pauses; rewrite Ep; by rewrite filter_cons_True).
  destruct ph; cbn in Hp; destruct_and? Hp;
    try (match goal with HF : Forall _ _ |- _ => pose proof (Forall_lookup_1 _ _ _ _ HF Hw) as Hx end; naive_solver).
  match goal with HF : Forall _ _ |- _ => pose proof (Forall_lookup_1 _ _ _ _ HF Hw) as [Hle _] end.
  assert (quiet (set_parked true (set_pipe l w))) as Hq1.
  { unfold quiet, pauses in *. cbn. rewrite Ep, filter_cons_True in Hle by done. cbn in Hle. lia. }
  cbn. split_and!; [done| |].
  - rewrite (filter_report _ _ _ _ Hw Ep Hq1). lia.
  - apply Forall_insert; [done|]. unfold quiet in Hq1. cbn in *. lia.
Qed.

(** A worker finds the lock free. *)
Lemma pass_pausing ph s (k : nat) w :
  workers s !! k = Some w → worker_hang_lock s = false → pausing_ok ph s →
  pausing_ok ph (set_workers (<[k := set_parked false w]> (workers s)) s).
Proof.
  intros Hw Hl Hp. destruct ph; cbn in Hp; destruct_and? Hp; try congruence. cbn. split; [done|].
  apply Forall_insert; [done|]. by match goal with HF : Forall _ _ |- _ => exact (Forall_lookup_1 _ _ _ _ HF Hw) end.
Qed.

(** The pause is announced to every worker. *)
Lemma signal_pausing s : pausing_ok Locked s → pausing_ok Waiting (set_workers (announce <$> workers s) (set_init_count 0 s)).
Proof.
  intros [Hlk Hp]. cbn. split; [done|].
  assert (Forall (λ w, pauses (pipe w) = 1%nat) (announce <$> workers s)) as Hone.
  { apply Forall_fmap. eapply Forall_impl; [exact Hp|]. intros w Hw. cbn. unfold quiet, pauses in *.
    rewrite filter_app, length_app, Hw. by rewrite filter_cons_True. }
  split.
  - assert (filter quiet (announce <$> workers s) = []) as ->; [|done].
    clear -Hone. induction Hone as [|w ws Hw _ IH]; [done|]. rewrite filter_cons_False; [done|]. unfold quiet. lia.
  - eapply Forall_impl; [exact Hone|]. intros w Hw. cbn beta in *. unfold quiet. split; [lia|]. intros ?; lia.
Qed.

(** All workers have reported. *)
Lemma registered_pausing s Q F : hand_ok s Q F → registered s = true → pausing_ok Waiting s → pausing_ok Paused s.
Proof.
  intros Hh Hr (Hlk & Hc & Hf). split; [done|].
  unfold registered in Hr. fold (nthreads (wd s)) in Hr. apply Z.leb_le in Hr. rewrite (ho_threads _ _ _ Hh), Hc in Hr.
  pose proof (filter_full (workers s) ltac:(lia)) as Hq. rewrite Forall_forall in Hf, Hq |- *.
  intros w Hw. split; [by apply Hq|]. by apply Hf, Hq.
Qed.

(** The switch of [pause_threads]. *)
Lemma pause_lock_inv ty s b s' : pause_lock ty s = Ok (b, s') → s' = set_worker_hang_lock b s ∧ (b = true → worker_hang_lock s = false).
Proof.
  destruct ty; cbn; unfold mbind, M_bind, gets; try (intros [= <- <-]; done).
  all: destruct (worker_hang_lock s) eqn:E; intros [= <- <-]; by rewrite ?E.
Qed.
Lemma hand_ok_lock s Q F b : hand_ok s Q F → hand_ok (set_worker_hang_lock b s) Q F.
Proof. intros Hh. apply (hand_ok_parts s); try done; [eapply (ok_parts s); try done; apply Hh|apply Hh]. Qed.

Lemma get_worker_nonneg {A} t (f : worker → sys A) s r : (w ← get_worker t; f w) s = Ok r → 0 ≤ t.
Proof. destruct r. intros (x & y & E & _)%bind_inv. unfold get_worker in E. destruct (Z.ltb_spec t 0); [done|lia]. Qed.

Section pausing.
Context `{background} `{sasl_lib} (inp : stat_inputs) (binding : protocol) (socketpath : bool).

Lemma step_inv ph s ph' s' Q F :
  step inp binding socketpath (ph, s) (ph', s') → hand_ok s Q F → pausing_ok ph s →
  (∃ Q' F', hand_ok s' Q' F') ∧ pausing_ok ph' s'.
Proof.
  inversion 1 as [p1 a1 b1 sfd st fl rbs tr E|p1 a1 b1 fd E|p1 a1 b1 n E|p1 a1 b1 t w Hw Hpk E|p1 a1 b1 t w Hw Hpk Hl E
    |a1 b1 ty E|a1 b1 E|a1 Hr|a1 b1 ty E]; subst; intros Hh Hp.
  - destruct (wp_inv _ _ _ _ _ (dispatch_spec s Q F sfd st fl rbs tr Hh) E) as (Hsp & Q' & F' & Hh' & _).
    split; [eauto|]. by eapply pausing_same.
  - destruct (redispatch_inv _ _ _ _ _ Hh E) as (Hsp & _ & Q' & F' & Hh' & _). split; [eauto|]. by eapply pausing_same.
  - destruct (timeout_pass_inv _ _ _ _ _ Hh E) as (Hh' & Hsp & _). split; [eauto|]. by eapply pausing_same.
  - pose proof (get_worker_nonneg _ _ _ _ E) as Ht. rewrite <- (Z2Nat.id t Ht) in E. set (k := Z.to_nat t) in *.
    destruct (serve_inv inp binding socketpath s Q F k w s' Hh Hw E) as (_ & Q' & F' & Hh' & Hcase).
    split; [eauto|]. destruct (pipe w) as [|[| | |fd] l] eqn:Ep; destruct Hcase as [C1 C2]; subst;
      try (by eapply pausing_same); try done. by apply report_pausing.
  - pose proof (get_worker_nonneg _ _ _ _ E) as Ht. rewrite <- (Z2Nat.id t Ht) in E.
    destruct (wp_inv _ _ _ _ _ (pass_spec s Q F _ w Hh Hw) E) as [-> Hh']. split; [eauto|]. by apply pass_pausing.
  - apply pause_lock_inv in E as [-> _]. destruct Hp as [_ Hp]. split; [|by split]. exists Q, F. by apply hand_ok_lock.
  - destruct (wp_inv _ _ _ _ _ (pause_signal_spec s Q F Hh) E) as [-> Hh']. split; [eauto|]. by apply signal_pausing.
  - split; [eauto|]. by eapply registered_pausing.
  - apply pause_lock_inv in E as [-> _]. destruct Hp as [Hlk Hp].
    split; [exists Q, F; by apply hand_ok_lock|split; [done|]]. eapply Forall_impl; [exact Hp|]. by intros w [? ?].
Qed.
End pausing.

Section pause_claims.
Context `{background} `{sasl_lib} (inp : stat_inputs) (binding : protocol) (socketpath : bool).
Local Abbreviation step := (step inp binding socketpath).

Lemma steps_inv x y : rtc step x y → ∀ Q F, hand_ok x.2 Q F → pausing_ok x.1 x.2 →
  (∃ Q' F', hand_ok y.2 Q' F') ∧ pausing_ok y.1 y.2.
Proof.
  induction 1 as [[ph s]|[ph s] [ph1 s1] z Hst _ IH]; intros Q F Hh Hp; [eauto|].
  destruct (step_inv _ _ _ _ _ _ _ _ _ Hst Hh Hp) as [(Q' & F' & Hh') Hp']. by apply (IH Q' F').
Qed.

Lemma started_pausing n w : pausing_ok Idle (started n w).
Proof. split; [done|]. by apply Forall_replicate. Qed.

Lemma serve_pause s (k : nat) w l :
  workers s !! k = Some w → pipe w = Pause :: l →
  thread_libevent_process inp binding socketpath (Z.of_nat k) s =
    Ok (tt, set_workers (<[k := set_parked true (set_pipe l w)]> (workers s)) (set_init_count (init_count s + 1) s)).
Proof.
  intros Hw Hp. apply lookup_lt_Some in Hw as Hlt.
  assert (wp (thread_libevent_process inp binding socketpath (Z.of_nat k)) s
    (λ _ s', s' = set_workers (<[k := set_parked true (set_pipe l w)]> (workers s)) (set_init_count (init_count s + 1) s)))
    as ([] & s' & -> & ->); [|done].
  unfold thread_libevent_process. apply wp_bind, (wp_get_worker _ w); [done|]. rewrite Hp.
  apply wp_bind, (wp_upd_worker _ _ w); [done|]. unfold register_thread_initialized. apply wp_bind, wp_modify.
  apply (wp_upd_worker _ _ (set_pipe l w)); [cbn; by apply list_lookup_insert_eq|].
  cbn. by rewrite list_insert_insert_eq.
Qed.

(** All workers report in, one after the other. *)
Lemma all_report (n k : nat) s :
  workers s = replicate k (Worker None None [] true) ++ replicate n (Worker None None [Pause] false) →
  ∃ s', rtc step (Waiting, s) (Waiting, s') ∧
    s' = set_workers (replicate (k + n) (Worker None None [] true)) (set_init_count (init_count s + Z.of_nat n) s).
Proof.
  revert k s. induction n as [|n IH]; intros k s Hw.
  - exists s. split; [done|]. rewrite app_nil_r in Hw. rewrite Nat.add_0_r, Z.add_0_r, <- Hw. by destruct s.
  - assert (workers s !! k = Some (Worker None None [Pause] false)) as Hk.
    { rewrite Hw, lookup_app_r; rewrite length_replicate; [|lia]. by rewrite Nat.sub_diag. }
    pose proof (serve_pause s k _ [] Hk eq_refl) as E. set (s1 := set_workers _ _) in E.
    destruct (IH (S k) s1) as (s' & Hr & ->).
    { change (workers s1) with (<[k := Worker None None [] true]> (workers s)).
      rewrite Hw. rewrite (replicate_S_end k (Worker None None [] true)), <- app_assoc. rewrite insert_app_r_alt; rewrite length_replicate; [|lia].
      by rewrite Nat.sub_diag. }
    eexists. split.
    + eapply rtc_l; [|exact Hr]. eapply (step_serve _ _ _ _ _ _ (Z.of_nat k)); [by rewrite Nat2Z.id|done|exact E].
    + cbn. unfold s1. cbn. replace (k + S n)%nat with (S k + n)%nat by lia.
      replace (init_count s + Z.of_nat (S n)) with (init_count s + 1 + Z.of_nat n) by lia. done.
Qed.

(** Everybody waits: the pausing thread for the workers, the workers for the
    lock. *)
Definition stuck (s : system) : Prop :=
  worker_hang_lock s = true ∧ Forall (λ w, parked w = true) (workers s) ∧ init_count s < nthreads (wd s).

Lemma stuck_step s x Q F :
  hand_ok s Q F → stuck s → step (Waiting, s) x → x.1 = Waiting ∧ stuck x.2 ∧ ∃ Q' F', hand_ok x.2 Q' F'.
Proof.
  intros Hh (Hl & Hp & Hc) Hst.
  assert (∀ s', same_pausing s s' → stuck s') as Hsame.
  { intros s' [S1 S2 S3 S4]. unfold stuck. rewrite S1, S2, S4. split_and!; try done.
    eapply Forall_waiting; [|exact S3|exact Hp]. by intros w w' [-> _]. }
  assert (∃ y, x = y) as [[ph' s'] ->] by eauto.
  inversion Hst as [p1 a1 b1 sfd st fl rbs tr E|p1 a1 b1 fd E|p1 a1 b1 n E|p1 a1 b1 t w Hw Hpk E|p1 a1 b1 t w Hw Hpk Hlk E
    | | |a1 Hr|]; subst; cbn.
  - destruct (wp_inv _ _ _ _ _ (dispatch_spec s Q F sfd st fl rbs tr Hh) E) as (Hsp & Q' & F' & Hh' & _). eauto 6.
  - destruct (redispatch_inv _ _ _ _ _ Hh E) as (Hsp & _ & Q' & F' & Hh' & _). eauto 6.
  - destruct (timeout_pass_inv _ _ _ _ _ Hh E) as (Hh' & Hsp & _). eauto 6.
  - pose proof (Forall_lookup_1 _ _ _ _ Hp Hw) as Hx. cbn in Hx. congruence.
  - congruence.
  - unfold registered in Hr. fold (nthreads (wd s')) in Hr. apply Z.leb_le in Hr. lia.
Qed.

Lemma stuck_forever s x Q F : hand_ok s Q F → stuck s → rtc step (Waiting, s) x → x.1 = Waiting ∧ stuck x.2.
Proof.
  intros Hh Hs Hr. remember (Waiting, s) as y eqn:Hy. revert s Q F Hh Hs Hy.
  induction Hr as [y|y z x Hst _ IH]; intros s Q F Hh Hs ->; [done|].
  destruct (stuck_step s z Q F Hh Hs Hst) as (Hph & Hs' & Q' & F' & Hh'). destruct z as [ph1 s1]. cbn in *. subst.
  by eapply IH.
Qed.

(** A pause that works. *)
Lemma pause_once (n : nat) w :
  (0 < n)%nat → nthreads w = Z.of_nat n →
  ∃ s, rtc step (Idle, started n w) (Paused, s) ∧ workers s = replicate n (Worker None None [] true) ∧ wd s = w.
Proof.
  intros Hn Hw. pose proof (started_ok n w Hn Hw) as Hh0.
  set (s1 := set_worker_hang_lock true (started n w)).
  assert (hand_ok s1 (replicate n []) []) as Hh1.
  { apply (hand_ok_parts (started n w)); try done; [eapply (ok_parts (started n w)); try done; apply Hh0|apply Hh0]. }
  destruct (pause_signal_spec s1 _ _ Hh1) as ([] & s2 & E2 & -> & Hh2). set (s2 := set_workers _ _) in *.
  assert (workers s2 = replicate n (Worker None None [Pause] false)) as Ew2 by (cbn; by rewrite fmap_replicate).
  destruct (all_report n 0 s2 Ew2) as (s3 & Hr3 & ->).
  exists (set_workers (replicate n (Worker None None [] true)) (set_init_count (0 + Z.of_nat n) s2)). split; [|done].
  eapply rtc_l; [apply (step_lock _ _ _ _ s1 PAUSE_WORKER_THREADS); done|].
  eapply rtc_l; [apply (step_signal _ _ _ _ s2 E2)|]. eapply rtc_r; [exact Hr3|]. apply step_registered.
  unfold registered. apply Z.leb_le. change (nthreads w ≤ 0 + Z.of_nat n). lia.
Qed.

(** The state after a pause, a resume and the next pause, when no worker has
    run in between. *)
Lemma pause_twice (n : nat) w :
  (0 < n)%nat → nthreads w = Z.of_nat n →
  ∃ s, rtc step (Idle, started n w) (Waiting, s) ∧ stuck s.
Proof.
  intros Hn Hw. destruct (pause_once n w Hn Hw) as (s3 & Hto3 & Ew & Ewd).
  destruct (steps_inv _ _ Hto3 _ _ (started_ok n w Hn Hw) (started_pausing n w)) as [(Q3 & F3 & Hh3) _]. cbn in Hh3.
  set (s5 := set_worker_hang_lock true (set_worker_hang_lock false s3)).
  assert (hand_ok s5 Q3 F3) as Hh5.
  { apply (hand_ok_parts s3); try done; [eapply (ok_parts s3); try done; apply Hh3|apply Hh3]. }
  destruct (pause_signal_spec s5 _ _ Hh5) as ([] & s6 & E6 & -> & Hh6). eexists. split.
  - etrans; [exact Hto3|].
    eapply rtc_l; [apply (step_resume _ _ _ _ (set_worker_hang_lock false s3) RESUME_WORKER_THREADS); done|].
    eapply rtc_l; [apply (step_lock _ _ _ _ s5 PAUSE_WORKER_THREADS); done|].
    apply rtc_once, (step_signal _ _ _ _ _ E6).
  - split_and!; [done| |].
    + cbn. rewrite Ew, fmap_replicate. by apply Forall_replicate.
    + change (0 < nthreads (wd s3)). rewrite Ewd. lia.
Qed.
End pause_claims.

(** C18: pausing is safe.  In every interleaving of the accepting thread, the
    side threads, the timeout thread and the workers, when the call of
    [pause_threads] returns every worker has stopped at [worker_hang_lock] and
    the lock is held; and this stays so until the workers are resumed. *)
Theorem pause_safe `{background} `{sasl_lib} (inp : stat_inputs) (binding : protocol) (socketpath : bool)
    (n : nat) (w : world) (s : system)
    (Hn : (0 < n)%nat) (Hw : num_threads (cfg (kv w)) = Z.of_nat n)
    (Hr : rtc (step inp binding socketpath) (Idle, started n w) (Paused, s)) :
  worker_hang_lock s = true ∧ Forall (λ w, parked w = true) (workers s) ∧
  ∀ ph' s', step inp binding socketpath (Paused, s) (ph', s') →
    ph' = Idle ∨ (ph' = Paused ∧ worker_hang_lock s' = true ∧ Forall (λ w, parked w = true) (workers s')).
Proof.
  destruct (steps_inv inp binding socketpath _ _ Hr _ _ (started_ok n w Hn Hw) (started_pausing n w)) as [(Q & F & Hh) Hp].
  assert (∀ s, pausing_ok Paused s → worker_hang_lock s = true ∧ Forall (λ w, parked w = true) (workers s)) as Hout.
  { intros s1 [Hl Hf]. split; [done|]. eapply Forall_impl; [exact Hf|]. by intros x [_ ?]. }
  destruct (Hout _ Hp). split_and!; [done|done|]. intros ph' s' Hst.
  destruct (step_inv _ _ _ _ _ _ _ _ _ Hst Hh Hp) as [_ Hp'].
  destruct ph'; [by left| | |right; by destruct (Hout _ Hp')]; inversion Hst.
Qed.

(** C27: pausing twice can deadlock.  With any number of workers there is an
    interleaving in which the threads are paused, resumed and paused again
    before the workers have left [worker_hang_lock]: the pausing thread then
    holds the lock and waits for reports that the workers, blocked on the
    lock, can never make, whatever else happens. *)
Theorem pause_deadlock `{background} `{sasl_lib} (inp : stat_inputs) (binding : protocol) (socketpath : bool)
    (n : nat) (w : world) (Hn : (0 < n)%nat) (Hw : num_threads (cfg (kv w)) = Z.of_nat n) :
  ∃ s, rtc (step inp binding socketpath) (Idle, started n w) (Waiting, s) ∧
    ∀ ph' s', rtc (step inp binding socketpath) (Waiting, s) (ph', s') →
      ph' = Waiting ∧ registered s' = false ∧ Forall (λ w, parked w = true) (workers s').
Proof.
  destruct (pause_twice inp binding socketpath n w Hn Hw) as (s & Hr & Hs). exists s. split; [done|].
  intros ph' s' Hr'.
  destruct (steps_inv inp binding socketpath _ _ Hr _ _ (started_ok n w Hn Hw) (started_pausing n w)) as [(Q & F & Hh) _].
  destruct (stuck_forever inp binding socketpath s _ Q F Hh Hs Hr') as [Hph (Hl & Hp & Hc)]. cbn in *.
  split_and!; try done. unfold registered. apply Z.leb_gt. exact Hc.
Qed.

(** ** Item locks *)
Lemma hashmask_mod n hv : 0 ≤ n → Z.land hv (hashmask n) = hv mod 2 ^ n.
Proof.
  intros Hn. unfold hashmask, hashsize. rewrite Z.shiftl_1_l.
  replace (2 ^ n - 1) with (Z.ones n) by (rewrite Z.ones_equiv; lia). by apply Z.land_ones.
Qed.
Lemma hashmask_land p q hv : 0 ≤ p ≤ q → Z.land (Z.land hv (hashmask q)) (hashmask p) = Z.land hv (hashmask p).
Proof.
  intros Hpq. rewrite !hashmask_mod by lia. apply Z.mod_mod_divide.
  exists (2 ^ (q - p)). rewrite <- Z.pow_add_r by lia. f_equal. lia.
Qed.

Lemma wp_event_ok w (P : bool → world → Prop) : ev_ops (en w) = [] → P true w → wp event_ok w P.
Proof. intros He HP. exists true, w. unfold event_ok. by rewrite He. Qed.

Lemma foldl_setup (n : nat) s ws :
  mallocs (en (wd s)) = [] → ev_ops (en (wd s)) = [] →
  wp (foldl (λ m _, l ← m; ok ← wio event_ok; _ ← need ok; w ← setup_thread; _ ← wio (srv (state_add reserved_fds 5)); mret (l ++ [w]))
        (mret ws) (seqZ 0 (Z.of_nat n))) s
    (λ r s', r = ws ++ replicate n (Worker None None [] false) ∧ ∃ c, s' = set_wd (set_kv (set_cnt c (kv (wd s))) (wd s)) s).
Proof.
  intros Hm Hev. induction n as [|n IH].
  - apply wp_ret. rewrite app_nil_r. split; [done|]. exists (cnt (kv (wd s))). by destruct s as [? ? ? ? ? ? ? ? ? ? [? [] ? ? ?]].
  - rewrite seqZ_snoc, foldl_app. cbn [foldl]. apply wp_bind. eapply wp_mono; [|exact IH]. intros l s1 (-> & c & ->).
    apply wp_bind, wp_wio, wp_event_ok; [done|]. apply wp_bind, wp_ret, wp_bind. unfold setup_thread.
    apply wp_bind, wp_wio, wp_malloc_ok; [done|]. apply wp_bind, wp_ret, wp_bind, wp_wio, wp_event_ok; [done|].
    apply wp_bind, wp_ret. do 2 (apply wp_bind, wp_wio, wp_malloc_ok; [done|]; apply wp_bind, wp_ret).
    apply wp_ret, wp_bind, wp_wio. eexists _, _. split; [reflexivity|]. apply wp_ret. split.
    + by rewrite (replicate_S_end n), app_assoc.
    + by eexists.
Qed.

(** C26: an item's lock covers its hash bucket.  [memcached_thread_init] either
    exits or leaves fewer item locks than hash buckets; from then on, since
    the table only grows, two keys that share a bucket, in the primary table
    or in the old one during an expansion, share their item lock, and the lock
    the maintenance thread takes for the bucket it moves is the lock of every
    item in it. *)
Theorem lock_covers_bucket (n : nat) (s : system)
    (Hmem : mallocs (en (wd s)) = []) (Hev : ev_ops (en (wd s)) = []) :
  let power := item_lock_power (Z.of_nat n) in
  if hashpower (tab (kv (wd s))) <=? power then memcached_thread_init (Z.of_nat n) s = Fault (Exited 1)
  else wp (memcached_thread_init (Z.of_nat n)) s (λ _ s',
    item_lock_hashpower s' = power ∧ workers s' = replicate n (Worker None None [] false) ∧
    ∀ t, hashpower (tab (kv (wd s))) ≤ hashpower t →
      (∀ hv hv', slot t hv = slot t hv' →
         item_lock_index (item_lock_hashpower s') hv = item_lock_index (item_lock_hashpower s') hv') ∧
      (∀ hv b, Z.land hv (hashmask (hashpower t - 1)) = b →
         item_lock_index (item_lock_hashpower s') hv = item_lock_index (item_lock_hashpower s') b)).
Proof.
  intros power. assert (0 ≤ power) as Hpow.
  { unfold power, item_lock_power. repeat destruct (_ <? _); lia. }
  unfold memcached_thread_init. fold power. destruct (Z.leb_spec (hashpower (tab (kv (wd s)))) power) as [Hle|Hgt].
  - unfold mbind, M_bind, modify, gets. cbn [wd set_worker_hang_lock set_cqi_freelist].
    by rewrite Z.geb_leb, (proj2 (Z.leb_le _ _) Hle).
  - apply wp_bind, wp_modify, wp_bind, wp_gets. cbn [wd set_worker_hang_lock set_cqi_freelist].
    rewrite Z.geb_leb, (proj2 (Z.leb_gt _ _) Hgt). apply wp_bind, wp_ret, wp_bind, wp_modify.
    do 2 (apply wp_bind, wp_wio, wp_malloc_ok; [done|]; apply wp_bind, wp_ret).
    apply wp_bind. eapply wp_mono; [|apply foldl_setup; done]. intros ws s1 (-> & c & ->).
    apply wp_modify. split; [done|]. split; [done|]. intros t Ht.
    change (item_lock_hashpower _) with power. unfold item_lock_index. split.
    + intros hv hv'. unfold slot. destruct (in_old t hv), (in_old t hv'); intros [= Hs].
      * rewrite <- (hashmask_land power (hashpower t - 1) hv), <- (hashmask_land power (hashpower t - 1) hv'), Hs by lia. done.
      * rewrite <- (hashmask_land power (hashpower t) hv), <- (hashmask_land power (hashpower t) hv'), Hs by lia. done.
    + intros hv b <-. symmetry. apply hashmask_land. lia.
Qed.

(** ** Concrete runs *)
Lemma pause_safe_witness :
  ∃ s, rtc (@step no_background no_sasl plain_inputs ascii_prot false) (Idle, started 4 one_item_world) (Paused, s) ∧
    worker_hang_lock s = true ∧ Forall (λ w, parked w = true) (workers s).
Proof.
  destruct (@pause_once no_background no_sasl plain_inputs ascii_prot false 4 one_item_world ltac:(lia) eq_refl) as (s & Hr & _).
  exists s. split; [exact Hr|].
  destruct (@pause_safe no_background no_sasl plain_inputs ascii_prot false 4 one_item_world s ltac:(lia) eq_refl Hr) as (H1 & H2 & _).
  split; [exact H1|exact H2].
Defined.

Lemma pause_deadlock_witness :
  ∃ s, rtc (@step no_background no_sasl plain_inputs ascii_prot false) (Idle, started 4 one_item_world) (Waiting, s) ∧
    registered s = false.
Proof.
  destruct (@pause_deadlock no_background no_sasl plain_inputs ascii_prot false 4 one_item_world ltac:(lia) eq_refl) as (s & Hr & Hs).
  exists s. split; [exact Hr|]. apply (Hs Waiting s). apply rtc_refl.
Defined.

Lemma lock_covers_bucket_witness :
  wp (memcached_thread_init 4) (started 0 one_item_world) (λ _ s', item_lock_hashpower s' = 12).
Proof.
  pose proof (lock_covers_bucket 4 (started 0 one_item_world) eq_refl eq_refl) as H. cbv zeta in H.
  change (hashpower (tab (kv (wd (started 0 one_item_world)))) <=? item_lock_power (Z.of_nat 4)) with false in H.
  eapply wp_mono; [|exact H]. intros u s' [H' _]. exact H'.
Defined.
