(* ===== verification/Logger.v ===== *)
(** * The logger (logger.c, logger.h)

    Every worker writes log entries into its own ring buffer ([bipbuf]); a
    background thread takes them out, renders each as a line of text and puts
    the line into the ring buffer of every watcher that asked for such
    entries, from where it is written to the watcher's socket.  Entries lie in
    the ring buffers as the bytes of [logentry]; a watcher lives in its slot of
    [watchers] and is gone from it once it is freed. *)
From Stdlib Require Import ZArith Lia.
From stdpp Require Import strings prelude gmap list functions.
From S2P Require Import Prelude Mem Util Item State Items Bip Conn ConnOps Ascii Thread.

(** ** State *)
Inductive logger_watcher_type : Set := LOGGER_WATCHER_STDERR | LOGGER_WATCHER_CLIENT.

Record logger := Logger {
  l_prev : option Z;
  l_next : option Z;
  l_written : Z;
  l_dropped : Z;
  l_eflags : Z;
  l_buf : bipbuf
}.
Definition set_l_prev (v : option Z) (l : logger) : logger := Logger v (l_next l) (l_written l) (l_dropped l) (l_eflags l) (l_buf l).
Definition set_l_next (v : option Z) (l : logger) : logger := Logger (l_prev l) v (l_written l) (l_dropped l) (l_eflags l) (l_buf l).
Definition set_l_written (v : Z) (l : logger) : logger := Logger (l_prev l) (l_next l) v (l_dropped l) (l_eflags l) (l_buf l).
Definition set_l_dropped (v : Z) (l : logger) : logger := Logger (l_prev l) (l_next l) (l_written l) v (l_eflags l) (l_buf l).
Definition set_l_eflags (v : Z) (l : logger) : logger := Logger (l_prev l) (l_next l) (l_written l) (l_dropped l) v (l_buf l).
Definition set_l_buf (v : bipbuf) (l : logger) : logger := Logger (l_prev l) (l_next l) (l_written l) (l_dropped l) (l_eflags l) v.

(** [w_out] is what has been written to the watcher's descriptor so far. *)
Record watcher := Watcher {
  w_c : option Z;
  w_sfd : Z;
  w_id : Z;
  w_skipped : Z;
  w_failed_flush : bool;
  w_t : logger_watcher_type;
  w_eflags : Z;
  w_buf : bipbuf;
  w_out : list Z
}.
Definition set_w_skipped (v : Z) (w : watcher) : watcher := Watcher (w_c w) (w_sfd w) (w_id w) v (w_failed_flush w) (w_t w) (w_eflags w) (w_buf w) (w_out w).
Definition set_w_failed_flush (v : bool) (w : watcher) : watcher := Watcher (w_c w) (w_sfd w) (w_id w) (w_skipped w) v (w_t w) (w_eflags w) (w_buf w) (w_out w).
Definition set_w_buf (v : bipbuf) (w : watcher) : watcher := Watcher (w_c w) (w_sfd w) (w_id w) (w_skipped w) (w_failed_flush w) (w_t w) (w_eflags w) v (w_out w).
Definition set_w_out (v : list Z) (w : watcher) : watcher := Watcher (w_c w) (w_sfd w) (w_id w) (w_skipped w) (w_failed_flush w) (w_t w) (w_eflags w) (w_buf w) v.

Record pollfd := Pollfd { pfd_fd : Z; pfd_events : Z; pfd_revents : Z }.

Record logger_stats := LoggerStats {
  worker_dropped : Z;
  worker_written : Z;
  watcher_skipped : Z;
  watcher_sent : Z
}.

(** What the operating system answers: the poll of the watchers (an error, or
    the events of each descriptor), [read] of one byte and [write]. *)
Inductive read1 : Set := ReadByte | ReadEof | ReadAgain | ReadError.
Inductive write1 : Set := Wrote (n : Z) | WriteAgain | WriteError.

(** [garbage] is what malloc leaves in a new ring buffer, [logger_brk] where the
    next logger will be placed. *)
Record logsys := LogSys {
  loggers : gmap Z logger;
  logger_stack_head : option Z;
  logger_stack_tail : option Z;
  logger_count : Z;
  logger_brk : Z;
  logger_stack_lock : bool;
  watchers : gmap Z watcher;
  watcher_count : Z;
  watchers_pollfds : list pollfd;
  logger_gid : Z;
  lstats : logger_stats;
  clock : list (Z * Z);
  polls : list (option (list Z));
  reads : list read1;
  writes : list write1;
  garbage : memory;
  lsys : system
}.
Definition set_loggers (v : gmap Z logger) (s : logsys) : logsys := LogSys v (logger_stack_head s) (logger_stack_tail s) (logger_count s) (logger_brk s) (logger_stack_lock s) (watchers s) (watcher_count s) (watchers_pollfds s) (logger_gid s) (lstats s) (clock s) (polls s) (reads s) (writes s) (garbage s) (lsys s).
Definition set_logger_stack_head (v : option Z) (s : logsys) : logsys := LogSys (loggers s) v (logger_stack_tail s) (logger_count s) (logger_brk s) (logger_stack_lock s) (watchers s) (watcher_count s) (watchers_pollfds s) (logger_gid s) (lstats s) (clock s) (polls s) (reads s) (writes s) (garbage s) (lsys s).
Definition set_logger_stack_tail (v : option Z) (s : logsys) : logsys := LogSys (loggers s) (logger_stack_head s) v (logger_count s) (logger_brk s) (logger_stack_lock s) (watchers s) (watcher_count s) (watchers_pollfds s) (logger_gid s) (lstats s) (clock s) (polls s) (reads s) (writes s) (garbage s) (lsys s).
Definition set_logger_count (v : Z) (s : logsys) : logsys := LogSys (loggers s) (logger_stack_head s) (logger_stack_tail s) v (logger_brk s) (logger_stack_lock s) (watchers s) (watcher_count s) (watchers_pollfds s) (logger_gid s) (lstats s) (clock s) (polls s) (reads s) (writes s) (garbage s) (lsys s).
Definition set_logger_brk (v : Z) (s : logsys) : logsys := LogSys (loggers s) (logger_stack_head s) (logger_stack_tail s) (logger_count s) v (logger_stack_lock s) (watchers s) (watcher_count s) (watchers_pollfds s) (logger_gid s) (lstats s) (clock s) (polls s) (reads s) (writes s) (garbage s) (lsys s).
Definition set_logger_stack_lock (v : bool) (s : logsys) : logsys := LogSys (loggers s) (logger_stack_head s) (logger_stack_tail s) (logger_count s) (logger_brk s) v (watchers s) (watcher_count s) (watchers_pollfds s) (logger_gid s) (lstats s) (clock s) (polls s) (reads s) (writes s) (garbage s) (lsys s).
Definition set_watchers (v : gmap Z watcher) (s : logsys) : logsys := LogSys (loggers s) (logger_stack_head s) (logger_stack_tail s) (logger_count s) (logger_brk s) (logger_stack_lock s) v (watcher_count s) (watchers_pollfds s) (logger_gid s) (lstats s) (clock s) (polls s) (reads s) (writes s) (garbage s) (lsys s).
Definition set_watcher_count (v : Z) (s : logsys) : logsys := LogSys (loggers s) (logger_stack_head s) (logger_stack_tail s) (logger_count s) (logger_brk s) (logger_stack_lock s) (watchers s) v (watchers_pollfds s) (logger_gid s) (lstats s) (clock s) (polls s) (reads s) (writes s) (garbage s) (lsys s).
Definition set_watchers_pollfds (v : list pollfd) (s : logsys) : logsys := LogSys (loggers s) (logger_stack_head s) (logger_stack_tail s) (logger_count s) (logger_brk s) (logger_stack_lock s) (watchers s) (watcher_count s) v (logger_gid s) (lstats s) (clock s) (polls s) (reads s) (writes s) (garbage s) (lsys s).
Definition set_logger_gid (v : Z) (s : logsys) : logsys := LogSys (loggers s) (logger_stack_head s) (logger_stack_tail s) (logger_count s) (logger_brk s) (logger_stack_lock s) (watchers s) (watcher_count s) (watchers_pollfds s) v (lstats s) (clock s) (polls s) (reads s) (writes s) (garbage s) (lsys s).
Definition set_lstats (v : logger_stats) (s : logsys) : logsys := LogSys (loggers s) (logger_stack_head s) (logger_stack_tail s) (logger_count s) (logger_brk s) (logger_stack_lock s) (watchers s) (watcher_count s) (watchers_pollfds s) (logger_gid s) v (clock s) (polls s) (reads s) (writes s) (garbage s) (lsys s).
Definition set_clock (v : list (Z * Z)) (s : logsys) : logsys := LogSys (loggers s) (logger_stack_head s) (logger_stack_tail s) (logger_count s) (logger_brk s) (logger_stack_lock s) (watchers s) (watcher_count s) (watchers_pollfds s) (logger_gid s) (lstats s) v (polls s) (reads s) (writes s) (garbage s) (lsys s).
Definition set_polls (v : list (option (list Z))) (s : logsys) : logsys := LogSys (loggers s) (logger_stack_head s) (logger_stack_tail s) (logger_count s) (logger_brk s) (logger_stack_lock s) (watchers s) (watcher_count s) (watchers_pollfds s) (logger_gid s) (lstats s) (clock s) v (reads s) (writes s) (garbage s) (lsys s).
Definition set_reads (v : list read1) (s : logsys) : logsys := LogSys (loggers s) (logger_stack_head s) (logger_stack_tail s) (logger_count s) (logger_brk s) (logger_stack_lock s) (watchers s) (watcher_count s) (watchers_pollfds s) (logger_gid s) (lstats s) (clock s) (polls s) v (writes s) (garbage s) (lsys s).
Definition set_writes (v : list write1) (s : logsys) : logsys := LogSys (loggers s) (logger_stack_head s) (logger_stack_tail s) (logger_count s) (logger_brk s) (logger_stack_lock s) (watchers s) (watcher_count s) (watchers_pollfds s) (logger_gid s) (lstats s) (clock s) (polls s) (reads s) v (garbage s) (lsys s).
Definition set_lsys (v : system) (s : logsys) : logsys := LogSys (loggers s) (logger_stack_head s) (logger_stack_tail s) (logger_count s) (logger_brk s) (logger_stack_lock s) (watchers s) (watcher_count s) (watchers_pollfds s) (logger_gid s) (lstats s) (clock s) (polls s) (reads s) (writes s) (garbage s) v.

Definition lg (A : Type) : Type := M logsys A.
Definition lsysio {A} (m : sys A) : lg A := zoom lsys set_lsys m.

Definition get_logger (l : Z) : lg logger := λ s,
  match loggers s !! l with Some x => Ok (x, s) | None => Fault NullDeref end.
Definition upd_logger (l : Z) (f : logger → logger) : lg unit :=
  x ← get_logger l;
  modify (λ s, set_loggers (<[l := f x]> (loggers s)) s).
(** [w->...] for the watcher that was in slot [x]: it is freed when it leaves
    its slot. *)
Definition get_watcher (x : Z) : lg watcher := λ s,
  match watchers s !! x with Some w => Ok (w, s) | None => Fault UseAfterFree end.
Definition upd_watcher (x : Z) (f : watcher → watcher) : lg unit :=
  w ← get_watcher x;
  modify (λ s, set_watchers (<[x := f w]> (watchers s)) s).
Definition upd_lstats (f : logger_stats → logger_stats) : lg unit := modify (λ s, set_lstats (f (lstats s)) s).

(** [pthread_mutex_lock(&logger_stack_lock)]: every critical section is one
    operation of the model, so a lock found taken was never given back. *)
Definition stack_lock : lg unit :=
  held ← gets logger_stack_lock;
  if held : bool then fail Deadlock else modify (set_logger_stack_lock true).
Definition stack_unlock : lg unit := modify (set_logger_stack_lock false).

(** ** Entries *)
Definition LOGGER_TEXT_ENTRY : Z := 0.
Definition LOGGER_EVICTION_ENTRY : Z := 1.
Definition LOGGER_ITEM_GET_ENTRY : Z := 2.
Definition LOGGER_ITEM_STORE_ENTRY : Z := 3.
Definition WATCHER_LIMIT : Z := 20.
Definition WATCHER_ALL : Z := -1.

(** [logentry]: event@0 (4), eflags@4 (2), gid@8 (8), tv@16 (8 + 8), size@32
    (4, signed) and [data] at 40 = sizeof(logentry). *)
Definition SIZEOF_logentry : Z := 40.
Definition le_event (m : memory) (e : Z) : Z := load_le m e 4.
Definition le_eflags (m : memory) (e : Z) : Z := load_le m (e + 4) 2.
Definition le_gid (m : memory) (e : Z) : Z := load_le m (e + 8) 8.
Definition le_sec (m : memory) (e : Z) : Z := load_le m (e + 16) 8.
Definition le_usec (m : memory) (e : Z) : Z := load_le m (e + 24) 8.
Definition le_size (m : memory) (e : Z) : Z := i32 (load_le m (e + 32) 4).
Definition le_data (e : Z) : Z := e + SIZEOF_logentry.

(** ** Rendering *)
Definition LOGGER_PARSE_SCRATCH : Z := 4096.
Definition KEYBUF_SIZE : Z := KEY_MAX_LENGTH * 3 + 1.

(** ["ts=%d.%d gid=%llu"] *)
Definition stamp (m : memory) (e : Z) : list Z :=
  str "ts=" ++ fmt_d (i32 (le_sec m e)) ++ str "." ++ fmt_d (i32 (le_usec m e)) ++ str " gid=" ++ fmt_u (le_gid m e).

(** [uriencode(key, keybuf, nkey, LOGGER_PARSE_SCRATCH)]: the bound it is given
    is not the size of [keybuf]. *)
Definition keybuf (m : memory) (p n : Z) : result (list Z) :=
  match uriencode uriencode_init (load_bytes m p (Z.to_nat n)) LOGGER_PARSE_SCRATCH with
  | None => Fault OutOfBounds
  | Some out => if KEYBUF_SIZE <? Z.of_nat (length out) + 1 then Fault OutOfBounds else Ok out
  end.

(** An element of a table of strings. *)
Definition table_at (t : list string) (i : Z) : result (list Z) :=
  if i <? 0 then Fault OutOfBounds
  else match t !! Z.to_nat i with Some x => Ok (str x) | None => Fault OutOfBounds end.

Definition rbind {A B} (r : result A) (k : A → result B) : result B :=
  match r with Ok a => k a | Fault f => Fault f end.

Definition status_map : list string := ["stored"; "exists"; "not_found"; "too_large"; "no_memory"]%string.
Definition cmd_map : list string := ["add"; "set"; "replace"; "append"; "prepend"; "cas"]%string.
Definition was_found_map : list string := ["not_found"; "found"; "flushed"; "expired"]%string.

(** [logentry_item_store]: status@0 (4), cmd@4 (4), nkey@8, key@9; its size is 12. *)
Definition _logger_thread_parse_ise (m : memory) (e : Z) : result (list Z) :=
  let le := le_data e in
  let c := i32 (load_le m (le + 4) 4) in
  rbind (if c <=? 5 then table_at cmd_map c else Ok (str "na")) (λ cmd,
  rbind (keybuf m (le + 9) (load_le m (le + 8) 1)) (λ key,
  rbind (table_at status_map (i32 (load_le m le 4))) (λ status,
  Ok (stamp m e ++ str " type=item_store key=" ++ key ++ str " status=" ++ status ++ str " cmd=" ++ cmd ++ [LF])))).

(** [logentry_item_get]: was_found@0, nkey@1, key@2; its size is 2. *)
Definition _logger_thread_parse_ige (m : memory) (e : Z) : result (list Z) :=
  let le := le_data e in
  rbind (keybuf m (le + 2) (load_le m (le + 1) 1)) (λ key,
  rbind (table_at was_found_map (load_le m le 1)) (λ status,
  Ok (stamp m e ++ str " type=item_get key=" ++ key ++ str " status=" ++ status ++ [LF]))).

(** [logentry_eviction]: exptime@0 (8, signed), latime@8 (4), it_flags@12 (2),
    nkey@14, key@15; its size is 16. *)
Definition _logger_thread_parse_ee (m : memory) (e : Z) : result (list Z) :=
  let le := le_data e in
  rbind (keybuf m (le + 15) (load_le m (le + 14) 1)) (λ key,
  Ok (stamp m e ++ str " type=eviction key=" ++ key ++
      str " fetch=" ++ (if has (load_le m (le + 12) 2) ITEM_STORED then str "yes" else str "no") ++
      str " ttl=" ++ fmt_d (i64 (load_le m le 8)) ++ str " la=" ++ fmt_d (i32 (load_le m (le + 8) 4)) ++ [LF])).

(** The text of an entry; nothing for an event the switch does not know. *)
Definition entry_text (m : memory) (e : Z) : result (list Z) :=
  if le_event m e =? LOGGER_TEXT_ENTRY then Ok (stamp m e ++ [SP] ++ cstring m (le_data e) ++ [LF])
  else if le_event m e =? LOGGER_EVICTION_ENTRY then _logger_thread_parse_ee m e
  else if le_event m e =? LOGGER_ITEM_GET_ENTRY then _logger_thread_parse_ige m e
  else if le_event m e =? LOGGER_ITEM_STORE_ENTRY then _logger_thread_parse_ise m e
  else Ok [].

(** The line in [scratch] with its terminating zero, [scratch_len] bytes;
    nothing when it does not fit. *)
Definition logger_thread_parse_entry (m : memory) (e : Z) : result (option (list Z)) :=
  rbind (entry_text m e) (λ t,
  let total := Z.of_nat (length t) in
  Ok (if (total >=? LOGGER_PARSE_SCRATCH) || (total <=? 0) then None else Some (t ++ [0]))).

Definition lift_result {A} (r : result A) : lg A := λ s, match r with Ok a => Ok (a, s) | Fault f => Fault f end.

(** ** The registry of watchers *)
(** The flags any watcher asks for. *)
Definition wanted_flags (ws : gmap Z watcher) : Z :=
  foldl (λ f x, match ws !! x with None => f | Some w => Z.lor f (w_eflags w) end) 0 (seqZ 0 WATCHER_LIMIT).

Definition set_flags_body (f : Z) (p : option Z) : lg (option Z + unit) :=
  match p with
  | None => mret (inr tt)
  | Some l =>
      x ← get_logger l;
      _ ← upd_logger l (set_l_eflags f);
      mret (inl (l_next x))
  end.
Definition logger_set_flags : lg unit :=
  f ← gets (λ s, wanted_flags (watchers s));
  hd ← gets logger_stack_head;
  loop FUEL (set_flags_body f) hd.

Definition logger_thread_close_watcher (x : Z) : lg unit :=
  w ← get_watcher x;
  _ ← modify (λ s, set_watchers (delete (w_id w) (watchers s)) s);
  _ ← match w_c w with
      | None => fail NullDeref
      | Some c => lsysio (sidethread_conn_close c)
      end;
  _ ← modify (λ s, set_watcher_count (watcher_count s - 1) s);
  logger_set_flags.

(** ** Polling the watchers *)
Definition POLLIN : Z := 1.
Definition POLLOUT : Z := 4.
Definition POLLERR : Z := 8.
Definition POLLHUP : Z := 16.
Definition POLLNVAL : Z := 32.

Definition put_pollfd (i fd events : Z) : lg unit := λ s,
  match watchers_pollfds s !! Z.to_nat i with
  | Some p => Ok (tt, set_watchers_pollfds (<[Z.to_nat i := Pollfd fd events (pfd_revents p)]> (watchers_pollfds s)) s)
  | None => Fault OutOfBounds
  end.
Definition get_revents (i : Z) : lg Z := λ s,
  match watchers_pollfds s !! Z.to_nat i with Some p => Ok (pfd_revents p, s) | None => Fault OutOfBounds end.

(** [poll] of the first [nfd] descriptors: the kernel reports, of what
    happened, the events asked for and the error conditions. *)
Definition polled (rs : list Z) (i : nat) (p : pollfd) : pollfd :=
  Pollfd (pfd_fd p) (pfd_events p)
    (Z.land (default 0 (rs !! i)) (Z.lor (pfd_events p) (Z.lor POLLERR (Z.lor POLLHUP POLLNVAL)))).
Definition poll (nfd : Z) : lg Z := λ s,
  let answer := match polls s with [] => Some [] | a :: _ => a end in
  let s := set_polls (tail (polls s)) s in
  match answer with
  | None => Ok (-1, s)
  | Some rs =>
      let n := Z.to_nat nfd in
      let ps := imap (polled rs) (take n (watchers_pollfds s)) in
      Ok (Z.of_nat (length (filter (λ p, pfd_revents p ≠ 0) ps)),
          set_watchers_pollfds (ps ++ drop n (watchers_pollfds s)) s)
  end.

(** The descriptors to poll, numbered from [nfd]. *)
Definition poll_collect (force_poll : bool) (watcher nfd x : Z) : lg Z :=
  w ← gets (λ s, watchers s !! x);
  match w with
  | None => mret nfd
  | Some w =>
      if negb (watcher =? WATCHER_ALL) && negb (x =? watcher) then mret nfd
      else
        nfd' ← match bipbuf_peek_all (w_buf w) with
               | Some _ => _ ← put_pollfd nfd (w_sfd w) POLLOUT; mret (nfd + 1)
               | None =>
                   if force_poll then _ ← put_pollfd nfd (w_sfd w) POLLIN; mret (nfd + 1)
                   else mret nfd
               end;
        _ ← upd_watcher x (set_w_failed_flush false);
        mret nfd'
  end.

(** [read(w->sfd, buf, 1)]: whether the connection is gone. *)
Definition read_closed : lg bool := λ s,
  match reads s with
  | [] => Ok (false, s)
  | r :: l => Ok (match r with ReadEof | ReadError => true | _ => false end, set_reads l s)
  end.

(** [write(w->sfd, data, data_size)]; stderr takes everything. *)
Definition next_write (t : logger_watcher_type) (n : Z) : lg write1 := λ s,
  match t with
  | LOGGER_WATCHER_STDERR => Ok (Wrote n, s)
  | LOGGER_WATCHER_CLIENT =>
      match writes s with
      | [] => Ok (Wrote n, s)
      | Wrote k :: l => Ok (Wrote (Z.max 0 (Z.min k n)), set_writes l s)
      | r :: l => Ok (r, set_writes l s)
      end
  end.

(** A watcher that has data and can take some: the number of bytes written. *)
Definition flush_watcher (x : Z) (w : watcher) (off n : Z) : lg Z :=
  r ← next_write (w_t w) n;
  match r with
  | WriteAgain => mret 0
  | WriteError => _ ← logger_thread_close_watcher x; mret 0
  | Wrote total =>
      if total =? 0 then _ ← logger_thread_close_watcher x; mret 0
      else
        _ ← upd_watcher x (λ w, set_w_buf (bipbuf_poll (w_buf w) total).2
               (set_w_out (w_out w ++ load_bytes (bip_data (w_buf w)) off (Z.to_nat total)) w));
        mret total
  end.

(** One watcher of the second loop: [nfd] and [flushed]. *)
Definition poll_watcher (acc : Z * Z) (x : Z) : lg (Z * Z) :=
  let '(nfd, flushed) := acc in
  w ← gets (λ s, watchers s !! x);
  match w with
  | None => mret (nfd, flushed)
  | Some w =>
      r ← get_revents nfd;
      gone ← (if has r POLLIN then read_closed else mret false);
      if gone : bool then
        _ ← logger_thread_close_watcher x; mret (nfd + 1, flushed)
      else
        match bipbuf_peek_all (w_buf w) with
        | None => mret (nfd + 1, flushed)
        | Some (off, n) =>
            if has r (Z.lor POLLHUP POLLERR) then
              _ ← logger_thread_close_watcher x; mret (nfd + 1, flushed)
            else if has r POLLOUT then
              k ← flush_watcher x w off n;
              mret (nfd + 1, flushed + k)
            else mret (nfd + 1, flushed)
        end
  end.

Definition logger_thread_poll_watchers (force_poll : bool) (watcher : Z) : lg Z :=
  nfd ← foldl (λ m x, nfd ← m; poll_collect force_poll watcher nfd x) (mret 0) (seqZ 0 WATCHER_LIMIT);
  if nfd =? 0 then mret 0
  else
    ret ← poll nfd;
    if ret <? 0 then mret (-1)
    else
      r ← foldl (λ m x, acc ← m; poll_watcher acc x) (mret (0, 0)) (seqZ 0 WATCHER_LIMIT);
      mret r.2.

(** ** Lines into the watchers' buffers *)
Definition SKIP_ROOM : Z := 128.
(** ["skipped=%llu\n"] *)
Definition skipped_text (n : Z) : list Z := str "skipped=" ++ fmt_u n ++ [LF].

(** One turn of the loop that looks for room: where it was found, or nothing
    when the watcher could not be flushed. *)
Definition room_body (x len : Z) (_ : unit) : lg (unit + option Z) :=
  w ← get_watcher x;
  if w_failed_flush w then mret (inr None)
  else match bipbuf_request (w_buf w) (len + SKIP_ROOM) with
       | Some off => mret (inr (Some off))
       | None =>
           r ← logger_thread_poll_watchers false x;
           _ ← when (r <=? 0) (upd_watcher x (set_w_failed_flush true));
           mret (inl tt)
       end.

Definition count_skipped (x : Z) : lg unit :=
  _ ← upd_watcher x (λ w, set_w_skipped (u64 (w_skipped w + 1)) w);
  upd_lstats (λ l, LoggerStats (worker_dropped l) (worker_written l) (u64 (watcher_skipped l + 1)) (watcher_sent l)).

(** The notice of skipped lines goes to the room found, then the line. *)
Definition put_line (x off : Z) (line : list Z) : lg unit :=
  w ← get_watcher x;
  let t := skipped_text (w_skipped w) in
  let total := Z.of_nat (length t) in
  if (w_skipped w >? 0) && ((total >=? SKIP_ROOM) || (total <=? 0)) then count_skipped x
  else
    _ ← when (w_skipped w >? 0)
          (upd_watcher x (λ w,
             let b := bip_set_data (store_bytes (bip_data (w_buf w)) off (t ++ [0])) (w_buf w) in
             set_w_skipped 0 (set_w_buf (bipbuf_push b (total + 1)).2 w)));
    _ ← upd_watcher x (λ w, set_w_buf (bipbuf_offer (w_buf w) line (Z.of_nat (length line))).2 w);
    upd_lstats (λ l, LoggerStats (worker_dropped l) (worker_written l) (watcher_skipped l) (u64 (watcher_sent l + 1))).

Definition write_watcher (eflags : Z) (line : list Z) (_ : unit) (x : Z) : lg unit :=
  w ← gets (λ s, watchers s !! x);
  match w with
  | None => mret tt
  | Some w =>
      if Z.land eflags (w_eflags w) =? 0 then mret tt
      else
        off ← loop FUEL (room_body x (Z.of_nat (length line))) tt;
        match off with
        | None => count_skipped x
        | Some off => put_line x off line
        end
  end.

Definition logger_thread_write_entry (eflags : Z) (line : list Z) : lg unit :=
  foldl (λ m x, u ← m; write_watcher eflags line u x) (mret tt) (seqZ 0 WATCHER_LIMIT).

(** ** Emptying a worker's buffer *)
(** One entry of the [size] bytes at [off]: the position behind it. *)
Definition read_body (m : memory) (off size pos : Z) : lg (Z + Z) :=
  wc ← gets watcher_count;
  if (pos <? size) && (wc >? 0) then
    let e := off + pos in
    line ← lift_result (logger_thread_parse_entry m e);
    _ ← match line with
        | None => mret tt
        | Some line => logger_thread_write_entry (le_eflags m e) line
        end;
    mret (inl (u32 (pos + u64 (SIZEOF_logentry + le_size m e))))
  else mret (inr pos).

(** The counters of a worker go into the statistics of the turn. *)
Definition take_counts (l : logger) (ls : logger_stats) : logger_stats :=
  LoggerStats (u64 (worker_dropped ls + l_dropped l)) (u64 (worker_written ls + l_written l))
    (watcher_skipped ls) (watcher_sent ls).

Definition logger_thread_read (l : Z) : lg Z :=
  x ← get_logger l;
  match bipbuf_peek_all (l_buf x) with
  | None => mret 0
  | Some (off, size) =>
      pos ← loop FUEL (read_body (bip_data (l_buf x)) off size) 0;
      _ ← assert_ (pos <=? size);
      x ← get_logger l;
      let '(data, b) := bipbuf_poll (l_buf x) size in
      _ ← upd_logger l (set_l_buf b);
      _ ← upd_lstats (take_counts x);
      _ ← upd_logger l (λ x, set_l_dropped 0 (set_l_written 0 x));
      _ ← assert_ (bool_decide (is_Some data));
      mret (i32 size)
  end.

Definition logger_thread_sum_stats : lg unit :=
  ls ← gets lstats;
  lsysio (wio (srv (
    _ ← stats_add log_worker_dropped (worker_dropped ls);
    _ ← stats_add log_worker_written (worker_written ls);
    _ ← stats_add log_watcher_skipped (watcher_skipped ls);
    stats_add log_watcher_sent (watcher_sent ls)))).

Definition MAX_LOGGER_SLEEP : Z := 100000.
Definition MIN_LOGGER_SLEEP : Z := 0.

Definition read_all_body (acc : option Z * Z) : lg ((option Z * Z) + Z) :=
  let '(p, found) := acc in
  match p with
  | None => mret (inr found)
  | Some l =>
      n ← logger_thread_read l;
      x ← get_logger l;
      mret (inl (l_next x, i32 (found + n)))
  end.

(** One turn of [logger_thread], after it slept for [to_sleep]: how long to
    sleep next. *)
Definition logger_thread_turn (to_sleep : Z) : lg Z :=
  _ ← modify (set_lstats (LoggerStats 0 0 0 0));
  _ ← stack_lock;
  hd ← gets logger_stack_head;
  found_logs ← loop FUEL read_all_body (hd, 0);
  _ ← logger_thread_poll_watchers true WATCHER_ALL;
  _ ← stack_unlock;
  let to_sleep' :=
    if found_logs =? 0 then (if to_sleep <? MAX_LOGGER_SLEEP then to_sleep + 50 else to_sleep)
    else if to_sleep / 2 <? 50 then MIN_LOGGER_SLEEP else to_sleep / 2 in
  _ ← logger_thread_sum_stats;
  mret to_sleep'.

(** ** Workers *)
Definition logger_link_q (l : Z) : lg unit :=
  _ ← stack_lock;
  hd ← gets logger_stack_head;
  _ ← assert_ (bool_decide (Some l ≠ hd));
  _ ← upd_logger l (set_l_prev None);
  _ ← upd_logger l (set_l_next hd);
  _ ← match hd with Some h => upd_logger h (set_l_prev (Some l)) | None => mret tt end;
  _ ← modify (set_logger_stack_head (Some l));
  tl ← gets logger_stack_tail;
  _ ← when (bool_decide (tl = None)) (modify (set_logger_stack_tail (Some l)));
  _ ← modify (λ s, set_logger_count (u32 (logger_count s + 1)) s);
  stack_unlock.

Definition log_cfg : lg settings := gets (λ s, cfg (kv (wd (lsys s)))).

Definition logger_create : lg (option Z) :=
  ok ← lsysio (wio malloc_ok);
  if negb ok then mret None
  else
    ok ← lsysio (wio malloc_ok);
    c ← log_cfg;
    m ← gets garbage;
    match bipbuf_new (logger_buf_size c) m ok with
    | None => mret None
    | Some b =>
        l ← gets logger_brk;
        _ ← modify (λ s, set_logger_brk (l + 1) (set_loggers (<[l := Logger None None 0 0 0 b]> (loggers s)) s));
        _ ← logger_link_q l;
        mret (Some l)
    end.

Definition logger_get_gid : lg Z :=
  _ ← modify (λ s, set_logger_gid (u64 (logger_gid s + 1)) s);
  gets logger_gid.

Definition gettimeofday : lg (Z * Z) := λ s,
  match clock s with [] => Ok ((0, 0), s) | t :: l => Ok (t, set_clock l s) end.

(** What is logged: a command (its format is "<%d %s"), an evicted item, the
    result of a fetch, the result of a store. *)
Inductive log_args : Type :=
  | LogAsciiCmd (fd : Z) (text : list Z)
  | LogEviction (it : Z)
  | LogItemGet (was_found : Z) (key : list Z)
  | LogItemStore (status comm : Z) (key : list Z).

(** [default_entries]: subtype and flags; [reqlen] is 512 for all. *)
Definition entry_subtype (a : log_args) : Z :=
  match a with
  | LogAsciiCmd _ _ => LOGGER_TEXT_ENTRY
  | LogEviction _ => LOGGER_EVICTION_ENTRY
  | LogItemGet _ _ => LOGGER_ITEM_GET_ENTRY
  | LogItemStore _ _ _ => LOGGER_ITEM_STORE_ENTRY
  end.
Definition entry_eflags (a : log_args) : Z :=
  match a with
  | LogAsciiCmd _ _ => LOG_RAWCMDS
  | LogEviction _ => LOG_EVICTIONS
  | LogItemGet _ _ => LOG_FETCHERS
  | LogItemStore _ _ _ => LOG_MUTATIONS
  end.
Definition REQLEN : Z := 512.

Definition set_le_size (e v : Z) (m : memory) : memory := store_le m (e + 32) 4 v.

Definition _logger_log_item_get (e was_found : Z) (key : list Z) (m : memory) : memory :=
  let le := le_data e in
  let n := Z.of_nat (length key) in
  set_le_size e (2 + n) (store_bytes (store_le (store_le m le 1 was_found) (le + 1) 1 n) (le + 2) key).

Definition _logger_log_item_store (e status comm : Z) (key : list Z) (m : memory) : memory :=
  let le := le_data e in
  let n := Z.of_nat (length key) in
  set_le_size e (12 + n)
    (store_bytes (store_le (store_le (store_le m le 4 status) (le + 4) 4 comm) (le + 8) 1 n) (le + 9) key).

Definition _logger_log_evictions (e : Z) (m : memory) (s : cache) (x : item_metadata) : memory :=
  let le := le_data e in
  let it := item x in
  let ttl := if exptime (log s) it >? 0 then u32 (exptime (log s) it - current_time s) else -1 in
  let nk := nkey (log s) it in
  let m := store_le m le 8 ttl in
  let m := store_le m (le + 8) 4 (current_time s - time x) in
  let m := store_le m (le + 12) 2 (it_flags x) in
  let m := store_le m (le + 14) 1 nk in
  let m := store_bytes m (le + 15) (item_key (log s) it) in
  set_le_size e (16 + nk) m.

(** [vsnprintf] of a command; the size is only set when it fits. *)
Definition log_text (e fd : Z) (text : list Z) (m : memory) : memory :=
  let t := str "<" ++ fmt_d fd ++ [SP] ++ text in
  let total := Z.of_nat (length t) in
  let m := store_bytes m (le_data e) (take (Z.to_nat (REQLEN - 1)) t ++ [0]) in
  if (total >=? REQLEN) || (total <=? 0) then m else set_le_size e (total + 1) m.

Definition fill_entry (e : Z) (a : log_args) (m : memory) : lg memory :=
  match a with
  | LogAsciiCmd fd text => mret (log_text e fd text m)
  | LogEviction it =>
      s ← gets (λ s, kv (wd (lsys s)));
      x ← lsysio (wio (srv (get_meta it)));
      mret (_logger_log_evictions e m s x)
  | LogItemGet f key => mret (_logger_log_item_get e f key m)
  | LogItemStore st c key => mret (_logger_log_item_store e st c key m)
  end.

Inductive logger_ret_type : Set := LOGGER_RET_OK | LOGGER_RET_NOSPACE | LOGGER_RET_ERR.

Definition logger_log (l : Z) (a : log_args) : lg logger_ret_type :=
  x ← get_logger l;
  match bipbuf_request (l_buf x) (SIZEOF_logentry + REQLEN) with
  | None =>
      _ ← upd_logger l (λ x, set_l_dropped (u64 (l_dropped x + 1)) x);
      mret LOGGER_RET_NOSPACE
  | Some e =>
      gid ← logger_get_gid;
      tv ← gettimeofday;
      let m := store_le (bip_data (l_buf x)) (e + 8) 8 gid in
      let m := store_le m e 4 (entry_subtype a) in
      let m := store_le m (e + 4) 2 (entry_eflags a) in
      let m := store_le (store_le m (e + 16) 8 tv.1) (e + 24) 8 tv.2 in
      m ← fill_entry e a m;
      let '(n, b) := bipbuf_push (bip_set_data m (l_buf x)) (i32 (u64 (SIZEOF_logentry + le_size m e))) in
      _ ← upd_logger l (set_l_buf b);
      if n =? 0 then mret LOGGER_RET_ERR
      else
        _ ← upd_logger l (λ x, set_l_written (u64 (l_written x + 1)) x);
        mret LOGGER_RET_OK
  end.

(** The macro [LOGGER_LOG]. *)
Definition LOGGER_LOG (l flag : Z) (a : log_args) : lg unit :=
  x ← get_logger l;
  when (has (l_eflags x) flag) (_ ← logger_log l a; mret tt).

(** The first empty slot, [WATCHER_LIMIT] if there is none. *)
Definition free_slot (ws : gmap Z watcher) : Z :=
  match filter (λ x, ws !! x = None) (seqZ 0 WATCHER_LIMIT) with
  | x :: _ => x
  | [] => WATCHER_LIMIT
  end.

Definition logger_add_watcher (c : option Z) (sfd f : Z) : lg watcher_result :=
  _ ← stack_lock;
  n ← gets watcher_count;
  if n >=? WATCHER_LIMIT then mret WATCHER_TOO_MANY
  else
    x ← gets (λ s, free_slot (watchers s));
    ok ← lsysio (wio malloc_ok);
    if negb ok then _ ← stack_unlock; mret WATCHER_FAILED
    else
      let t := if (sfd =? 0) && bool_decide (c = None) then LOGGER_WATCHER_STDERR else LOGGER_WATCHER_CLIENT in
      ok ← lsysio (wio malloc_ok);
      cf ← log_cfg;
      m ← gets garbage;
      match bipbuf_new (logger_watcher_buf_size cf) m ok with
      | None => _ ← stack_unlock; mret WATCHER_FAILED
      | Some b =>
          let b := (bipbuf_offer b (str "OK" ++ crlf) 4).2 in
          _ ← modify (λ s, set_watchers (<[x := Watcher c sfd x 0 false t (u16 f) b []]> (watchers s)) s);
          _ ← modify (λ s, set_watcher_count (watcher_count s + 1) s);
          _ ← logger_set_flags;
          _ ← stack_unlock;
          mret WATCHER_OK
      end.

(** [logger_init]: an empty stack, the thread (or [abort]) and statistics from
    zero. *)
Definition logger_init : lg unit :=
  _ ← modify (λ s, set_logger_stack_tail None (set_logger_stack_head None s));
  ok ← lsysio (wio event_ok);
  _ ← when (negb ok) (fail (Exited 134));
  lsysio (wio (srv (
    _ ← stats_put log_worker_dropped 0;
    _ ← stats_put log_worker_written 0;
    _ ← stats_put log_watcher_skipped 0;
    stats_put log_watcher_sent 0))).
