(* ===== verification/LoggerFacts.v ===== *)
(** * What the watchers of the log are told

    The registry of watchers as an invariant, and the logger thread against
    an abstract stream per watcher: what was written to its socket followed by
    what waits in its buffer.  Polling moves bytes along the stream; writing an
    entry extends it by the rendered line, after a notice of the lines skipped
    before it, or counts the line as skipped. *)
From Stdlib Require Import ZArith Lia.
From stdpp Require Import strings prelude gmap list functions.
From S2P Require Import Prelude Mem Util Item State Items Bip Conn ConnOps Ascii Thread ThreadFacts Logger.

(** ** Invariant *)
Fixpoint lchain (m : gmap Z logger) (p : option Z) (L : list Z) : Prop :=
  match L with
  | [] => p = None
  | a :: L => p = Some a ∧ ∃ x, m !! a = Some x ∧ lchain m (l_next x) L
  end.

Record watcher_ok (cs : gmap Z conn) (x : Z) (w : watcher) : Prop := {
  wo_slot : 0 ≤ x < WATCHER_LIMIT;
  wo_id : w_id w = x;
  wo_buf : bip_ok (w_buf w);
  wo_skipped : 0 ≤ w_skipped w;
  wo_conn : ∃ c, w_c w = Some c ∧ is_Some (cs !! c)
}.

(** [L]: the loggers of the stack. *)
Record registry_ok (s : logsys) (L : list Z) : Prop := {
  ro_watchers : map_Forall (watcher_ok (conns (en (wd (lsys s))))) (watchers s);
  ro_count : watcher_count s = Z.of_nat (size (watchers s));
  ro_pollfds : length (watchers_pollfds s) = 20%nat;
  ro_stack : lchain (loggers s) (logger_stack_head s) L;
  ro_nodup : NoDup L;
  ro_small : Z.of_nat (length L) < 2 ^ 32;
  ro_flags : ∀ l x, l ∈ L → loggers s !! l = Some x → l_eflags x = wanted_flags (watchers s)
}.

(** ** Streams *)
Definition stream (w : watcher) : list Z := w_out w ++ bip_content (w_buf w).

(** Everything of a watcher but the contents of its buffer, its output and the
    flush flag. *)
Definition who (w : watcher) : option Z * Z * Z * Z * logger_watcher_type * Z * Z :=
  (w_c w, w_sfd w, w_id w, w_skipped w, w_t w, w_eflags w, bip_size (w_buf w)).
Lemma switch_size b : bip_size (check_for_switch_to_b b) = bip_size b.
Proof. unfold check_for_switch_to_b. by destruct (_ <? _). Qed.
Lemma poll_size b n : bip_size (bipbuf_poll b n).2 = bip_size b.
Proof.
  unfold bipbuf_poll. destruct (bipbuf_is_empty b); [done|]. destruct (_ <? _); [done|]. cbn [snd].
  rewrite switch_size. destruct (_ =? _); [|done]. by destruct (b_inuse b).
Qed.
Lemma advance_size b n d : bip_size (bipbuf_advance b n d) = bip_size b.
Proof. unfold bipbuf_advance. by destruct (b_inuse b). Qed.
Lemma push_size b n : bip_size (bipbuf_push b n).2 = bip_size b.
Proof. unfold bipbuf_push. destruct (_ <? _); [done|]. cbn [snd]. by rewrite switch_size, advance_size. Qed.
Lemma offer_size b d n : bip_size (bipbuf_offer b d n).2 = bip_size b.
Proof. unfold bipbuf_offer. destruct (_ <? _); [done|]. cbn [snd]. by rewrite switch_size, advance_size. Qed.

Definition survives (ws ws' : gmap Z watcher) : Prop :=
  ∀ x w', ws' !! x = Some w' → ∃ w, ws !! x = Some w ∧ who w' = who w ∧ stream w' = stream w.

(** What polling leaves alone. *)
Record evolves (s s' : logsys) : Prop := {
  ev_watchers : survives (watchers s) (watchers s');
  ev_loggers : ∀ l, set_l_eflags 0 <$> loggers s' !! l = set_l_eflags 0 <$> loggers s !! l;
  ev_head : logger_stack_head s' = logger_stack_head s;
  ev_lock : logger_stack_lock s' = logger_stack_lock s;
  ev_lstats : lstats s' = lstats s
}.
#[global] Instance evolves_refl : Reflexive evolves.
Proof. intros s. split; try done. intros x w Hw. by exists w. Qed.
#[global] Instance evolves_trans : Transitive evolves.
Proof.
  intros s1 s2 s3 [A1 A2 A3 A4 A5] [B1 B2 B3 B4 B5]. split; try congruence.
  - intros x w3 H3. destruct (B1 x w3 H3) as (w2 & H2 & ? & ?). destruct (A1 x w2 H2) as (w & H1 & ? & ?).
    exists w. split_and!; congruence.
Qed.

(** The bytes waiting in the buffers. *)
Definition waiting (o : option watcher) : nat := match o with Some w => length (bip_content (w_buf w)) | None => 0%nat end.
Definition buffered (ws : gmap Z watcher) : nat := sum_list ((λ x, waiting (ws !! x)) <$> seqZ 0 WATCHER_LIMIT).

Lemma sum_list_change {A} `{EqDecision A} (f g : A → nat) l x :
  NoDup l → x ∈ l → (∀ y, y ≠ x → g y = f y) → (sum_list (g <$> l) + f x = sum_list (f <$> l) + g x)%nat.
Proof.
  intros Hnd Hx Hfg. induction Hnd as [|a l Ha Hnd IH]; [by apply not_elem_of_nil in Hx|]. cbn.
  destruct (decide (a = x)) as [->|Hne].
  - assert (g <$> l = f <$> l) as ->; [|lia]. apply list_fmap_ext. intros i y Hy. apply Hfg. intros ->.
    apply Ha. by eapply list_elem_of_lookup_2.
  - specialize (IH ltac:(set_solver)). rewrite (Hfg a Hne). lia.
Qed.
Lemma buffered_change ws ws' x :
  0 ≤ x < WATCHER_LIMIT → (∀ y, y ≠ x → ws' !! y = ws !! y) →
  (buffered ws' + waiting (ws !! x) = buffered ws + waiting (ws' !! x))%nat.
Proof.
  intros Hx Hy. unfold buffered. apply (sum_list_change (λ x, waiting (ws !! x)) (λ x, waiting (ws' !! x)));
    [apply NoDup_seqZ|by apply elem_of_seqZ|]. intros y Hne. by rewrite Hy.
Qed.
Lemma bip_content_small b : bip_ok b → Z.of_nat (length (bip_content b)) < 2 ^ 31.
Proof.
  intros [H1 H2 H3 H4]. unfold bip_content. rewrite length_app, !load_bytes_length. destruct (b_inuse b); lia.
Qed.
Lemma buffered_small s L : registry_ok s L → Z.of_nat (buffered (watchers s)) < 2 ^ 36.
Proof.
  intros Hok. unfold buffered. change (2 ^ 36) with (32 * 2 ^ 31).
  assert (∀ l, Z.of_nat (sum_list ((λ x, waiting (watchers s !! x)) <$> l)) ≤ Z.of_nat (length l) * 2 ^ 31) as Hl.
  { induction l as [|x l IH]; [done|]. rewrite fmap_cons. cbn [length]. match goal with |- context [sum_list (?a :: ?l)] => change (sum_list (a :: l)) with (a + sum_list l)%nat end.
    enough (Z.of_nat (waiting (watchers s !! x)) < 2 ^ 31) by lia.
    destruct (watchers s !! x) as [w|] eqn:E; [|done]. cbn. apply bip_content_small.
    exact (wo_buf _ _ _ (ro_watchers _ _ Hok x w E)). }
  specialize (Hl (seqZ 0 WATCHER_LIMIT)). change (length (seqZ 0 WATCHER_LIMIT)) with 20%nat in Hl. lia.
Qed.

(** ** Loggers' flags *)
Section flags.
Context (F : fault → Prop).

Lemma set_flags_loop f L (n : nat) s p :
  lchain (loggers s) p L → Z.of_nat (length L) < 2 ^ Z.of_nat n → NoDup L →
  yields F (loop n (set_flags_body f) p) s (λ _ s', ∃ m', s' = set_loggers m' s ∧
    ∀ l, m' !! l = (if bool_decide (l ∈ L) then set_l_eflags f <$> loggers s !! l else loggers s !! l)).
Proof.
  intros Hc Hn Hnd.
  eapply (yields_loop F n _ (λ k p s1, ∃ L1 L2 m1, L = L1 ++ L2 ∧ k = Z.of_nat (length L2) ∧ s1 = set_loggers m1 s ∧
    (∀ l, m1 !! l = (if bool_decide (l ∈ L1) then set_l_eflags f <$> loggers s !! l else loggers s !! l)) ∧
    lchain (loggers s) p L2)); [|exists [], L, (loggers s); split_and!; try done; by destruct s|done].
  clear p Hc. intros k p s1 (L1 & L2 & m1 & HL & -> & -> & Hm & Hc). destruct L2 as [|a L2].
  - cbn in Hc. subst p. cbn. exists m1. rewrite app_nil_r in HL. subst. done.
  - destruct Hc as [-> (x & Hx & Hc)]. subst L. apply list.NoDup_app in Hnd as (_ & Hd & Hnd2).
    assert (m1 !! a = Some x) as Hx1.
    { rewrite Hm, bool_decide_eq_false_2; [done|]. intros Ha. apply (Hd a Ha). set_solver. }
    unfold set_flags_body, upd_logger, get_logger, yields, mbind, M_bind. cbn [loggers set_loggers]. rewrite !Hx1. cbn.
    rewrite Hx1. cbn. exists (Z.of_nat (length L2)). split; [lia|].
    exists (L1 ++ [a]), L2, (<[a := set_l_eflags f x]> m1). rewrite <- app_assoc. split_and!; try done.
    intros l. destruct (decide (l = a)) as [->|Hne].
    + rewrite lookup_insert_eq, bool_decide_eq_true_2 by set_solver. by rewrite Hx.
    + rewrite lookup_insert_ne by done. rewrite Hm. by rewrite (bool_decide_ext (l ∈ L1 ++ [a]) (l ∈ L1)) by set_solver.
Qed.

Lemma lchain_eflags m m' p L :
  (∀ l, set_l_eflags 0 <$> m' !! l = set_l_eflags 0 <$> m !! l) → lchain m p L → lchain m' p L.
Proof.
  intros Hm. revert p. induction L as [|a L IH]; intros p; [done|]. intros [-> (x & Hx & Hc)]. split; [done|].
  specialize (Hm a) as Ha. rewrite Hx in Ha. apply fmap_Some in Ha as (y & Hy & E). exists y. split; [done|].
  apply IH. by replace (l_next y) with (l_next x) by (by injection E).
Qed.

Lemma logger_set_flags_spec s L :
  lchain (loggers s) (logger_stack_head s) L → NoDup L → Z.of_nat (length L) < 2 ^ 32 →
  yields F logger_set_flags s (λ _ s', ∃ m', s' = set_loggers m' s ∧
    (∀ l, set_l_eflags 0 <$> m' !! l = set_l_eflags 0 <$> loggers s !! l) ∧
    ∀ l x, l ∈ L → m' !! l = Some x → l_eflags x = wanted_flags (watchers s)).
Proof.
  intros Hc Hnd Hn. unfold logger_set_flags. apply yields_bind, yields_gets, yields_bind, yields_gets.
  eapply yields_mono; [|apply (set_flags_loop _ L); [done| |done]].
  - intros _ s' (m' & -> & Hm). exists m'. split; [done|]. split.
    + intros l. rewrite Hm. destruct (bool_decide (l ∈ L)); [|done]. by destruct (loggers s !! l).
    + intros l x Hl Hx. rewrite Hm, bool_decide_eq_true_2 in Hx by done. by apply fmap_Some in Hx as (y & _ & ->).
  - etrans; [exact Hn|]. done.
Qed.
End flags.

(** ** Watchers *)
Lemma wanted_flags_ext ws ws' : (∀ x, w_eflags <$> ws !! x = w_eflags <$> ws' !! x) → wanted_flags ws = wanted_flags ws'.
Proof.
  intros Hw. unfold wanted_flags. generalize 0 at 1 3. generalize (seqZ 0 WATCHER_LIMIT).
  induction l as [|x l IH]; intros f; [done|]. cbn [foldl]. specialize (Hw x).
  destruct (ws !! x), (ws' !! x); try done; injection Hw as ->; apply IH.
Qed.
Lemma watcher_ok_mono cs cs' x w :
  (∀ c, is_Some (cs !! c) → is_Some (cs' !! c)) → watcher_ok cs x w → watcher_ok cs' x w.
Proof. intros Hc [H1 H2 H3 H4 (c & H5 & H6)]. split; try done. exists c. auto. Qed.

Section watching.
Context (F : fault → Prop).

Lemma sidethread_close_spec s c :
  is_Some (conns (en (wd s)) !! c) →
  yields F (sidethread_conn_close c) s (λ _ s', ∀ d, is_Some (conns (en (wd s)) !! d) → is_Some (conns (en (wd s')) !! d)).
Proof.
  intros [k Hk]. unfold sidethread_conn_close, yields, wio, zoom, with_conn, on_core, upd_cn, close_fd, srv, zoom, state_add, upd_cnt,
    mbind, M_bind, gets, modify. cbn. rewrite Hk. cbn. intros d Hd. apply lookup_insert_is_Some'. by right.
Qed.

(** A watcher that is closed leaves its slot; the others do not notice. *)
Lemma close_watcher_spec s L x w :
  registry_ok s L → watchers s !! x = Some w →
  yields F (logger_thread_close_watcher x) s (λ _ s',
    registry_ok s' L ∧ evolves s s' ∧ watchers s' = delete x (watchers s)).
Proof.
  intros [R1 R2 R3 R4 R5 R6 R7] Hw. pose proof (R1 x w Hw) as [W1 W2 W3 W4 (c & Hc & Hcs)].
  unfold logger_thread_close_watcher. apply yields_bind.
  unfold get_watcher at 1. unfold yields at 1. rewrite Hw. rewrite W2, Hc. apply yields_bind, yields_modify, yields_bind.
  unfold lsysio, zoom. unfold yields at 1. cbn [lsys set_watchers].
  pose proof (sidethread_close_spec (lsys s) c Hcs) as Hside. unfold yields in Hside.
  destruct (sidethread_conn_close c (lsys s)) as [[[] y]|]; [|done].
  apply yields_bind, yields_modify. eapply yields_mono; [|apply (logger_set_flags_spec F _ L); done].
  intros _ s' (m' & -> & Hm & Hfl). split_and!; [split; cbn; try done|split; cbn; try done|done].
  - intros z v [_ Hv]%lookup_delete_Some. eapply watcher_ok_mono; [exact Hside|]. by apply R1.
  - rewrite R2. rewrite map_size_delete_Some by (by eexists).
    assert (size (watchers s) ≠ 0%nat); [|lia]. intros E. apply map_size_empty_inv in E. by rewrite E in Hw.
  - by eapply lchain_eflags.
  - intros z v [_ Hv]%lookup_delete_Some. by exists v.
Qed.

(** Replacing a watcher by one with the same stream. *)
Lemma registry_update s L x w w' :
  registry_ok s L → watchers s !! x = Some w → w_c w' = w_c w → w_id w' = w_id w → w_eflags w' = w_eflags w →
  bip_ok (w_buf w') → 0 ≤ w_skipped w' → registry_ok (set_watchers (<[x := w']> (watchers s)) s) L.
Proof.
  intros [R1 R2 R3 R4 R5 R6 R7] Hw E1 E2 E3 Hb Hk. split; try done.
  - cbn. apply map_Forall_insert_2; [|done]. destruct (R1 x w Hw) as [W1 W2 W3 W4 W5]. split; try done; [by rewrite E2|by rewrite E1].
  - cbn. rewrite R2. by rewrite map_size_insert_Some by (by eexists).
  - cbn. intros l y Hl Hy. rewrite (R7 l y Hl Hy). apply wanted_flags_ext. intros z.
    destruct (decide (z = x)) as [->|Hne]; [|by rewrite lookup_insert_ne]. rewrite lookup_insert_eq, Hw. cbn. by rewrite E3.
Qed.
Lemma evolves_update s x w w' :
  watchers s !! x = Some w → who w' = who w → stream w' = stream w →
  evolves s (set_watchers (<[x := w']> (watchers s)) s).
Proof.
  intros Hw E1 E2. split; try done. intros y v. cbn. intros [[<- <-]|[Hne Hv]]%lookup_insert_Some; [by exists w|by exists v].
Qed.

(** ** Polling *)
Lemma upd_watcher_spec x w f s (Q : unit → logsys → Prop) :
  watchers s !! x = Some w → Q tt (set_watchers (<[x := f w]> (watchers s)) s) → yields F (upd_watcher x f) s Q.
Proof. intros Hw HQ. unfold upd_watcher, get_watcher, yields, mbind, M_bind. by rewrite Hw. Qed.

(** The state after a step of polling that flushed at least [k] bytes; without
    a byte flushed no buffer changed, and a flush flag may only have been reset,
    and only in the slots [P]. *)
Record flushes (P : Z → Prop) (L : list Z) (s : logsys) (k : Z) (s' : logsys) : Prop := {
  fl_ok : registry_ok s' L;
  fl_evolves : evolves s s';
  fl_bytes : Z.of_nat (buffered (watchers s')) + k ≤ Z.of_nat (buffered (watchers s));
  fl_nonneg : 0 ≤ k;
  fl_kept : k = 0 → ∀ x w', watchers s' !! x = Some w' → ∃ w, watchers s !! x = Some w ∧ w_buf w' = w_buf w;
  fl_flags : ∀ x w', watchers s' !! x = Some w' → ∃ w, watchers s !! x = Some w ∧
    (w_failed_flush w' = w_failed_flush w ∨ P x ∧ w_failed_flush w' = false)
}.
Lemma flushes_refl P L s : registry_ok s L → flushes P L s 0 s.
Proof. intros. split; [done|done|lia|lia|by eauto|by eauto]. Qed.
Lemma flushes_trans P L s1 s2 s3 k1 k2 : flushes P L s1 k1 s2 → flushes P L s2 k2 s3 → flushes P L s1 (k1 + k2) s3.
Proof.
  intros [? ? ? ? A5 A6] [? ? ? ? B5 B6]. split; [done|by etrans|lia|lia| |].
  - intros Hk x w3 H3. destruct (B5 ltac:(lia) x w3 H3) as (w2 & H2 & E2).
    destruct (A5 ltac:(lia) x w2 H2) as (w1 & H1 & E1). exists w1. split; congruence.
  - intros x w3 H3. destruct (B6 x w3 H3) as (w2 & H2 & E2). destruct (A6 x w2 H2) as (w1 & H1 & E1).
    exists w1. split; [done|]. destruct E2 as [E2|E2]; [|by right]. rewrite E2. destruct E1; auto.
Qed.
Lemma flushes_weaken (P Q : Z → Prop) L s k s' : (∀ x, P x → Q x) → flushes P L s k s' → flushes Q L s k s'.
Proof.
  intros HPQ [? ? ? ? A5 A6]. split; try done. intros x w' Hw'. destruct (A6 x w' Hw') as (w & Hw & [E|[E ?]]);
    exists w; auto.
Qed.
Lemma flushes_frame P L s s' :
  registry_ok s L → watchers s' = watchers s → loggers s' = loggers s → logger_stack_head s' = logger_stack_head s →
  logger_stack_lock s' = logger_stack_lock s → lstats s' = lstats s → lsys s' = lsys s → watcher_count s' = watcher_count s →
  length (watchers_pollfds s') = 20%nat → flushes P L s 0 s'.
Proof.
  intros [R1 R2 R3 R4 R5 R6 R7] E1 E2 E3 E4 E5 E6 E7 E8. split; [split|split|rewrite E1; lia|lia|..];
    rewrite ?E1, ?E2, ?E3, ?E6, ?E7; try done; eauto. intros x w Hw. by exists w.
Qed.
(** One watcher replaced. *)
Lemma flushes_update (P : Z → Prop) L s x w w' k :
  registry_ok s L → watchers s !! x = Some w → who w' = who w → stream w' = stream w → bip_ok (w_buf w') → 0 ≤ k →
  Z.of_nat (length (bip_content (w_buf w'))) + k ≤ Z.of_nat (length (bip_content (w_buf w))) →
  (k = 0 → w_buf w' = w_buf w) →
  w_failed_flush w' = w_failed_flush w ∨ P x ∧ w_failed_flush w' = false →
  flushes P L s k (set_watchers (<[x := w']> (watchers s)) s).
Proof.
  intros Hok Hw E1 E2 Hb Hk Hl Hz Hff. pose proof (ro_watchers _ _ Hok x w Hw) as Hwo.
  injection E1 as Ea Eb Ec Ed Ee Ef Eg. split.
  - eapply registry_update; try done. rewrite Ed. exact (wo_skipped _ _ _ Hwo).
  - eapply evolves_update; try done. unfold who. congruence.
  - cbn. pose proof (buffered_change (watchers s) (<[x := w']> (watchers s)) x (wo_slot _ _ _ Hwo)
      ltac:(intros; by rewrite lookup_insert_ne)) as Hc.
    rewrite lookup_insert_eq, Hw in Hc. cbn in Hc. lia.
  - done.
  - intros Hk0 y v. cbn. intros [[<- <-]|[_ Hv]]%lookup_insert_Some; eauto.
  - intros y v. cbn. intros [[<- <-]|[_ Hv]]%lookup_insert_Some; eauto.
Qed.
Lemma close_flushes P s L x w :
  registry_ok s L → watchers s !! x = Some w →
  yields F (logger_thread_close_watcher x) s (λ _ s', flushes P L s 0 s').
Proof.
  intros Hok Hw. eapply yields_mono; [|by eapply close_watcher_spec]. intros _ s' (H1 & H2 & H3).
  split; [done|done| |lia|..].
  2: { intros _ y v. rewrite H3. intros [_ Hv]%lookup_delete_Some. eauto. }
  2: { intros y v. rewrite H3. intros [_ Hv]%lookup_delete_Some. eauto. }
  rewrite H3. pose proof (buffered_change (watchers s) (delete x (watchers s)) x (wo_slot _ _ _ (ro_watchers _ _ Hok x w Hw))
    ltac:(intros; by rewrite lookup_delete_ne)) as Hc. rewrite lookup_delete_eq in Hc. cbn in Hc. lia.
Qed.

Lemma put_pollfd_spec P s L i fd evs :
  registry_ok s L → 0 ≤ i < 20 → yields F (put_pollfd i fd evs) s (λ _ s', flushes P L s 0 s' ∧ watchers s' = watchers s).
Proof.
  intros Hok Hi. unfold put_pollfd, yields. destruct (lookup_lt_is_Some_2 (watchers_pollfds s) (Z.to_nat i)) as [p ->].
  { rewrite (ro_pollfds _ _ Hok). lia. }
  split; [|done]. apply flushes_frame; try done. cbn. rewrite length_insert. apply Hok.
Qed.

(** The slots whose flush flag a poll resets. *)
Definition selected (wt x : Z) : Prop := wt = WATCHER_ALL ∨ x = wt.

Lemma poll_collect_spec force wt nfd x s L :
  registry_ok s L → 0 ≤ nfd < 20 →
  yields F (poll_collect force wt nfd x) s (λ r s', flushes (selected wt) L s 0 s' ∧ nfd ≤ r ≤ nfd + 1 ∧
    (wt = WATCHER_ALL → ∀ w, watchers s' !! x = Some w → w_failed_flush w = false)).
Proof.
  intros Hok Hn. unfold poll_collect. apply yields_bind, yields_gets.
  destruct (watchers s !! x) as [w|] eqn:Hw; [|split_and!; [by apply flushes_refl|lia|lia|congruence]].
  destruct (_ && _) eqn:Esel.
  { apply andb_true_iff in Esel as [E1 _]. apply negb_true_iff, Z.eqb_neq in E1.
    split_and!; [by apply flushes_refl|lia|lia|done]. }
  assert (selected wt x) as Hsel.
  { unfold selected. apply andb_false_iff in Esel as [E|E]; apply negb_false_iff, Z.eqb_eq in E; auto. }
  apply yields_bind. eapply (yields_mono F _ _ (λ r s1, flushes (selected wt) L s 0 s1 ∧ watchers s1 = watchers s ∧ nfd ≤ r ≤ nfd + 1)).
  - intros r s1 (H1 & H2 & H3). apply yields_bind, (upd_watcher_spec _ w); [by rewrite H2|]. split; [|split; [done|]].
    + eapply (flushes_trans _ _ _ s1 _ 0 0); [done|].
      eapply (flushes_update _ L s1 x w); try done; [exact (fl_ok _ _ _ _ _ H1)|by rewrite H2|
        exact (wo_buf _ _ _ (ro_watchers _ _ Hok x w Hw))|cbn; lia|by right].
    + intros _ w' Hw'. cbn in Hw'. rewrite lookup_insert_eq in Hw'. by injection Hw' as <-.
  - destruct (bipbuf_peek_all (w_buf w)) as [[]|]; [|destruct force].
    + apply yields_bind. eapply yields_mono; [|by apply put_pollfd_spec]. intros _ s1 [? ?]. split_and!; (done || lia).
    + apply yields_bind. eapply yields_mono; [|by apply put_pollfd_spec]. intros _ s1 [? ?]. split_and!; (done || lia).
    + split_and!; [by apply flushes_refl|done|lia|lia].
Qed.

Lemma poll_spec P s L nfd : registry_ok s L → yields F (poll nfd) s (λ _ s', flushes P L s 0 s').
Proof.
  intros Hok. unfold poll, yields. destruct (match polls s with [] => _ | _ :: _ => _ end) as [rs|].
  - apply flushes_frame; try done. cbn. rewrite length_app, length_imap, <- length_app, take_drop. apply Hok.
  - apply flushes_frame; try done. apply Hok.
Qed.

Lemma flush_watcher_spec P s L x w off n :
  registry_ok s L → watchers s !! x = Some w → bipbuf_peek_all (w_buf w) = Some (off, n) →
  yields F (flush_watcher x w off n) s (λ k s', flushes P L s k s').
Proof.
  intros Hok Hw Hp. pose proof (wo_buf _ _ _ (ro_watchers _ _ Hok x w Hw)) as Hb.
  pose proof (peek_all_spec _ Hb) as Hpeek. rewrite Hp in Hpeek. destruct Hpeek as (-> & -> & Hpos & _).
  set (n := a_end (w_buf w) - a_start (w_buf w)) in *.
  unfold flush_watcher. apply yields_bind. eapply (yields_mono F _ _ (λ r s1, flushes P L s 0 s1 ∧ watchers s1 = watchers s ∧
    match r with Wrote k => 0 ≤ k ≤ n | _ => True end)).
  - intros r s1 (H1 & H2 & H3). rewrite <- H2 in Hw. pose proof (fl_ok _ _ _ _ _ H1) as Hok1.
    assert (yields F (_ ← logger_thread_close_watcher x; mret 0) s1 (λ k s', flushes P L s k s')) as Hclose.
    { apply yields_bind. eapply yields_mono; [|by eapply close_flushes]. intros [] s2 H4. by eapply (flushes_trans _ _ _ s1 _ 0 0). }
    destruct r as [total| |]; [|done|done].
    destruct (Z.eqb_spec total 0); [done|].
    destruct (poll_takes (w_buf w) total Hb ltac:(lia)) as (b' & Eb & Hb' & Ht & Hd).
    apply yields_bind, (upd_watcher_spec _ w); [done|]. cbn. rewrite Eb. cbn.
    eapply (flushes_trans _ _ _ s1 _ 0 total); [done|].
    eapply (flushes_update _ L s1 x w); try done; [| |lia| |by left].
    + unfold who. cbn. by rewrite <- (poll_size (w_buf w) total), Eb.
    + unfold stream. cbn. rewrite Ht, Hd, <- app_assoc. f_equal. apply take_drop.
    + cbn. rewrite Hd, length_drop. unfold bip_content. rewrite length_app, !load_bytes_length. fold n. lia.
  - unfold yields, next_write. destruct (w_t w); [split_and!; [by apply flushes_refl|done|lia|lia]|].
    destruct (writes s) as [|[k| |] l]; (split_and!; [try (by apply flushes_refl); apply flushes_frame; try done; apply Hok|done|..]; (done || lia)).
Qed.

Lemma poll_watcher_spec P acc x s L :
  registry_ok s L → 0 ≤ acc.1 < 20 →
  yields F (poll_watcher acc x) s (λ acc' s', flushes P L s (acc'.2 - acc.2) s' ∧ acc.1 ≤ acc'.1 ≤ acc.1 + 1).
Proof.
  destruct acc as [nfd fl]. intros Hok Hn. cbn [fst snd] in *. unfold poll_watcher. apply yields_bind, yields_gets.
  assert (∀ s' n, flushes P L s 0 s' → nfd ≤ n ≤ nfd + 1 → flushes P L s ((n, fl).2 - fl) s' ∧ nfd ≤ (n, fl).1 ≤ nfd + 1) as Hsame.
  { intros s' n Hs' ?. cbn. rewrite Z.sub_diag. done. }
  destruct (watchers s !! x) as [w|] eqn:Hw; [|apply Hsame; [by apply flushes_refl|lia]].
  apply yields_bind. unfold get_revents. unfold yields at 1.
  destruct (lookup_lt_is_Some_2 (watchers_pollfds s) (Z.to_nat nfd)) as [p ->]; [rewrite (ro_pollfds _ _ Hok); lia|].
  set (r := pfd_revents p). apply yields_bind.
  eapply (yields_mono F _ _ (λ _ s1, flushes P L s 0 s1 ∧ watchers s1 = watchers s)).
  2: { destruct (has r POLLIN); [|split; [by apply flushes_refl|done]]. unfold read_closed, yields.
       destruct (reads s); (split; [|done]); [by apply flushes_refl|]. apply flushes_frame; try done. apply Hok. }
  intros gone s1 [H1 H2]. rewrite <- H2 in Hw. pose proof (fl_ok _ _ _ _ _ H1) as Hok1.
  assert (yields F (_ ← logger_thread_close_watcher x; mret (nfd + 1, fl)) s1
    (λ acc' s', flushes P L s (acc'.2 - fl) s' ∧ nfd ≤ acc'.1 ≤ nfd + 1)) as Hclose.
  { apply yields_bind. eapply yields_mono; [|by eapply close_flushes]. intros [] s2 H4. apply Hsame; [|lia].
    by eapply (flushes_trans _ _ _ s1 _ 0 0). }
  destruct gone; [done|]. destruct (bipbuf_peek_all (w_buf w)) as [[off n]|] eqn:Hp; [|apply Hsame; [done|lia]].
  destruct (has r _); [done|]. destruct (has r POLLOUT); [|apply Hsame; [done|lia]].
  apply yields_bind. eapply yields_mono; [|by eapply flush_watcher_spec]. intros k s2 H4. cbn. split; [|lia].
  replace (fl + k - fl) with (0 + k) by lia. by eapply flushes_trans.
Qed.

(** Polling loses no byte of a watcher that stays, and each byte it reports
    as flushed has left a buffer. *)
Lemma poll_watchers_spec force wt s L :
  registry_ok s L →
  yields F (logger_thread_poll_watchers force wt) s (λ r s', flushes (selected wt) L s (Z.max 0 r) s' ∧
    (wt = WATCHER_ALL → ∀ x w, watchers s' !! x = Some w → w_failed_flush w = false)).
Proof.
  intros Hok. unfold logger_thread_poll_watchers. apply yields_bind.
  eapply yields_mono; [|apply (yields_foldl F _ (λ l n s', flushes (selected wt) L s 0 s' ∧ 0 ≤ n ∧ n + Z.of_nat (length l) ≤ 20 ∧
    (∃ l0, seqZ 0 WATCHER_LIMIT = l0 ++ l) ∧
    (wt = WATCHER_ALL → ∀ x w, x ∉ l → watchers s' !! x = Some w → w_failed_flush w = false)))].
  2: { split_and!; [by apply flushes_refl|lia|done|by exists []|]. intros _ x w Hx Hw. destruct Hx.
       apply elem_of_seqZ. exact (wo_slot _ _ _ (ro_watchers _ _ Hok x w Hw)). }
  2: { intros n x l s1 (H1 & H2 & H3 & [l0 E0] & H5). cbn [length] in H3.
       eapply yields_mono; [|apply poll_collect_spec; [apply H1|lia]].
       intros n' s2 (H6 & H7 & H8). split_and!; [by eapply (flushes_trans _ _ _ s1 _ 0 0)|lia|lia| |].
       - exists (l0 ++ [x]). by rewrite <- app_assoc.
       - intros Hall y w Hy Hw. destruct (decide (y = x)) as [->|Hne]; [by apply H8|].
         destruct (fl_flags _ _ _ _ _ H6 y w Hw) as (w1 & Hw1 & [E|[_ E]]); [|done]. rewrite E.
         apply (H5 Hall y); [set_solver|done]. }
  cbn [length]. intros nfd s1 (H1 & H2 & _ & _ & Hff).
  assert (∀ k s', flushes (selected wt) L s1 k s' →
    wt = WATCHER_ALL → ∀ x w, watchers s' !! x = Some w → w_failed_flush w = false) as Hff'.
  { intros k s' Hs' Hall x w Hw. destruct (fl_flags _ _ _ _ _ Hs' x w Hw) as (w1 & Hw1 & [E|[_ E]]); [|done].
    rewrite E. apply (Hff Hall x); [set_solver|done]. }
  destruct (nfd =? 0).
  { apply yields_ret. split; [done|]. apply (Hff' 0 s1), flushes_refl, H1. }
  apply yields_bind. eapply yields_mono; [|eapply poll_spec, H1]. intros ret s2 H3.
  pose proof (flushes_trans _ _ _ _ _ _ _ H1 H3) as H4. destruct (ret <? 0); [split; [done|exact (Hff' _ _ H3)]|].
  apply yields_bind.
  eapply yields_mono; [|apply (yields_foldl F _ (λ l acc s', flushes (selected wt) L s1 acc.2 s' ∧ 0 ≤ acc.1 ∧ acc.1 + Z.of_nat (length l) ≤ 20))].
  - intros acc s3 (H5 & _). cbn. pose proof (fl_nonneg _ _ _ _ _ H5). rewrite Z.max_r by done.
    split; [exact (flushes_trans _ _ _ _ _ _ _ H1 H5)|exact (Hff' _ _ H5)].
  - split_and!; [done|cbn; lia|done].
  - intros acc x l s3 (H5 & H6 & H7). cbn [length] in H7. eapply yields_mono; [|apply poll_watcher_spec; [apply H5|lia]].
    intros acc' s4 [H8 H9]. split_and!; [|lia|lia].
    replace acc'.2 with (acc.2 + (acc'.2 - acc.2)) by lia. by eapply flushes_trans.
Qed.
End watching.

(** ** What a watcher is told *)
(** The notice of [k] skipped lines. *)
Definition notice_of (k : Z) : list Z := if k >? 0 then skipped_text k ++ [0] else [].

(** A watcher's buffer of [n] bytes that still holds the last bytes of its stream
    [t] has no room for [line] and a notice. *)
Definition no_room (n : Z) (t line : list Z) : Prop :=
  ∃ b, bip_ok b ∧ bip_size b = n ∧ bip_content b `suffix_of` t ∧
    bipbuf_unused b < Z.of_nat (length line) + SKIP_ROOM.

(** A watcher interested in [f] with a buffer of [n] bytes: its stream, the
    number of lines skipped since the last one it got, and whether flushing it
    failed, while the entries [es] pass by.  A line goes to the stream unless
    flushing failed; flushing can only fail at a line for which the buffer has no
    room. *)
Inductive fed (f n : Z) : list (Z * list Z) → list Z * Z * bool → list Z * Z * bool → Prop :=
  | fed_nil a : fed f n [] a a
  | fed_other e es a b : Z.land e.1 f = 0 → fed f n es a b → fed f n (e :: es) a b
  | fed_sent e es t k b : Z.land e.1 f ≠ 0 →
      fed f n es (t ++ notice_of k ++ e.2, 0, false) b → fed f n (e :: es) (t, k, false) b
  | fed_blocked e es t k b : Z.land e.1 f ≠ 0 → no_room n t e.2 →
      fed f n es (t, u64 (k + 1), true) b → fed f n (e :: es) (t, k, false) b
  | fed_skipped e es t k b : Z.land e.1 f ≠ 0 →
      fed f n es (t, u64 (k + 1), true) b → fed f n (e :: es) (t, k, true) b.

Lemma fed_app f n es1 es2 a b c : fed f n es1 a b → fed f n es2 b c → fed f n (es1 ++ es2) a c.
Proof.
  induction 1 as [|e es a b He _ IH|e es t k b He _ IH|e es t k b He Hr _ IH|e es t k b He _ IH]; intros Hc; cbn; [done|..].
  - apply fed_other; auto.
  - apply fed_sent; auto.
  - apply fed_blocked; auto.
  - apply fed_skipped; auto.
Qed.

Definition told_state (w : watcher) : list Z * Z * bool := (stream w, w_skipped w, w_failed_flush w).

(** From [s] to [s'] the watcher in slot [x], if it stayed, was told [E x]. *)
Record told (E : Z → list (Z * list Z)) (s s' : logsys) : Prop := {
  to_watchers : ∀ x w', watchers s' !! x = Some w' →
    ∃ w, watchers s !! x = Some w ∧ w_eflags w' = w_eflags w ∧ bip_size (w_buf w') = bip_size (w_buf w) ∧
      fed (w_eflags w) (bip_size (w_buf w)) (E x) (told_state w) (told_state w');
  to_head : logger_stack_head s' = logger_stack_head s;
  to_lock : logger_stack_lock s' = logger_stack_lock s
}.
(** The loggers but for the flags. *)
Definition rings (s s' : logsys) : Prop := ∀ l, set_l_eflags 0 <$> loggers s' !! l = set_l_eflags 0 <$> loggers s !! l.

Lemma told_trans E1 E2 s1 s2 s3 : told E1 s1 s2 → told E2 s2 s3 → told (λ x, E1 x ++ E2 x) s1 s3.
Proof.
  intros [A1 A2 A3] [B1 B2 B3]. split; [|congruence..]. intros x w3 H3.
  destruct (B1 x w3 H3) as (w2 & H2 & E2' & S2 & F2). destruct (A1 x w2 H2) as (w1 & H1 & E1' & S1 & F1).
  exists w1. split_and!; [done|congruence|congruence|]. eapply fed_app; [done|]. by rewrite <- E1', <- S1.
Qed.
Lemma told_refl s : told (λ _, []) s s.
Proof. split; [|done..]. intros x w Hw. exists w. split_and!; [done..|constructor]. Qed.
Lemma told_ext E E' s s' : (∀ x, 0 ≤ x < WATCHER_LIMIT → E x = E' x) → (∃ L, registry_ok s' L) → told E s s' → told E' s s'.
Proof.
  intros HE [L Hok] [A1 A2 A3]. split; [|done..]. intros x w' Hw'. rewrite <- HE; [by apply A1|].
  exact (wo_slot _ _ _ (ro_watchers _ _ Hok x w' Hw')).
Qed.
(** Everything but the watcher in slot [x]. *)
Record aside (x : Z) (s s' : logsys) : Prop := {
  as_others : ∀ y w', y ≠ x → watchers s' !! y = Some w' → ∃ w, watchers s !! y = Some w ∧
    who w' = who w ∧ told_state w' = told_state w;
  as_rings : rings s s';
  as_head : logger_stack_head s' = logger_stack_head s;
  as_lock : logger_stack_lock s' = logger_stack_lock s
}.
Lemma rings_trans s1 s2 s3 : rings s1 s2 → rings s2 s3 → rings s1 s3.
Proof. intros H1 H2 l. by rewrite H2. Qed.
Lemma aside_trans x s1 s2 s3 : aside x s1 s2 → aside x s2 s3 → aside x s1 s3.
Proof.
  intros [A1 A2 A3 A4] [B1 B2 B3 B4]. split; [|by eapply rings_trans|congruence..].
  intros y w3 Hy H3. destruct (B1 y w3 Hy H3) as (w2 & H2 & ? & ?). destruct (A1 y w2 Hy H2) as (w1 & H1 & ? & ?).
  exists w1. split_and!; congruence.
Qed.
(** The watcher in slot [x] was told [es], the others nothing. *)
Lemma told_update s s' x w w' es :
  aside x s s' → watchers s !! x = Some w → watchers s' !! x = Some w' → who w' = who w ∨ w_eflags w' = w_eflags w ∧
    bip_size (w_buf w') = bip_size (w_buf w) →
  fed (w_eflags w) (bip_size (w_buf w)) es (told_state w) (told_state w') →
  told (λ y, if y =? x then es else []) s s'.
Proof.
  intros [A1 A2 A3 A4] Hw Hw' Ew Hf. split; [|done..]. intros y v Hv. destruct (Z.eqb_spec y x) as [->|Hne].
  - exists w. assert (v = w') as -> by congruence.
    destruct Ew as [Ew|[? ?]]; [injection Ew as _ _ _ _ _ ? ?|]; by split_and!.
  - destruct (A1 y v Hne Hv) as (u & Hu & Eu & ->). exists u. injection Eu as _ _ _ _ _ ? ?.
    split_and!; [done..|constructor].
Qed.

Section telling.
Context (F : fault → Prop) (HF : F UseAfterFree).

Lemma upd_lstats_spec f s (Q : unit → logsys → Prop) : Q tt (set_lstats (f (lstats s)) s) → yields F (upd_lstats f) s Q.
Proof. done. Qed.
Lemma registry_lstats s L v : registry_ok s L → registry_ok (set_lstats v s) L.
Proof. intros [? ? ? ? ? ? ?]. by split. Qed.
(** What writing to the watcher in slot [x] leaves. *)
Definition wrote (L : list Z) (s : logsys) (x : Z) (w : watcher) (st : list Z * Z * bool) (s' : logsys) : Prop :=
  registry_ok s' L ∧ aside x s s' ∧ ∃ w', watchers s' !! x = Some w' ∧ w_eflags w' = w_eflags w ∧
    bip_size (w_buf w') = bip_size (w_buf w) ∧ told_state w' = st.
Lemma wrote_intro L s x w w' v :
  registry_ok s L → watchers s !! x = Some w → w_c w' = w_c w → w_id w' = w_id w → w_eflags w' = w_eflags w →
  bip_size (w_buf w') = bip_size (w_buf w) → bip_ok (w_buf w') → 0 ≤ w_skipped w' →
  wrote L s x w (told_state w') (set_lstats v (set_watchers (<[x := w']> (watchers s)) s)).
Proof.
  intros Hok Hw E1 E2 E3 E4 Hb Hk. split_and!.
  - apply registry_lstats. by eapply registry_update.
  - split; [|by intros l|done..]. intros y u Hy. cbn. rewrite lookup_insert_ne by done. eauto.
  - exists w'. cbn. by rewrite lookup_insert_eq.
Qed.

Lemma count_skipped_spec s L x w :
  registry_ok s L → watchers s !! x = Some w →
  yields F (count_skipped x) s (λ _ s', wrote L s x w (stream w, u64 (w_skipped w + 1), w_failed_flush w) s').
Proof.
  intros Hok Hw. unfold count_skipped. apply yields_bind, (upd_watcher_spec _ _ w); [done|]. apply upd_lstats_spec.
  apply (wrote_intro L s x w (set_w_skipped (u64 (w_skipped w + 1)) w)); try done;
    [exact (wo_buf _ _ _ (ro_watchers _ _ Hok x w Hw))|cbn; apply u64_range].
Qed.

Lemma skipped_text_length k : 0 < Z.of_nat (length (skipped_text k)) < 128.
Proof. unfold skipped_text. rewrite !length_app. pose proof (fmt_u_length k). change (length (str "skipped=")) with 8%nat. cbn [length]. lia. Qed.
Lemma notice_bytes k : Forall is_byte (skipped_text k ++ [0]) ∨ k < 0.
Proof.
  destruct (Z.lt_ge_cases k 0); [by right|left]. unfold skipped_text.
  repeat (apply Forall_app; split); auto using fmt_u_bytes, str_bytes; by repeat constructor.
Qed.

Lemma put_line_spec s L x w off line :
  registry_ok s L → watchers s !! x = Some w → Forall is_byte line →
  bipbuf_request (w_buf w) (Z.of_nat (length line) + SKIP_ROOM) = Some off →
  yields F (put_line x off line) s (λ _ s',
    wrote L s x w (stream w ++ notice_of (w_skipped w) ++ line, 0, w_failed_flush w) s').
Proof.
  intros Hok Hw Hb Hr. pose proof (ro_watchers _ _ Hok x w Hw) as Hwo. pose proof (wo_buf _ _ _ Hwo) as Hbo.
  pose proof (wo_skipped _ _ _ Hwo) as Hsk. pose proof (skipped_text_length (w_skipped w)) as Hl.
  unfold put_line. apply yields_bind. unfold get_watcher. unfold yields at 1. rewrite Hw.
  assert ((Z.of_nat (length (skipped_text (w_skipped w))) >=? SKIP_ROOM) || (Z.of_nat (length (skipped_text (w_skipped w))) <=? 0) = false) as ->.
  { rewrite Z.geb_leb, (proj2 (Z.leb_gt _ _)), (proj2 (Z.leb_gt _ 0)); [done|lia|unfold SKIP_ROOM; lia]. }
  rewrite andb_false_r. apply yields_bind.
  set (w1 := if w_skipped w >? 0 then
    set_w_skipped 0 (set_w_buf (bipbuf_push (bip_set_data (store_bytes (bip_data (w_buf w)) off (skipped_text (w_skipped w) ++ [0])) (w_buf w))
      (Z.of_nat (length (skipped_text (w_skipped w))) + 1)).2 w) else w).
  eapply (yields_mono F _ _ (λ _ s1, s1 = set_watchers (<[x := w1]> (watchers s)) s)).
  2: { unfold w1. destruct (w_skipped w >? 0); cbn [when]; [by apply (upd_watcher_spec _ _ w)|].
       apply yields_ret. rewrite insert_id by done. by destruct s. }
  intros [] s1 ->. apply yields_bind, (upd_watcher_spec _ _ w1); [apply lookup_insert_eq|]. apply upd_lstats_spec.
  cbn [watchers set_watchers]. rewrite insert_insert_eq.
  set (w2 := set_w_buf _ w1). change (set_watchers ?a (set_watchers ?b s)) with (set_watchers a s).
  assert (bip_ok (w_buf w2) ∧ bip_content (w_buf w2) = bip_content (w_buf w) ++ notice_of (w_skipped w) ++ line) as [Hb2 Hc2].
  { unfold w2, w1, notice_of. destruct (w_skipped w >? 0); cbn [w_buf set_w_buf set_w_skipped].
    - replace (Z.of_nat (length (skipped_text (w_skipped w))) + 1) with (Z.of_nat (length (skipped_text (w_skipped w) ++ [0])))
        by (rewrite length_app; cbn [length]; lia).
      apply (request_push_offer _ _ _ SKIP_ROOM); try done; [|rewrite length_app; cbn [length]; unfold SKIP_ROOM; lia].
      destruct (notice_bytes (w_skipped w)); [done|lia].
    - unfold bipbuf_request, SKIP_ROOM in Hr. destruct (Z.ltb_spec (bipbuf_unused (w_buf w)) (Z.of_nat (length line) + 128)); [done|].
      destruct (offer_accepts (w_buf w) line Hbo Hb ltac:(lia)) as (b' & -> & ? & ?). done. }
  assert (w_eflags w2 = w_eflags w ∧ w_id w2 = w_id w ∧ w_c w2 = w_c w ∧ w_out w2 = w_out w ∧ w_skipped w2 = 0 ∧
    w_failed_flush w2 = w_failed_flush w ∧ bip_size (w_buf w2) = bip_size (w_buf w)) as (E1 & E2 & E3 & E4 & E5 & E6 & E7).
  { unfold w2, w1. cbn [w_buf set_w_buf]. rewrite offer_size. destruct (Z.gtb_spec (w_skipped w) 0); split_and!; try done.
    - cbn. by rewrite push_size.
    - cbn. lia. }
  assert (told_state w2 = (stream w ++ notice_of (w_skipped w) ++ line, 0, w_failed_flush w)) as <-.
  { unfold told_state, stream. by rewrite E4, E5, E6, Hc2, (app_assoc (w_out w)). }
  apply (wrote_intro L s x w w2); try done. lia.
Qed.

(** Looking for room ends: every turn flushes something or gives up.  The
    watcher may be closed meanwhile; the next access to it is then the fault. *)
Lemma room_spec s L x line w0 :
  registry_ok s L → watchers s !! x = Some w0 →
  yields F (loop FUEL (room_body x (Z.of_nat (length line))) tt) s (λ r s', registry_ok s' L ∧ aside x s s' ∧
    ∃ w, watchers s' !! x = Some w ∧ who w = who w0 ∧ stream w = stream w0 ∧
      match r with
      | None => w_failed_flush w = true ∧
          (w_failed_flush w0 = true ∨ no_room (bip_size (w_buf w0)) (stream w0) line)
      | Some off => w_failed_flush w = false ∧ w_failed_flush w0 = false ∧
          bipbuf_request (w_buf w) (Z.of_nat (length line) + SKIP_ROOM) = Some off
      end).
Proof.
  intros Hok Hw0.
  set (rank := λ s' : logsys, 2 * Z.of_nat (buffered (watchers s')) +
    match watchers s' !! x with Some w => if w_failed_flush w then 0 else 1 | None => 1 end).
  set (I := λ s' : logsys, registry_ok s' L ∧ aside x s s' ∧ ∀ w, watchers s' !! x = Some w →
    who w = who w0 ∧ stream w = stream w0 ∧ (w_failed_flush w = w_failed_flush w0 ∨
      w_failed_flush w = true ∧ no_room (bip_size (w_buf w0)) (stream w0) line)).
  apply (yields_loop F FUEL _ (λ k _ s', I s' ∧ k = rank s') _ (rank s)).
  2: { split; [|done]. split_and!; [done| |].
       - split; [|by intros l|done..]. eauto.
       - intros w Hw. assert (w = w0) as -> by congruence. auto. }
  2: { pose proof (buffered_small _ _ Hok). unfold rank. change (2 ^ Z.of_nat FUEL) with (2 ^ 64).
       destruct (watchers s !! x) as [w|]; [destruct (w_failed_flush w)|]; lia. }
  intros k [] s1 ((Hok1 & Has & Hx) & ->). unfold room_body. apply yields_bind. unfold get_watcher. unfold yields at 1.
  destruct (watchers s1 !! x) as [w|] eqn:Hw; [|exact HF]. destruct (Hx w eq_refl) as (Ew & Es & Eff).
  destruct (w_failed_flush w) eqn:Hff.
  { split_and!; [done|done|]. exists w. split_and!; try done. destruct Eff as [<-|[_ ?]]; auto. }
  assert (w_failed_flush w0 = false) as Hff0 by (destruct Eff as [<-|[? _]]; done).
  destruct (bipbuf_request (w_buf w) _) as [off|] eqn:Hr.
  { split_and!; [done|done|]. exists w. by split_and!. }
  apply yields_bind. eapply yields_mono; [|apply (poll_watchers_spec F false x s1 L Hok1)].
  intros r s2 [[H1 H2 H3 H4 H5 H6] _]. apply yields_bind.
  pose proof (wo_slot _ _ _ (ro_watchers _ _ Hok1 x w Hw)) as Hslot.
  assert (aside x s1 s2) as Has2.
  { split; [|exact (ev_loggers _ _ H2)|exact (ev_head _ _ H2)|exact (ev_lock _ _ H2)]. intros y v Hy Hv. destruct (ev_watchers _ _ H2 y v Hv) as (u & Hu & Eu & Su).
    exists u. split_and!; [done|done|]. destruct (H6 y v Hv) as (u' & Hu' & Fu). assert (u' = u) as -> by congruence.
    unfold told_state. rewrite Su. injection Eu as _ _ _ -> _ _ _. destruct Fu as [->|[[?|?] _]]; [done| |done].
    unfold WATCHER_ALL in *. lia. }
  assert (∀ v, watchers s2 !! x = Some v → who v = who w0 ∧ stream v = stream w0 ∧ w_failed_flush v = false) as Hx2.
  { intros v Hv. destruct (ev_watchers _ _ H2 x v Hv) as (u & Hu & Eu & Su). assert (u = w) as -> by congruence.
    split_and!; [congruence|congruence|]. destruct (H6 x v Hv) as (u' & Hu' & Fu). assert (u' = w) as -> by congruence.
    destruct Fu as [->|[_ ?]]; done. }
  assert (rank s1 = 2 * Z.of_nat (buffered (watchers s1)) + 1) as Hr1 by (unfold rank; by rewrite Hw, Hff).
  destruct (Z.leb_spec r 0) as [Hle|Hgt]; cbn [when].
  - unfold upd_watcher. apply yields_bind. unfold get_watcher. unfold yields at 1.
    destruct (watchers s2 !! x) as [w2|] eqn:Hw2; [|exact HF]. destruct (Hx2 w2 eq_refl) as (Ew2 & Es2 & _).
    pose proof (wo_buf _ _ _ (ro_watchers _ _ H1 x w2 Hw2)) as Hb2.
    assert (no_room (bip_size (w_buf w0)) (stream w0) line) as Hno.
    { destruct (H5 ltac:(lia) x w2 Hw2) as (u & Hu & Eb). assert (u = w) as -> by congruence.
      exists (w_buf w2). split_and!; [done|by injection Ew2|rewrite <- Es2; by eexists|].
      unfold bipbuf_request in Hr. rewrite <- Eb in Hr. by destruct (Z.ltb_spec (bipbuf_unused (w_buf w2)) (Z.of_nat (length line) + SKIP_ROOM)). }
    set (w3 := set_w_failed_flush true w2).
    assert (buffered (<[x := w3]> (watchers s2)) = buffered (watchers s2)) as Hbuf.
    { pose proof (buffered_change (watchers s2) (<[x := w3]> (watchers s2)) x Hslot
        ltac:(intros; by rewrite lookup_insert_ne)) as Hc. rewrite lookup_insert_eq, Hw2 in Hc. cbn in Hc. lia. }
    apply yields_modify, yields_ret. eexists (rank _). split; [|split; [|done]].
    + rewrite Hr1. unfold rank. cbn [watchers set_watchers]. rewrite lookup_insert_eq, Hbuf. cbn. lia.
    + split_and!.
      * eapply registry_update; try done. cbn. exact (wo_skipped _ _ _ (ro_watchers _ _ H1 x w2 Hw2)).
      * eapply aside_trans; [exact Has|]. eapply aside_trans; [exact Has2|]. split; [|by intros l|done..].
        intros y v Hy. cbn. rewrite lookup_insert_ne by done. eauto.
      * intros v. cbn. rewrite lookup_insert_eq. intros [= <-]. split_and!; [done|done|]. by right.
  - apply yields_ret, yields_ret. exists (rank s2). split; [|split; [|done]].
    + rewrite Hr1. unfold rank. destruct (watchers s2 !! x) as [w2|]; [destruct (w_failed_flush w2)|]; lia.
    + split_and!; [done|by eapply aside_trans|]. intros v Hv. destruct (Hx2 v Hv) as (? & ? & Fv).
      split_and!; [done|done|]. left. congruence.
Qed.

Lemma write_watcher_spec s L f line x :
  registry_ok s L → Forall is_byte line →
  yields F (write_watcher f line tt x) s (λ _ s',
    registry_ok s' L ∧ told (λ y, if y =? x then [(f, line)] else []) s s' ∧ rings s s').
Proof.
  intros Hok Hb. unfold write_watcher. apply yields_bind, yields_gets.
  assert ((∀ w, watchers s !! x = Some w → Z.land f (w_eflags w) = 0) →
    registry_ok s L ∧ told (λ y, if y =? x then [(f, line)] else []) s s ∧ rings s s) as Hnone.
  { intros Hx. split_and!; [done| |by intros l]. split; [|done..]. intros y w Hw. exists w. split_and!; [done..|].
    destruct (Z.eqb_spec y x) as [->|]; [|constructor]. apply fed_other; [by apply Hx|constructor]. }
  destruct (watchers s !! x) as [w|] eqn:Hw; [|by apply Hnone].
  destruct (Z.eqb_spec (Z.land f (w_eflags w)) 0) as [Hz|Hz]; [apply Hnone; congruence|].
  apply yields_bind. eapply yields_mono; [|by apply (room_spec s L x line w)].
  intros off s1 (Hok1 & Has & w1 & Hw1 & Ew & Es & Hoff).
  assert (∀ s' st, wrote L s1 x w1 st s' → fed (w_eflags w) (bip_size (w_buf w)) [(f, line)] (told_state w) st →
    registry_ok s' L ∧ told (λ y, if y =? x then [(f, line)] else []) s s' ∧ rings s s') as Hdone.
  { intros s' st (A & B & w' & Hw' & C1 & C2 & <-) Hf. pose proof (aside_trans _ _ _ _ Has B) as Has'.
    injection Ew as _ _ _ _ _ E6 E7. split_and!; [done| |apply Has'].
    eapply told_update; [done..| |done]. right. split; congruence. }
  assert (w_skipped w1 = w_skipped w) as Esk by (by injection Ew).
  destruct off as [off|].
  - destruct Hoff as (F1 & F0 & Hr). eapply yields_mono; [|by apply (put_line_spec s1 L x w1)].
    intros [] s' Hwr. apply (Hdone _ _ Hwr). unfold told_state. rewrite Es, Esk, F0, F1. apply fed_sent; [done|constructor].
  - destruct Hoff as (F1 & Hff). eapply yields_mono; [|by apply (count_skipped_spec s1 L x w1)].
    intros [] s' Hwr. apply (Hdone _ _ Hwr). unfold told_state. rewrite Es, Esk, F1.
    destruct (w_failed_flush w); [apply fed_skipped; [done|constructor]|].
    destruct Hff as [?|Hno]; [done|]. apply fed_blocked; [done|done|constructor].
Qed.

(** An entry reaches every watcher. *)
Lemma write_entry_spec s L f line :
  registry_ok s L → Forall is_byte line →
  yields F (logger_thread_write_entry f line) s (λ _ s',
    registry_ok s' L ∧ told (λ _, [(f, line)]) s s' ∧ rings s s').
Proof.
  intros Hok Hb. unfold logger_thread_write_entry.
  eapply yields_mono; [|apply (yields_foldl F (write_watcher f line) (λ l _ s', registry_ok s' L ∧ (∃ l0, seqZ 0 WATCHER_LIMIT = l0 ++ l) ∧
    told (λ y, if bool_decide (y ∈ l) then [] else [(f, line)]) s s' ∧ rings s s'))].
  - intros [] s' (A & _ & B & C). by split_and!.
  - split_and!; [done|by exists []| |by intros l]. split; [|done..]. intros y w Hw. exists w. split_and!; [done..|].
    rewrite bool_decide_eq_true_2; [constructor|]. apply elem_of_seqZ. exact (wo_slot _ _ _ (ro_watchers _ _ Hok y w Hw)).
  - intros [] x l s1 (A & [l0 El] & B & C). eapply yields_mono; [|by apply (write_watcher_spec s1 L)].
    intros [] s2 (D & G & J). split_and!; [done|exists (l0 ++ [x]); by rewrite <- app_assoc| |by eapply rings_trans].
    eapply told_ext; [|by exists L|exact (told_trans _ _ _ _ _ B G)]. intros y Hy. cbn.
    assert (NoDup (l0 ++ x :: l)) as Hnd by (rewrite <- El; apply NoDup_seqZ).
    apply list.NoDup_app in Hnd as (_ & _ & [Hx Hnd]%list.NoDup_cons).
    destruct (Z.eqb_spec y x) as [->|Hne].
    + rewrite bool_decide_eq_true_2, bool_decide_eq_false_2 by set_solver. done.
    + rewrite (bool_decide_ext (y ∈ x :: l) (y ∈ l)) by set_solver. apply app_nil_r.
Qed.
End telling.
