(* ===== verification/LoggerClaims.v ===== *)
(** * From the workers' entries to the watchers' streams

    Entries in a worker's ring buffer against the lines they are rendered to;
    a turn of the logger thread; what [logger_log] puts into the buffer; the
    registry under all operations. *)
From Stdlib Require Import ZArith Lia.
From stdpp Require Import strings prelude gmap list functions.
From S2P Require Import Prelude Mem Util Item State Items Bip Conn ConnOps Ascii Thread ThreadFacts Logger LoggerFacts.

(** ** Encoded entries *)
(** The bytes [bs] are an entry with the flags [e.1], rendered as [e.2]. *)
Definition renders (bs : list Z) (e : Z * list Z) : Prop :=
  (40 ≤ length bs)%nat ∧ Forall is_byte e.2 ∧ ∀ m p, load_bytes m p (length bs) = bs →
    logger_thread_parse_entry m p = Ok (Some e.2) ∧ le_eflags m p = e.1 ∧
    SIZEOF_logentry + le_size m p = Z.of_nat (length bs).
Definition encodes (bs : list Z) (es : list (Z * list Z)) : Prop :=
  ∃ bss, bs = concat bss ∧ Forall2 renders bss es.

Definition region_a (b : bipbuf) : list Z := load_bytes (bip_data b) (a_start b) (Z.to_nat (a_end b - a_start b)).
Definition region_b (b : bipbuf) : list Z := load_bytes (bip_data b) 0 (Z.to_nat (b_end b)).
(** The entries waiting in a worker's buffer, those the reader will see first. *)
Record ring_ok (b : bipbuf) (esA esB : list (Z * list Z)) : Prop := {
  ri_ok : bip_ok b;
  ri_a : encodes (region_a b) esA;
  ri_b : encodes (region_b b) esB
}.

Lemma encodes_empty es : encodes [] es → es = [].
Proof.
  intros (bss & E & H). destruct H as [|bs e bss es [Hl _] _]; [done|]. cbn in E. symmetry in E.
  apply app_eq_nil in E as [-> _]. cbn in Hl. lia.
Qed.
Lemma encodes_app bs1 bs2 es1 es2 : encodes bs1 es1 → encodes bs2 es2 → encodes (bs1 ++ bs2) (es1 ++ es2).
Proof.
  intros (bss1 & -> & H1) (bss2 & -> & H2). exists (bss1 ++ bss2). split; [by rewrite concat_app|by apply Forall2_app].
Qed.
Lemma encodes_one bs e : renders bs e → encodes bs [e].
Proof. intros H. exists [bs]. cbn. rewrite app_nil_r. split; [done|by constructor]. Qed.

(** ** Reading a worker's buffer *)
Section reading.
Context (F : fault → Prop) (HF : F UseAfterFree).

Lemma told_none E s s' : watchers s' = ∅ → logger_stack_head s' = logger_stack_head s →
  logger_stack_lock s' = logger_stack_lock s → told E s s'.
Proof. intros Hw ? ?. split; [|done..]. rewrite Hw. intros x w Hx. done. Qed.

Lemma read_loop_spec s L m off n es :
  registry_ok s L → 0 ≤ n < 2 ^ 31 → encodes (load_bytes m off (Z.to_nat n)) es →
  yields F (loop FUEL (read_body m off n) 0) s (λ pos s',
    registry_ok s' L ∧ told (λ _, es) s s' ∧ rings s s' ∧ pos ≤ n).
Proof.
  intros Hok Hn (bss & Hbs & Hes).
  assert (Z.of_nat (length (concat bss)) = n) as Hlen by (rewrite <- Hbs, load_bytes_length; lia).
  apply (yields_loop F FUEL _ (λ k pos s', ∃ bss1 bss2 es1 es2, bss = bss1 ++ bss2 ∧ es = es1 ++ es2 ∧ Forall2 renders bss2 es2 ∧
    pos = Z.of_nat (length (concat bss1)) ∧ k = Z.of_nat (length (concat bss2)) ∧
    registry_ok s' L ∧ told (λ _, es1) s s' ∧ rings s s') _ n).
  2: { exists [], bss, [], es. split_and!; try done. by apply told_refl. }
  2: { etrans; [apply Hn|done]. }
  intros k pos s1 (bss1 & bss2 & es1 & es2 & -> & -> & Hes2 & -> & -> & Hok1 & Htold & Hrings).
  rewrite concat_app, length_app in Hlen. unfold read_body. apply yields_bind, yields_gets.
  destruct (Z.ltb_spec (Z.of_nat (length (concat bss1))) n) as [Hlt|Hge]; cbn [andb].
  2: { assert (es2 = []) as ->.
       { apply encodes_empty. exists bss2. split; [|done]. symmetry. apply length_zero_iff_nil. lia. }
       rewrite app_nil_r. split_and!; (done || lia). }
  destruct (Z.gtb_spec (watcher_count s1) 0) as [Hwc|Hwc].
  2: { split_and!; [done| |done|lia]. destruct Htold as [_ Hh Hl]. apply told_none; [|done..].
       apply map_size_empty_iff. rewrite (ro_count _ _ Hok1) in Hwc. lia. }
  destruct Hes2 as [|b e bss2 es2 Hb Hes2]; [cbn in Hlen; lia|]. cbn [concat] in *. rewrite length_app in *.
  destruct Hb as (Hb40 & Hbytes & Hb).
  destruct (Hb m (off + Z.of_nat (length (concat bss1)))) as (Hparse & Hflags & Hsize).
  { pose proof (load_bytes_slice m off (Z.to_nat n) (length (concat bss1)) (length b)) as Hsl.
    rewrite Nat.min_l in Hsl by lia. rewrite <- Hsl, Hbs, concat_app. cbn [concat].
    rewrite drop_app_length, take_app_length. done. }
  apply yields_bind. unfold lift_result. unfold yields at 1. rewrite Hparse.
  apply yields_bind. rewrite Hflags. eapply yields_mono; [|by apply (write_entry_spec F HF s1 L)].
  intros [] s2 (A & B & C). apply yields_ret. exists (Z.of_nat (length (concat bss2))). split; [lia|].
  exists (bss1 ++ [b]), bss2, (es1 ++ [e]), es2. rewrite <- !app_assoc. split_and!; try done.
  - rewrite concat_app, length_app. cbn [concat]. rewrite app_nil_r, Hsize. rewrite u64_small, u32_small; lia.
  - destruct e. exact (told_trans _ _ _ _ _ Htold B).
  - by eapply rings_trans.
Qed.

Lemma upd_logger_spec l x f s (Q : unit → logsys → Prop) :
  loggers s !! l = Some x → Q tt (set_loggers (<[l := f x]> (loggers s)) s) → yields F (upd_logger l f) s Q.
Proof. intros Hx HQ. unfold upd_logger, get_logger, yields, mbind, M_bind. by rewrite Hx. Qed.

Lemma lchain_insert m p L l x x' :
  m !! l = Some x → l_next x' = l_next x → lchain m p L → lchain (<[l := x']> m) p L.
Proof.
  intros Hx Hn. revert p. induction L as [|a L IH]; intros p; [done|]. intros [-> (y & Hy & Hc)]. split; [done|].
  destruct (decide (a = l)) as [->|Hne].
  - exists x'. rewrite lookup_insert_eq. split; [done|]. rewrite Hn. apply IH. by simplify_eq.
  - exists y. rewrite lookup_insert_ne by done. auto.
Qed.
Lemma registry_logger s L l x x' :
  registry_ok s L → loggers s !! l = Some x → l_next x' = l_next x → l_eflags x' = l_eflags x →
  registry_ok (set_loggers (<[l := x']> (loggers s)) s) L.
Proof.
  intros [R1 R2 R3 R4 R5 R6 R7] Hx Hn He. split; try done; cbn.
  - by eapply lchain_insert.
  - intros k y Hk [[<- <-]|[_ Hy]]%lookup_insert_Some; [rewrite He|]; by eapply R7.
Qed.

(** After the read only what was behind the region read is left. *)
Definition drained (b b' : bipbuf) : Prop := bip_ok b' ∧ bip_content b' = region_b b.

Lemma poll_drains b :
  bip_ok b → a_start b < a_end b →
  ∃ b', bipbuf_poll b (a_end b - a_start b) = (Some (a_start b), b') ∧ drained b b'.
Proof.
  intros Hb Hlt. destruct (poll_takes b (a_end b - a_start b) Hb ltac:(lia)) as (b' & E & Hb' & _ & Hd).
  exists b'. split; [done|]. split; [done|]. rewrite Hd. unfold bip_content.
  rewrite drop_app_ge, load_bytes_length, Nat.sub_diag by (rewrite load_bytes_length; lia). by rewrite drop_0.
Qed.

Lemma drained_empty b : bip_ok b → bipbuf_peek_all b = None → drained b b ∧ region_a b = [].
Proof.
  intros Hb Hp. pose proof (peek_all_spec b Hb) as Hs. rewrite Hp in Hs. unfold bip_content in Hs.
  fold (region_a b) in Hs. fold (region_b b) in Hs. apply app_eq_nil in Hs as [H1 H2]. split; [split; [done|]|done].
  unfold bip_content. fold (region_a b). fold (region_b b). by rewrite H1, H2.
Qed.

(** Reading one worker's buffer tells its entries to the watchers. *)
Lemma read_spec s L l x es :
  registry_ok s L → loggers s !! l = Some x → bip_ok (l_buf x) → encodes (region_a (l_buf x)) es →
  yields F (logger_thread_read l) s (λ _ s', registry_ok s' L ∧ told (λ _, es) s s' ∧
    (∀ k, k ≠ l → set_l_eflags 0 <$> loggers s' !! k = set_l_eflags 0 <$> loggers s !! k) ∧
    ∃ x', loggers s' !! l = Some x' ∧ l_next x' = l_next x ∧ drained (l_buf x) (l_buf x')).
Proof.
  intros Hok Hx Hb Hes. unfold logger_thread_read. apply yields_bind. unfold get_logger at 1. unfold yields at 1. rewrite Hx.
  pose proof (peek_all_spec _ Hb) as Hpeek. destruct (bipbuf_peek_all (l_buf x)) as [[off n]|] eqn:Hp.
  2: { destruct (drained_empty _ Hb Hp) as [Hd Ha]. rewrite Ha in Hes. apply encodes_empty in Hes as ->.
       split_and!; [done|by apply told_refl|done|by exists x]. }
  destruct Hpeek as (-> & -> & Hpos & _). set (n := a_end (l_buf x) - a_start (l_buf x)) in *.
  apply yields_bind. eapply yields_mono; [|apply (read_loop_spec s L _ _ n es Hok)]; [|destruct Hb; lia|done].
  intros pos s1 (Hok1 & Htold & Hrings & Hle). apply yields_bind.
  rewrite (proj2 (Z.leb_le _ _) Hle). apply yields_ret.
  specialize (Hrings l) as Hl. rewrite Hx in Hl. apply fmap_Some in Hl as (x1 & Hx1 & Ex1).
  assert (l_buf x1 = l_buf x ∧ l_next x1 = l_next x) as [Eb En] by (injection Ex1; intros; by split).
  apply yields_bind. unfold get_logger at 1. unfold yields at 1. rewrite Hx1, Eb.
  destruct (poll_drains _ Hb ltac:(lia)) as (b' & Epoll & Hd). fold n in Epoll. rewrite Epoll.
  apply yields_bind, (upd_logger_spec l x1); [done|]. apply yields_bind, upd_lstats_spec.
  apply yields_bind, (upd_logger_spec l (set_l_buf b' x1)); [apply lookup_insert_eq|].
  apply yields_bind. rewrite bool_decide_eq_true_2 by (by eexists). apply yields_ret, yields_ret.
  cbn [loggers set_loggers set_lstats]. rewrite insert_insert_eq. set (x' := set_l_dropped 0 _).
  set (s' := set_loggers _ _). assert (s' = set_lstats (lstats s') (set_loggers (<[l := x']> (loggers s1)) s1)) as -> by done.
  split_and!.
  - by apply registry_lstats, (registry_logger s1 L l x1).
  - by destruct Htold.
  - intros k Hk. cbn. rewrite lookup_insert_ne by done. apply Hrings.
  - exists x'. cbn. rewrite lookup_insert_eq. by split_and!.
Qed.
End reading.

(** ** A turn of the logger thread *)
Section turn.
Context (F : fault → Prop) (HF : F UseAfterFree).

Lemma read_all_spec s L E :
  registry_ok s L →
  (∀ l x, l ∈ L → loggers s !! l = Some x → bip_ok (l_buf x) ∧ encodes (region_a (l_buf x)) (E l)) →
  yields F (loop FUEL read_all_body (logger_stack_head s, 0)) s (λ _ s',
    registry_ok s' L ∧ told (λ _, concat (E <$> L)) s s' ∧
    ∀ l x, l ∈ L → loggers s !! l = Some x → ∃ x', loggers s' !! l = Some x' ∧ drained (l_buf x) (l_buf x')).
Proof.
  intros Hok HE.
  apply (yields_loop F FUEL _ (λ k acc s', ∃ L1 L2, L = L1 ++ L2 ∧ k = Z.of_nat (length L2) ∧
    registry_ok s' L ∧ told (λ _, concat (E <$> L1)) s s' ∧ lchain (loggers s') acc.1 L2 ∧
    (∀ l, l ∈ L2 → set_l_eflags 0 <$> loggers s' !! l = set_l_eflags 0 <$> loggers s !! l) ∧
    (∀ l x, l ∈ L1 → loggers s !! l = Some x → ∃ x', loggers s' !! l = Some x' ∧ drained (l_buf x) (l_buf x'))) _ (Z.of_nat (length L))).
  3: { etrans; [apply (ro_small _ _ Hok)|done]. }
  2: { exists [], L. split_and!; try done; [by apply told_refl|apply Hok|]. intros l x Hl. by apply elem_of_nil in Hl. }
  intros k [p found] s1 (L1 & L2 & -> & -> & Hok1 & Htold & Hc & Hsame & Hdone). unfold read_all_body. cbn [fst] in Hc.
  destruct L2 as [|l L2]; cbn in Hc.
  { subst p. rewrite app_nil_r in *. by split_and!. }
  destruct Hc as [-> (x1 & Hx1 & Hc)]. specialize (Hsame l ltac:(set_solver)) as Hl. rewrite Hx1 in Hl. symmetry in Hl.
  apply fmap_Some in Hl as (x & Hx & Ex). assert (l_buf x1 = l_buf x) as Eb by (by injection Ex).
  destruct (HE l x ltac:(set_solver) Hx) as [Hb He]. rewrite <- Eb in Hb, He.
  apply yields_bind. eapply yields_mono; [|by apply (read_spec F HF s1 (L1 ++ l :: L2) l x1 (E l))].
  intros n s2 (A & B & C & x' & Hx' & En & Hd). apply yields_bind. unfold get_logger. unfold yields at 1. rewrite Hx'.
  apply yields_ret. exists (Z.of_nat (length L2)). split; [cbn [length]; lia|]. exists (L1 ++ [l]), L2. rewrite <- app_assoc. cbn [fst].
  pose proof (ro_nodup _ _ Hok) as Hnd. apply list.NoDup_app in Hnd as (_ & Hd12 & [Hl2 _]%list.NoDup_cons).
  split_and!; try done.
  - rewrite fmap_app, concat_app. cbn. rewrite app_nil_r. exact (told_trans _ _ _ _ _ Htold B).
  - rewrite En. clear -C Hc Hl2. revert Hc. generalize (l_next x1). induction L2 as [|a L2 IH]; intros p; [done|].
    intros [-> (y & Hy & Hc)]. split; [done|]. specialize (C a ltac:(set_solver)) as Ca. rewrite Hy in Ca.
    apply fmap_Some in Ca as (y' & Hy' & Ey). exists y'. split; [done|]. replace (l_next y') with (l_next y) by (by injection Ey).
    apply IH; [set_solver|done].
  - intros k Hk. rewrite C by (intros ->; done). apply Hsame. set_solver.
  - intros k y [Hk|Hk%list_elem_of_singleton]%elem_of_app Hy.
    + destruct (Hdone k y Hk Hy) as (y1 & Hy1 & Hdy). specialize (C k) as Ck.
      rewrite Hy1 in Ck. destruct (decide (k = l)) as [->|Hne]; [by specialize (Hd12 l Hk ltac:(set_solver))|].
      specialize (Ck Hne). apply fmap_Some in Ck as (y' & Hy' & Ey). exists y'. split; [done|].
      by replace (l_buf y') with (l_buf y1) by (by injection Ey).
    + subst k. simplify_eq. exists x'. split; [done|]. by rewrite <- Eb.
Qed.
End turn.

Lemma registry_lock s L b : registry_ok s L → registry_ok (set_logger_stack_lock b s) L.
Proof. intros [? ? ? ? ? ? ?]. by split. Qed.

