(* ===== verification/LogEntry.v ===== *)
(** * What a worker logs is what is rendered

    The bytes [logger_log] leaves in a worker's ring buffer for each kind of
    entry, and the line the logger thread makes of them. *)
From Stdlib Require Import ZArith Lia.
From stdpp Require Import strings prelude gmap list functions.
From S2P Require Import Prelude Mem Util Item State Items Bip Conn ConnOps Ascii Thread ThreadFacts Logger LoggerFacts LoggerClaims.

(** ** The specified line *)
Definition stamp_text (gid : Z) (tv : Z * Z) : list Z :=
  str "ts=" ++ fmt_d (i32 (u64 tv.1)) ++ str "." ++ fmt_d (i32 (u64 tv.2)) ++ str " gid=" ++ fmt_u gid.

Definition cmd_text (c : Z) : list Z := if c <=? 5 then str (cmd_map !!! Z.to_nat c) else str "na".

(** The text the logger has for what is logged, for the cache [s].  The codes of a
    store appear as the words of the logger's own tables, which are one entry
    off: the result STORED (1) is printed as "exists" and the command set (2) as
    "replace" ([stored_set_text]). *)
Definition logged_text (s : cache) (a : log_args) : list Z :=
  match a with
  | LogAsciiCmd fd text => str " <" ++ fmt_d fd ++ [SP] ++ text ++ [LF]
  | LogEviction it =>
      match meta s !! it with
      | None => []
      | Some x =>
          str " type=eviction key=" ++ flat_map uri_enc (item_key (log s) (item x)) ++
          str " fetch=" ++ (if has (it_flags x) ITEM_STORED then str "yes" else str "no") ++
          str " ttl=" ++ fmt_d (if exptime (log s) (item x) >? 0 then u32 (exptime (log s) (item x) - current_time s) else -1) ++
          str " la=" ++ fmt_d (i32 (u32 (current_time s - time x))) ++ [LF]
      end
  | LogItemGet f key =>
      str " type=item_get key=" ++ flat_map uri_enc key ++ str " status=" ++ str (was_found_map !!! Z.to_nat f) ++ [LF]
  | LogItemStore st c key =>
      str " type=item_store key=" ++ flat_map uri_enc key ++ str " status=" ++ str (status_map !!! Z.to_nat st) ++
      str " cmd=" ++ cmd_text c ++ [LF]
  end.

Example stored_set_text (s : cache) :
  logged_text s (LogItemStore 1 2 (str "k")) = str " type=item_store key=k status=exists cmd=replace" ++ [LF].
Proof. reflexivity. Qed.

(** Keys of at most 250 bytes, commands of fewer than 480 bytes (a longer one may
    not fit its entry), and codes the tables of the logger have an entry for (the
    result NO_MEMORY, 5, has none). *)
Definition loggable (s : cache) (a : log_args) : Prop :=
  match a with
  | LogAsciiCmd fd text => Forall is_byte text ∧ 0 ∉ text ∧ Z.of_nat (length text) < 480
  | LogEviction it => ∃ x, meta s !! it = Some x ∧ nkey (log s) (item x) ≤ 250 ∧ 0 ≤ it_flags x < 2 ^ 16
  | LogItemGet f key => 0 ≤ f < 4 ∧ Forall is_byte key ∧ Z.of_nat (length key) ≤ 250
  | LogItemStore st c key => 0 ≤ st < 5 ∧ 0 ≤ c < 2 ^ 31 ∧ Forall is_byte key ∧ Z.of_nat (length key) ≤ 250
  end.

(** ** Encoded keys *)
Lemma flat_map_enc_length key : (length (flat_map uri_enc key) ≤ 3 * length key)%nat.
Proof. induction key as [|c key IH]; [done|]. cbn [flat_map length]. rewrite length_app. pose proof (uri_enc_length c). lia. Qed.
Lemma uri_enc_bytes c : is_byte c → Forall is_byte (uri_enc c).
Proof.
  intros Hc. unfold uri_enc. destruct (unreserved c); [by constructor|]. unfold is_byte in Hc.
  assert (∀ d, 0 ≤ d < 16 → is_byte (hexdigit d)) as Hh.
  { intros d Hd. unfold is_byte, hexdigit. destruct (d <? 10); lia. }
  constructor; [done|]. constructor; [apply Hh|constructor; [apply Hh|constructor]].
  - split; [apply Z.div_pos; lia|apply Z.div_lt_upper_bound; lia].
  - apply Z.mod_pos_bound. lia.
Qed.
Lemma flat_map_enc_bytes key : Forall is_byte key → Forall is_byte (flat_map uri_enc key).
Proof. induction 1 as [|c key Hc _ IH]; [done|]. cbn. apply Forall_app. split; [by apply uri_enc_bytes|done]. Qed.

(** A key that is not too long fits [keybuf]. *)
Lemma keybuf_ok m p key :
  load_bytes m p (length key) = key → Forall is_byte key → Z.of_nat (length key) ≤ 250 →
  keybuf m p (Z.of_nat (length key)) = Ok (flat_map uri_enc key).
Proof.
  intros Hk Hb Hl. unfold keybuf. rewrite Nat2Z.id, Hk. unfold uriencode, LOGGER_PARSE_SCRATCH.
  destruct (uriencode_loop_complete key [] 4096 Hb ltac:(cbn; lia)) as [out Ho]. rewrite Ho.
  apply uriencode_loop_sound in Ho as [-> _]; [|done]. cbn [app].
  pose proof (flat_map_enc_length key). unfold KEYBUF_SIZE, KEY_MAX_LENGTH.
  by rewrite (proj2 (Z.ltb_ge _ _)) by lia.
Qed.

(** ** Entries elsewhere in memory *)
Section shift.
Context (m m' : memory) (e p : Z) (n : nat) (Hn : load_bytes m' p n = load_bytes m e n).

Lemma shift_bytes k j : 0 ≤ k → k + Z.of_nat j ≤ Z.of_nat n → load_bytes m' (p + k) j = load_bytes m (e + k) j.
Proof using Hn.
  intros Hk Hj. pose proof (load_bytes_slice m' p n (Z.to_nat k) j) as H1. pose proof (load_bytes_slice m e n (Z.to_nat k) j) as H2.
  rewrite Z2Nat.id, Nat.min_l in H1 by lia. rewrite Z2Nat.id, Nat.min_l in H2 by lia. by rewrite <- H1, <- H2, Hn.
Qed.
Lemma shift_le k j : 0 ≤ k → k + Z.of_nat j ≤ Z.of_nat n → load_le m' (p + k) j = load_le m (e + k) j.
Proof using Hn. intros. unfold load_le. by rewrite shift_bytes. Qed.
Lemma shift_event : (40 ≤ n)%nat → le_event m' p = le_event m e.
Proof using Hn. intros. unfold le_event. pose proof (shift_le 0 4) as H0. rewrite !Z.add_0_r in H0. apply H0; lia. Qed.
Lemma shift_stamp : (40 ≤ n)%nat → stamp m' p = stamp m e.
Proof using Hn. intros. unfold stamp, le_sec, le_usec, le_gid. by rewrite !shift_le by lia. Qed.
Lemma shift_key k j : 0 ≤ k → k + j ≤ Z.of_nat n → 0 ≤ j → keybuf m' (p + k) j = keybuf m (e + k) j.
Proof using Hn. intros. unfold keybuf. by rewrite shift_bytes by lia. Qed.
End shift.

(** A string with its terminator is read back. *)
Lemma cstring_read m a t : Forall (λ c, c ≠ 0) t → load_bytes m a (S (length t)) = t ++ [0] → cstring m a = t.
Proof.
  intros Hnz Ht.
  assert (∀ i, (i < length t)%nat → is_Some (m !! (a + Z.of_nat i))) as Hin.
  { intros i Hi. pose proof (load_bytes_lookup m a (S (length t)) i ltac:(lia)) as Hl. rewrite Ht, lookup_app_l in Hl by done.
    apply (Forall_lookup_1 _ _ _ _ Hnz) in Hl as Hc. unfold mget in Hc. destruct (m !! (a + Z.of_nat i)); [by eexists|]. by cbn in Hc. }
  assert (length t ≤ size m)%nat as Hsz.
  { assert (list_to_set (seqZ a (Z.of_nat (length t))) ⊆ (dom m : gset Z)) as Hsub.
    { intros k Hk%elem_of_list_to_set%elem_of_seqZ. apply elem_of_dom.
      destruct (Hin (Z.to_nat (k - a)) ltac:(lia)) as [v Hv]. exists v. by replace (a + Z.of_nat (Z.to_nat (k - a))) with k in Hv by lia. }
    apply subseteq_size in Hsub. rewrite size_list_to_set, length_seqZ, size_dom in Hsub by apply NoDup_seqZ. lia. }
  unfold cstring. replace (S (size m)) with (S (length t) + (size m - length t))%nat by lia.
  rewrite load_bytes_app, Ht, <- app_assoc. cbn [app]. apply take_while_app; [|done].
  apply forallb_forall. intros c Hc. rewrite Forall_forall in Hnz. apply Hnz in Hc.
  by rewrite (proj2 (Z.eqb_neq c 0)).
Qed.

Lemma renders_of m e n f text :
  (40 ≤ n)%nat → SIZEOF_logentry + le_size m e = Z.of_nat n → le_eflags m e = f →
  (∀ m' p, load_bytes m' p n = load_bytes m e n → entry_text m' p = Ok text) →
  0 < Z.of_nat (length text) < 4096 → Forall is_byte text →
  renders (load_bytes m e n) (f, text ++ [0]).
Proof.
  intros Hn Hs Hf Ht Hl Hb. split; [by rewrite load_bytes_length|]. split.
  - apply Forall_app. split; [done|]. by repeat constructor.
  - intros m' p. rewrite load_bytes_length. intros E. cbn [fst snd]. split_and!.
    + unfold logger_thread_parse_entry. rewrite (Ht _ _ E). cbn [rbind]. unfold LOGGER_PARSE_SCRATCH.
      rewrite Z.geb_leb, (proj2 (Z.leb_gt 4096 _)), (proj2 (Z.leb_gt _ 0)) by lia. done.
    + unfold le_eflags in *. by rewrite (shift_le _ _ _ _ _ E) by lia.
    + unfold le_size in *. by rewrite (shift_le _ _ _ _ _ E) by lia.
Qed.

(** ** Writing an entry *)
Lemma load_le_store_bytes_out m a bs b k :
  Forall is_byte bs → b + Z.of_nat k ≤ a ∨ a + Z.of_nat (length bs) ≤ b → load_le (store_bytes m a bs) b k = load_le m b k.
Proof. intros. by apply load_le_agree, agree_store_out. Qed.
Lemma load_bytes_store_le_out m a n v b k :
  b + Z.of_nat k ≤ a ∨ a + Z.of_nat n ≤ b → load_bytes (store_le m a n v) b k = load_bytes m b k.
Proof. intros. by apply load_bytes_agree, agree_store_le_out. Qed.

(** Read a field through the stores that built an entry. *)
Ltac field := repeat first
  [ rewrite load_le_store_eq
  | rewrite load_le_store_out by (cbn [Z.of_nat]; lia)
  | rewrite load_bytes_store_le_out by (cbn [Z.of_nat]; lia)
  | rewrite load_le_store_bytes_out by (done || lia) ].

Definition put_header (e gid : Z) (a : log_args) (tv : Z * Z) (m : memory) : memory :=
  let m := store_le m (e + 8) 8 gid in
  let m := store_le m e 4 (entry_subtype a) in
  let m := store_le m (e + 4) 2 (entry_eflags a) in
  store_le (store_le m (e + 16) 8 tv.1) (e + 24) 8 tv.2.

Section entry.
Context (e gid : Z) (a : log_args) (tv : Z * Z) (m0 : memory) (Hgid : 0 ≤ gid < 2 ^ 64).
#[local] Notation m4 := (put_header e gid a tv m0).

Lemma header_event : le_event m4 e = entry_subtype a.
Proof using. unfold le_event, put_header. field. by destruct a. Qed.
Lemma header_eflags : le_eflags m4 e = entry_eflags a.
Proof using. unfold le_eflags, put_header. field. by destruct a. Qed.
Lemma header_stamp : stamp m4 e = stamp_text gid tv.
Proof using Hgid.
  unfold stamp, stamp_text, le_sec, le_usec, le_gid, put_header. field.
  change (256 ^ Z.of_nat 8) with (2 ^ 64). rewrite (Z.mod_small gid) by done. done.
Qed.
Lemma header_frame b : b < e ∨ e + 32 ≤ b → mget m4 b = mget m0 b.
Proof using.
  intros Hb. unfold put_header, store_le. rewrite !mget_store_bytes_out; try done; auto using le_encode_bytes; rewrite le_encode_length; lia.
Qed.

(** What each kind of entry adds to the header. *)
Record filled (s : cache) (m : memory) : Prop := {
  fi_header : agree m m4 e 32;
  fi_size : 0 < le_size m e ≤ REQLEN;
  fi_frame : ∀ b, b < e ∨ e + SIZEOF_logentry + REQLEN ≤ b → mget m b = mget m4 b;
  fi_text : ∀ m' p, load_bytes m' p (Z.to_nat (SIZEOF_logentry + le_size m e)) = load_bytes m e (Z.to_nat (SIZEOF_logentry + le_size m e)) →
    entry_text m' p = Ok (stamp_text gid tv ++ logged_text s a)
}.
End entry.

Lemma stamp_text_length gid tv : (length (stamp_text gid tv) ≤ 71)%nat.
Proof.
  unfold stamp_text. rewrite !length_app. pose proof (fmt_d_length (i32 (u64 tv.1))). pose proof (fmt_d_length (i32 (u64 tv.2))).
  pose proof (fmt_u_length gid). change (length (str "ts=")) with 3%nat. change (length (str ".")) with 1%nat.
  change (length (str " gid=")) with 5%nat. lia.
Qed.
Lemma stamp_text_bytes gid tv : 0 ≤ gid → Forall is_byte (stamp_text gid tv).
Proof. intros. unfold stamp_text. repeat (apply Forall_app; split); auto using fmt_u_bytes, fmt_d_bytes, str_bytes. Qed.

(** ** Each kind of entry *)
Lemma table_at_ok t i : 0 ≤ i < Z.of_nat (length t) → table_at t i = Ok (str (t !!! Z.to_nat i)).
Proof.
  intros Hi. unfold table_at. rewrite (proj2 (Z.ltb_ge i 0)) by lia.
  destruct (lookup_lt_is_Some_2 t (Z.to_nat i)) as [x Hx]; [lia|]. by rewrite Hx, (list_lookup_total_correct _ _ _ Hx).
Qed.
Lemma i32_stored v : 0 ≤ v < 2 ^ 31 → i32 (v mod 256 ^ Z.of_nat 4) = v.
Proof. intros Hv. change (256 ^ Z.of_nat 4) with (2 ^ 32). rewrite Z.mod_small by lia. apply i32_small. lia. Qed.

Section kinds.
Context (e gid : Z) (tv : Z * Z) (m0 : memory) (s : cache) (Hgid : 0 ≤ gid < 2 ^ 64).

(** It is enough to look at the data of the entry. *)
Lemma filled_of a m k :
  (∀ b, b < e + 32 ∨ e + SIZEOF_logentry + REQLEN ≤ b → mget m b = mget (put_header e gid a tv m0) b) →
  le_size m e = k → 0 < k ≤ REQLEN →
  (∀ m' p, (∀ i j, 0 ≤ i → i + Z.of_nat j ≤ k → load_bytes m' (p + 40 + i) j = load_bytes m (e + 40 + i) j) →
     le_event m' p = entry_subtype a → stamp m' p = stamp_text gid tv → entry_text m' p = Ok (stamp_text gid tv ++ logged_text s a)) →
  filled e gid a tv m0 s m.
Proof using Hgid.
  intros Hout Hs Hk Ht. split; [intros b ?; apply Hout; lia|by rewrite Hs|intros b ?; apply Hout; lia|].
  rewrite Hs. unfold SIZEOF_logentry. intros m' p E.
  assert (∀ i j, 0 ≤ i → i + Z.of_nat j ≤ 32 → load_le m (e + i) j = load_le (put_header e gid a tv m0) (e + i) j) as Hag.
  { intros i j Hi Hj. apply load_le_agree. intros b ?. apply Hout. lia. }
  apply Ht.
  - intros i j Hi Hj. rewrite <- !Z.add_assoc. rewrite (shift_bytes _ _ _ _ _ E) by lia. done.
  - rewrite (shift_event _ _ _ _ _ E) by lia. rewrite <- (header_event e gid a tv m0). unfold le_event.
    specialize (Hag 0 4%nat). rewrite !Z.add_0_r in Hag. apply Hag; lia.
  - rewrite (shift_stamp _ _ _ _ _ E) by lia. rewrite <- (header_stamp e gid a tv m0 Hgid).
    unfold stamp, le_sec, le_usec, le_gid. by rewrite !Hag by lia.
Qed.

(** Bytes outside every store. *)
Ltac outside := rewrite !mget_store_bytes_out; try done; auto using le_encode_bytes; rewrite ?le_encode_length; lia.

Lemma item_get_filled f key :
  loggable s (LogItemGet f key) →
  filled e gid (LogItemGet f key) tv m0 s (_logger_log_item_get e f key (put_header e gid (LogItemGet f key) tv m0)).
Proof using Hgid.
  intros (Hf & Hb & Hl). set (m4 := put_header _ _ _ _ _). set (n := Z.of_nat (length key)) in *.
  unfold _logger_log_item_get, set_le_size, le_data, SIZEOF_logentry. fold n. set (m := store_le _ (e + 32) 4 _).
  apply (filled_of _ m (2 + n)); [|unfold le_size, m; field; apply i32_stored; lia|unfold REQLEN; lia|].
  { intros b Hb'. unfold m, m4, store_le, REQLEN, SIZEOF_logentry in *. outside. }
  intros m' p Hd Hev Hst. unfold entry_text. rewrite Hev. cbn. unfold _logger_thread_parse_ige, le_data, SIZEOF_logentry.
  assert (load_le m' (p + 40 + 1) 1 = n) as ->.
  { unfold load_le. rewrite Hd by lia. fold (load_le m (e + 40 + 1) 1). unfold m. field. apply Z.mod_small. cbn. lia. }
  assert (load_le m' (p + 40) 1 = f) as ->.
  { unfold load_le. rewrite <- (Z.add_0_r (p + 40)), Hd, Z.add_0_r by lia. fold (load_le m (e + 40) 1). unfold m. field. apply Z.mod_small. cbn. lia. }
  unfold n. rewrite (keybuf_ok m' _ key); [|rewrite Hd by lia; unfold m; field; by apply load_store_bytes_eq|done|done].
  rewrite table_at_ok by (cbn; lia). cbn [rbind logged_text]. by rewrite Hst.
Qed.

Lemma item_store_filled st c key :
  loggable s (LogItemStore st c key) →
  filled e gid (LogItemStore st c key) tv m0 s (_logger_log_item_store e st c key (put_header e gid (LogItemStore st c key) tv m0)).
Proof using Hgid.
  intros (Hst0 & Hc & Hb & Hl). set (m4 := put_header _ _ _ _ _). set (n := Z.of_nat (length key)) in *.
  unfold _logger_log_item_store, set_le_size, le_data, SIZEOF_logentry. fold n. set (m := store_le _ (e + 32) 4 _).
  apply (filled_of _ m (12 + n)); [|unfold le_size, m; field; apply i32_stored; lia|unfold REQLEN; lia|].
  { intros b Hb'. unfold m, m4, store_le, REQLEN, SIZEOF_logentry in *. outside. }
  intros m' p Hd Hev Hst. unfold entry_text. rewrite Hev. cbn. unfold _logger_thread_parse_ise, le_data, SIZEOF_logentry.
  assert (load_le m' (p + 40 + 8) 1 = n) as ->.
  { unfold load_le. rewrite Hd by lia. fold (load_le m (e + 40 + 8) 1). unfold m. field. apply Z.mod_small. cbn. lia. }
  assert (i32 (load_le m' (p + 40 + 4) 4) = c) as ->.
  { unfold load_le. rewrite Hd by lia. fold (load_le m (e + 40 + 4) 4). unfold m. field. apply i32_stored. lia. }
  assert (i32 (load_le m' (p + 40) 4) = st) as ->.
  { unfold load_le. rewrite <- (Z.add_0_r (p + 40)), Hd, Z.add_0_r by lia. fold (load_le m (e + 40) 4). unfold m. field. apply i32_stored. lia. }
  unfold n. rewrite (keybuf_ok m' _ key); [|rewrite Hd by lia; unfold m; field; by apply load_store_bytes_eq|done|done].
  assert ((if c <=? 5 then table_at cmd_map c else Ok (str "na")) = Ok (cmd_text c)) as ->.
  { unfold cmd_text. destruct (Z.leb_spec c 5); [|done]. by rewrite table_at_ok by (cbn; lia). }
  rewrite table_at_ok by (cbn; lia). cbn [rbind logged_text]. by rewrite Hst.
Qed.

Lemma text_filled fd text :
  loggable s (LogAsciiCmd fd text) →
  filled e gid (LogAsciiCmd fd text) tv m0 s (log_text e fd text (put_header e gid (LogAsciiCmd fd text) tv m0)).
Proof using Hgid.
  intros (Hb & Hz & Hl). set (m4 := put_header _ _ _ _ _). unfold log_text.
  set (t := str "<" ++ fmt_d fd ++ [SP] ++ text).
  assert (Forall is_byte t) as Htb.
  { unfold t. repeat (apply Forall_app; split); auto using fmt_d_bytes, str_bytes. by repeat constructor. }
  assert (0 < Z.of_nat (length t) < 504) as Htl.
  { unfold t. rewrite !length_app. pose proof (fmt_d_length fd). change (length (str "<")) with 1%nat. cbn [length]. lia. }
  assert (Forall (λ c, c ≠ 0) t) as Hnz.
  { unfold t. apply Forall_app. split; [by repeat constructor|]. apply Forall_app. split; [apply fmt_d_nonzero|].
    apply Forall_app. split; [by repeat constructor|]. apply Forall_forall. intros c Hc ->. by apply Hz, list_elem_of_In. }
  unfold REQLEN at 1 2. rewrite Z.geb_leb, (proj2 (Z.leb_gt 512 _)), (proj2 (Z.leb_gt _ 0)) by lia. cbn [orb].
  rewrite take_ge by (unfold REQLEN; lia). unfold set_le_size, le_data, SIZEOF_logentry. set (m := store_le _ (e + 32) 4 _).
  assert (Forall is_byte (t ++ [0])) as Htb0 by (apply Forall_app; split; [done|by repeat constructor]).
  apply (filled_of _ m (Z.of_nat (length t) + 1)); [|unfold le_size, m; field; apply i32_stored; lia|unfold REQLEN; lia|].
  { intros b Hb'. unfold m, m4, store_le, REQLEN, SIZEOF_logentry in *.
    rewrite !mget_store_bytes_out; try done; auto using le_encode_bytes; rewrite ?le_encode_length, ?length_app; cbn [length]; lia. }
  intros m' p Hd Hev Hst. unfold entry_text. rewrite Hev.
  change (entry_subtype _ =? LOGGER_TEXT_ENTRY) with true. cbv iota. unfold le_data, SIZEOF_logentry.
  rewrite (cstring_read m' (p + 40) t Hnz).
  - rewrite Hst. unfold t. by rewrite <- !app_assoc.
  - rewrite <- (Z.add_0_r (p + 40)), Hd, Z.add_0_r by lia. unfold m. field. apply load_store_bytes_eq; [done|].
    rewrite length_app. cbn [length]. lia.
Qed.

Lemma eviction_filled it x :
  loggable s (LogEviction it) → meta s !! it = Some x →
  filled e gid (LogEviction it) tv m0 s (_logger_log_evictions e (put_header e gid (LogEviction it) tv m0) s x).
Proof using Hgid.
  intros (x' & Hx' & Hl & Hf) Hx. assert (x' = x) as -> by congruence. set (m4 := put_header _ _ _ _ _).
  unfold _logger_log_evictions, set_le_size, le_data, SIZEOF_logentry.
  set (ttl := if exptime (log s) (item x) >? 0 then _ else _). set (n := nkey (log s) (item x)) in *. set (key := item_key (log s) (item x)).
  assert (0 ≤ n) as Hn by apply load_le_range.
  assert (Z.of_nat (length key) = n) as Hkl by (unfold key, item_key; rewrite load_bytes_length; fold n; lia).
  assert (Forall is_byte key) as Hkb by apply load_bytes_bytes.
  assert (-1 ≤ ttl < 2 ^ 32) as Httl by (unfold ttl; pose proof (u32_range (exptime (log s) (item x) - current_time s)); case_if; lia).
  set (m := store_le _ (e + 32) 4 _).
  apply (filled_of _ m (16 + n)); [|unfold le_size, m; field; apply i32_stored; lia|unfold REQLEN; lia|].
  { intros b Hb'. unfold m, m4, store_le, REQLEN, SIZEOF_logentry in *. outside. }
  intros m' p Hd Hev Hst. unfold entry_text. rewrite Hev. cbn [entry_subtype Z.eqb LOGGER_TEXT_ENTRY LOGGER_EVICTION_ENTRY].
  unfold _logger_thread_parse_ee, le_data, SIZEOF_logentry.
  assert (load_le m' (p + 40 + 14) 1 = n) as ->.
  { unfold load_le. rewrite Hd by lia. fold (load_le m (e + 40 + 14) 1). unfold m. field. apply Z.mod_small. cbn. lia. }
  assert (load_le m' (p + 40 + 12) 2 = it_flags x) as ->.
  { unfold load_le. rewrite Hd by lia. fold (load_le m (e + 40 + 12) 2). unfold m. field. by apply Z.mod_small. }
  assert (load_le m' (p + 40 + 8) 4 = u32 (current_time s - time x)) as ->.
  { unfold load_le. rewrite Hd by lia. fold (load_le m (e + 40 + 8) 4). unfold m. by field. }
  assert (i64 (load_le m' (p + 40) 8) = ttl) as ->.
  { unfold load_le. rewrite <- (Z.add_0_r (p + 40)), Hd, Z.add_0_r by lia. fold (load_le m (e + 40) 8). unfold m. field.
    change (256 ^ Z.of_nat 8) with (2 ^ 64). unfold i64. rewrite Z.add_mod_idemp_l by done. rewrite Z.mod_small; lia. }
  rewrite <- Hkl at 1. rewrite (keybuf_ok m' _ key); [|rewrite Hd by lia; unfold m; field; by apply load_store_bytes_eq|done|lia].
  cbn [rbind logged_text]. by rewrite Hst, Hx.
Qed.

(** Together: what the switch of [logger_log] leaves. *)
Lemma fill_entry_spec (F : fault → Prop) a st :
  kv (wd (lsys st)) = s → loggable s a →
  yields F (fill_entry e a (put_header e gid a tv m0)) st (λ m st', st' = st ∧ filled e gid a tv m0 s m).
Proof using Hgid.
  intros Hs Ha. destruct a as [fd text|it|f key|sto c key].
  - split; [done|by apply text_filled].
  - pose proof Ha as (x & Hx & _). unfold fill_entry, lsysio, wio, srv, zoom, get_meta, yields, mbind, M_bind, gets. rewrite Hs, Hx.
    split; [|by apply eviction_filled]. subst s. by destruct st as [? ? ? ? ? ? ? ? ? ? ? ? ? ? ? ? [? ? ? ? ? ? ? ? ? ? []]].
  - split; [done|by apply item_get_filled].
  - split; [done|by apply item_store_filled].
Qed.
End kinds.

(** The text fits the scratch buffer. *)
Ltac literal_lengths := repeat match goal with
  | |- context [length (str (String ?c ?s))] =>
      let n := eval vm_compute in (length (str (String c s))) in change (length (str (String c s))) with n
  end.
Lemma table_lengths i :
  (length (str (was_found_map !!! i)) ≤ 10 ∧ length (str (status_map !!! i)) ≤ 10 ∧ length (str (cmd_map !!! i)) ≤ 10)%nat.
Proof. do 7 (destruct i as [|i]; [vm_compute; lia|]). vm_compute. lia. Qed.

Lemma logged_text_ok s a :
  loggable s a → Forall is_byte (logged_text s a) ∧ 0 < Z.of_nat (length (logged_text s a)) < 1000.
Proof.
  assert (∀ key, Z.of_nat (length key) ≤ 250 → Z.of_nat (length (flat_map uri_enc key)) ≤ 750) as Hkey.
  { intros key Hk. pose proof (flat_map_enc_length key). lia. }
  destruct a as [fd text|it|f key|sto c key]; cbn [loggable logged_text].
  - intros (Hb & _ & Hl). split.
    + repeat (apply Forall_app; split); auto using fmt_d_bytes, str_bytes; by repeat constructor.
    + rewrite !length_app. literal_lengths. pose proof (fmt_d_length fd). cbn [length]. lia.
  - intros (x & -> & Hl & _). set (ttl := if _ >? 0 then _ else _). set (key := item_key _ _). split.
    + repeat (apply Forall_app; split); auto using fmt_d_bytes, str_bytes, flat_map_enc_bytes, load_bytes_bytes.
      * apply flat_map_enc_bytes, load_bytes_bytes.
      * case_if; apply str_bytes.
      * by repeat constructor.
    + rewrite !length_app. literal_lengths. pose proof (fmt_d_length ttl). pose proof (fmt_d_length (i32 (u32 (current_time s - time x)))).
      assert (Z.of_nat (length key) ≤ 250) as Hk by (unfold key, item_key; rewrite load_bytes_length; pose proof (load_le_range (log s) (item x + 10) 1); unfold nkey in *; lia).
      specialize (Hkey key Hk). cbn [length]. case_if; literal_lengths; lia.
  - intros (_ & Hb & Hl). specialize (Hkey key Hl). pose proof (table_lengths (Z.to_nat f)). split.
    + repeat (apply Forall_app; split); auto using str_bytes, flat_map_enc_bytes; by repeat constructor.
    + rewrite !length_app. literal_lengths. cbn [length]. lia.
  - intros (_ & _ & Hb & Hl). specialize (Hkey key Hl). pose proof (table_lengths (Z.to_nat sto)).
    assert (length (cmd_text c) ≤ 10)%nat as Hc by (unfold cmd_text; pose proof (table_lengths (Z.to_nat c)); case_if; [lia|cbn; lia]). split.
    + repeat (apply Forall_app; split); auto using str_bytes, flat_map_enc_bytes; [unfold cmd_text; case_if; apply str_bytes|by repeat constructor].
    + rewrite !length_app. literal_lengths. cbn [length]. lia.
Qed.

(** ** Logging *)
(** What the buffer holds once an entry of [k] bytes was pushed behind [e]. *)
Lemma push_entry b m e k en esA esB :
  ring_ok b esA esB → bipbuf_request b (SIZEOF_logentry + REQLEN) = Some e →
  (∀ a, a < e ∨ e + SIZEOF_logentry + REQLEN ≤ a → mget m a = mget (bip_data b) a) →
  0 < Z.of_nat k ≤ SIZEOF_logentry + REQLEN → renders (load_bytes m e k) en →
  ∃ b', bipbuf_push (bip_set_data m b) (Z.of_nat k) = (Z.of_nat k, b') ∧
    ring_ok b' (if b_inuse b then esA else esA ++ [en]) (if b_inuse b then esB ++ [en] else esB).
Proof.
  intros [Hb HA HB] Hr Hm Hk Hen. pose proof (unused_eq b Hb) as Hu. unfold bipbuf_request in Hr.
  destruct (Z.ltb_spec (bipbuf_unused b) (SIZEOF_logentry + REQLEN)) as [|Hroom]; [done|].
  assert (Z.of_nat k ≤ bipbuf_unused b) as Hk' by lia.
  unfold bipbuf_push. change (bipbuf_unused (bip_set_data m b)) with (bipbuf_unused b). rewrite (proj2 (Z.ltb_ge _ _)) by lia.
  eexists. split; [reflexivity|]. set (b1 := bipbuf_advance (bip_set_data m b) (Z.of_nat k) m).
  assert (ring_ok b1 (if b_inuse b then esA else esA ++ [en]) (if b_inuse b then esB ++ [en] else esB)) as [Hb1 HA1 HB1].
  2: { destruct (switch_ok b1 Hb1) as [Hok' _]. split; [done|..]; unfold check_for_switch_to_b; case_if; done. }
  pose proof Hb as [Hs Ha Hbb He]. unfold b1, bipbuf_advance. change (b_inuse (bip_set_data m b)) with (b_inuse b).
  destruct (b_inuse b) eqn:Ein; simplify_eq; cbn [bip_set_data bip_size a_start a_end b_end b_inuse bip_data].
  - rewrite u32_small by lia. split; cbn [bip_set_data bip_size a_start a_end b_end b_inuse bip_data].
    + split; cbn; try done; lia.
    + unfold region_a. cbn. rewrite (load_bytes_agree _ (bip_data b)); [done|]. intros a ?. apply Hm. lia.
    + unfold region_b. cbn. rewrite Z2Nat.inj_add, Nat2Z.id, load_bytes_app, Z2Nat.id by lia. apply encodes_app; [|by apply encodes_one].
      rewrite (load_bytes_agree _ (bip_data b)); [done|]. intros a ?. apply Hm. lia.
  - rewrite u32_small by lia. split; cbn [bip_set_data bip_size a_start a_end b_end b_inuse bip_data].
    + split; cbn; try done; lia.
    + unfold region_a. cbn. replace (Z.to_nat (a_end b + Z.of_nat k - a_start b)) with (Z.to_nat (a_end b - a_start b) + k)%nat by lia.
      rewrite load_bytes_app, Z2Nat.id by lia. replace (a_start b + (a_end b - a_start b)) with (a_end b) by lia.
      apply encodes_app; [|by apply encodes_one].
      rewrite (load_bytes_agree _ (bip_data b)); [done|]. intros a ?. apply Hm. lia.
    + unfold region_b in *. cbn. rewrite Hbb in *. done.
Qed.

(** C20: what is logged is what is rendered, for keys of at most 250 bytes,
    commands of fewer than 480 bytes, fetch results 0 to 3 and store results 0 to
    4 (5, NO_MEMORY, is past the end of the logger's table).  [logger_log] either
    finds no room for the largest entry in the worker's ring buffer and counts
    the entry as dropped, changing nothing else of the buffer, or appends an
    entry that the logger thread renders as the line with the time, the next
    global id and the text for that event: a command, an evicted item, the result
    of a fetch, or the result and command of a store, keys URI-encoded.  The
    words for a store are those the logger's tables hold at the logged codes,
    which are one entry off the names of the codes (a stored set is printed as
    "status=exists cmd=replace").  The entries that were waiting stay as they
    are, in order, wherever the new one lies in the buffer. *)
Theorem logger_log_correct (s : logsys) (l : Z) (x : logger) (a : log_args) (esA esB : list (Z * list Z))
    (Hx : loggers s !! l = Some x) (Hring : ring_ok (l_buf x) esA esB)
    (Ha : loggable (kv (wd (lsys s))) a) :
  wp (logger_log l a) s (λ r s', ∃ x', loggers s' = <[l := x']> (loggers s) ∧ watchers s' = watchers s ∧
    if bipbuf_unused (l_buf x) <? 552 then
      r = LOGGER_RET_NOSPACE ∧ l_buf x' = l_buf x ∧ l_dropped x' = u64 (l_dropped x + 1) ∧ l_written x' = l_written x
    else
      let gid := u64 (logger_gid s + 1) in
      let tv := match clock s with [] => (0, 0) | t :: _ => t end in
      let line := (entry_eflags a, stamp_text gid tv ++ logged_text (kv (wd (lsys s))) a ++ [0]) in
      r = LOGGER_RET_OK ∧ l_written x' = u64 (l_written x + 1) ∧ l_dropped x' = l_dropped x ∧
      ∃ esA' esB', ring_ok (l_buf x') esA' esB' ∧ esA' ++ esB' = esA ++ esB ++ [line]).
Proof.
  set (F := λ _ : fault, False).
  enough (∀ Q, yields F (logger_log l a) s Q → wp (logger_log l a) s Q) as Hwp. apply Hwp.
  2: { intros Q. unfold yields, wp. destruct (logger_log l a s) as [[r s']|]; [|done]. intros HQ. by exists r, s'. }
  unfold logger_log. apply yields_bind. unfold get_logger. unfold yields at 1. rewrite Hx.
  destruct (bipbuf_request (l_buf x) (SIZEOF_logentry + REQLEN)) as [e|] eqn:Hr.
  2: { apply yields_bind, (upd_logger_spec F l x); [done|]. apply yields_ret. eexists. split; [reflexivity|]. split; [done|].
       unfold bipbuf_request in Hr. change (SIZEOF_logentry + REQLEN) with 552 in Hr. by destruct (_ <? _). }
  assert (bipbuf_unused (l_buf x) <? 552 = false) as ->.
  { unfold bipbuf_request in Hr. change (SIZEOF_logentry + REQLEN) with 552 in Hr. by destruct (_ <? _). }
  cbv zeta. set (gid := u64 (logger_gid s + 1)). set (tv := match clock s with [] => _ | _ :: _ => _ end).
  apply yields_bind. unfold logger_get_gid. apply yields_bind, yields_modify, yields_gets. cbn [logger_gid set_logger_gid]. fold gid.
  apply yields_bind. eapply (yields_mono F _ _ (λ r s1, r = tv ∧ loggers s1 = loggers s ∧ watchers s1 = watchers s ∧ lsys s1 = lsys s)).
  2: { unfold gettimeofday, yields, tv. cbn [clock set_logger_gid]. by destruct (clock s). }
  intros tv' s1 (-> & El & Ew & Es). fold (put_header e gid a tv (bip_data (l_buf x))).
  pose proof (u64_range (logger_gid s + 1)) as Hgid. fold gid in Hgid. pose proof (ri_ok _ _ _ Hring) as Hb.
  apply yields_bind. eapply yields_mono; [|apply (fill_entry_spec e gid tv (bip_data (l_buf x)) (kv (wd (lsys s))) Hgid F a s1); [by rewrite Es|done]].
  intros m s1' [-> [Fh Fs Ff Ft]]. unfold REQLEN in Fs.
  assert (i32 (u64 (SIZEOF_logentry + le_size m e)) = Z.of_nat (Z.to_nat (SIZEOF_logentry + le_size m e))) as ->.
  { unfold SIZEOF_logentry. rewrite u64_small, i32_small by lia. lia. }
  set (k := Z.to_nat (SIZEOF_logentry + le_size m e)) in *.
  destruct (logged_text_ok _ _ Ha) as [Htb Htl]. pose proof (stamp_text_length gid tv) as Hsl.
  set (line := stamp_text gid tv ++ logged_text (kv (wd (lsys s))) a) in *.
  assert (renders (load_bytes m e k) (entry_eflags a, line ++ [0])) as Hren.
  { apply renders_of; [unfold k, SIZEOF_logentry; lia|unfold k, SIZEOF_logentry; lia| |exact Ft| |].
    - rewrite <- (header_eflags e gid a tv (bip_data (l_buf x))). apply load_le_agree. eapply agree_sub; [exact Fh|lia|lia].
    - unfold line. rewrite length_app. lia.
    - apply Forall_app. split; [apply stamp_text_bytes; lia|done]. }
  destruct (push_entry (l_buf x) m e k (entry_eflags a, line ++ [0]) esA esB Hring Hr) as (b' & Eb & Hring').
  { intros b Hb'. rewrite Ff by done. apply header_frame. unfold SIZEOF_logentry, REQLEN in Hb'. lia. }
  { unfold k, SIZEOF_logentry, REQLEN. lia. }
  { done. }
  rewrite Eb. apply yields_bind, (upd_logger_spec F l x); [by rewrite El|].
  rewrite (proj2 (Z.eqb_neq _ _)) by (unfold k, SIZEOF_logentry; lia).
  apply yields_bind, (upd_logger_spec F l (set_l_buf b' x)); [apply lookup_insert_eq|]. apply yields_ret.
  cbn [loggers watchers set_loggers]. rewrite El, insert_insert_eq. eexists. split; [reflexivity|]. split; [done|].
  split_and!; try done. eexists _, _. split; [exact Hring'|]. rewrite (app_assoc (stamp_text gid tv)). fold line.
  destruct (b_inuse (l_buf x)) eqn:Ein; [done|].
  assert (esB = []) as ->.
  { apply encodes_empty. destruct Hring as [[_ _ HbB _] _ HB]. rewrite Ein in HbB. unfold region_b in HB. by rewrite HbB in HB. }
  by rewrite !app_nil_r.
Qed.

(** ** Registering *)
Lemma free_slot_spec ws :
  map_Forall (λ x _, 0 ≤ x < WATCHER_LIMIT) ws → (size ws < 20)%nat →
  0 ≤ free_slot ws < WATCHER_LIMIT ∧ ws !! free_slot ws = None.
Proof.
  intros Hd Hs. unfold free_slot. destruct (filter (λ x, ws !! x = None) (seqZ 0 WATCHER_LIMIT)) as [|x l] eqn:E.
  - exfalso. assert (list_to_set (seqZ 0 WATCHER_LIMIT) ⊆ (dom ws : gset Z)) as Hsub.
    { intros y Hy%elem_of_list_to_set. apply elem_of_dom. destruct (ws !! y) eqn:Ey; [by eexists|].
      assert (y ∈ filter (λ x, ws !! x = None) (seqZ 0 WATCHER_LIMIT)) as Hin by (by apply list_elem_of_filter).
      rewrite E in Hin. by apply not_elem_of_nil in Hin. }
    apply subseteq_size in Hsub. rewrite size_list_to_set, length_seqZ, size_dom in Hsub by apply NoDup_seqZ.
    unfold WATCHER_LIMIT in Hsub. lia.
  - assert (x ∈ filter (λ x, ws !! x = None) (seqZ 0 WATCHER_LIMIT)) as [Hx Hin]%list_elem_of_filter by (rewrite E; set_solver).
    apply elem_of_seqZ in Hin. split; [unfold WATCHER_LIMIT in *; lia|done].
Qed.

Lemma stack_lock_held {A} (k : unit → lg A) s : logger_stack_lock s = true → (u ← stack_lock; k u) s = Fault Deadlock.
Proof. intros H. unfold stack_lock, mbind, M_bind, gets. by rewrite H. Qed.

(** Registering a watcher.  While fewer than twenty watchers are registered
    (and memory lasts) the connection becomes a watcher in a free slot, its
    stream starts with the reply "OK", the other watchers are as they were,
    every worker's logger logs exactly the kinds of entries some watcher asks
    for, and the registry's lock is free again.  With twenty watchers the call
    returns with the lock held: from then on the logger thread and every
    further registration block forever. *)
Theorem add_watcher_correct (s : logsys) (L : list Z) (c sfd f to_sleep : Z)
    (Hok : registry_ok s L) (Hfree : logger_stack_lock s = false) (Hmem : mallocs (en (wd (lsys s))) = [])
    (Hc : is_Some (conns (en (wd (lsys s))) !! c)) (Hf : 0 ≤ f < 2 ^ 16)
    (Hsz : 4 ≤ logger_watcher_buf_size (cfg (kv (wd (lsys s)))) < 2 ^ 31) :
  if watcher_count s <? WATCHER_LIMIT then
    wp (logger_add_watcher (Some c) sfd f) s (λ r s', r = WATCHER_OK ∧ registry_ok s' L ∧ logger_stack_lock s' = false ∧
      ∃ x w, watchers s !! x = None ∧ watchers s' = <[x := w]> (watchers s) ∧ w_c w = Some c ∧ w_sfd w = sfd ∧
        w_eflags w = f ∧ told_state w = (str "OK" ++ crlf, 0, false))
  else
    wp (logger_add_watcher (Some c) sfd f) s (λ r s', r = WATCHER_TOO_MANY ∧
      (∀ c' sfd' f', logger_add_watcher c' sfd' f' s' = Fault Deadlock) ∧ logger_thread_turn to_sleep s' = Fault Deadlock).
Proof.
  set (F := λ _ : fault, False).
  assert (∀ A (m : lg A) Q, yields F m s Q → wp m s Q) as Hwp.
  { intros A m Q. unfold yields, wp. destruct (m s) as [[r s']|]; [|done]. intros HQ. by exists r, s'. }
  destruct (Z.ltb_spec (watcher_count s) WATCHER_LIMIT) as [Hlt|Hge]; apply Hwp; unfold logger_add_watcher at 1;
    apply yields_bind; unfold stack_lock at 1; apply yields_bind, yields_gets; rewrite Hfree;
    apply yields_modify, yields_bind, yields_gets; cbn [watcher_count set_logger_stack_lock];
    rewrite Z.geb_leb.
  2: { rewrite (proj2 (Z.leb_le _ _) Hge). apply yields_ret. split; [done|]. split; [by intros; apply stack_lock_held|].
       unfold logger_thread_turn. by apply (stack_lock_held (λ _, _)). }
  rewrite (proj2 (Z.leb_gt _ _)) by done.
  destruct (free_slot_spec (watchers s)) as [Hx Hnone].
  { intros x w Hw. exact (wo_slot _ _ _ (ro_watchers _ _ Hok x w Hw)). }
  { rewrite (ro_count _ _ Hok) in Hlt. unfold WATCHER_LIMIT in Hlt. lia. }
  apply yields_bind, yields_gets. change (watchers (set_logger_stack_lock true s)) with (watchers s).
  set (x := free_slot (watchers s)) in *. set (s0 := set_logger_stack_lock true s).
  assert (∀ Q : bool → logsys → Prop, Q true s0 → yields F (lsysio (wio malloc_ok)) s0 Q) as Hmalloc.
  { intros Q HQ. unfold lsysio, wio, zoom, malloc_ok, yields, s0. cbn [lsys set_logger_stack_lock]. rewrite Hmem.
    replace (set_lsys _ _) with (set_logger_stack_lock true s); [done|]. by destruct s as [? ? ? ? ? ? ? ? ? ? ? ? ? ? ? ? []]. }
  apply yields_bind, Hmalloc. cbn [negb]. rewrite (bool_decide_eq_false_2 (Some c = None)), andb_false_r by done.
  apply yields_bind, Hmalloc. unfold log_cfg. apply yields_bind, yields_gets, yields_bind, yields_gets.
  cbn [bipbuf_new].
  destruct (offer_accepts (bipbuf_init (logger_watcher_buf_size (cfg (kv (wd (lsys s))))) (garbage s)) (str "OK" ++ crlf)) as (b & Eb & Hb & Hcont).
  { apply bip_init_ok. lia. }
  { vm_compute. repeat constructor; done. }
  { rewrite unused_eq by (apply bip_init_ok; lia). cbn. lia. }
  change (Z.of_nat (length (str "OK" ++ crlf))) with 4 in Eb. cbn [lsys garbage s0 set_logger_stack_lock]. rewrite Eb. cbn [snd].
  set (w := Watcher (Some c) sfd x 0 false LOGGER_WATCHER_CLIENT (u16 f) b []).
  apply yields_bind, yields_modify, yields_bind, yields_modify, yields_bind.
  set (s1 := set_watcher_count _ _). pose proof Hok as [R1 R2 R3 R4 R5 R6 R7].
  eapply yields_mono; [|apply (logger_set_flags_spec F s1 L R4 R5 R6)]. intros [] s2 (m' & -> & Hm & Hfl).
  apply yields_bind, yields_modify, yields_ret. split_and!; [done| |done|].
  - split; try done; cbn.
    + apply map_Forall_insert_2; [|done]. split; try done. by exists c.
    + rewrite R2, map_size_insert_None by done. lia.
    + by eapply lchain_eflags.
  - exists x, w. split_and!; try done; [cbn; apply u16_small; lia|]. unfold told_state, stream. cbn. by rewrite Hcont.
Qed.

(** ** Concrete runs *)
(** One worker, one watcher of fetches on connection 5 (of [race_system]), and
    an entry for a found key "k" in the worker's buffer. *)
Definition small_ring : bipbuf := bipbuf_init 2048 ∅.
Definition get_k : log_args := LogItemGet 1 (str "k").
Definition get_k_mem : memory := _logger_log_item_get 0 1 (str "k") (put_header 0 1 get_k (0, 0) ∅).
Definition one_entry_ring : bipbuf := (bipbuf_push (bip_set_data get_k_mem small_ring) 43).2.
Definition get_k_line : Z * list Z := (LOG_FETCHERS, stamp_text 1 (0, 0) ++ str " type=item_get key=k status=found" ++ [LF; 0]).
Definition watched (ring : bipbuf) (out : bipbuf) (ps : list (option (list Z))) : logsys :=
  LogSys {[ 0 := Logger None None 1 0 LOG_FETCHERS ring ]} (Some 0) (Some 0) 1 1 false
    {[ 0 := Watcher (Some 5) 5 0 0 false LOGGER_WATCHER_CLIENT LOG_FETCHERS out [] ]} 1 (replicate 20 (Pollfd 0 0 0)) 1
    (LoggerStats 0 0 0 0) [] ps [] [] ∅ race_system.

Lemma watched_ok ring out ps : bip_ok out → registry_ok (watched ring out ps) [0].
Proof.
  intros Hb. split; cbn; try done.
  - intros x w [<- <-]%lookup_singleton_Some. split; try done. exists 5. split; [done|]. vm_compute. by eexists.
  - split; [done|]. by eexists.
  - apply NoDup_singleton.
  - intros l x _ [_ <-]%lookup_singleton_Some. vm_compute. reflexivity.
Qed.
Lemma one_entry_ok : ring_ok one_entry_ring [get_k_line] [].
Proof.
  assert (ring_ok small_ring [] []) as Hs.
  { split; [apply bip_init_ok; lia|exists []; split; [done|constructor]..]. }
  assert (filled 0 1 get_k (0, 0) ∅ (kv (wd race_system)) get_k_mem) as [_ _ Hf Ht].
  { apply item_get_filled; [lia|]. split_and!; [lia..| |cbn; lia]. vm_compute. repeat constructor; done. }
  destruct (push_entry small_ring get_k_mem 0 43 get_k_line [] [] Hs eq_refl) as (b & Eb & Hb).
  - intros a Ha. rewrite Hf by done. apply header_frame. unfold SIZEOF_logentry, REQLEN in Ha. lia.
  - unfold SIZEOF_logentry, REQLEN. lia.
  - apply (renders_of _ 0 43 LOG_FETCHERS (stamp_text 1 (0, 0) ++ str " type=item_get key=k status=found" ++ [LF]));
      [lia|reflexivity|reflexivity|exact Ht|vm_compute; done|vm_compute; repeat constructor; done].
  - unfold one_entry_ring. change 43 with (Z.of_nat 43). rewrite Eb. exact Hb.
Qed.


Lemma logger_log_correct_witness :
  wp (logger_log 0 get_k) (watched small_ring small_ring []) (λ r s', ∃ x' esA esB, loggers s' !! 0 = Some x' ∧
    ring_ok (l_buf x') esA esB ∧ esA ++ esB = [(LOG_FETCHERS, stamp_text 2 (0, 0) ++ str " type=item_get key=k status=found" ++ [LF; 0])]).
Proof.
  eapply wp_mono; [|apply (logger_log_correct (watched small_ring small_ring []) 0 (Logger None None 1 0 LOG_FETCHERS small_ring) get_k [] [])].
  - intros r s' (x' & Hl & _ & H). destruct H as (_ & _ & _ & esA & esB & Hr & He). exists x', esA, esB. split; [|split; [exact Hr|exact He]].
    rewrite Hl. apply lookup_insert_eq.
  - reflexivity.
  - split; [apply bip_init_ok; lia|exists []; split; [done|constructor]..].
  - split_and!; [lia..| |cbn; lia]. vm_compute. repeat constructor; done.
Defined.

Lemma add_watcher_correct_witness :
  wp (logger_add_watcher (Some 5) 5 LOG_MUTATIONS) (watched small_ring small_ring []) (λ r s', r = WATCHER_OK ∧ registry_ok s' [0]).
Proof.
  eapply wp_mono; [|apply (add_watcher_correct (watched small_ring small_ring []) [0] 5 5 LOG_MUTATIONS 0)].
  - intros r s' (H1 & H2 & _). split; [exact H1|exact H2].
  - apply watched_ok, bip_init_ok. lia.
  - reflexivity.
  - reflexivity.
  - vm_compute. by eexists.
  - vm_compute. done.
  - vm_compute. done.
Defined.

(** A watcher whose full buffer cannot be flushed because its connection is
    gone is closed while the logger thread still holds the pointer. *)
Definition full_ring : bipbuf := Bipbuf 256 0 256 0 false ∅.
Example watcher_use_after_free :
  logger_thread_turn 0 (watched one_entry_ring full_ring [Some [POLLHUP]]) = Fault UseAfterFree.
Proof. vm_compute. reflexivity. Qed.

(** The results of stores are looked up one position off: a value that was
    stored by "set" is reported as an existing one of a "replace", and the
    result for lack of memory is beyond the table. *)
Definition store_text (status comm : Z) : result (list Z) :=
  match logger_log 0 (LogItemStore status comm (str "k")) (watched small_ring small_ring []) with
  | Ok (_, s) => match loggers s !! 0 with Some x => entry_text (bip_data (l_buf x)) 0 | None => Fault NullDeref end
  | Fault f => Fault f
  end.
Example stored_by_set : store_text 1 2 = Ok (str "ts=0.0 gid=2 type=item_store key=k status=exists cmd=replace" ++ [LF]).
Proof. vm_compute. reflexivity. Qed.
Example out_of_memory_result : store_text 5 2 = Fault OutOfBounds.
Proof. vm_compute. reflexivity. Qed.
