(* ===== verification/Settings.v ===== *)
(** * The settings that only start-up changes

    One update per field of [settings] that the command line can set; the
    fields that commands change have theirs in State.v. *)
From Stdlib Require Import ZArith.
From stdpp Require Import prelude.
From S2P Require Import Prelude State.

Definition set_maxbytes (v : Z) (s : settings) : settings :=
  Settings v (maxconns s) (port s) (udpport s) (verbose s) (oldest_live s) (oldest_cas s) (evict_to_free s) (access s) (chunk_size s) (num_threads s) (num_threads_per_udp s) (prefix_delimiter s) (detail_enabled s) (reqs_per_event s) (use_cas s) (backlog s) (item_size_max s) (slab_chunk_size_max s) (slab_page_size s) (sasl s) (maxconns_fast s) (lru_crawler s) (lru_maintainer_thread s) (slab_reassign s) (slab_automove s) (hashpower_init s) (shutdown_command s) (tail_repair_time s) (flush_enabled s) (lru_crawler_sleep s) (lru_crawler_tocrawl s) (hot_lru_pct s) (warm_lru_pct s) (crawls_persleep s) (expirezero_does_not_evict s) (idle_timeout s) (logger_watcher_buf_size s) (logger_buf_size s) (lru_log_enabled s) (lru_log_get_count s) (backup_server s) (backup_client s) (backup_ibv_port s) (backup_sgid_index s) (hash s).
Definition set_maxconns (v : Z) (s : settings) : settings :=
  Settings (maxbytes s) v (port s) (udpport s) (verbose s) (oldest_live s) (oldest_cas s) (evict_to_free s) (access s) (chunk_size s) (num_threads s) (num_threads_per_udp s) (prefix_delimiter s) (detail_enabled s) (reqs_per_event s) (use_cas s) (backlog s) (item_size_max s) (slab_chunk_size_max s) (slab_page_size s) (sasl s) (maxconns_fast s) (lru_crawler s) (lru_maintainer_thread s) (slab_reassign s) (slab_automove s) (hashpower_init s) (shutdown_command s) (tail_repair_time s) (flush_enabled s) (lru_crawler_sleep s) (lru_crawler_tocrawl s) (hot_lru_pct s) (warm_lru_pct s) (crawls_persleep s) (expirezero_does_not_evict s) (idle_timeout s) (logger_watcher_buf_size s) (logger_buf_size s) (lru_log_enabled s) (lru_log_get_count s) (backup_server s) (backup_client s) (backup_ibv_port s) (backup_sgid_index s) (hash s).
Definition set_port (v : Z) (s : settings) : settings :=
  Settings (maxbytes s) (maxconns s) v (udpport s) (verbose s) (oldest_live s) (oldest_cas s) (evict_to_free s) (access s) (chunk_size s) (num_threads s) (num_threads_per_udp s) (prefix_delimiter s) (detail_enabled s) (reqs_per_event s) (use_cas s) (backlog s) (item_size_max s) (slab_chunk_size_max s) (slab_page_size s) (sasl s) (maxconns_fast s) (lru_crawler s) (lru_maintainer_thread s) (slab_reassign s) (slab_automove s) (hashpower_init s) (shutdown_command s) (tail_repair_time s) (flush_enabled s) (lru_crawler_sleep s) (lru_crawler_tocrawl s) (hot_lru_pct s) (warm_lru_pct s) (crawls_persleep s) (expirezero_does_not_evict s) (idle_timeout s) (logger_watcher_buf_size s) (logger_buf_size s) (lru_log_enabled s) (lru_log_get_count s) (backup_server s) (backup_client s) (backup_ibv_port s) (backup_sgid_index s) (hash s).
Definition set_udpport (v : Z) (s : settings) : settings :=
  Settings (maxbytes s) (maxconns s) (port s) v (verbose s) (oldest_live s) (oldest_cas s) (evict_to_free s) (access s) (chunk_size s) (num_threads s) (num_threads_per_udp s) (prefix_delimiter s) (detail_enabled s) (reqs_per_event s) (use_cas s) (backlog s) (item_size_max s) (slab_chunk_size_max s) (slab_page_size s) (sasl s) (maxconns_fast s) (lru_crawler s) (lru_maintainer_thread s) (slab_reassign s) (slab_automove s) (hashpower_init s) (shutdown_command s) (tail_repair_time s) (flush_enabled s) (lru_crawler_sleep s) (lru_crawler_tocrawl s) (hot_lru_pct s) (warm_lru_pct s) (crawls_persleep s) (expirezero_does_not_evict s) (idle_timeout s) (logger_watcher_buf_size s) (logger_buf_size s) (lru_log_enabled s) (lru_log_get_count s) (backup_server s) (backup_client s) (backup_ibv_port s) (backup_sgid_index s) (hash s).
Definition set_evict_to_free (v : Z) (s : settings) : settings :=
  Settings (maxbytes s) (maxconns s) (port s) (udpport s) (verbose s) (oldest_live s) (oldest_cas s) v (access s) (chunk_size s) (num_threads s) (num_threads_per_udp s) (prefix_delimiter s) (detail_enabled s) (reqs_per_event s) (use_cas s) (backlog s) (item_size_max s) (slab_chunk_size_max s) (slab_page_size s) (sasl s) (maxconns_fast s) (lru_crawler s) (lru_maintainer_thread s) (slab_reassign s) (slab_automove s) (hashpower_init s) (shutdown_command s) (tail_repair_time s) (flush_enabled s) (lru_crawler_sleep s) (lru_crawler_tocrawl s) (hot_lru_pct s) (warm_lru_pct s) (crawls_persleep s) (expirezero_does_not_evict s) (idle_timeout s) (logger_watcher_buf_size s) (logger_buf_size s) (lru_log_enabled s) (lru_log_get_count s) (backup_server s) (backup_client s) (backup_ibv_port s) (backup_sgid_index s) (hash s).
Definition set_access (v : Z) (s : settings) : settings :=
  Settings (maxbytes s) (maxconns s) (port s) (udpport s) (verbose s) (oldest_live s) (oldest_cas s) (evict_to_free s) v (chunk_size s) (num_threads s) (num_threads_per_udp s) (prefix_delimiter s) (detail_enabled s) (reqs_per_event s) (use_cas s) (backlog s) (item_size_max s) (slab_chunk_size_max s) (slab_page_size s) (sasl s) (maxconns_fast s) (lru_crawler s) (lru_maintainer_thread s) (slab_reassign s) (slab_automove s) (hashpower_init s) (shutdown_command s) (tail_repair_time s) (flush_enabled s) (lru_crawler_sleep s) (lru_crawler_tocrawl s) (hot_lru_pct s) (warm_lru_pct s) (crawls_persleep s) (expirezero_does_not_evict s) (idle_timeout s) (logger_watcher_buf_size s) (logger_buf_size s) (lru_log_enabled s) (lru_log_get_count s) (backup_server s) (backup_client s) (backup_ibv_port s) (backup_sgid_index s) (hash s).
Definition set_chunk_size (v : Z) (s : settings) : settings :=
  Settings (maxbytes s) (maxconns s) (port s) (udpport s) (verbose s) (oldest_live s) (oldest_cas s) (evict_to_free s) (access s) v (num_threads s) (num_threads_per_udp s) (prefix_delimiter s) (detail_enabled s) (reqs_per_event s) (use_cas s) (backlog s) (item_size_max s) (slab_chunk_size_max s) (slab_page_size s) (sasl s) (maxconns_fast s) (lru_crawler s) (lru_maintainer_thread s) (slab_reassign s) (slab_automove s) (hashpower_init s) (shutdown_command s) (tail_repair_time s) (flush_enabled s) (lru_crawler_sleep s) (lru_crawler_tocrawl s) (hot_lru_pct s) (warm_lru_pct s) (crawls_persleep s) (expirezero_does_not_evict s) (idle_timeout s) (logger_watcher_buf_size s) (logger_buf_size s) (lru_log_enabled s) (lru_log_get_count s) (backup_server s) (backup_client s) (backup_ibv_port s) (backup_sgid_index s) (hash s).
Definition set_num_threads (v : Z) (s : settings) : settings :=
  Settings (maxbytes s) (maxconns s) (port s) (udpport s) (verbose s) (oldest_live s) (oldest_cas s) (evict_to_free s) (access s) (chunk_size s) v (num_threads_per_udp s) (prefix_delimiter s) (detail_enabled s) (reqs_per_event s) (use_cas s) (backlog s) (item_size_max s) (slab_chunk_size_max s) (slab_page_size s) (sasl s) (maxconns_fast s) (lru_crawler s) (lru_maintainer_thread s) (slab_reassign s) (slab_automove s) (hashpower_init s) (shutdown_command s) (tail_repair_time s) (flush_enabled s) (lru_crawler_sleep s) (lru_crawler_tocrawl s) (hot_lru_pct s) (warm_lru_pct s) (crawls_persleep s) (expirezero_does_not_evict s) (idle_timeout s) (logger_watcher_buf_size s) (logger_buf_size s) (lru_log_enabled s) (lru_log_get_count s) (backup_server s) (backup_client s) (backup_ibv_port s) (backup_sgid_index s) (hash s).
Definition set_num_threads_per_udp (v : Z) (s : settings) : settings :=
  Settings (maxbytes s) (maxconns s) (port s) (udpport s) (verbose s) (oldest_live s) (oldest_cas s) (evict_to_free s) (access s) (chunk_size s) (num_threads s) v (prefix_delimiter s) (detail_enabled s) (reqs_per_event s) (use_cas s) (backlog s) (item_size_max s) (slab_chunk_size_max s) (slab_page_size s) (sasl s) (maxconns_fast s) (lru_crawler s) (lru_maintainer_thread s) (slab_reassign s) (slab_automove s) (hashpower_init s) (shutdown_command s) (tail_repair_time s) (flush_enabled s) (lru_crawler_sleep s) (lru_crawler_tocrawl s) (hot_lru_pct s) (warm_lru_pct s) (crawls_persleep s) (expirezero_does_not_evict s) (idle_timeout s) (logger_watcher_buf_size s) (logger_buf_size s) (lru_log_enabled s) (lru_log_get_count s) (backup_server s) (backup_client s) (backup_ibv_port s) (backup_sgid_index s) (hash s).
Definition set_prefix_delimiter (v : Z) (s : settings) : settings :=
  Settings (maxbytes s) (maxconns s) (port s) (udpport s) (verbose s) (oldest_live s) (oldest_cas s) (evict_to_free s) (access s) (chunk_size s) (num_threads s) (num_threads_per_udp s) v (detail_enabled s) (reqs_per_event s) (use_cas s) (backlog s) (item_size_max s) (slab_chunk_size_max s) (slab_page_size s) (sasl s) (maxconns_fast s) (lru_crawler s) (lru_maintainer_thread s) (slab_reassign s) (slab_automove s) (hashpower_init s) (shutdown_command s) (tail_repair_time s) (flush_enabled s) (lru_crawler_sleep s) (lru_crawler_tocrawl s) (hot_lru_pct s) (warm_lru_pct s) (crawls_persleep s) (expirezero_does_not_evict s) (idle_timeout s) (logger_watcher_buf_size s) (logger_buf_size s) (lru_log_enabled s) (lru_log_get_count s) (backup_server s) (backup_client s) (backup_ibv_port s) (backup_sgid_index s) (hash s).
Definition set_reqs_per_event (v : Z) (s : settings) : settings :=
  Settings (maxbytes s) (maxconns s) (port s) (udpport s) (verbose s) (oldest_live s) (oldest_cas s) (evict_to_free s) (access s) (chunk_size s) (num_threads s) (num_threads_per_udp s) (prefix_delimiter s) (detail_enabled s) v (use_cas s) (backlog s) (item_size_max s) (slab_chunk_size_max s) (slab_page_size s) (sasl s) (maxconns_fast s) (lru_crawler s) (lru_maintainer_thread s) (slab_reassign s) (slab_automove s) (hashpower_init s) (shutdown_command s) (tail_repair_time s) (flush_enabled s) (lru_crawler_sleep s) (lru_crawler_tocrawl s) (hot_lru_pct s) (warm_lru_pct s) (crawls_persleep s) (expirezero_does_not_evict s) (idle_timeout s) (logger_watcher_buf_size s) (logger_buf_size s) (lru_log_enabled s) (lru_log_get_count s) (backup_server s) (backup_client s) (backup_ibv_port s) (backup_sgid_index s) (hash s).
Definition set_use_cas (v : bool) (s : settings) : settings :=
  Settings (maxbytes s) (maxconns s) (port s) (udpport s) (verbose s) (oldest_live s) (oldest_cas s) (evict_to_free s) (access s) (chunk_size s) (num_threads s) (num_threads_per_udp s) (prefix_delimiter s) (detail_enabled s) (reqs_per_event s) v (backlog s) (item_size_max s) (slab_chunk_size_max s) (slab_page_size s) (sasl s) (maxconns_fast s) (lru_crawler s) (lru_maintainer_thread s) (slab_reassign s) (slab_automove s) (hashpower_init s) (shutdown_command s) (tail_repair_time s) (flush_enabled s) (lru_crawler_sleep s) (lru_crawler_tocrawl s) (hot_lru_pct s) (warm_lru_pct s) (crawls_persleep s) (expirezero_does_not_evict s) (idle_timeout s) (logger_watcher_buf_size s) (logger_buf_size s) (lru_log_enabled s) (lru_log_get_count s) (backup_server s) (backup_client s) (backup_ibv_port s) (backup_sgid_index s) (hash s).
Definition set_backlog (v : Z) (s : settings) : settings :=
  Settings (maxbytes s) (maxconns s) (port s) (udpport s) (verbose s) (oldest_live s) (oldest_cas s) (evict_to_free s) (access s) (chunk_size s) (num_threads s) (num_threads_per_udp s) (prefix_delimiter s) (detail_enabled s) (reqs_per_event s) (use_cas s) v (item_size_max s) (slab_chunk_size_max s) (slab_page_size s) (sasl s) (maxconns_fast s) (lru_crawler s) (lru_maintainer_thread s) (slab_reassign s) (slab_automove s) (hashpower_init s) (shutdown_command s) (tail_repair_time s) (flush_enabled s) (lru_crawler_sleep s) (lru_crawler_tocrawl s) (hot_lru_pct s) (warm_lru_pct s) (crawls_persleep s) (expirezero_does_not_evict s) (idle_timeout s) (logger_watcher_buf_size s) (logger_buf_size s) (lru_log_enabled s) (lru_log_get_count s) (backup_server s) (backup_client s) (backup_ibv_port s) (backup_sgid_index s) (hash s).
Definition set_item_size_max (v : Z) (s : settings) : settings :=
  Settings (maxbytes s) (maxconns s) (port s) (udpport s) (verbose s) (oldest_live s) (oldest_cas s) (evict_to_free s) (access s) (chunk_size s) (num_threads s) (num_threads_per_udp s) (prefix_delimiter s) (detail_enabled s) (reqs_per_event s) (use_cas s) (backlog s) v (slab_chunk_size_max s) (slab_page_size s) (sasl s) (maxconns_fast s) (lru_crawler s) (lru_maintainer_thread s) (slab_reassign s) (slab_automove s) (hashpower_init s) (shutdown_command s) (tail_repair_time s) (flush_enabled s) (lru_crawler_sleep s) (lru_crawler_tocrawl s) (hot_lru_pct s) (warm_lru_pct s) (crawls_persleep s) (expirezero_does_not_evict s) (idle_timeout s) (logger_watcher_buf_size s) (logger_buf_size s) (lru_log_enabled s) (lru_log_get_count s) (backup_server s) (backup_client s) (backup_ibv_port s) (backup_sgid_index s) (hash s).
Definition set_slab_chunk_size_max (v : Z) (s : settings) : settings :=
  Settings (maxbytes s) (maxconns s) (port s) (udpport s) (verbose s) (oldest_live s) (oldest_cas s) (evict_to_free s) (access s) (chunk_size s) (num_threads s) (num_threads_per_udp s) (prefix_delimiter s) (detail_enabled s) (reqs_per_event s) (use_cas s) (backlog s) (item_size_max s) v (slab_page_size s) (sasl s) (maxconns_fast s) (lru_crawler s) (lru_maintainer_thread s) (slab_reassign s) (slab_automove s) (hashpower_init s) (shutdown_command s) (tail_repair_time s) (flush_enabled s) (lru_crawler_sleep s) (lru_crawler_tocrawl s) (hot_lru_pct s) (warm_lru_pct s) (crawls_persleep s) (expirezero_does_not_evict s) (idle_timeout s) (logger_watcher_buf_size s) (logger_buf_size s) (lru_log_enabled s) (lru_log_get_count s) (backup_server s) (backup_client s) (backup_ibv_port s) (backup_sgid_index s) (hash s).
Definition set_sasl (v : bool) (s : settings) : settings :=
  Settings (maxbytes s) (maxconns s) (port s) (udpport s) (verbose s) (oldest_live s) (oldest_cas s) (evict_to_free s) (access s) (chunk_size s) (num_threads s) (num_threads_per_udp s) (prefix_delimiter s) (detail_enabled s) (reqs_per_event s) (use_cas s) (backlog s) (item_size_max s) (slab_chunk_size_max s) (slab_page_size s) v (maxconns_fast s) (lru_crawler s) (lru_maintainer_thread s) (slab_reassign s) (slab_automove s) (hashpower_init s) (shutdown_command s) (tail_repair_time s) (flush_enabled s) (lru_crawler_sleep s) (lru_crawler_tocrawl s) (hot_lru_pct s) (warm_lru_pct s) (crawls_persleep s) (expirezero_does_not_evict s) (idle_timeout s) (logger_watcher_buf_size s) (logger_buf_size s) (lru_log_enabled s) (lru_log_get_count s) (backup_server s) (backup_client s) (backup_ibv_port s) (backup_sgid_index s) (hash s).
Definition set_maxconns_fast (v : bool) (s : settings) : settings :=
  Settings (maxbytes s) (maxconns s) (port s) (udpport s) (verbose s) (oldest_live s) (oldest_cas s) (evict_to_free s) (access s) (chunk_size s) (num_threads s) (num_threads_per_udp s) (prefix_delimiter s) (detail_enabled s) (reqs_per_event s) (use_cas s) (backlog s) (item_size_max s) (slab_chunk_size_max s) (slab_page_size s) (sasl s) v (lru_crawler s) (lru_maintainer_thread s) (slab_reassign s) (slab_automove s) (hashpower_init s) (shutdown_command s) (tail_repair_time s) (flush_enabled s) (lru_crawler_sleep s) (lru_crawler_tocrawl s) (hot_lru_pct s) (warm_lru_pct s) (crawls_persleep s) (expirezero_does_not_evict s) (idle_timeout s) (logger_watcher_buf_size s) (logger_buf_size s) (lru_log_enabled s) (lru_log_get_count s) (backup_server s) (backup_client s) (backup_ibv_port s) (backup_sgid_index s) (hash s).
Definition set_slab_reassign (v : bool) (s : settings) : settings :=
  Settings (maxbytes s) (maxconns s) (port s) (udpport s) (verbose s) (oldest_live s) (oldest_cas s) (evict_to_free s) (access s) (chunk_size s) (num_threads s) (num_threads_per_udp s) (prefix_delimiter s) (detail_enabled s) (reqs_per_event s) (use_cas s) (backlog s) (item_size_max s) (slab_chunk_size_max s) (slab_page_size s) (sasl s) (maxconns_fast s) (lru_crawler s) (lru_maintainer_thread s) v (slab_automove s) (hashpower_init s) (shutdown_command s) (tail_repair_time s) (flush_enabled s) (lru_crawler_sleep s) (lru_crawler_tocrawl s) (hot_lru_pct s) (warm_lru_pct s) (crawls_persleep s) (expirezero_does_not_evict s) (idle_timeout s) (logger_watcher_buf_size s) (logger_buf_size s) (lru_log_enabled s) (lru_log_get_count s) (backup_server s) (backup_client s) (backup_ibv_port s) (backup_sgid_index s) (hash s).
Definition set_slab_automove (v : Z) (s : settings) : settings :=
  Settings (maxbytes s) (maxconns s) (port s) (udpport s) (verbose s) (oldest_live s) (oldest_cas s) (evict_to_free s) (access s) (chunk_size s) (num_threads s) (num_threads_per_udp s) (prefix_delimiter s) (detail_enabled s) (reqs_per_event s) (use_cas s) (backlog s) (item_size_max s) (slab_chunk_size_max s) (slab_page_size s) (sasl s) (maxconns_fast s) (lru_crawler s) (lru_maintainer_thread s) (slab_reassign s) v (hashpower_init s) (shutdown_command s) (tail_repair_time s) (flush_enabled s) (lru_crawler_sleep s) (lru_crawler_tocrawl s) (hot_lru_pct s) (warm_lru_pct s) (crawls_persleep s) (expirezero_does_not_evict s) (idle_timeout s) (logger_watcher_buf_size s) (logger_buf_size s) (lru_log_enabled s) (lru_log_get_count s) (backup_server s) (backup_client s) (backup_ibv_port s) (backup_sgid_index s) (hash s).
Definition set_hashpower_init (v : Z) (s : settings) : settings :=
  Settings (maxbytes s) (maxconns s) (port s) (udpport s) (verbose s) (oldest_live s) (oldest_cas s) (evict_to_free s) (access s) (chunk_size s) (num_threads s) (num_threads_per_udp s) (prefix_delimiter s) (detail_enabled s) (reqs_per_event s) (use_cas s) (backlog s) (item_size_max s) (slab_chunk_size_max s) (slab_page_size s) (sasl s) (maxconns_fast s) (lru_crawler s) (lru_maintainer_thread s) (slab_reassign s) (slab_automove s) v (shutdown_command s) (tail_repair_time s) (flush_enabled s) (lru_crawler_sleep s) (lru_crawler_tocrawl s) (hot_lru_pct s) (warm_lru_pct s) (crawls_persleep s) (expirezero_does_not_evict s) (idle_timeout s) (logger_watcher_buf_size s) (logger_buf_size s) (lru_log_enabled s) (lru_log_get_count s) (backup_server s) (backup_client s) (backup_ibv_port s) (backup_sgid_index s) (hash s).
Definition set_shutdown_command (v : bool) (s : settings) : settings :=
  Settings (maxbytes s) (maxconns s) (port s) (udpport s) (verbose s) (oldest_live s) (oldest_cas s) (evict_to_free s) (access s) (chunk_size s) (num_threads s) (num_threads_per_udp s) (prefix_delimiter s) (detail_enabled s) (reqs_per_event s) (use_cas s) (backlog s) (item_size_max s) (slab_chunk_size_max s) (slab_page_size s) (sasl s) (maxconns_fast s) (lru_crawler s) (lru_maintainer_thread s) (slab_reassign s) (slab_automove s) (hashpower_init s) v (tail_repair_time s) (flush_enabled s) (lru_crawler_sleep s) (lru_crawler_tocrawl s) (hot_lru_pct s) (warm_lru_pct s) (crawls_persleep s) (expirezero_does_not_evict s) (idle_timeout s) (logger_watcher_buf_size s) (logger_buf_size s) (lru_log_enabled s) (lru_log_get_count s) (backup_server s) (backup_client s) (backup_ibv_port s) (backup_sgid_index s) (hash s).
Definition set_tail_repair_time (v : Z) (s : settings) : settings :=
  Settings (maxbytes s) (maxconns s) (port s) (udpport s) (verbose s) (oldest_live s) (oldest_cas s) (evict_to_free s) (access s) (chunk_size s) (num_threads s) (num_threads_per_udp s) (prefix_delimiter s) (detail_enabled s) (reqs_per_event s) (use_cas s) (backlog s) (item_size_max s) (slab_chunk_size_max s) (slab_page_size s) (sasl s) (maxconns_fast s) (lru_crawler s) (lru_maintainer_thread s) (slab_reassign s) (slab_automove s) (hashpower_init s) (shutdown_command s) v (flush_enabled s) (lru_crawler_sleep s) (lru_crawler_tocrawl s) (hot_lru_pct s) (warm_lru_pct s) (crawls_persleep s) (expirezero_does_not_evict s) (idle_timeout s) (logger_watcher_buf_size s) (logger_buf_size s) (lru_log_enabled s) (lru_log_get_count s) (backup_server s) (backup_client s) (backup_ibv_port s) (backup_sgid_index s) (hash s).
Definition set_flush_enabled (v : bool) (s : settings) : settings :=
  Settings (maxbytes s) (maxconns s) (port s) (udpport s) (verbose s) (oldest_live s) (oldest_cas s) (evict_to_free s) (access s) (chunk_size s) (num_threads s) (num_threads_per_udp s) (prefix_delimiter s) (detail_enabled s) (reqs_per_event s) (use_cas s) (backlog s) (item_size_max s) (slab_chunk_size_max s) (slab_page_size s) (sasl s) (maxconns_fast s) (lru_crawler s) (lru_maintainer_thread s) (slab_reassign s) (slab_automove s) (hashpower_init s) (shutdown_command s) (tail_repair_time s) v (lru_crawler_sleep s) (lru_crawler_tocrawl s) (hot_lru_pct s) (warm_lru_pct s) (crawls_persleep s) (expirezero_does_not_evict s) (idle_timeout s) (logger_watcher_buf_size s) (logger_buf_size s) (lru_log_enabled s) (lru_log_get_count s) (backup_server s) (backup_client s) (backup_ibv_port s) (backup_sgid_index s) (hash s).
Definition set_hot_lru_pct (v : Z) (s : settings) : settings :=
  Settings (maxbytes s) (maxconns s) (port s) (udpport s) (verbose s) (oldest_live s) (oldest_cas s) (evict_to_free s) (access s) (chunk_size s) (num_threads s) (num_threads_per_udp s) (prefix_delimiter s) (detail_enabled s) (reqs_per_event s) (use_cas s) (backlog s) (item_size_max s) (slab_chunk_size_max s) (slab_page_size s) (sasl s) (maxconns_fast s) (lru_crawler s) (lru_maintainer_thread s) (slab_reassign s) (slab_automove s) (hashpower_init s) (shutdown_command s) (tail_repair_time s) (flush_enabled s) (lru_crawler_sleep s) (lru_crawler_tocrawl s) v (warm_lru_pct s) (crawls_persleep s) (expirezero_does_not_evict s) (idle_timeout s) (logger_watcher_buf_size s) (logger_buf_size s) (lru_log_enabled s) (lru_log_get_count s) (backup_server s) (backup_client s) (backup_ibv_port s) (backup_sgid_index s) (hash s).
Definition set_warm_lru_pct (v : Z) (s : settings) : settings :=
  Settings (maxbytes s) (maxconns s) (port s) (udpport s) (verbose s) (oldest_live s) (oldest_cas s) (evict_to_free s) (access s) (chunk_size s) (num_threads s) (num_threads_per_udp s) (prefix_delimiter s) (detail_enabled s) (reqs_per_event s) (use_cas s) (backlog s) (item_size_max s) (slab_chunk_size_max s) (slab_page_size s) (sasl s) (maxconns_fast s) (lru_crawler s) (lru_maintainer_thread s) (slab_reassign s) (slab_automove s) (hashpower_init s) (shutdown_command s) (tail_repair_time s) (flush_enabled s) (lru_crawler_sleep s) (lru_crawler_tocrawl s) (hot_lru_pct s) v (crawls_persleep s) (expirezero_does_not_evict s) (idle_timeout s) (logger_watcher_buf_size s) (logger_buf_size s) (lru_log_enabled s) (lru_log_get_count s) (backup_server s) (backup_client s) (backup_ibv_port s) (backup_sgid_index s) (hash s).
Definition set_expirezero_does_not_evict (v : bool) (s : settings) : settings :=
  Settings (maxbytes s) (maxconns s) (port s) (udpport s) (verbose s) (oldest_live s) (oldest_cas s) (evict_to_free s) (access s) (chunk_size s) (num_threads s) (num_threads_per_udp s) (prefix_delimiter s) (detail_enabled s) (reqs_per_event s) (use_cas s) (backlog s) (item_size_max s) (slab_chunk_size_max s) (slab_page_size s) (sasl s) (maxconns_fast s) (lru_crawler s) (lru_maintainer_thread s) (slab_reassign s) (slab_automove s) (hashpower_init s) (shutdown_command s) (tail_repair_time s) (flush_enabled s) (lru_crawler_sleep s) (lru_crawler_tocrawl s) (hot_lru_pct s) (warm_lru_pct s) (crawls_persleep s) v (idle_timeout s) (logger_watcher_buf_size s) (logger_buf_size s) (lru_log_enabled s) (lru_log_get_count s) (backup_server s) (backup_client s) (backup_ibv_port s) (backup_sgid_index s) (hash s).
Definition set_idle_timeout (v : Z) (s : settings) : settings :=
  Settings (maxbytes s) (maxconns s) (port s) (udpport s) (verbose s) (oldest_live s) (oldest_cas s) (evict_to_free s) (access s) (chunk_size s) (num_threads s) (num_threads_per_udp s) (prefix_delimiter s) (detail_enabled s) (reqs_per_event s) (use_cas s) (backlog s) (item_size_max s) (slab_chunk_size_max s) (slab_page_size s) (sasl s) (maxconns_fast s) (lru_crawler s) (lru_maintainer_thread s) (slab_reassign s) (slab_automove s) (hashpower_init s) (shutdown_command s) (tail_repair_time s) (flush_enabled s) (lru_crawler_sleep s) (lru_crawler_tocrawl s) (hot_lru_pct s) (warm_lru_pct s) (crawls_persleep s) (expirezero_does_not_evict s) v (logger_watcher_buf_size s) (logger_buf_size s) (lru_log_enabled s) (lru_log_get_count s) (backup_server s) (backup_client s) (backup_ibv_port s) (backup_sgid_index s) (hash s).
Definition set_logger_watcher_buf_size (v : Z) (s : settings) : settings :=
  Settings (maxbytes s) (maxconns s) (port s) (udpport s) (verbose s) (oldest_live s) (oldest_cas s) (evict_to_free s) (access s) (chunk_size s) (num_threads s) (num_threads_per_udp s) (prefix_delimiter s) (detail_enabled s) (reqs_per_event s) (use_cas s) (backlog s) (item_size_max s) (slab_chunk_size_max s) (slab_page_size s) (sasl s) (maxconns_fast s) (lru_crawler s) (lru_maintainer_thread s) (slab_reassign s) (slab_automove s) (hashpower_init s) (shutdown_command s) (tail_repair_time s) (flush_enabled s) (lru_crawler_sleep s) (lru_crawler_tocrawl s) (hot_lru_pct s) (warm_lru_pct s) (crawls_persleep s) (expirezero_does_not_evict s) (idle_timeout s) v (logger_buf_size s) (lru_log_enabled s) (lru_log_get_count s) (backup_server s) (backup_client s) (backup_ibv_port s) (backup_sgid_index s) (hash s).
Definition set_logger_buf_size (v : Z) (s : settings) : settings :=
  Settings (maxbytes s) (maxconns s) (port s) (udpport s) (verbose s) (oldest_live s) (oldest_cas s) (evict_to_free s) (access s) (chunk_size s) (num_threads s) (num_threads_per_udp s) (prefix_delimiter s) (detail_enabled s) (reqs_per_event s) (use_cas s) (backlog s) (item_size_max s) (slab_chunk_size_max s) (slab_page_size s) (sasl s) (maxconns_fast s) (lru_crawler s) (lru_maintainer_thread s) (slab_reassign s) (slab_automove s) (hashpower_init s) (shutdown_command s) (tail_repair_time s) (flush_enabled s) (lru_crawler_sleep s) (lru_crawler_tocrawl s) (hot_lru_pct s) (warm_lru_pct s) (crawls_persleep s) (expirezero_does_not_evict s) (idle_timeout s) (logger_watcher_buf_size s) v (lru_log_enabled s) (lru_log_get_count s) (backup_server s) (backup_client s) (backup_ibv_port s) (backup_sgid_index s) (hash s).
Definition set_lru_log_enabled (v : bool) (s : settings) : settings :=
  Settings (maxbytes s) (maxconns s) (port s) (udpport s) (verbose s) (oldest_live s) (oldest_cas s) (evict_to_free s) (access s) (chunk_size s) (num_threads s) (num_threads_per_udp s) (prefix_delimiter s) (detail_enabled s) (reqs_per_event s) (use_cas s) (backlog s) (item_size_max s) (slab_chunk_size_max s) (slab_page_size s) (sasl s) (maxconns_fast s) (lru_crawler s) (lru_maintainer_thread s) (slab_reassign s) (slab_automove s) (hashpower_init s) (shutdown_command s) (tail_repair_time s) (flush_enabled s) (lru_crawler_sleep s) (lru_crawler_tocrawl s) (hot_lru_pct s) (warm_lru_pct s) (crawls_persleep s) (expirezero_does_not_evict s) (idle_timeout s) (logger_watcher_buf_size s) (logger_buf_size s) v (lru_log_get_count s) (backup_server s) (backup_client s) (backup_ibv_port s) (backup_sgid_index s) (hash s).
Definition set_lru_log_get_count (v : Z) (s : settings) : settings :=
  Settings (maxbytes s) (maxconns s) (port s) (udpport s) (verbose s) (oldest_live s) (oldest_cas s) (evict_to_free s) (access s) (chunk_size s) (num_threads s) (num_threads_per_udp s) (prefix_delimiter s) (detail_enabled s) (reqs_per_event s) (use_cas s) (backlog s) (item_size_max s) (slab_chunk_size_max s) (slab_page_size s) (sasl s) (maxconns_fast s) (lru_crawler s) (lru_maintainer_thread s) (slab_reassign s) (slab_automove s) (hashpower_init s) (shutdown_command s) (tail_repair_time s) (flush_enabled s) (lru_crawler_sleep s) (lru_crawler_tocrawl s) (hot_lru_pct s) (warm_lru_pct s) (crawls_persleep s) (expirezero_does_not_evict s) (idle_timeout s) (logger_watcher_buf_size s) (logger_buf_size s) (lru_log_enabled s) v (backup_server s) (backup_client s) (backup_ibv_port s) (backup_sgid_index s) (hash s).
Definition set_backup_server (v : bool) (s : settings) : settings :=
  Settings (maxbytes s) (maxconns s) (port s) (udpport s) (verbose s) (oldest_live s) (oldest_cas s) (evict_to_free s) (access s) (chunk_size s) (num_threads s) (num_threads_per_udp s) (prefix_delimiter s) (detail_enabled s) (reqs_per_event s) (use_cas s) (backlog s) (item_size_max s) (slab_chunk_size_max s) (slab_page_size s) (sasl s) (maxconns_fast s) (lru_crawler s) (lru_maintainer_thread s) (slab_reassign s) (slab_automove s) (hashpower_init s) (shutdown_command s) (tail_repair_time s) (flush_enabled s) (lru_crawler_sleep s) (lru_crawler_tocrawl s) (hot_lru_pct s) (warm_lru_pct s) (crawls_persleep s) (expirezero_does_not_evict s) (idle_timeout s) (logger_watcher_buf_size s) (logger_buf_size s) (lru_log_enabled s) (lru_log_get_count s) v (backup_client s) (backup_ibv_port s) (backup_sgid_index s) (hash s).
Definition set_backup_client (v : bool) (s : settings) : settings :=
  Settings (maxbytes s) (maxconns s) (port s) (udpport s) (verbose s) (oldest_live s) (oldest_cas s) (evict_to_free s) (access s) (chunk_size s) (num_threads s) (num_threads_per_udp s) (prefix_delimiter s) (detail_enabled s) (reqs_per_event s) (use_cas s) (backlog s) (item_size_max s) (slab_chunk_size_max s) (slab_page_size s) (sasl s) (maxconns_fast s) (lru_crawler s) (lru_maintainer_thread s) (slab_reassign s) (slab_automove s) (hashpower_init s) (shutdown_command s) (tail_repair_time s) (flush_enabled s) (lru_crawler_sleep s) (lru_crawler_tocrawl s) (hot_lru_pct s) (warm_lru_pct s) (crawls_persleep s) (expirezero_does_not_evict s) (idle_timeout s) (logger_watcher_buf_size s) (logger_buf_size s) (lru_log_enabled s) (lru_log_get_count s) (backup_server s) v (backup_ibv_port s) (backup_sgid_index s) (hash s).
Definition set_backup_ibv_port (v : Z) (s : settings) : settings :=
  Settings (maxbytes s) (maxconns s) (port s) (udpport s) (verbose s) (oldest_live s) (oldest_cas s) (evict_to_free s) (access s) (chunk_size s) (num_threads s) (num_threads_per_udp s) (prefix_delimiter s) (detail_enabled s) (reqs_per_event s) (use_cas s) (backlog s) (item_size_max s) (slab_chunk_size_max s) (slab_page_size s) (sasl s) (maxconns_fast s) (lru_crawler s) (lru_maintainer_thread s) (slab_reassign s) (slab_automove s) (hashpower_init s) (shutdown_command s) (tail_repair_time s) (flush_enabled s) (lru_crawler_sleep s) (lru_crawler_tocrawl s) (hot_lru_pct s) (warm_lru_pct s) (crawls_persleep s) (expirezero_does_not_evict s) (idle_timeout s) (logger_watcher_buf_size s) (logger_buf_size s) (lru_log_enabled s) (lru_log_get_count s) (backup_server s) (backup_client s) v (backup_sgid_index s) (hash s).
Definition set_backup_sgid_index (v : Z) (s : settings) : settings :=
  Settings (maxbytes s) (maxconns s) (port s) (udpport s) (verbose s) (oldest_live s) (oldest_cas s) (evict_to_free s) (access s) (chunk_size s) (num_threads s) (num_threads_per_udp s) (prefix_delimiter s) (detail_enabled s) (reqs_per_event s) (use_cas s) (backlog s) (item_size_max s) (slab_chunk_size_max s) (slab_page_size s) (sasl s) (maxconns_fast s) (lru_crawler s) (lru_maintainer_thread s) (slab_reassign s) (slab_automove s) (hashpower_init s) (shutdown_command s) (tail_repair_time s) (flush_enabled s) (lru_crawler_sleep s) (lru_crawler_tocrawl s) (hot_lru_pct s) (warm_lru_pct s) (crawls_persleep s) (expirezero_does_not_evict s) (idle_timeout s) (logger_watcher_buf_size s) (logger_buf_size s) (lru_log_enabled s) (lru_log_get_count s) (backup_server s) (backup_client s) (backup_ibv_port s) v (hash s).
Definition set_hash (v : list Z → Z) (s : settings) : settings :=
  Settings (maxbytes s) (maxconns s) (port s) (udpport s) (verbose s) (oldest_live s) (oldest_cas s) (evict_to_free s) (access s) (chunk_size s) (num_threads s) (num_threads_per_udp s) (prefix_delimiter s) (detail_enabled s) (reqs_per_event s) (use_cas s) (backlog s) (item_size_max s) (slab_chunk_size_max s) (slab_page_size s) (sasl s) (maxconns_fast s) (lru_crawler s) (lru_maintainer_thread s) (slab_reassign s) (slab_automove s) (hashpower_init s) (shutdown_command s) (tail_repair_time s) (flush_enabled s) (lru_crawler_sleep s) (lru_crawler_tocrawl s) (hot_lru_pct s) (warm_lru_pct s) (crawls_persleep s) (expirezero_does_not_evict s) (idle_timeout s) (logger_watcher_buf_size s) (logger_buf_size s) (lru_log_enabled s) (lru_log_get_count s) (backup_server s) (backup_client s) (backup_ibv_port s) (backup_sgid_index s) v.
