(* ===== verification/Crawler.v ===== *)
(** * The item crawler (crawler.c, crawler.h)

    A background thread that walks the LRU lists on request, to drop expired
    items or to dump the keys to a client.  The lists it would walk are empty
    in this server ([do_item_crawl_q] returns nothing), so what is left is the
    protocol between the commands that start a crawl, the thread, and the
    connection a dump borrows.  [lru_crawler_lock] is a field of the state: the
    commands and the wake-ups of the thread are its critical sections. *)
From Stdlib Require Import ZArith Lia.
From stdpp Require Import strings prelude gmap list functions.
From S2P Require Import Prelude Mem Util Item State Items Bip Conn ConnOps Ascii Thread Logger.

Definition POWER_SMALLEST : Z := 1.
Definition LARGEST_ID : Z := 256.
Definition MAX_NUMBER_OF_SLAB_CLASSES : Z := 64.
Definition HOT_LRU : Z := 0.
Definition WARM_LRU : Z := 64.
Definition COLD_LRU : Z := 128.
Definition CLEAR_LRU (id : Z) : Z := Z.land id (Z.lnot (Z.shiftl 3 6)).

(** ** State *)
(** The fields of [crawler] this server uses; [cr_flags] is 1 while the crawl
    of the class is enabled. *)
Record crawler := Crawler {
  cr_flags : Z;
  cr_remaining : Z;
  cr_clsid : Z;
  cr_reclaimed : Z;
  cr_unfetched : Z;
  cr_checked : Z
}.
Definition set_cr_flags (v : Z) (x : crawler) : crawler := Crawler v (cr_remaining x) (cr_clsid x) (cr_reclaimed x) (cr_unfetched x) (cr_checked x).
Definition set_cr_remaining (v : Z) (x : crawler) : crawler := Crawler (cr_flags x) v (cr_clsid x) (cr_reclaimed x) (cr_unfetched x) (cr_checked x).
Definition set_cr_checked (v : Z) (x : crawler) : crawler := Crawler (cr_flags x) (cr_remaining x) (cr_clsid x) (cr_reclaimed x) (cr_unfetched x) v.
Definition no_crawl : crawler := Crawler 0 0 0 0 0 0.

Inductive crawler_run_type : Set := CRAWLER_EXPIRED | CRAWLER_METADUMP.

(** [crawler_expired_data]: when each class was crawled. *)
Record crawlerstats := CrawlerStats { cs_start_time : Z; cs_end_time : Z; cs_run_complete : bool }.
Record expired_data := ExpiredData {
  ed_classes : list crawlerstats;
  ed_start_time : Z;
  ed_end_time : Z;
  ed_crawl_complete : bool;
  ed_is_external : bool
}.

(** The client of a dump; [cc_buf] is the pointer to its buffer. *)
Record crawler_client := CrawlerClient {
  cc_c : option Z;
  cc_sfd : Z;
  cc_buf : option bipbuf;
  cc_cbuf : option Z;
  cc_out : list Z
}.

(** [crawl_data] holds the live data objects by address, [cm_data] is the
    module's pointer to one, [trylocks] the answers of [item_trylock]. *)
Record crawlsys := CrawlSys {
  crawlers : list crawler;
  crawler_count : Z;
  lru_crawler_lock : bool;
  do_run_lru_crawler_thread : bool;
  cm_mod : option crawler_run_type;
  cm_data : option Z;
  cm_client : crawler_client;
  crawl_data : gmap Z expired_data;
  crawl_brk : Z;
  signalled : bool;
  cpolls : list (option Z);
  creads : list read1;
  cwrites : list write1;
  trylocks : list bool;
  csys : system
}.
Definition set_crawlers (v : list crawler) (s : crawlsys) : crawlsys := CrawlSys v (crawler_count s) (lru_crawler_lock s) (do_run_lru_crawler_thread s) (cm_mod s) (cm_data s) (cm_client s) (crawl_data s) (crawl_brk s) (signalled s) (cpolls s) (creads s) (cwrites s) (trylocks s) (csys s).
Definition set_crawler_count (v : Z) (s : crawlsys) : crawlsys := CrawlSys (crawlers s) v (lru_crawler_lock s) (do_run_lru_crawler_thread s) (cm_mod s) (cm_data s) (cm_client s) (crawl_data s) (crawl_brk s) (signalled s) (cpolls s) (creads s) (cwrites s) (trylocks s) (csys s).
Definition set_lru_crawler_lock (v : bool) (s : crawlsys) : crawlsys := CrawlSys (crawlers s) (crawler_count s) v (do_run_lru_crawler_thread s) (cm_mod s) (cm_data s) (cm_client s) (crawl_data s) (crawl_brk s) (signalled s) (cpolls s) (creads s) (cwrites s) (trylocks s) (csys s).
Definition set_do_run_lru_crawler_thread (v : bool) (s : crawlsys) : crawlsys := CrawlSys (crawlers s) (crawler_count s) (lru_crawler_lock s) v (cm_mod s) (cm_data s) (cm_client s) (crawl_data s) (crawl_brk s) (signalled s) (cpolls s) (creads s) (cwrites s) (trylocks s) (csys s).
Definition set_cm_mod (v : option crawler_run_type) (s : crawlsys) : crawlsys := CrawlSys (crawlers s) (crawler_count s) (lru_crawler_lock s) (do_run_lru_crawler_thread s) v (cm_data s) (cm_client s) (crawl_data s) (crawl_brk s) (signalled s) (cpolls s) (creads s) (cwrites s) (trylocks s) (csys s).
Definition set_cm_data (v : option Z) (s : crawlsys) : crawlsys := CrawlSys (crawlers s) (crawler_count s) (lru_crawler_lock s) (do_run_lru_crawler_thread s) (cm_mod s) v (cm_client s) (crawl_data s) (crawl_brk s) (signalled s) (cpolls s) (creads s) (cwrites s) (trylocks s) (csys s).
Definition set_cm_client (v : crawler_client) (s : crawlsys) : crawlsys := CrawlSys (crawlers s) (crawler_count s) (lru_crawler_lock s) (do_run_lru_crawler_thread s) (cm_mod s) (cm_data s) v (crawl_data s) (crawl_brk s) (signalled s) (cpolls s) (creads s) (cwrites s) (trylocks s) (csys s).
Definition set_crawl_data (v : gmap Z expired_data) (s : crawlsys) : crawlsys := CrawlSys (crawlers s) (crawler_count s) (lru_crawler_lock s) (do_run_lru_crawler_thread s) (cm_mod s) (cm_data s) (cm_client s) v (crawl_brk s) (signalled s) (cpolls s) (creads s) (cwrites s) (trylocks s) (csys s).
Definition set_crawl_brk (v : Z) (s : crawlsys) : crawlsys := CrawlSys (crawlers s) (crawler_count s) (lru_crawler_lock s) (do_run_lru_crawler_thread s) (cm_mod s) (cm_data s) (cm_client s) (crawl_data s) v (signalled s) (cpolls s) (creads s) (cwrites s) (trylocks s) (csys s).
Definition set_signalled (v : bool) (s : crawlsys) : crawlsys := CrawlSys (crawlers s) (crawler_count s) (lru_crawler_lock s) (do_run_lru_crawler_thread s) (cm_mod s) (cm_data s) (cm_client s) (crawl_data s) (crawl_brk s) v (cpolls s) (creads s) (cwrites s) (trylocks s) (csys s).
Definition set_cpolls (v : list (option Z)) (s : crawlsys) : crawlsys := CrawlSys (crawlers s) (crawler_count s) (lru_crawler_lock s) (do_run_lru_crawler_thread s) (cm_mod s) (cm_data s) (cm_client s) (crawl_data s) (crawl_brk s) (signalled s) v (creads s) (cwrites s) (trylocks s) (csys s).
Definition set_creads (v : list read1) (s : crawlsys) : crawlsys := CrawlSys (crawlers s) (crawler_count s) (lru_crawler_lock s) (do_run_lru_crawler_thread s) (cm_mod s) (cm_data s) (cm_client s) (crawl_data s) (crawl_brk s) (signalled s) (cpolls s) v (cwrites s) (trylocks s) (csys s).
Definition set_cwrites (v : list write1) (s : crawlsys) : crawlsys := CrawlSys (crawlers s) (crawler_count s) (lru_crawler_lock s) (do_run_lru_crawler_thread s) (cm_mod s) (cm_data s) (cm_client s) (crawl_data s) (crawl_brk s) (signalled s) (cpolls s) (creads s) v (trylocks s) (csys s).
Definition set_trylocks (v : list bool) (s : crawlsys) : crawlsys := CrawlSys (crawlers s) (crawler_count s) (lru_crawler_lock s) (do_run_lru_crawler_thread s) (cm_mod s) (cm_data s) (cm_client s) (crawl_data s) (crawl_brk s) (signalled s) (cpolls s) (creads s) (cwrites s) v (csys s).
Definition set_csys (v : system) (s : crawlsys) : crawlsys := CrawlSys (crawlers s) (crawler_count s) (lru_crawler_lock s) (do_run_lru_crawler_thread s) (cm_mod s) (cm_data s) (cm_client s) (crawl_data s) (crawl_brk s) (signalled s) (cpolls s) (creads s) (cwrites s) (trylocks s) v.

Definition cr (A : Type) : Type := M crawlsys A.
Definition csysio {A} (m : sys A) : cr A := zoom csys set_csys m.
Definition cserver {A} (m : server A) : cr A := csysio (wio (srv m)).
Definition now : cr Z := gets (λ s, current_time (kv (wd (csys s)))).

Definition get_crawler (i : Z) : cr crawler := λ s,
  if i <? 0 then Fault OutOfBounds
  else match crawlers s !! Z.to_nat i with Some x => Ok (x, s) | None => Fault OutOfBounds end.
Definition upd_crawler (i : Z) (f : crawler → crawler) : cr unit :=
  x ← get_crawler i;
  modify (λ s, set_crawlers (<[Z.to_nat i := f x]> (crawlers s)) s).

Definition crawler_lock : cr unit :=
  held ← gets lru_crawler_lock;
  if held : bool then fail Deadlock else modify (set_lru_crawler_lock true).
Definition crawler_unlock : cr unit := modify (set_lru_crawler_lock false).

(** ** The client of a dump *)
Definition lru_crawler_close_client : cr unit :=
  c ← gets cm_client;
  match cc_c c with
  | None => fail NullDeref
  | Some fd =>
      _ ← csysio (sidethread_conn_close fd);
      modify (set_cm_client (CrawlerClient None (cc_sfd c) None None (cc_out c)))
  end.
Definition lru_crawler_release_client : cr unit :=
  c ← gets cm_client;
  match cc_c c with
  | None => fail NullDeref
  | Some fd =>
      _ ← csysio (redispatch_conn fd);
      modify (set_cm_client (CrawlerClient None (cc_sfd c) None None (cc_out c)))
  end.

(** [poll] of the client for one second: no event, or an error. *)
Definition cpoll : cr (option Z) := λ s,
  match cpolls s with
  | [] => Ok (Some 0, s)
  | None :: l => Ok (None, set_cpolls l s)
  | Some r :: l => Ok (Some (Z.land r (Z.lor POLLOUT (Z.lor POLLERR (Z.lor POLLHUP POLLNVAL)))), set_cpolls l s)
  end.
Definition cread_closed : cr bool := λ s,
  match creads s with
  | [] => Ok (false, s)
  | r :: l => Ok (match r with ReadEof | ReadError => true | _ => false end, set_creads l s)
  end.
Definition cwrite (n : Z) : cr write1 := λ s,
  match cwrites s with
  | [] => Ok (Wrote n, s)
  | Wrote k :: l => Ok (Wrote (Z.max 0 (Z.min k n)), set_cwrites l s)
  | r :: l => Ok (r, set_cwrites l s)
  end.
Definition client_buf : cr bipbuf :=
  c ← gets cm_client;
  match cc_buf c with None => fail NullDeref | Some b => mret b end.

Definition close_and_fail : cr Z := _ ← lru_crawler_close_client; mret (-1).

Definition lru_crawler_poll : cr Z :=
  ret ← cpoll;
  match ret with
  | None => mret (-1)
  | Some r =>
      if r =? 0 then mret 0
      else
        gone ← (if has r POLLIN then cread_closed else mret false);
        if gone : bool then close_and_fail
        else
          b ← client_buf;
          match bipbuf_peek_all b with
          | None => mret 0
          | Some (off, n) =>
              if has r (Z.lor POLLHUP POLLERR) then close_and_fail
              else if has r POLLOUT then
                w ← cwrite n;
                match w with
                | WriteAgain => mret 0
                | WriteError => close_and_fail
                | Wrote total =>
                    if total =? 0 then close_and_fail
                    else
                      _ ← modify (λ s, let c := cm_client s in
                            set_cm_client (CrawlerClient (cc_c c) (cc_sfd c) (Some (bipbuf_poll b total).2) (cc_cbuf c)
                              (cc_out c ++ load_bytes (bip_data b) off (Z.to_nat total))) s);
                      mret 0
                end
              else mret 0
          end
  end.

Definition LRU_CRAWLER_WRITEBUF : Z := 8192.
Definition getbuf_body (_ : unit) : cr (unit + Z) :=
  b ← client_buf;
  match bipbuf_request b LRU_CRAWLER_WRITEBUF with
  | Some off =>
      _ ← modify (λ s, let c := cm_client s in
            set_cm_client (CrawlerClient (cc_c c) (cc_sfd c) (cc_buf c) (Some off) (cc_out c)) s);
      mret (inr 0)
  | None =>
      r ← lru_crawler_poll;
      if r <? 0 then mret (inr r) else mret (inl tt)
  end.
Definition lru_crawler_client_getbuf : cr Z :=
  c ← gets cm_client;
  match cc_c c with
  | None => mret (-1)
  | Some _ => loop FUEL getbuf_body tt
  end.

(** ** The module that drops expired items *)
Definition get_data : cr (Z * expired_data) := λ s,
  match cm_data s with
  | None => Fault NullDeref
  | Some d => match crawl_data s !! d with Some x => Ok ((d, x), s) | None => Fault UseAfterFree end
  end.
Definition put_data (d : Z) (x : expired_data) : cr unit := modify (λ s, set_crawl_data (<[d := x]> (crawl_data s)) s).

Definition crawler_expired_init (data : option Z) : cr Z :=
  t ← now;
  ok ← match data with
       | Some d =>
           _ ← modify (set_cm_data (Some d));
           '(d, x) ← get_data;
           _ ← put_data d (ExpiredData (ed_classes x) (ed_start_time x) (ed_end_time x) (ed_crawl_complete x) true);
           mret true
       | None =>
           ok ← csysio (wio malloc_ok);
           _ ← when ok (
             d ← gets crawl_brk;
             _ ← modify (set_crawl_brk (d + 1));
             _ ← put_data d (ExpiredData (replicate 64 (CrawlerStats 0 0 false)) t 0 false false);
             modify (set_cm_data (Some d)));
           mret ok
       end;
  if negb ok then mret (-1)
  else
    '(d, x) ← get_data;
    _ ← put_data d (ExpiredData (replicate 64 (CrawlerStats t 0 false)) (ed_start_time x) (ed_end_time x)
                      (ed_crawl_complete x) (ed_is_external x));
    mret 0.

Definition crawler_expired_doneclass (slab_cls : Z) : cr unit :=
  t ← now;
  '(d, x) ← get_data;
  let i := Z.to_nat (CLEAR_LRU slab_cls) in
  match ed_classes x !! i with
  | None => fail OutOfBounds
  | Some c =>
      put_data d (ExpiredData (<[i := CrawlerStats (cs_start_time c) t true]> (ed_classes x)) (ed_start_time x)
                    (ed_end_time x) (ed_crawl_complete x) (ed_is_external x))
  end.

Definition crawler_expired_finalize : cr unit :=
  t ← now;
  '(d, x) ← get_data;
  if ed_is_external x then put_data d (ExpiredData (ed_classes x) (ed_start_time x) t true true)
  else modify (λ s, set_crawl_data (delete d (crawl_data s)) s).

(** The registrations: [init], [doneclass], [finalize] and [needs_client]. *)
Definition mod_init (t : crawler_run_type) (data : option Z) : cr unit :=
  match t with CRAWLER_EXPIRED => _ ← crawler_expired_init data; mret tt | CRAWLER_METADUMP => mret tt end.
Definition mod_doneclass (t : crawler_run_type) (i : Z) : cr unit :=
  match t with CRAWLER_EXPIRED => crawler_expired_doneclass i | CRAWLER_METADUMP => mret tt end.
Definition mod_finalize (t : crawler_run_type) : cr unit :=
  match t with CRAWLER_EXPIRED => crawler_expired_finalize | CRAWLER_METADUMP => mret tt end.
Definition needs_client (t : crawler_run_type) : bool :=
  match t with CRAWLER_EXPIRED => false | CRAWLER_METADUMP => true end.

(** ** The thread *)
Definition lru_crawler_class_done (i : Z) : cr unit :=
  _ ← upd_crawler i (set_cr_flags 0);
  _ ← modify (λ s, set_crawler_count (i32 (crawler_count s - 1)) s);
  x ← get_crawler i;
  _ ← cserver (do_item_stats_add_crawl i (cr_reclaimed x) (cr_unfetched x) (cr_checked x));
  m ← gets cm_mod;
  match m with
  | None => fail NullDeref
  | Some t => mod_doneclass t i
  end.

(** The next item of a crawl: this server keeps no LRU lists. *)
Definition do_item_crawl_q : option Z := None.

Definition trylock : cr bool := λ s,
  match trylocks s with [] => Ok (true, s) | b :: l => Ok (b, set_trylocks l s) end.

(** An item met by the crawl of class [i]; the modules' [eval] do nothing. *)
Definition crawl_item (i search : Z) : cr unit :=
  ok ← trylock;
  if negb ok then mret tt
  else
    r ← cserver (refcount_incr search);
    if negb (r =? 2) then _ ← cserver (refcount_decr search); mret tt
    else upd_crawler i (λ x, set_cr_checked (u64 (cr_checked x + 1)) x).

(** One class of the [for] loop. *)
Definition crawl_class (_ : unit) (i : Z) : cr unit :=
  x ← get_crawler i;
  if negb (cr_flags x =? 1) then mret tt
  else
    c ← gets cm_client;
    ret ← match cc_c c with Some _ => lru_crawler_client_getbuf | None => mret 0 end;
    if negb (ret =? 0) then lru_crawler_class_done i
    else
      match do_item_crawl_q with
      | None => lru_crawler_class_done i
      | Some search =>
          let r := if cr_remaining x =? 0 then 0 else u32 (cr_remaining x - 1) in
          _ ← upd_crawler i (set_cr_remaining r);
          if negb (cr_remaining x =? 0) && (r <? 1) then lru_crawler_class_done i
          else crawl_item i search
      end.

Definition crawl_pass : cr unit :=
  foldl (λ m i, u ← m; crawl_class u i) (mret tt) (seqZ POWER_SMALLEST (LARGEST_ID - POWER_SMALLEST)).

Definition crawl_body (_ : unit) : cr (unit + unit) :=
  n ← gets crawler_count;
  if n =? 0 then mret (inr tt) else _ ← crawl_pass; mret (inl tt).

(** From a wake-up of the thread, which takes the lock, to its next wait,
    which gives it back. *)
Definition crawler_wake : cr unit :=
  _ ← crawler_lock;
  _ ← modify (set_signalled false);
  _ ← loop FUEL crawl_body tt;
  m ← gets cm_mod;
  _ ← match m with
      | None => mret tt
      | Some t =>
          _ ← mod_finalize t;
          c ← gets cm_client;
          _ ← match cc_c c with
              | None => mret tt
              | Some _ => _ ← lru_crawler_poll; lru_crawler_release_client
              end;
          modify (set_cm_mod None)
      end;
  _ ← cserver (flag_put lru_crawler_running false);
  crawler_unlock.

(** ** Commands *)
Definition stop_item_crawler_thread : cr Z :=
  _ ← crawler_lock;
  _ ← modify (λ s, set_signalled true (set_do_run_lru_crawler_thread false s));
  _ ← crawler_unlock;
  _ ← cserver (upd_cfg (set_lru_crawler false));
  mret 0.

(** The new thread has set [settings.lru_crawler] and waits when this returns. *)
Definition start_item_crawler_thread : cr Z :=
  on ← gets (λ s, lru_crawler (cfg (kv (wd (csys s)))));
  if on : bool then mret (-1)
  else
    _ ← crawler_lock;
    _ ← modify (set_do_run_lru_crawler_thread true);
    ok ← csysio (wio event_ok);
    if negb ok then _ ← crawler_unlock; mret (-1)
    else
      _ ← cserver (upd_cfg (set_lru_crawler true));
      _ ← crawler_unlock;
      mret 0.

Definition start_class (remaining sid : Z) : cr unit :=
  _ ← upd_crawler sid (λ _, Crawler 1 remaining (u8 sid) 0 0 0);
  modify (λ s, set_crawler_count (i32 (crawler_count s + 1)) s).

Definition do_lru_crawler_start (id remaining : Z) : cr Z :=
  _ ← start_class remaining (Z.lor id HOT_LRU);
  _ ← start_class remaining (Z.lor id WARM_LRU);
  _ ← start_class remaining (Z.lor id COLD_LRU);
  _ ← cserver (_ ← flag_put lru_crawler_running true; stats_add lru_crawler_starts 1);
  mret 3.

Definition lru_crawler_set_client (c sfd : Z) : cr Z :=
  cl ← gets cm_client;
  match cc_c cl with
  | Some _ => mret (-1)
  | None =>
      ok ← csysio (wio malloc_ok);
      let b := bipbuf_new (1024 * 128) ∅ ok in
      _ ← modify (set_cm_client (CrawlerClient (Some c) sfd b (cc_cbuf cl) (cc_out cl)));
      mret (match b with None => -2 | Some _ => 0 end)
  end.

Definition start_id (remaining : Z) (ids : list bool) (starts sid : Z) : cr Z :=
  if default false (ids !! Z.to_nat sid) then n ← do_lru_crawler_start sid remaining; mret (starts + n)
  else mret starts.

Definition lru_crawler_start (ids : list bool) (remaining : Z) (type : crawler_run_type) (data c : option Z) (sfd : Z) : cr Z :=
  held ← gets lru_crawler_lock;
  if held : bool then mret (-1)
  else
    _ ← modify (set_lru_crawler_lock true);
    _ ← modify (set_cm_mod (Some type));
    _ ← mod_init type data;
    client ← (if needs_client type then
                match c with
                | None => mret (-2)
                | Some fd =>
                    if sfd =? 0 then mret (-2)
                    else r ← lru_crawler_set_client fd sfd; mret (if r =? 0 then 0 else -2)
                end
              else mret 0);
    if negb (client =? 0) then _ ← crawler_unlock; mret (-2)
    else
      starts ← foldl (λ m sid, n ← m; start_id remaining ids n sid) (mret 0) (seqZ POWER_SMALLEST (MAX_NUMBER_OF_SLAB_CLASSES - POWER_SMALLEST));
      _ ← when (negb (starts =? 0)) (modify (set_signalled true));
      _ ← crawler_unlock;
      mret starts.

(** The pieces [strtok_r] finds between commas. *)
Fixpoint comma_tokens (acc s : list Z) : list (list Z) :=
  match s with
  | [] => match acc with [] => [] | _ => [acc] end
  | c :: s =>
      if c =? 44 then match acc with [] => comma_tokens [] s | _ => acc :: comma_tokens [] s end
      else comma_tokens (acc ++ [c]) s
  end.
(** The classes named by a list of numbers; nothing when one is invalid. *)
Fixpoint crawl_ids (ids : list bool) (ts : list (list Z)) : option (list bool) :=
  match ts with
  | [] => Some ids
  | t :: ts =>
      let '(ok, sid) := safe_strtoul t in
      if negb ok || (sid <? POWER_SMALLEST) || (sid >=? MAX_NUMBER_OF_SLAB_CLASSES - 1) then None
      else crawl_ids (<[Z.to_nat sid := true]> ids) ts
  end.

Definition crawl_classes (slabs : list Z) : option (list bool) :=
  if bool_decide (slabs = str "all") then Some (replicate 64 true)
  else crawl_ids (replicate 64 false) (comma_tokens [] slabs).

Definition lru_crawler_crawl (slabs : list Z) (type : crawler_run_type) (c : option Z) (sfd : Z) : cr crawler_result :=
  match crawl_classes slabs with
  | None => _ ← crawler_unlock; mret CRAWLER_BADCLASS
  | Some ids =>
      remaining ← gets (λ s, lru_crawler_tocrawl (cfg (kv (wd (csys s)))));
      starts ← lru_crawler_start ids remaining type None c sfd;
      mret (if starts =? -1 then CRAWLER_RUNNING
            else if starts =? -2 then CRAWLER_ERROR
            else if starts =? 0 then CRAWLER_NOTSTARTED else CRAWLER_OK)
  end.

Definition lru_crawler_pause : cr unit := crawler_lock.
Definition lru_crawler_resume : cr unit := crawler_unlock.

Definition init_lru_crawler (initialized : bool) : cr unit :=
  when (negb initialized)
    (modify (λ s, let c := cm_client s in
       set_cm_data None (set_cm_mod None (set_cm_client (CrawlerClient None (cc_sfd c) (cc_buf c) (cc_cbuf c) (cc_out c)) s)))).
