(* ===== verification/CrawlerFacts.v ===== *)
(** * A crawl ends, unless two are started before the thread wakes

    [crawler_count] against the crawlers that are enabled: the thread's loop
    ends exactly when they agree. *)
From Stdlib Require Import ZArith Lia.
From stdpp Require Import strings prelude gmap list functions.
From S2P Require Import Prelude Mem Util Item State Items Bip Conn ConnOps Ascii IovFacts GetFacts Thread ThreadFacts Logger Crawler.

(** ** Enabled crawlers *)
Definition flagged (cs : list crawler) (i : Z) : Prop := cr_flags <$> cs !! Z.to_nat i = Some 1.
#[global] Instance flagged_dec cs i : Decision (flagged cs i).
Proof. unfold flagged. apply _. Defined.
Definition classes : list Z := seqZ POWER_SMALLEST (LARGEST_ID - POWER_SMALLEST).
Definition active (cs : list crawler) : Z := Z.of_nat (length (filter (flagged cs) classes)).

(** What the thread relies on while it crawls for the module [t]. *)
Record crawl_ok (t : crawler_run_type) (s : crawlsys) : Prop := {
  co_length : length (crawlers s) = 256%nat;
  co_mod : cm_mod s = Some t;
  co_data : t = CRAWLER_EXPIRED → ∃ d x, cm_data s = Some d ∧ crawl_data s !! d = Some x ∧ length (ed_classes x) = 64%nat;
  co_client : cc_c (cm_client s) = None ∨ cc_buf (cm_client s) = Some (bipbuf_init (1024 * 128) ∅);
  co_count : 0 ≤ crawler_count s < 2 ^ 31
}.

(** What a pass over the classes leaves alone; of the system it only changes
    counters. *)
Record crawl_frame (s s' : crawlsys) : Prop := {
  cf_lock : lru_crawler_lock s' = lru_crawler_lock s;
  cf_client : cc_c (cm_client s') = cc_c (cm_client s) ∧ cc_buf (cm_client s') = cc_buf (cm_client s);
  cf_polls : cpolls s' = cpolls s;
  cf_sys : ∃ c, csys s' = set_wd (set_kv (set_cnt c (kv (wd (csys s)))) (wd (csys s))) (csys s)
}.
#[global] Instance crawl_frame_refl : Reflexive crawl_frame.
Proof. intros s. split; try done. exists (cnt (kv (wd (csys s)))). by destruct s as [? ? ? ? ? ? ? ? ? ? ? ? ? ? [? ? ? ? ? ? ? ? ? ? [? [] ? ? ?]]]. Qed.
#[global] Instance crawl_frame_trans : Transitive crawl_frame.
Proof.
  intros s1 s2 s3 [A1 [A2 A2'] A3 [c A4]] [B1 [B2 B2'] B3 [d B4]]. split; try congruence; [split; congruence|].
  exists d. rewrite B4, A4. done.
Qed.

Section crawling.
Context (F : fault → Prop).

Lemma upd_crawler_spec i x f s (Q : unit → crawlsys → Prop) :
  0 ≤ i → crawlers s !! Z.to_nat i = Some x → Q tt (set_crawlers (<[Z.to_nat i := f x]> (crawlers s)) s) → yields F (upd_crawler i f) s Q.
Proof.
  intros Hi Hx HQ. unfold upd_crawler, get_crawler, yields, mbind, M_bind. rewrite (proj2 (Z.ltb_ge _ _) Hi). by rewrite Hx.
Qed.
Lemma get_crawler_spec i x s (Q : crawler → crawlsys → Prop) :
  0 ≤ i → crawlers s !! Z.to_nat i = Some x → Q x s → yields F (get_crawler i) s Q.
Proof. intros Hi Hx HQ. unfold get_crawler, yields. rewrite (proj2 (Z.ltb_ge _ _) Hi). by rewrite Hx. Qed.

Lemma clear_lru_range i : 0 ≤ CLEAR_LRU i < 64 ∨ ¬ 0 ≤ i < 256.
Proof.
  destruct (decide (0 ≤ i < 256)) as [Hi|]; [left|by right]. unfold CLEAR_LRU.
  assert (Z.land i (Z.lnot (Z.shiftl 3 6)) = i mod 2 ^ 6) as ->; [|by apply Z.mod_pos_bound].
  apply Z.bits_inj'. intros n Hn. rewrite Z.land_spec, Z.lnot_spec by done.
  destruct (Z.le_gt_cases 6 n) as [H6|H6].
  - rewrite (Z.mod_pow2_bits_high i 6 n) by lia. destruct (Z.le_gt_cases 8 n) as [H8|H8].
    + replace (Z.testbit i n) with false; [done|]. rewrite <- (Z.mod_small i (2 ^ 8)) by lia. by rewrite Z.mod_pow2_bits_high by lia.
    + assert (n = 6 ∨ n = 7) as [-> | ->] by lia; cbn; by rewrite andb_false_r.
  - rewrite (Z.mod_pow2_bits_low i 6 n) by lia. rewrite Z.shiftl_spec_low by lia. by rewrite andb_true_r.
Qed.

(** A crawled class is disabled and counted off. *)
Lemma class_done_spec t s i x :
  crawl_ok t s → 0 ≤ i < 256 → crawlers s !! Z.to_nat i = Some x → 0 < crawler_count s →
  yields F (lru_crawler_class_done i) s (λ _ s', crawl_ok t s' ∧ crawl_frame s s' ∧
    crawlers s' = <[Z.to_nat i := set_cr_flags 0 x]> (crawlers s) ∧ crawler_count s' = crawler_count s - 1).
Proof.
  intros [C1 C2 C3 C4 C5] Hi Hx Hc. unfold lru_crawler_class_done.
  apply yields_bind, (upd_crawler_spec _ x); [lia|done|]. apply yields_bind, yields_modify, yields_bind.
  apply (get_crawler_spec i (set_cr_flags 0 x)); [lia|cbn; apply list_lookup_insert_eq; lia|].
  apply yields_bind. unfold cserver, csysio, wio, srv, zoom. unfold yields at 1. cbn.
  apply yields_bind, yields_gets. cbn [cm_mod set_csys set_crawler_count set_crawlers]. rewrite C2.
  rewrite (i32_small (crawler_count s - 1)) by lia. set (s1 := set_csys _ _).
  assert (crawl_frame s s1) as Hfr by (split; try done; by eexists).
  assert (length (crawlers s1) = 256%nat) as Hl1 by (cbn; by rewrite length_insert).
  destruct t; cbn [mod_doneclass].
  - destruct (C3 eq_refl) as (d & y & Hd & Hy & Hly). unfold crawler_expired_doneclass. apply yields_bind, yields_gets, yields_bind.
    unfold get_data. unfold yields at 1. change (cm_data s1) with (cm_data s). change (crawl_data s1) with (crawl_data s). rewrite Hd, Hy.
    destruct (clear_lru_range i) as [Hr|]; [|lia].
    destruct (lookup_lt_is_Some_2 (ed_classes y) (Z.to_nat (CLEAR_LRU i))) as [c Hcl]; [lia|]. rewrite Hcl.
    split_and!; [|by destruct Hfr|done|done]. split; try done; [|cbn; lia]. intros _. eexists d, _. split; [done|]. cbn.
    rewrite lookup_insert_eq. split; [done|]. cbn. by rewrite length_insert.
  - split_and!; [|done|done|done]. split; try done. cbn. lia.
Qed.

Lemma filter_ext_in {A} (P Q : A → Prop) `{∀ x, Decision (P x)} `{∀ x, Decision (Q x)} (l : list A) :
  (∀ x, x ∈ l → P x ↔ Q x) → filter P l = filter Q l.
Proof.
  induction l as [|x l IH]; intros Hl; [done|]. rewrite !filter_cons, IH by (intros y Hy; apply Hl; set_solver).
  specialize (Hl x ltac:(set_solver)). destruct (decide (P x)), (decide (Q x)); tauto || done.
Qed.
Lemma filter_none {A} (P : A → Prop) `{∀ x, Decision (P x)} (l : list A) : (∀ x, x ∈ l → ¬ P x) → filter P l = [].
Proof.
  induction l as [|x l IH]; intros Hl; [done|]. rewrite filter_cons_False by (apply Hl; set_solver). apply IH. set_solver.
Qed.

Lemma flagged_insert cs i x j :
  0 ≤ i → 0 ≤ j → (Z.to_nat i < length cs)%nat →
  flagged (<[Z.to_nat i := x]> cs) j ↔ (if decide (j = i) then cr_flags x = 1 else flagged cs j).
Proof.
  intros Hi Hj Hl. unfold flagged. destruct (decide (j = i)) as [->|Hne].
  - rewrite list_lookup_insert_eq by done. cbn. split; [by intros [= ->]|by intros ->].
  - by rewrite list_lookup_insert_ne by lia.
Qed.

Lemma crawl_class_spec t s i :
  crawl_ok t s → 0 ≤ i < 256 → (flagged (crawlers s) i → 0 < crawler_count s) →
  yields F (crawl_class tt i) s (λ _ s', crawl_ok t s' ∧ crawl_frame s s' ∧
    if decide (flagged (crawlers s) i)
    then crawler_count s' = crawler_count s - 1 ∧ ∃ x, crawlers s' = <[Z.to_nat i := set_cr_flags 0 x]> (crawlers s)
    else crawler_count s' = crawler_count s ∧ crawlers s' = crawlers s).
Proof.
  intros Hok Hi Hc. pose proof Hok as [C1 C2 C3 C4 C5].
  destruct (lookup_lt_is_Some_2 (crawlers s) (Z.to_nat i)) as [x Hx]; [lia|].
  unfold crawl_class. apply yields_bind, (get_crawler_spec i x); [lia|done|].
  assert (flagged (crawlers s) i ↔ cr_flags x = 1) as Hfl by (unfold flagged; rewrite Hx; cbn; split; [by intros [= ->]|by intros ->]).
  destruct (decide (flagged (crawlers s) i)) as [Hd|Hd]; destruct (Z.eqb_spec (cr_flags x) 1) as [Hf|Hf]; try tauto; cbn [negb].
  2: { by split_and!. }
  apply yields_bind, yields_gets, yields_bind.
  eapply (yields_mono F _ _ (λ r s1, r = 0 ∧ crawl_ok t s1 ∧ crawl_frame s s1 ∧ crawlers s1 = crawlers s ∧ crawler_count s1 = crawler_count s)).
  - intros r s1 (-> & H1 & H2 & H3 & H4). cbn [negb Z.eqb do_item_crawl_q].
    eapply yields_mono; [|apply (class_done_spec t s1 i x H1 Hi)]; [|by rewrite H3|rewrite H4; tauto].
    intros [] s2 (H5 & H6 & H7 & H8). split_and!; [done|by etrans|lia|]. exists x. by rewrite H7, H3.
  - destruct (cc_c (cm_client s)) as [fd|] eqn:Hfd; [|by split_and!]. unfold lru_crawler_client_getbuf.
    apply yields_bind, yields_gets. rewrite Hfd. destruct C4 as [|C4]; [congruence|].
    assert (getbuf_body tt s = Ok (inr 0, set_cm_client (CrawlerClient (cc_c (cm_client s)) (cc_sfd (cm_client s)) (cc_buf (cm_client s)) (Some 0) (cc_out (cm_client s))) s)) as Hb.
    { clear -C4. destruct s as [? ? ? ? ? ? [cc cs cb cbf co] ? ? ? ? ? ? ? ?]. cbn in C4. subst cb. reflexivity. }
    unfold yields. rewrite (loop_first FUEL _ _ _ _ _ Hb). split_and!; try done.
    + split; try done. right. exact C4.
    + split; try done. exists (cnt (kv (wd (csys s)))). by destruct s as [? ? ? ? ? ? ? ? ? ? ? ? ? ? [? ? ? ? ? ? ? ? ? ? [? [] ? ? ?]]].
Qed.

(** One pass disables every crawler; the count is off by what it was off. *)
Lemma crawl_pass_spec t s d :
  crawl_ok t s → 0 ≤ d → crawler_count s = d + active (crawlers s) →
  yields F crawl_pass s (λ _ s', crawl_ok t s' ∧ crawl_frame s s' ∧ crawler_count s' = d ∧ active (crawlers s') = 0).
Proof.
  intros Hok Hd Hc. unfold crawl_pass. fold classes.
  eapply yields_mono; [|apply (yields_foldl F crawl_class (λ l _ s', ∃ l0, classes = l0 ++ l ∧ crawl_ok t s' ∧ crawl_frame s s' ∧
    crawler_count s' = d + Z.of_nat (length (filter (flagged (crawlers s')) l)) ∧ ∀ i, i ∈ l0 → ¬ flagged (crawlers s') i))].
  - intros [] s' (l0 & El & H1 & H2 & H3 & H4). rewrite app_nil_r in El. subst l0. split_and!; [done|done|cbn in H3; lia|].
    unfold active. by rewrite filter_none by exact H4.
  - exists []. split_and!; [done|done|done|exact Hc|]. intros i Hi. by apply not_elem_of_nil in Hi.
  - intros [] i l s1 (l0 & El & H1 & H2 & H3 & H4).
    assert (i ∈ classes) as Hi by (rewrite El; set_solver). apply elem_of_seqZ in Hi. unfold POWER_SMALLEST, LARGEST_ID in Hi.
    assert (NoDup (l0 ++ i :: l)) as Hnd by (rewrite <- El; apply NoDup_seqZ).
    apply list.NoDup_app in Hnd as (_ & Hd0 & [Hil _]%list.NoDup_cons).
    assert (∀ j, j ∈ classes → 0 ≤ j) as Hpos by (intros j Hj%elem_of_seqZ; unfold POWER_SMALLEST in *; lia).
    rewrite filter_cons in H3.
    eapply yields_mono; [|apply (crawl_class_spec t s1 i H1); [lia|]].
    2: { intros Hfl. rewrite decide_True in H3 by done. cbn [length] in H3. lia. }
    intros [] s2 (H5 & H6 & H7). exists (l0 ++ [i]). rewrite <- app_assoc.
    assert (Z.to_nat i < length (crawlers s1))%nat as Hlt by (rewrite (co_length _ _ H1); lia).
    destruct (decide (flagged (crawlers s1) i)) as [Hfl|Hfl].
    + destruct H7 as [H7 [x Hx]]. cbn [length] in H3.
      assert (∀ j, j ∈ l0 ++ i :: l → flagged (crawlers s2) j ↔ (if decide (j = i) then False else flagged (crawlers s1) j)) as Hflag.
      { intros j Hj. rewrite <- El in Hj. rewrite Hx, flagged_insert by (lia || auto). by destruct (decide (j = i)). }
      split_and!; [done|done|by etrans| |].
      * rewrite H7, H3. rewrite (filter_ext_in (flagged (crawlers s2)) (flagged (crawlers s1)) l); [lia|].
        intros j Hj. rewrite Hflag by set_solver. destruct (decide (j = i)) as [->|]; [done|done].
      * intros j [Hj|Hj%list_elem_of_singleton]%elem_of_app; rewrite Hflag by set_solver.
        -- destruct (decide (j = i)); [tauto|by apply H4].
        -- subst. destruct (decide (i = i)); tauto.
    + destruct H7 as [H7 H8]. rewrite H8. split_and!; [done|done|by etrans|by rewrite H7|].
      intros j [Hj|Hj%list_elem_of_singleton]%elem_of_app; [by apply H4|by subst].
Qed.

(** ** Starting a crawl *)
(** The three LRU lists of a class. *)
Lemma lru_ids id : 0 ≤ id < 64 → Z.lor id HOT_LRU = id ∧ Z.lor id WARM_LRU = id + 64 ∧ Z.lor id COLD_LRU = id + 128.
Proof.
  intros Hid. assert (forallb (λ n, (Z.lor (Z.of_nat n) 0 =? Z.of_nat n) && (Z.lor (Z.of_nat n) 64 =? Z.of_nat n + 64) &&
    (Z.lor (Z.of_nat n) 128 =? Z.of_nat n + 128)) (seq 0 64) = true) as H by (vm_compute; reflexivity).
  rewrite forallb_forall in H. specialize (H (Z.to_nat id)). rewrite in_seq, Z2Nat.id in H by lia. specialize (H ltac:(lia)).
  apply andb_true_iff in H as [[H1%Z.eqb_eq H2%Z.eqb_eq]%andb_true_iff H3%Z.eqb_eq]. by split_and!.
Qed.

Lemma active_enable cs j x :
  1 ≤ j < 256 → length cs = 256%nat → cr_flags x = 1 →
  active (<[Z.to_nat j := x]> cs) = active cs + (if decide (flagged cs j) then 0 else 1).
Proof.
  intros Hj Hl Hx. unfold active. set (cs' := <[_ := x]> cs).
  assert (∀ k, k ∈ classes → flagged cs' k ↔ (if decide (k = j) then True else flagged cs k)) as Hfl.
  { intros k Hk%elem_of_seqZ. unfold POWER_SMALLEST in Hk. unfold cs'. rewrite flagged_insert by lia. by destruct (decide (k = j)). }
  assert (j ∈ classes) as Hin by (apply elem_of_seqZ; unfold POWER_SMALLEST, LARGEST_ID; lia).
  apply list_elem_of_split in Hin as (l1 & l2 & El). assert (NoDup classes) as Hnd by apply NoDup_seqZ.
  rewrite El in Hnd, Hfl |- *. apply list.NoDup_app in Hnd as (_ & H1 & [H2 _]%list.NoDup_cons).
  rewrite !list.filter_app, !filter_cons, (filter_ext_in (flagged cs') (flagged cs) l1), (filter_ext_in (flagged cs') (flagged cs) l2).
  - rewrite (decide_True (P := flagged cs' j)) by (rewrite Hfl by set_solver; by destruct (decide (j = j))).
    rewrite !length_app. destruct (decide (flagged cs j)); cbn [length]; lia.
  - intros k Hk. rewrite Hfl by set_solver. destruct (decide (k = j)) as [->|]; [done|done].
  - intros k Hk. rewrite Hfl by set_solver. destruct (decide (k = j)) as [->|]; [|done]. exfalso. apply (H1 j Hk). set_solver.
Qed.

(** How far the count is ahead of the enabled crawlers. *)
Definition excess (s : crawlsys) : Z := crawler_count s - active (crawlers s).

Lemma start_class_spec s rem j :
  length (crawlers s) = 256%nat → 1 ≤ j < 256 → 0 ≤ crawler_count s < 2 ^ 31 - 1 →
  yields F (start_class rem j) s (λ _ s', ∃ x, cr_flags x = 1 ∧ excess s' = excess s + (if decide (flagged (crawlers s) j) then 1 else 0) ∧
    s' = set_crawler_count (crawler_count s + 1) (set_crawlers (<[Z.to_nat j := x]> (crawlers s)) s)).
Proof.
  intros Hl Hj Hc. destruct (lookup_lt_is_Some_2 (crawlers s) (Z.to_nat j)) as [x Hx]; [lia|].
  unfold start_class. apply yields_bind, (upd_crawler_spec _ x); [lia|done|]. apply yields_modify.
  eexists. split; [|split; [|cbn [crawler_count set_crawlers]; rewrite i32_small by lia; reflexivity]]; [done|].
  unfold excess. cbn [crawler_count crawlers set_crawlers set_crawler_count]. rewrite i32_small by lia.
  rewrite active_enable by done. destruct (decide (flagged (crawlers s) j)); lia.
Qed.

(** The lists that are enabled and the count after some classes were started. *)
Record starting (s : crawlsys) (n : Z) (s' : crawlsys) (seen : list Z) : Prop := {
  st_length : length (crawlers s') = 256%nat;
  st_count : crawler_count s' = crawler_count s + n;
  st_kept : ∀ j, 0 ≤ j → flagged (crawlers s) j → flagged (crawlers s') j;
  st_new : ∀ j, 0 ≤ j → flagged (crawlers s') j → flagged (crawlers s) j ∨ j mod 64 ∈ seen;
  st_excess : excess s ≤ excess s';
  st_fresh : active (crawlers s) = 0 → excess s' = excess s;
  st_frame : cm_mod s' = cm_mod s ∧ cm_data s' = cm_data s ∧ crawl_data s' = crawl_data s ∧ cm_client s' = cm_client s ∧
    lru_crawler_lock s' = lru_crawler_lock s ∧ cpolls s' = cpolls s;
  st_sys : ∃ c, csys s' = set_wd (set_kv (set_cnt c (kv (wd (csys s)))) (wd (csys s))) (csys s)
}.

Lemma active_none cs j : active cs = 0 → 1 ≤ j < 256 → ¬ flagged cs j.
Proof.
  unfold active. intros Ha Hj Hf. assert (j ∈ filter (flagged cs) classes) as Hin.
  { apply list_elem_of_filter. split; [done|]. apply elem_of_seqZ. unfold POWER_SMALLEST, LARGEST_ID. lia. }
  destruct (filter (flagged cs) classes); [by apply not_elem_of_nil in Hin|cbn in Ha; lia].
Qed.

Lemma class_start_spec s rem id n s1 seen :
  starting s n s1 seen → 1 ≤ id < 64 → id ∉ seen → 0 ≤ crawler_count s1 < 2 ^ 31 - 3 →
  yields F (do_lru_crawler_start id rem) s1 (λ r s', r = 3 ∧ starting s (n + 3) s' (seen ++ [id]) ∧
    excess s1 ≤ excess s' ∧ (flagged (crawlers s) id → excess s1 < excess s') ∧
    ∀ j, 0 ≤ j → j = id ∨ flagged (crawlers s1) j → flagged (crawlers s') j).
Proof.
  intros [S1 S2 S3 S4 S5 S6 S7 [c S8]] Hid Hseen Hc. destruct (lru_ids id ltac:(lia)) as (E1 & E2 & E3).
  unfold do_lru_crawler_start. rewrite E1, E2, E3.
  apply yields_bind. eapply yields_mono; [|apply (start_class_spec s1 rem id S1); lia]. intros [] s2 (x1 & F1 & X1 & Es2).
  assert (crawlers s2 = <[Z.to_nat id := x1]> (crawlers s1) ∧ crawler_count s2 = crawler_count s1 + 1) as [Cr2 Ct2] by (by rewrite Es2).
  assert (length (crawlers s2) = 256%nat) as L2 by (rewrite Cr2; by rewrite length_insert).
  apply yields_bind. eapply yields_mono; [|apply (start_class_spec s2 rem (id + 64) L2); lia]. intros [] s3 (x2 & F2 & X2 & Es3).
  assert (crawlers s3 = <[Z.to_nat (id + 64) := x2]> (crawlers s2) ∧ crawler_count s3 = crawler_count s2 + 1) as [Cr3 Ct3] by (by rewrite Es3).
  assert (length (crawlers s3) = 256%nat) as L3 by (rewrite Cr3; by rewrite length_insert).
  apply yields_bind. eapply yields_mono; [|apply (start_class_spec s3 rem (id + 128) L3); lia]. intros [] s4 (x3 & F3 & X3 & Es4).
  assert (crawlers s4 = <[Z.to_nat (id + 128) := x3]> (crawlers s3) ∧ crawler_count s4 = crawler_count s3 + 1) as [Cr4 Ct4] by (by rewrite Es4).
  assert (∀ j, 0 ≤ j → flagged (crawlers s2) j ↔ (j = id ∨ flagged (crawlers s1) j)) as Hfl2.
  { intros j Hj. rewrite Cr2, flagged_insert by lia. destruct (decide (j = id)); naive_solver. }
  assert (∀ j, 0 ≤ j → flagged (crawlers s3) j ↔ (j = id + 64 ∨ flagged (crawlers s2) j)) as Hfl3.
  { intros j Hj. rewrite Cr3, flagged_insert by lia. destruct (decide (j = id + 64)); naive_solver. }
  assert (∀ j, 0 ≤ j → flagged (crawlers s4) j ↔ (j = id ∨ j = id + 64 ∨ j = id + 128 ∨ flagged (crawlers s1) j)) as Hfl.
  { intros j Hj. rewrite Cr4, flagged_insert by lia. destruct (decide (j = id + 128)); [naive_solver|]. rewrite Hfl3, Hfl2 by done. naive_solver. }
  assert (id mod 64 = id ∧ (id + 64) mod 64 = id ∧ (id + 128) mod 64 = id) as (M1 & M2 & M3).
  { split_and!; symmetry; [apply (Z.mod_unique_pos _ _ 0)|apply (Z.mod_unique_pos _ _ 1)|apply (Z.mod_unique_pos _ _ 2)]; lia. }
  apply yields_bind. unfold cserver, csysio, wio, srv, zoom. unfold yields at 1. cbn. split; [done|]. split_and!.
  - split; cbn [crawlers set_csys crawler_count].
    + by rewrite Cr4, length_insert.
    + lia.
    + intros j Hj Hf. apply Hfl; [done|]. auto.
    + intros j Hj Hf%Hfl; [|done]. rewrite elem_of_app, list_elem_of_singleton.
      destruct Hf as [-> | [-> | [-> | Hf]]]; [auto..|]. destruct (S4 j Hj Hf); auto.
    + change (excess s ≤ excess s4). repeat destruct (decide _); lia.
    + intros Ha. change (excess s4 = excess s). rewrite X3, X2, X1, S6 by done.
      assert (∀ k, k = 0 ∨ k = 64 ∨ k = 128 → ¬ flagged (crawlers s1) (id + k)) as Hno.
      { intros k Hk Hf. destruct (S4 (id + k) ltac:(lia) Hf) as [Hf'|Hin]; [by apply (active_none _ (id + k) Ha) in Hf'; [|lia]|].
        apply Hseen. destruct Hk as [-> | [-> | ->]]; rewrite ?Z.add_0_r in Hin; by rewrite ?M1, ?M2, ?M3 in Hin. }
      rewrite (decide_False (P := flagged (crawlers s1) id)) by (specialize (Hno 0); rewrite Z.add_0_r in Hno; auto).
      rewrite (decide_False (P := flagged (crawlers s2) (id + 64))) by (rewrite Hfl2 by lia; intros [?|?]; [lia|by apply (Hno 64); [lia|]]).
      rewrite (decide_False (P := flagged (crawlers s3) (id + 128)))
        by (rewrite Hfl3, Hfl2 by lia; intros [?|[?|?]]; [lia|lia|by apply (Hno 128); [lia|]]). lia.
    + subst s4 s3 s2. by destruct S7.
    + subst s4 s3 s2. cbn. rewrite S8. by eexists.
  - change (excess s1 ≤ excess s4). repeat destruct (decide _); lia.
  - intros Hf. change (excess s1 < excess s4). rewrite X3, X2, X1, (decide_True (P := flagged (crawlers s1) id)) by (apply S3; [lia|done]).
    repeat destruct (decide _); lia.
  - intros j Hj Hf. apply Hfl; [done|]. naive_solver.
Qed.

Definition wants (ids : list bool) (id : Z) : bool := default false (ids !! Z.to_nat id).
#[local] Notation sids := (seqZ POWER_SMALLEST (MAX_NUMBER_OF_SLAB_CLASSES - POWER_SMALLEST)).

Lemma starting_refl s : length (crawlers s) = 256%nat → starting s 0 s [].
Proof.
  intros Hl. split; try done; [lia|by left|]. exists (cnt (kv (wd (csys s)))).
  by destruct s as [? ? ? ? ? ? ? ? ? ? ? ? ? ? [? ? ? ? ? ? ? ? ? ? [? [] ? ? ?]]].
Qed.
Lemma starting_seen s n s' seen x : starting s n s' seen → starting s n s' (seen ++ [x]).
Proof.
  intros [S1 S2 S3 S4 S5 S6 S7 S8]. split; try done. intros j Hj Hf. destruct (S4 j Hj Hf); [by left|right]. set_solver.
Qed.

Lemma start_ids_spec s rem ids :
  length (crawlers s) = 256%nat → 0 ≤ crawler_count s < 2 ^ 30 →
  yields F (foldl (λ m sid, n ← m; start_id rem ids n sid) (mret 0) sids) s (λ n s',
    starting s n s' sids ∧ 0 ≤ n ≤ 189 ∧
    ((∃ id, 1 ≤ id < 64 ∧ wants ids id = true) → 0 < n) ∧
    (∀ id, 1 ≤ id < 64 → wants ids id = true → flagged (crawlers s) id → excess s < excess s') ∧
    (∀ id, 1 ≤ id < 64 → wants ids id = true → flagged (crawlers s') id)).
Proof.
  intros Hl Hc.
  eapply yields_mono; [|apply (yields_foldl F (start_id rem ids) (λ l n s', ∃ l0, sids = l0 ++ l ∧ starting s n s' l0 ∧
    0 ≤ n ≤ 3 * Z.of_nat (length l0) ∧ (∀ id, id ∈ l0 → wants ids id = true → 0 < n) ∧
    (∀ id, id ∈ l0 → wants ids id = true → flagged (crawlers s) id → excess s < excess s') ∧
    (∀ id, id ∈ l0 → wants ids id = true → flagged (crawlers s') id)))].
  - intros n s' (l0 & El & H1 & H2 & H3 & H4 & H4'). rewrite app_nil_r in El. subst l0. split_and!; [done|lia|change (length sids) with 63%nat in H2; lia| | |].
    + intros (id & Hid & Hw). apply (H3 id); [|done]. apply elem_of_seqZ. unfold POWER_SMALLEST, MAX_NUMBER_OF_SLAB_CLASSES. lia.
    + intros id Hid. apply H4, elem_of_seqZ. unfold POWER_SMALLEST, MAX_NUMBER_OF_SLAB_CLASSES. lia.
    + intros id Hid. apply H4', elem_of_seqZ. unfold POWER_SMALLEST, MAX_NUMBER_OF_SLAB_CLASSES. lia.
  - exists []. split_and!; [done|by apply starting_refl|lia|cbn; lia|..]; intros id Hid; by apply not_elem_of_nil in Hid.
  - intros n x l s1 (l0 & El & H1 & H2 & H3 & H4 & H4').
    assert (x ∈ sids) as Hx by (rewrite El; set_solver). apply elem_of_seqZ in Hx. unfold POWER_SMALLEST, MAX_NUMBER_OF_SLAB_CLASSES in Hx.
    assert (NoDup (l0 ++ x :: l)) as Hnd by (rewrite <- El; apply NoDup_seqZ). apply list.NoDup_app in Hnd as (_ & Hd & _).
    assert (length l0 ≤ 63)%nat as Hl0.
    { assert (length sids = 63%nat) as E by done. rewrite El, length_app in E. lia. }
    unfold start_id. fold (wants ids x). destruct (wants ids x) eqn:Hw.
    + apply yields_bind. eapply yields_mono; [|apply (class_start_spec s rem x n s1 l0 H1); [lia|intros Hin; apply (Hd x Hin); set_solver|]].
      2: { rewrite (st_count _ _ _ _ H1). lia. }
      intros r s2 (-> & H5 & H5' & H6 & H6'). apply yields_ret. exists (l0 ++ [x]). rewrite <- app_assoc, length_app. cbn [length].
      split_and!; [done|done|lia|lia|lia|..].
      * intros id [Hin|Hin%list_elem_of_singleton]%elem_of_app Hwi Hfi.
        -- specialize (H4 id Hin Hwi Hfi). lia.
        -- subst id. specialize (H6 Hfi). pose proof (st_excess _ _ _ _ H1). lia.
      * intros id [Hin|Hin%list_elem_of_singleton]%elem_of_app Hwi.
        -- assert (id ∈ sids) as Hid%elem_of_seqZ by (rewrite El; set_solver). unfold POWER_SMALLEST in Hid. apply H6'; [lia|]. right. by apply H4'.
        -- subst. apply H6'; [lia|by left].
    + apply yields_ret. exists (l0 ++ [x]). rewrite <- app_assoc, length_app. cbn [length].
      split_and!; [done|by apply starting_seen|lia|lia|..].
      * intros id [Hin|Hin%list_elem_of_singleton]%elem_of_app; [by apply H3|subst; congruence].
      * intros id [Hin|Hin%list_elem_of_singleton]%elem_of_app; [by apply H4|subst; congruence].
      * intros id [Hin|Hin%list_elem_of_singleton]%elem_of_app; [by apply H4'|subst; congruence].
Qed.

Lemma cmalloc_ok s : mallocs (en (wd (csys s))) = [] → csysio (wio malloc_ok) s = Ok (true, s).
Proof.
  intros Hm. unfold csysio, wio, zoom, malloc_ok. rewrite Hm. by destruct s as [? ? ? ? ? ? ? ? ? ? ? ? ? ? [? ? ? ? ? ? ? ? ? ? []]].
Qed.

(** The module is set up; of the rest nothing changes. *)
Lemma mod_init_spec type s :
  mallocs (en (wd (csys s))) = [] →
  yields F (mod_init type None) s (λ _ s', ∃ cd cm brk, s' = set_crawl_brk brk (set_cm_data cm (set_crawl_data cd s)) ∧
    (type = CRAWLER_EXPIRED → ∃ d x, cm = Some d ∧ cd !! d = Some x ∧ length (ed_classes x) = 64%nat)).
Proof.
  intros Hm. destruct type; cbn [mod_init].
  - apply yields_bind. unfold crawler_expired_init. apply yields_bind, yields_gets. apply yields_bind, yields_bind.
    unfold yields at 1. rewrite (cmalloc_ok _ Hm). apply yields_bind. cbn [when]. apply yields_bind, yields_gets.
    apply yields_bind, yields_modify, yields_bind, yields_modify, yields_modify, yields_ret. cbn [negb].
    apply yields_bind. unfold get_data. unfold yields at 1.
    cbn [cm_data set_cm_data crawl_data set_crawl_data set_crawl_brk]. rewrite lookup_insert_eq.
    apply yields_bind, yields_modify, yields_ret. set (s' := set_crawl_data _ _).
    exists (crawl_data s'), (cm_data s'), (crawl_brk s'). split; [reflexivity|]. intros _. eexists (crawl_brk s), _. split; [reflexivity|].
    unfold s'. cbn [crawl_data set_crawl_data]. rewrite lookup_insert_eq. split; [done|]. reflexivity.
  - exists (crawl_data s), (cm_data s), (crawl_brk s). split; [by destruct s|done].
Qed.

(** The state a crawl can be started in. *)
Record startable (type : crawler_run_type) (c : option Z) (sfd : Z) (s : crawlsys) : Prop := {
  sa_length : length (crawlers s) = 256%nat;
  sa_lock : lru_crawler_lock s = false;
  sa_memory : mallocs (en (wd (csys s))) = [];
  sa_client : cc_c (cm_client s) = None;
  sa_count : 0 ≤ crawler_count s < 2 ^ 30;
  sa_type : type = CRAWLER_METADUMP → is_Some c ∧ sfd ≠ 0
}.

(** What starting a crawl of the classes [ids] leaves. *)
Record crawl_started (ids : list bool) (type : crawler_run_type) (c : option Z) (s : crawlsys) (n : Z) (s' : crawlsys) : Prop := {
  cd_range : 0 ≤ n ≤ 189;
  cd_any : (∃ id, 1 ≤ id < 64 ∧ wants ids id = true) → 0 < n;
  cd_ok : crawl_ok type s';
  cd_lock : lru_crawler_lock s' = false;
  cd_count : crawler_count s' = crawler_count s + n;
  cd_excess : excess s ≤ excess s';
  cd_fresh : active (crawlers s) = 0 → excess s' = excess s;
  cd_again : ∀ id, 1 ≤ id < 64 → wants ids id = true → flagged (crawlers s) id → excess s < excess s';
  cd_enabled : ∀ id, 1 ≤ id < 64 → wants ids id = true → flagged (crawlers s') id;
  cd_client : cc_c (cm_client s') = (if needs_client type then c else None);
  cd_sys : ∃ k, csys s' = set_wd (set_kv (set_cnt k (kv (wd (csys s)))) (wd (csys s))) (csys s)
}.

Lemma lru_crawler_start_spec ids rem type c sfd s :
  startable type c sfd s →
  yields F (lru_crawler_start ids rem type None c sfd) s (crawl_started ids type c s).
Proof.
  intros [A1 A2 A3 A4 A5 A6]. unfold lru_crawler_start. apply yields_bind, yields_gets. rewrite A2.
  apply yields_bind, yields_modify, yields_bind, yields_modify. set (s1 := set_cm_mod _ _).
  apply yields_bind. eapply yields_mono; [|apply (mod_init_spec type s1); done]. intros [] s2 (cd & cm & brk & -> & Hdata).
  set (s2 := set_crawl_brk _ _). apply yields_bind.
  eapply (yields_mono F _ _ (λ r s3, r = 0 ∧ ∃ cl, s3 = set_cm_client cl s2 ∧
    (cc_c cl = None ∨ cc_buf cl = Some (bipbuf_init (1024 * 128) ∅)) ∧ cc_c cl = (if needs_client type then c else None))).
  2: { destruct type; cbn [needs_client].
       - split; [done|]. exists (cm_client s). split; [reflexivity|]. rewrite A4. split; [by left|done].
       - destruct (A6 eq_refl) as [[fd ->] Hsfd]. rewrite (proj2 (Z.eqb_neq _ _) Hsfd). apply yields_bind. unfold lru_crawler_set_client.
         apply yields_bind, yields_gets. change (cm_client s2) with (cm_client s). rewrite A4. apply yields_bind.
         unfold yields at 1. rewrite (cmalloc_ok s2 A3). apply yields_bind, yields_modify, yields_ret, yields_ret. cbn. split; [done|].
         eexists. split; [reflexivity|]. split; [by right|done]. }
  intros r s3 (-> & cl & -> & Hbuf & Hcl). cbn [negb Z.eqb]. set (s3 := set_cm_client cl s2). apply yields_bind.
  eapply yields_mono; [|apply (start_ids_spec s3 rem ids)]; [|exact A1|exact A5].
  intros n s4 ([T1 T2 T3 T4 T5 T6 T7 T8] & Hn & Hpos & Hex & Hen). destruct T7 as (U1 & U2 & U3 & U4 & U5 & U6).
  apply yields_bind. eapply (yields_mono F _ _ (λ _ s5, ∃ b, s5 = set_signalled b s4)).
  2: { destruct (n =? 0); cbn [when negb]; [exists (signalled s4); by destruct s4|by exists true]. }
  intros [] s5 (b & ->). apply yields_bind, yields_modify, yields_ret.
  change (excess (set_lru_crawler_lock false (set_signalled b s4))) with (excess s4).
  change (crawlers (set_lru_crawler_lock false (set_signalled b s4))) with (crawlers s4).
  split; try done; try lia.
  - split; cbn; rewrite ?U1, ?U2, ?U3, ?U4, ?T2; try done. change (crawler_count s3) with (crawler_count s). lia.
  - cbn. by rewrite U4.
Qed.
End crawling.

(** ** The claims *)
Definition crawler_idle (s : crawlsys) : Prop :=
  length (crawlers s) = 256%nat ∧ crawler_count s = 0 ∧ active (crawlers s) = 0 ∧
  lru_crawler_lock s = false ∧ cc_c (cm_client s) = None.

(** The reply of [lru_crawler_crawl] when a crawl was started. *)
Lemma crawl_spec (F : fault → Prop) slabs ids type c sfd s :
  crawl_classes slabs = Some ids → (∃ id, 1 ≤ id < 64 ∧ wants ids id = true) → startable type c sfd s →
  yields F (lru_crawler_crawl slabs type c sfd) s (λ r s', r = CRAWLER_OK ∧ ∃ n, crawl_started ids type c s n s').
Proof.
  intros Hids Hw Hsa. unfold lru_crawler_crawl. rewrite Hids. apply yields_bind, yields_gets, yields_bind.
  eapply yields_mono; [|by apply lru_crawler_start_spec]. intros n s' Hst. pose proof (cd_any _ _ _ _ _ _ Hst Hw) as Hn.
  apply yields_ret. split; [|by exists n].
  by rewrite (proj2 (Z.eqb_neq n (-1))), (proj2 (Z.eqb_neq n (-2))), (proj2 (Z.eqb_neq n 0)) by lia.
Qed.

Lemma count_excess s : crawler_count s = excess s + active (crawlers s).
Proof. unfold excess. lia. Qed.

(** The thread's loop: it ends when the count agrees with what is enabled, and
    goes on forever when the count is ahead. *)
Lemma crawl_loop_ends (F : fault → Prop) t s :
  crawl_ok t s → excess s = 0 →
  yields F (loop FUEL crawl_body tt) s (λ _ s', crawl_ok t s' ∧ crawl_frame s s' ∧ crawler_count s' = 0 ∧ active (crawlers s') = 0).
Proof.
  intros Hok Hx. apply (yields_loop F FUEL _ (λ k _ s', crawl_ok t s' ∧ crawl_frame s s' ∧ excess s' = 0 ∧
    k = (if decide (active (crawlers s') = 0) then 0 else 1)) _ (if decide (active (crawlers s) = 0) then 0 else 1)).
  3: { by destruct (decide _). }
  2: { by split_and!. }
  intros k [] s1 (H1 & H2 & H3 & ->). unfold crawl_body. apply yields_bind, yields_gets.
  pose proof (count_excess s1) as Hc. destruct (Z.eqb_spec (crawler_count s1) 0) as [Hz|Hz].
  - split_and!; [done|done|done|lia].
  - apply yields_bind. eapply yields_mono; [|apply (crawl_pass_spec F t s1 0 H1)]; [|lia|lia].
    intros [] s2 (A & B & C & D). apply yields_ret. exists 0. rewrite decide_False by lia. split; [lia|].
    split_and!; [done|by etrans|unfold excess; lia|by rewrite decide_True].
Qed.
Lemma crawl_loop_hangs t s : crawl_ok t s → 0 < excess s → loop FUEL crawl_body tt s = Fault OutOfFuel.
Proof.
  intros Hok Hx. apply (loop_diverges FUEL _ (λ _ s', crawl_ok t s' ∧ 0 < excess s')); [|done].
  intros [] s1 [H1 H2]. pose proof (wp_yields _ _ _ (crawl_pass_spec (λ _, False) t s1 (excess s1) H1 ltac:(lia) (count_excess s1))) as (u & s2 & E & A & B & C & D).
  exists tt, s2. split; [|split; [done|unfold excess at 1; lia]].
  unfold crawl_body. unfold mbind, M_bind, gets. pose proof (count_excess s1). unfold active in *.
  rewrite (proj2 (Z.eqb_neq _ _)) by lia. by rewrite E.
Qed.

(** Counters do not matter for the hand-over. *)
Lemma hand_ok_cnt s Q F c : hand_ok s Q F → hand_ok (set_wd (set_kv (set_cnt c (kv (wd s))) (wd s)) s) Q F.
Proof. intros Hh. apply (hand_ok_parts s); try done; [eapply (ok_parts s); try done; apply Hh|apply Hh]. Qed.

(** With nothing to send, the last poll leaves the client alone. *)
Lemma final_poll_spec (F : fault → Prop) s :
  cc_buf (cm_client s) = Some (bipbuf_init (1024 * 128) ∅) → yields F lru_crawler_poll s (λ _ s', ∃ l, s' = set_cpolls l s).
Proof.
  intros Hb. unfold lru_crawler_poll. apply yields_bind.
  eapply (yields_mono F _ _ (λ r s', (∃ l, s' = set_cpolls l s) ∧ match r with Some r => has r POLLIN = false | None => True end)).
  2: { unfold cpoll, yields. destruct (cpolls s) as [|[r|] l] eqn:E.
       - split; [|done]. exists (cpolls s). by destruct s.
       - split; [by eexists|]. unfold has. rewrite <- Z.land_assoc. change (Z.land _ POLLIN) with 0 at 1. by rewrite Z.land_0_r.
       - split; [by eexists|done]. }
  intros r s' [[l ->] Hr]. destruct r as [r|]; [|by eexists]. destruct (r =? 0); [by eexists|].
  rewrite Hr. apply yields_bind, yields_ret, yields_bind. unfold client_buf. apply yields_bind, yields_gets.
  change (cm_client (set_cpolls l s)) with (cm_client s). rewrite Hb. apply yields_ret. by eexists.
Qed.

Lemma finalize_spec (F : fault → Prop) t s :
  crawl_ok t s → yields F (mod_finalize t) s (λ _ s', ∃ cd, s' = set_crawl_data cd s).
Proof.
  intros [C1 C2 C3 C4 C5]. destruct t; cbn [mod_finalize]; [|exists (crawl_data s); by destruct s].
  destruct (C3 eq_refl) as (d & x & Hd & Hx & _). unfold crawler_expired_finalize. apply yields_bind, yields_gets, yields_bind.
  unfold get_data. unfold yields at 1. rewrite Hd, Hx. destruct (ed_is_external x); by eexists.
Qed.

(** The end of a crawl: the client, if there is one, goes back to its worker. *)
Lemma crawl_wake_spec (F : fault → Prop) t s Q Fr :
  crawl_ok t s → lru_crawler_lock s = false → excess s = 0 → hand_ok (csys s) Q Fr → mallocs (en (wd (csys s))) = [] →
  (∀ fd, cc_c (cm_client s) = Some fd → is_Some (conns (en (wd (csys s))) !! fd) ∧ is_Some (conn_thread (csys s) !! fd)) →
  yields F crawler_wake s (λ _ s', crawler_idle s' ∧ cm_mod s' = None ∧
    stats_flag (cnt (kv (wd (csys s')))) lru_crawler_running = false ∧ ∃ Q' Fr', hand_ok (csys s') Q' Fr' ∧
    match cc_c (cm_client s) with
    | None => Q' = Q
    | Some fd => ∃ t, conn_thread (csys s) !! fd = Some (Z.of_nat t) ∧ enqueued Q t (RReadd fd) Q'
    end).
Proof.
  intros Hok Hl Hx Hh Hm Hcl. unfold crawler_wake. apply yields_bind. unfold crawler_lock. apply yields_bind, yields_gets. rewrite Hl.
  apply yields_modify, yields_bind, yields_modify, yields_bind. set (s0 := set_signalled _ _).
  eapply yields_mono; [|apply (crawl_loop_ends F t s0); [by destruct Hok|done]].
  intros [] s1 (Hok1 & [_ [E2 E3] _ [k E5]] & Hc1 & Ha1). pose proof Hok1 as [L1 M1 _ B1 _].
  change (cm_client s0) with (cm_client s) in *. change (csys s0) with (csys s) in *.
  apply yields_bind, yields_gets. rewrite M1. apply yields_bind, yields_bind.
  eapply yields_mono; [|by apply finalize_spec]. intros [] s2 (cd & ->). apply yields_bind, yields_gets, yields_bind.
  cbn [cm_client set_crawl_data]. rewrite E2. set (s2 := set_crawl_data cd s1).
  eapply (yields_mono F _ _ (λ _ s3, ∃ y pl cl, s3 = set_cm_client cl (set_csys y (set_cpolls pl s2)) ∧ cc_c cl = None ∧ ∃ Q' Fr', hand_ok y Q' Fr' ∧
    match cc_c (cm_client s) with
    | None => Q' = Q
    | Some fd => ∃ t, conn_thread (csys s) !! fd = Some (Z.of_nat t) ∧ enqueued Q t (RReadd fd) Q'
    end)).
  - intros [] s3 (y & pl & cl & -> & Hnone & Q' & Fr' & Hh' & Hq). apply yields_modify, yields_bind.
    unfold cserver, csysio, wio, srv, zoom. unfold yields at 1. cbn -[fn_insert].
    split_and!; [by split_and!|done|by rewrite fn_lookup_insert|]. exists Q', Fr'. split; [by apply hand_ok_cnt|done].
  - pose proof (hand_ok_cnt _ _ _ k Hh) as Hhk. rewrite <- E5 in Hhk.
    destruct (cc_c (cm_client s)) as [fd|] eqn:Efd.
    2: { apply yields_ret. exists (csys s2), (cpolls s2), (cm_client s2). split; [by destruct s2|]. split; [done|]. by exists Q, Fr. }
    destruct B1 as [B1|B1]; [congruence|]. apply yields_bind. eapply yields_mono; [|apply (final_poll_spec F s2 B1)].
    intros r s3 [pl ->]. unfold lru_crawler_release_client. apply yields_bind, yields_gets. cbn [cm_client set_cpolls s2 set_crawl_data].
    rewrite E2. destruct (Hcl fd eq_refl) as [Hc1' Hc2']. apply yields_bind.
    pose proof (redispatch_spec (csys s1) Q Fr fd Hhk) as Hre. unfold csysio, zoom. unfold yields at 1.
    unfold yields in Hre. change (csys (set_cpolls pl s2)) with (csys s1).
    destruct (redispatch_conn fd (csys s1)) as [[[] y]|].
    2: { exfalso. rewrite E5 in Hre. cbn in Hre. destruct Hre as [Hre|Hre]; [rewrite Hre in Hc1'|rewrite Hre in Hc2']; by eapply is_Some_None. }
    destruct Hre as (_ & _ & Q' & Fr' & Hh' & Hq). apply yields_modify. eexists y, pl, _. split; [reflexivity|]. split; [done|].
    exists Q', Fr'. split; [done|]. rewrite E5 in Hq. cbn in Hq. destruct Hq as [[_ Hq]|Hq]; [by rewrite Hm in Hq|done].
Qed.

(** A dump borrows a connection that a worker owns. *)
Definition borrows (type : crawler_run_type) (c : option Z) (sfd : Z) (s : crawlsys) : Prop :=
  type = CRAWLER_METADUMP → ∃ fd, c = Some fd ∧ sfd ≠ 0 ∧
    is_Some (conns (en (wd (csys s))) !! fd) ∧ is_Some (conn_thread (csys s) !! fd).

(** C23: a crawl that is asked for while the crawler is idle runs to its end,
    when no allocation fails, the request names at least one class, and a dump
    has a connection that a worker owns.  The command answers OK, and the
    thread's next turn returns within its fuel with no class left enabled, the
    counts back at zero, the crawler idle and reported as not running; the
    connection a dump has borrowed is queued again with the worker it came from,
    once, and no connection is queued otherwise. *)
Theorem crawl_completes slabs ids type c sfd s Q Fr :
  crawl_classes slabs = Some ids → (∃ id, 1 ≤ id < 64 ∧ wants ids id = true) →
  crawler_idle s → mallocs (en (wd (csys s))) = [] → borrows type c sfd s → hand_ok (csys s) Q Fr →
  wp (r ← lru_crawler_crawl slabs type c sfd; _ ← crawler_wake; mret r) s (λ r s',
    r = CRAWLER_OK ∧ crawler_idle s' ∧ cm_mod s' = None ∧ stats_flag (cnt (kv (wd (csys s')))) lru_crawler_running = false ∧
    ∃ Q' Fr', hand_ok (csys s') Q' Fr' ∧
    match (if needs_client type then c else None) with
    | None => Q' = Q
    | Some fd => ∃ t, conn_thread (csys s) !! fd = Some (Z.of_nat t) ∧ enqueued Q t (RReadd fd) Q'
    end).
Proof.
  intros Hids Hw (I1 & I2 & I3 & I4 & I5) Hm Hb Hh. apply wp_yields, yields_bind.
  eapply yields_mono; [|apply (crawl_spec _ slabs ids); [done|done|split; try done; [lia|]]].
  2: { intros Ht. destruct (Hb Ht) as (fd & -> & ? & _). split; [by eexists|done]. }
  intros r s1 (-> & n & [D1 D2 D3 D4 D5 D6 D7 D8 D9 D10 [k D11]]). apply yields_bind.
  eapply yields_mono; [|apply (crawl_wake_spec _ type s1 Q Fr D3 D4)].
  - intros [] s2 (H1 & H2 & H3 & Q' & Fr' & H4 & H5). apply yields_ret. rewrite D10, D11 in H5. split_and!; try done. by exists Q', Fr'.
  - rewrite D7 by done. unfold excess. lia.
  - rewrite D11. by apply hand_ok_cnt.
  - by rewrite D11.
  - intros fd Hfd. rewrite D11. destruct type; cbn [needs_client] in D10; [congruence|].
    destruct (Hb eq_refl) as (fd' & Hc & _ & H1 & H2). rewrite D10, Hc in Hfd. injection Hfd as ->. done.
Qed.

(** C28: two crawls for expired items (the crawler's [crawl] command; a second
    [metadump] is refused instead) of the same classes that are asked for before
    the thread wakes, with no allocation failing, are both accepted, but the
    second counts classes that the first has already enabled: the thread then
    never finds the count at zero, and stays in its loop with [lru_crawler_lock]
    held (in the model it runs out of fuel). *)
Theorem crawl_twice_hangs slabs ids s :
  crawl_classes slabs = Some ids → (∃ id, 1 ≤ id < 64 ∧ wants ids id = true) →
  crawler_idle s → mallocs (en (wd (csys s))) = [] →
  wp (r1 ← lru_crawler_crawl slabs CRAWLER_EXPIRED None 0; r2 ← lru_crawler_crawl slabs CRAWLER_EXPIRED None 0; mret (r1, r2)) s
    (λ r s', r = (CRAWLER_OK, CRAWLER_OK) ∧ crawler_wake s' = Fault OutOfFuel).
Proof.
  intros Hids Hw (I1 & I2 & I3 & I4 & I5) Hm. apply wp_yields, yields_bind.
  eapply yields_mono; [|apply (crawl_spec _ slabs ids); [done|done|split; try done; lia]].
  intros r1 s1 (-> & n & [D1 D2 D3 D4 D5 D6 D7 D8 D9 D10 [k D11]]). apply yields_bind.
  pose proof D3 as [E1 _ _ _ _].
  eapply yields_mono; [|apply (crawl_spec _ slabs ids); [done|done|split; try done; [by rewrite D11|lia]]].
  intros r2 s2 (-> & n2 & [G1 G2 G3 G4 G5 G6 G7 G8 _ _ _]). apply yields_ret. split; [done|].
  destruct Hw as (id & Hid & Hwid). specialize (G8 id Hid Hwid (D9 id Hid Hwid)). rewrite D7 in G8 by done.
  unfold crawler_wake, crawler_lock, crawler_unlock, mbind, M_bind, gets, modify. rewrite G4.
  rewrite (crawl_loop_hangs CRAWLER_EXPIRED); [done|by destruct G3|]. unfold excess in *. cbn in *. lia.
Qed.

(** ** Concrete runs *)
Definition crawler_at (y : system) : crawlsys :=
  CrawlSys (replicate 256 no_crawl) 0 false true None None (CrawlerClient None 0 None None []) ∅ 1 false [] [] [] [] y.
Lemma crawler_at_idle y : crawler_idle (crawler_at y).
Proof. unfold crawler_idle. split_and!; vm_compute; reflexivity. Qed.

(** A dump for connection 5 of worker 0. *)
Lemma crawl_completes_witness :
  wp (r ← lru_crawler_crawl (str "1,3") CRAWLER_METADUMP (Some 5) 5; _ ← crawler_wake; mret r) (crawler_at race_system) (λ r s',
    r = CRAWLER_OK ∧ crawler_idle s' ∧ ∃ Q' Fr', hand_ok (csys s') Q' Fr' ∧ enqueued (replicate 4 []) 0 (RReadd 5) Q').
Proof.
  eapply wp_mono; [|apply (crawl_completes (str "1,3") (<[3%nat := true]> (<[1%nat := true]> (replicate 64 false)))
    CRAWLER_METADUMP (Some 5) 5 (crawler_at race_system) (replicate 4 []) [])].
  - intros r s' (H1 & H2 & _ & _ & Q' & Fr' & H3 & t & H4 & H5). split; [exact H1|]. split; [exact H2|]. exists Q', Fr'. split; [exact H3|].
    vm_compute in H4. injection H4 as H4. destruct t; [exact H5|discriminate].
  - vm_compute. reflexivity.
  - exists 1. split; [lia|]. vm_compute. reflexivity.
  - apply crawler_at_idle.
  - reflexivity.
  - intros _. exists 5. split; [reflexivity|]. split; [discriminate|]. split; by eexists.
  - destruct (started_ok 4 (set_en (set_conns {[ 5 := fresh_conn DATA_BUFFER_SIZE ]} blank_env) one_item_world) ltac:(lia) eq_refl)
      as [H1 H2 H3 H4 H5 _]. split; [exact (ok_parts _ race_system _ _ H1 eq_refl eq_refl eq_refl eq_refl)|exact H2|exact H3|exact H4|exact H5|].
    intros fd t Ht. change ((({[ 5 := 0 ]} : gmap Z Z) !! fd) = Some t) in Ht. apply lookup_singleton_Some in Ht as [_ <-]. vm_compute. split; [discriminate|reflexivity].
Defined.

Lemma crawl_twice_hangs_witness :
  wp (r1 ← lru_crawler_crawl (str "all") CRAWLER_EXPIRED None 0; r2 ← lru_crawler_crawl (str "all") CRAWLER_EXPIRED None 0; mret (r1, r2))
    (crawler_at (started 4 one_item_world)) (λ r s', r = (CRAWLER_OK, CRAWLER_OK) ∧ crawler_wake s' = Fault OutOfFuel).
Proof.
  apply (crawl_twice_hangs (str "all") (replicate 64 true)); [reflexivity| |apply crawler_at_idle|reflexivity].
  exists 1. split; [lia|reflexivity].
Defined.

(** A bad class gives the lock back that the thread or a pause is holding. *)
Example bad_class_unlocks :
  (λ x, match x with Ok (r, s) => Some (r, lru_crawler_lock s) | Fault _ => None end)
    ((_ ← lru_crawler_pause; lru_crawler_crawl (str "0") CRAWLER_EXPIRED None 0) (crawler_at (started 4 one_item_world)))
  = Some (CRAWLER_BADCLASS, false).
Proof. vm_compute. reflexivity. Qed.
