(* ===== verification/Options.v ===== *)
(** * The command line (memcached.c, [main] up to the end of its checks)

    [getopt], [getsubopt], [atoi], [atof] and [strtol] of the C library, the
    two switches of [main] over the options and the sub-options of [-o], and
    the checks that follow.  A [return 1] or an [exit] of [main] is the fault
    [Exited]. *)
From Stdlib Require Import ZArith Lia SpecFloat.
From stdpp Require Import strings prelude gmap list functions.
From S2P Require Import Prelude Mem Util Hash Item State Items Conn ConnOps Ascii Thread Settings Crawler.

(** ** The C library *)
Definition ch (c : string) : Z := default 0 (head (str c)).
Definition atoi (s : list Z) : Z := match strtoll s with Some (v, _, _) => i32 v | None => 0 end.

(** [strtol(s, NULL, 8)], stored in an [int]. *)
Definition isoctal (c : Z) : bool := (48 <=? c) && (c <=? 55).
Definition strtol8 (s : list Z) : Z :=
  let s1 := drop_while isspace s in
  let '(neg, s2) := match s1 with
    | c :: r => if c =? 45 then (true, r) else if c =? 43 then (false, r) else (false, s1)
    | [] => (false, [])
    end in
  let v := fold_left (λ v d, v * 8 + (d - 48)) (take_while isoctal s2) 0 in
  i32 (if neg then Z.max (- 2 ^ 63) (- v) else Z.min (2 ^ 63 - 1) v).

(** [strtod], as the double nearest to [n * b ^ e]. *)
Definition nearest (neg : bool) (n b e : Z) : spec_float :=
  match n, b ^ e, b ^ (- e) with
  | Zpos n, Zpos k, _ => SFdiv 53 1024 (S754_finite neg (n * k) 0) (S754_finite false 1 0)
  | Zpos n, _, Zpos k => SFdiv 53 1024 (S754_finite neg n 0) (S754_finite false k 0)
  | _, _, _ => S754_zero neg
  end.
Definition tolower (c : Z) : Z := if (65 <=? c) && (c <=? 90) then c + 32 else c.
Definition isxdigit (c : Z) : bool := isdigit c || ((97 <=? tolower c) && (tolower c <=? 102)).
Definition digit_of (c : Z) : Z := if isdigit c then c - 48 else tolower c - 87.
(** The exponent after [mark], when it has digits. *)
Definition exponent_of (mark : Z) (s : list Z) : Z :=
  match s with
  | c :: r =>
      if tolower c =? mark then
        let '(neg, ds) := match r with
          | x :: r' => if x =? 45 then (true, r') else if x =? 43 then (false, r') else (false, r)
          | [] => (false, [])
          end in
        let v := digits_value (take_while isdigit ds) in if neg : bool then - v else v
      else 0
  | [] => 0
  end.
(** Digits with an optional point: the digits, how many follow the point, and
    the rest. *)
Definition mantissa (p : Z → bool) (s : list Z) : list Z * Z * list Z :=
  let a := take_while p s in
  match drop_while p s with
  | c :: r => if c =? 46 then let b := take_while p r in (a ++ b, Z.of_nat (length b), drop_while p r) else (a, 0, c :: r)
  | [] => (a, 0, [])
  end.
Definition number (b : Z) (ds : list Z) : Z := fold_left (λ v d, v * b + digit_of d) ds 0.
Definition atof (s : list Z) : spec_float :=
  let s1 := drop_while isspace s in
  let '(neg, s2) := match s1 with
    | c :: r => if c =? 45 then (true, r) else if c =? 43 then (false, r) else (false, s1)
    | [] => (false, [])
    end in
  if bool_decide (tolower <$> take 3 s2 = str "inf") then S754_infinity neg
  else if bool_decide (tolower <$> take 3 s2 = str "nan") then S754_nan
  else
    let '(hds, hfrac, hrest) := mantissa isxdigit (drop 2 s2) in
    if bool_decide (tolower <$> take 2 s2 = str "0x") && negb (bool_decide (hds = [])) then
      nearest neg (number 16 hds) 2 (exponent_of (ch "p") hrest - 4 * hfrac)
    else
      let '(ds, frac, rest) := mantissa isdigit s2 in
      nearest neg (number 10 ds) 10 (exponent_of (ch "e") rest - frac).
Definition one_point_zero : spec_float := S754_finite false 4503599627370496 (-52).

(** [strstr(s, t) != NULL]. *)
Fixpoint is_prefix (t s : list Z) : bool :=
  match t, s with
  | [], _ => true
  | x :: t, y :: s => (x =? y) && is_prefix t s
  | _, [] => false
  end.
Fixpoint strstr (s t : list Z) : bool :=
  is_prefix t s || match s with [] => false | _ :: s => strstr s t end.

(** [getopt] over the arguments: each option with its argument; [63] ("?") for
    an unknown option or a missing argument.  As in the GNU library arguments
    that are not options are skipped and "--" ends the options. *)
Definition optstring : list Z := str "a:Ap:s:U:m:Mc:khiVrvdl:u:P:f:n:t:D:LR:Cb:B:I:SFo:".
Fixpoint opt_kind (o : list Z) (c : Z) : option bool :=
  match o with
  | [] => None
  | x :: o =>
      if (x =? c) && negb (x =? 58) then Some (match o with y :: _ => y =? 58 | [] => false end) else opt_kind o c
  end.
(** The options in one argument; [next] is the argument that follows it.  The
    flag tells that [next] was used. *)
Fixpoint opt_cluster (s : list Z) (next : option (list Z)) : list (Z * list Z) * bool :=
  match s with
  | [] => ([], false)
  | c :: s =>
      match opt_kind optstring c with
      | None => let '(l, b) := opt_cluster s next in ((63, []) :: l, b)
      | Some false => let '(l, b) := opt_cluster s next in ((c, []) :: l, b)
      | Some true =>
          match s, next with
          | _ :: _, _ => ([(c, s)], false)
          | [], Some a => ([(c, a)], true)
          | [], None => ([(63, [])], false)
          end
      end
  end.
Fixpoint getopt (argv : list (list Z)) : list (Z * list Z) :=
  match argv with
  | [] => []
  | a :: argv' =>
      match a with
      | 45 :: ((_ :: _) as body) =>
          if bool_decide (body = [45]) then []
          else
            let '(l, used) := opt_cluster body (head argv') in
            l ++ match argv' with
                 | _ :: argv'' => if used then getopt argv'' else getopt argv'
                 | [] => []
                 end
      | _ => getopt argv'
      end
  end.

(** ** State *)
(** A pointer into the copy of the argument of [-o]: [getsubopt] sets it to the
    value of a sub-option; the copy is freed after the last one. *)
Inductive subopt_ptr : Set := SNull | SText (s : list Z) | SFreed.
Definition freed (p : subopt_ptr) : subopt_ptr := match p with SText _ => SFreed | _ => p end.

(** The pointers and the protocol of [settings], the variables of [main], and
    the server so far. *)
Record options := Options {
  inter : option (list Z);
  socketpath : option (list Z);
  factor : spec_float;
  binding_protocol : protocol;
  backup_client_servername : option (list Z);
  lock_memory : bool;
  do_daemonize : bool;
  maxcore : bool;
  username : option (list Z);
  pid_file : option (list Z);
  protocol_specified : bool;
  tcp_specified : bool;
  udp_specified : bool;
  start_lru_maintainer : bool;
  start_lru_crawler : bool;
  hash_type : hashfunc_type;
  slab_sizes_unparsed : subopt_ptr;
  slab_chunk_size_changed : bool;
  subopts_value : subopt_ptr;
  osys : crawlsys
}.
Definition set_inter (v : option (list Z)) (s : options) : options := Options v (socketpath s) (factor s) (binding_protocol s) (backup_client_servername s) (lock_memory s) (do_daemonize s) (maxcore s) (username s) (pid_file s) (protocol_specified s) (tcp_specified s) (udp_specified s) (start_lru_maintainer s) (start_lru_crawler s) (hash_type s) (slab_sizes_unparsed s) (slab_chunk_size_changed s) (subopts_value s) (osys s).
Definition set_socketpath (v : option (list Z)) (s : options) : options := Options (inter s) v (factor s) (binding_protocol s) (backup_client_servername s) (lock_memory s) (do_daemonize s) (maxcore s) (username s) (pid_file s) (protocol_specified s) (tcp_specified s) (udp_specified s) (start_lru_maintainer s) (start_lru_crawler s) (hash_type s) (slab_sizes_unparsed s) (slab_chunk_size_changed s) (subopts_value s) (osys s).
Definition set_factor (v : spec_float) (s : options) : options := Options (inter s) (socketpath s) v (binding_protocol s) (backup_client_servername s) (lock_memory s) (do_daemonize s) (maxcore s) (username s) (pid_file s) (protocol_specified s) (tcp_specified s) (udp_specified s) (start_lru_maintainer s) (start_lru_crawler s) (hash_type s) (slab_sizes_unparsed s) (slab_chunk_size_changed s) (subopts_value s) (osys s).
Definition set_binding_protocol (v : protocol) (s : options) : options := Options (inter s) (socketpath s) (factor s) v (backup_client_servername s) (lock_memory s) (do_daemonize s) (maxcore s) (username s) (pid_file s) (protocol_specified s) (tcp_specified s) (udp_specified s) (start_lru_maintainer s) (start_lru_crawler s) (hash_type s) (slab_sizes_unparsed s) (slab_chunk_size_changed s) (subopts_value s) (osys s).
Definition set_backup_client_servername (v : option (list Z)) (s : options) : options := Options (inter s) (socketpath s) (factor s) (binding_protocol s) v (lock_memory s) (do_daemonize s) (maxcore s) (username s) (pid_file s) (protocol_specified s) (tcp_specified s) (udp_specified s) (start_lru_maintainer s) (start_lru_crawler s) (hash_type s) (slab_sizes_unparsed s) (slab_chunk_size_changed s) (subopts_value s) (osys s).
Definition set_lock_memory (v : bool) (s : options) : options := Options (inter s) (socketpath s) (factor s) (binding_protocol s) (backup_client_servername s) v (do_daemonize s) (maxcore s) (username s) (pid_file s) (protocol_specified s) (tcp_specified s) (udp_specified s) (start_lru_maintainer s) (start_lru_crawler s) (hash_type s) (slab_sizes_unparsed s) (slab_chunk_size_changed s) (subopts_value s) (osys s).
Definition set_do_daemonize (v : bool) (s : options) : options := Options (inter s) (socketpath s) (factor s) (binding_protocol s) (backup_client_servername s) (lock_memory s) v (maxcore s) (username s) (pid_file s) (protocol_specified s) (tcp_specified s) (udp_specified s) (start_lru_maintainer s) (start_lru_crawler s) (hash_type s) (slab_sizes_unparsed s) (slab_chunk_size_changed s) (subopts_value s) (osys s).
Definition set_maxcore (v : bool) (s : options) : options := Options (inter s) (socketpath s) (factor s) (binding_protocol s) (backup_client_servername s) (lock_memory s) (do_daemonize s) v (username s) (pid_file s) (protocol_specified s) (tcp_specified s) (udp_specified s) (start_lru_maintainer s) (start_lru_crawler s) (hash_type s) (slab_sizes_unparsed s) (slab_chunk_size_changed s) (subopts_value s) (osys s).
Definition set_username (v : option (list Z)) (s : options) : options := Options (inter s) (socketpath s) (factor s) (binding_protocol s) (backup_client_servername s) (lock_memory s) (do_daemonize s) (maxcore s) v (pid_file s) (protocol_specified s) (tcp_specified s) (udp_specified s) (start_lru_maintainer s) (start_lru_crawler s) (hash_type s) (slab_sizes_unparsed s) (slab_chunk_size_changed s) (subopts_value s) (osys s).
Definition set_pid_file (v : option (list Z)) (s : options) : options := Options (inter s) (socketpath s) (factor s) (binding_protocol s) (backup_client_servername s) (lock_memory s) (do_daemonize s) (maxcore s) (username s) v (protocol_specified s) (tcp_specified s) (udp_specified s) (start_lru_maintainer s) (start_lru_crawler s) (hash_type s) (slab_sizes_unparsed s) (slab_chunk_size_changed s) (subopts_value s) (osys s).
Definition set_protocol_specified (v : bool) (s : options) : options := Options (inter s) (socketpath s) (factor s) (binding_protocol s) (backup_client_servername s) (lock_memory s) (do_daemonize s) (maxcore s) (username s) (pid_file s) v (tcp_specified s) (udp_specified s) (start_lru_maintainer s) (start_lru_crawler s) (hash_type s) (slab_sizes_unparsed s) (slab_chunk_size_changed s) (subopts_value s) (osys s).
Definition set_tcp_specified (v : bool) (s : options) : options := Options (inter s) (socketpath s) (factor s) (binding_protocol s) (backup_client_servername s) (lock_memory s) (do_daemonize s) (maxcore s) (username s) (pid_file s) (protocol_specified s) v (udp_specified s) (start_lru_maintainer s) (start_lru_crawler s) (hash_type s) (slab_sizes_unparsed s) (slab_chunk_size_changed s) (subopts_value s) (osys s).
Definition set_udp_specified (v : bool) (s : options) : options := Options (inter s) (socketpath s) (factor s) (binding_protocol s) (backup_client_servername s) (lock_memory s) (do_daemonize s) (maxcore s) (username s) (pid_file s) (protocol_specified s) (tcp_specified s) v (start_lru_maintainer s) (start_lru_crawler s) (hash_type s) (slab_sizes_unparsed s) (slab_chunk_size_changed s) (subopts_value s) (osys s).
Definition set_start_lru_maintainer (v : bool) (s : options) : options := Options (inter s) (socketpath s) (factor s) (binding_protocol s) (backup_client_servername s) (lock_memory s) (do_daemonize s) (maxcore s) (username s) (pid_file s) (protocol_specified s) (tcp_specified s) (udp_specified s) v (start_lru_crawler s) (hash_type s) (slab_sizes_unparsed s) (slab_chunk_size_changed s) (subopts_value s) (osys s).
Definition set_start_lru_crawler (v : bool) (s : options) : options := Options (inter s) (socketpath s) (factor s) (binding_protocol s) (backup_client_servername s) (lock_memory s) (do_daemonize s) (maxcore s) (username s) (pid_file s) (protocol_specified s) (tcp_specified s) (udp_specified s) (start_lru_maintainer s) v (hash_type s) (slab_sizes_unparsed s) (slab_chunk_size_changed s) (subopts_value s) (osys s).
Definition set_hash_type (v : hashfunc_type) (s : options) : options := Options (inter s) (socketpath s) (factor s) (binding_protocol s) (backup_client_servername s) (lock_memory s) (do_daemonize s) (maxcore s) (username s) (pid_file s) (protocol_specified s) (tcp_specified s) (udp_specified s) (start_lru_maintainer s) (start_lru_crawler s) v (slab_sizes_unparsed s) (slab_chunk_size_changed s) (subopts_value s) (osys s).
Definition set_slab_sizes_unparsed (v : subopt_ptr) (s : options) : options := Options (inter s) (socketpath s) (factor s) (binding_protocol s) (backup_client_servername s) (lock_memory s) (do_daemonize s) (maxcore s) (username s) (pid_file s) (protocol_specified s) (tcp_specified s) (udp_specified s) (start_lru_maintainer s) (start_lru_crawler s) (hash_type s) v (slab_chunk_size_changed s) (subopts_value s) (osys s).
Definition set_slab_chunk_size_changed (v : bool) (s : options) : options := Options (inter s) (socketpath s) (factor s) (binding_protocol s) (backup_client_servername s) (lock_memory s) (do_daemonize s) (maxcore s) (username s) (pid_file s) (protocol_specified s) (tcp_specified s) (udp_specified s) (start_lru_maintainer s) (start_lru_crawler s) (hash_type s) (slab_sizes_unparsed s) v (subopts_value s) (osys s).
Definition set_subopts_value (v : subopt_ptr) (s : options) : options := Options (inter s) (socketpath s) (factor s) (binding_protocol s) (backup_client_servername s) (lock_memory s) (do_daemonize s) (maxcore s) (username s) (pid_file s) (protocol_specified s) (tcp_specified s) (udp_specified s) (start_lru_maintainer s) (start_lru_crawler s) (hash_type s) (slab_sizes_unparsed s) (slab_chunk_size_changed s) v (osys s).
Definition set_osys (v : crawlsys) (s : options) : options := Options (inter s) (socketpath s) (factor s) (binding_protocol s) (backup_client_servername s) (lock_memory s) (do_daemonize s) (maxcore s) (username s) (pid_file s) (protocol_specified s) (tcp_specified s) (udp_specified s) (start_lru_maintainer s) (start_lru_crawler s) (hash_type s) (slab_sizes_unparsed s) (slab_chunk_size_changed s) (subopts_value s) v.

Definition om (A : Type) : Type := M options A.
Definition ocrawl {A} (m : cr A) : om A := zoom osys set_osys m.
Definition osysio {A} (m : sys A) : om A := ocrawl (csysio m).
Definition oserver {A} (m : server A) : om A := osysio (wio (srv m)).
Definition ocfg : om settings := gets (λ s, cfg (kv (wd (csys (osys s))))).
Definition setting (f : settings → settings) : om unit := oserver (upd_cfg f).
Definition omalloc : om bool := osysio (wio malloc_ok).
(** [fprintf(stderr, ...); return 1] *)
Definition reject : om unit := fail (Exited 1).
Definition EX_USAGE : Z := 64.
Definition EX_NOUSER : Z := 67.
Definition EX_OSERR : Z := 71.

(** [settings_init]; the hash function is chosen later. *)
Definition reset_settings : om unit :=
  _ ← setting (λ c, settings_init (hash c));
  modify (λ s, set_backup_client_servername None (set_binding_protocol negotiating_prot
    (set_factor (atof (str "1.25")) (set_socketpath None (set_inter None s))))).

(** ** The sub-options of -o *)
Inductive subopt : Set :=
  | MAXCONNS_FAST | HASHPOWER_INIT | SLAB_REASSIGN | SLAB_AUTOMOVE | TAIL_REPAIR_TIME | HASH_ALGORITHM
  | LRU_CRAWLER | LRU_CRAWLER_SLEEP | LRU_CRAWLER_TOCRAWL | LRU_MAINTAINER | HOT_LRU_PCT | WARM_LRU_PCT
  | NOEXP_NOEVICT | IDLE_TIMEOUT | WATCHER_LOGBUF_SIZE | WORKER_LOGBUF_SIZE | SLAB_SIZES | SLAB_CHUNK_MAX
  | TRACK_SIZES | MODERN | LRU_LOG_GET_COUNT | BACKUP_SERVER | BACKUP_CLIENT | BACKUP_IBV_PORT | BACKUP_SGID_INDEX.
#[global] Instance subopt_eq_dec : EqDecision subopt.
Proof. solve_decision. Defined.
Definition subopts_tokens : list (list Z * subopt) :=
  [(str "maxconns_fast", MAXCONNS_FAST); (str "hashpower", HASHPOWER_INIT); (str "slab_reassign", SLAB_REASSIGN);
   (str "slab_automove", SLAB_AUTOMOVE); (str "tail_repair_time", TAIL_REPAIR_TIME); (str "hash_algorithm", HASH_ALGORITHM);
   (str "lru_crawler", LRU_CRAWLER); (str "lru_crawler_sleep", LRU_CRAWLER_SLEEP);
   (str "lru_crawler_tocrawl", LRU_CRAWLER_TOCRAWL); (str "lru_maintainer", LRU_MAINTAINER);
   (str "hot_lru_pct", HOT_LRU_PCT); (str "warm_lru_pct", WARM_LRU_PCT); (str "expirezero_does_not_evict", NOEXP_NOEVICT);
   (str "idle_timeout", IDLE_TIMEOUT); (str "watcher_logbuf_size", WATCHER_LOGBUF_SIZE);
   (str "worker_logbuf_size", WORKER_LOGBUF_SIZE); (str "slab_sizes", SLAB_SIZES); (str "slab_chunk_max", SLAB_CHUNK_MAX);
   (str "track_sizes", TRACK_SIZES); (str "modern", MODERN); (str "lru_log_get_count", LRU_LOG_GET_COUNT);
   (str "backup_server", BACKUP_SERVER); (str "backup_client", BACKUP_CLIENT); (str "backup_ibv_port", BACKUP_IBV_PORT);
   (str "backup_sgid_index", BACKUP_SGID_INDEX)].

(** The pieces between commas that [getsubopt] returns one after the other; it
    is not called again at the end of the text. *)
Fixpoint pieces (acc s : list Z) : list (list Z) :=
  match s with
  | [] => match acc with [] => [] | _ => [acc] end
  | c :: s => if c =? 44 then acc :: pieces [] s else pieces (acc ++ [c]) s
  end.
Definition is_equals (c : Z) : bool := c =? 61.
(** The token of a piece and its value; an unknown token. *)
Definition getsubopt (piece : list Z) : option subopt * subopt_ptr :=
  let name := take_while (λ c, negb (is_equals c)) piece in
  match list_find (λ x : list Z * subopt, x.1 = name) subopts_tokens with
  | Some (_, (_, k)) =>
      (Some k, match drop_while (λ c, negb (is_equals c)) piece with [] => SNull | _ :: v => SText v end)
  | None => (None, SText piece)
  end.

(** [atoi] and [safe_strtoul] of a value that may be missing. *)
Definition val_atoi (v : subopt_ptr) : om Z :=
  match v with SNull => fail NullDeref | SText s => mret (atoi s) | SFreed => fail UseAfterFree end.
Definition val_strtoul (v : subopt_ptr) : om Z :=
  match v with
  | SNull => fail NullDeref
  | SText s => let '(ok, n) := safe_strtoul s in if ok : bool then mret n else fail (Exited 1)
  | SFreed => fail UseAfterFree
  end.
(** [if (subopts_value == NULL) return 1] *)
Definition required (v : subopt_ptr) : om unit := match v with SNull => reject | _ => mret tt end.

Definition parse_subopt (k : subopt) (v : subopt_ptr) : om unit :=
  match k with
  | MAXCONNS_FAST => setting (set_maxconns_fast true)
  | HASHPOWER_INIT =>
      _ ← required v; n ← val_atoi v; _ ← setting (set_hashpower_init n);
      if n <? 12 then reject else when (n >? 64) reject
  | SLAB_REASSIGN => setting (set_slab_reassign true)
  | SLAB_AUTOMOVE =>
      match v with
      | SNull => setting (set_slab_automove 1)
      | _ => n ← val_atoi v; _ ← setting (set_slab_automove n); when ((n <? 0) || (n >? 2)) reject
      end
  | TAIL_REPAIR_TIME =>
      _ ← required v; n ← val_atoi v; _ ← setting (set_tail_repair_time n); when (n <? 10) reject
  | HASH_ALGORITHM =>
      match v with
      | SNull => reject
      | SFreed => fail UseAfterFree
      | SText s =>
          if bool_decide (s = str "jenkins") then modify (set_hash_type JENKINS_HASH)
          else if bool_decide (s = str "murmur3") then modify (set_hash_type MURMUR3_HASH)
          else reject
      end
  | LRU_CRAWLER => modify (set_start_lru_crawler true)
  | LRU_CRAWLER_SLEEP =>
      _ ← required v; n ← val_atoi v; _ ← setting (set_lru_crawler_sleep n); when ((n >? 1000000) || (n <? 0)) reject
  | LRU_CRAWLER_TOCRAWL => _ ← required v; n ← val_strtoul v; setting (set_lru_crawler_tocrawl n)
  | LRU_MAINTAINER => modify (set_start_lru_maintainer true)
  | HOT_LRU_PCT =>
      _ ← required v; n ← val_atoi v; _ ← setting (set_hot_lru_pct n); when ((n <? 1) || (n >=? 80)) reject
  | WARM_LRU_PCT =>
      _ ← required v; n ← val_atoi v; _ ← setting (set_warm_lru_pct n); when ((n <? 1) || (n >=? 80)) reject
  | NOEXP_NOEVICT => setting (set_expirezero_does_not_evict true)
  | IDLE_TIMEOUT => n ← val_atoi v; setting (set_idle_timeout n)
  | WATCHER_LOGBUF_SIZE => _ ← required v; n ← val_strtoul v; setting (set_logger_watcher_buf_size (u32 (n * 1024)))
  | WORKER_LOGBUF_SIZE =>
      (* falls through to the next case *)
      _ ← required v; n ← val_strtoul v; _ ← setting (set_logger_buf_size (u32 (n * 1024)));
      modify (set_slab_sizes_unparsed v)
  | SLAB_SIZES => modify (set_slab_sizes_unparsed v)
  | SLAB_CHUNK_MAX =>
      match v with
      | SNull => fail NullDeref
      | SFreed => fail UseAfterFree
      | SText s =>
          (* what does not parse is reported, and leaves 0 *)
          _ ← setting (set_slab_chunk_size_max (safe_strtol s).2);
          modify (set_slab_chunk_size_changed true)
      end
  | TRACK_SIZES => ok ← omalloc; oserver (item_stats_sizes_init ok)
  | MODERN =>
      ch ← gets slab_chunk_size_changed;
      _ ← when (negb ch) (setting (set_slab_chunk_size_max 524288));
      _ ← setting (λ c, set_maxconns_fast true (set_slab_automove 1 (set_slab_reassign true c)));
      modify (λ s, set_start_lru_maintainer true (set_start_lru_crawler true (set_hash_type MURMUR3_HASH s)))
  | LRU_LOG_GET_COUNT =>
      _ ← required v; n ← val_strtoul v; setting (λ c, set_lru_log_enabled true (set_lru_log_get_count n c))
  | BACKUP_SERVER => setting (set_backup_server true)
  | BACKUP_CLIENT =>
      _ ← required v; _ ← setting (set_backup_client true); ok ← omalloc;
      modify (set_backup_client_servername (match v with SText s => if ok : bool then Some s else None | _ => None end))
  | BACKUP_IBV_PORT => _ ← required v; n ← val_atoi v; setting (set_backup_ibv_port (u32 n))
  | BACKUP_SGID_INDEX => _ ← required v; n ← val_atoi v; setting (set_backup_sgid_index n)
  end.

Definition parse_piece (_ : unit) (piece : list Z) : om unit :=
  let '(k, v) := getsubopt piece in
  _ ← modify (set_subopts_value v);
  match k with None => reject | Some k => parse_subopt k v end.

Definition parse_subopts (optarg : list Z) : om unit :=
  ok ← omalloc;
  if negb ok then fail NullDeref
  else
    _ ← foldl (λ m p, u ← m; parse_piece u p) (mret tt) (pieces [] optarg);
    modify (λ s, set_slab_sizes_unparsed (freed (slab_sizes_unparsed s)) (set_subopts_value (freed (subopts_value s)) s)).

(** ** The options *)
(** What the start-up code asks of the host: whether the server was built with
    SASL, and the answers of the system calls. *)
Record host := Host {
  with_sasl : bool;
  large_pages : bool;
  core_limit : bool;           (* a core limit above 0 could be ensured *)
  nofile_known : bool;
  nofile_set : Z → bool;
  is_root : bool;
  user_known : list Z → bool;
  setid_ok : bool;
  sasl_ok : bool;
  daemon_ok : bool;
  sigpipe_ok : bool
}.

Section commandline.
Context (H : host).

(** A listening address is appended unless the list contains its text. *)
Definition add_interface (optarg : list Z) : om unit :=
  i ← gets inter;
  match i with
  | Some l =>
      if strstr l optarg then mret tt
      else ok ← omalloc; if negb ok then reject else modify (set_inter (Some (l ++ str "," ++ optarg)))
  | None => ok ← omalloc; modify (set_inter (if ok : bool then Some optarg else None))
  end.

Definition set_binding (p : protocol) : om unit := modify (set_binding_protocol p).
Definition parse_binding (optarg : list Z) : om unit :=
  _ ← modify (set_protocol_specified true);
  if bool_decide (optarg = str "auto") then set_binding negotiating_prot
  else if bool_decide (optarg = str "binary") then set_binding binary_prot
  else if bool_decide (optarg = str "ascii") then set_binding ascii_prot
  else fail (Exited EX_USAGE).

(** The item size of [-I]: a number, or one of kilobytes or megabytes.  An
    empty argument makes [buf[strlen(buf)-1]] leave the buffer. *)
Definition parse_size (optarg : list Z) : om Z :=
  match rev optarg with
  | [] => fail OutOfBounds
  | unit :: rest =>
      let body := rev rest in
      mret (if (tolower unit =? ch "k") then i32 (atoi body * 1024)
            else if (tolower unit =? ch "m") then i32 (atoi body * (1024 * 1024))
            else atoi optarg)
  end.
Definition parse_item_size (optarg : list Z) : om unit :=
  ok ← omalloc;
  if negb ok then fail NullDeref
  else
    n ← parse_size optarg;
    _ ← setting (set_item_size_max n);
    c ← ocfg;
    if n <? 1024 then reject
    else if u64 n >? maxbytes c / 4 then reject
    else if n >? 1024 * 1024 * 1024 then reject
    else
      ch ← gets slab_chunk_size_changed;
      when ((n >? 1024 * 1024) && negb ch) (setting (set_slab_chunk_size_max 524288)).

Definition parse_option (c : Z) (optarg : list Z) : om unit :=
  if c =? ch "A" then setting (set_shutdown_command true)
  else if c =? ch "a" then setting (set_access (strtol8 optarg))
  else if c =? ch "U" then _ ← setting (set_udpport (atoi optarg)); modify (set_udp_specified true)
  else if c =? ch "p" then _ ← setting (set_port (atoi optarg)); modify (set_tcp_specified true)
  else if c =? ch "s" then modify (set_socketpath (Some optarg))
  else if c =? ch "m" then setting (set_maxbytes (u64 (u64 (atoi optarg) * 1024 * 1024)))
  else if c =? ch "M" then setting (set_evict_to_free 0)
  else if c =? ch "c" then _ ← setting (set_maxconns (atoi optarg)); when (atoi optarg <=? 0) reject
  else if (c =? ch "h") || (c =? ch "i") || (c =? ch "V") then fail (Exited 0)
  else if c =? ch "k" then modify (set_lock_memory true)
  else if c =? ch "v" then setting (λ s, set_verbose (i32 (verbose s + 1)) s)
  else if c =? ch "l" then add_interface optarg
  else if c =? ch "d" then modify (set_do_daemonize true)
  else if c =? ch "r" then modify (set_maxcore true)
  else if c =? ch "R" then _ ← setting (set_reqs_per_event (atoi optarg)); when (atoi optarg =? 0) reject
  else if c =? ch "u" then modify (set_username (Some optarg))
  else if c =? ch "P" then modify (set_pid_file (Some optarg))
  else if c =? ch "f" then _ ← modify (set_factor (atof optarg)); when (SFleb (atof optarg) one_point_zero) reject
  else if c =? ch "n" then _ ← setting (set_chunk_size (atoi optarg)); when (atoi optarg =? 0) reject
  else if c =? ch "t" then _ ← setting (set_num_threads (atoi optarg)); when (atoi optarg <=? 0) reject
  else if c =? ch "D" then
    match optarg with
    | [] => reject
    | d :: _ => setting (λ s, set_detail_enabled 1 (set_prefix_delimiter d s))
    end
  else if c =? ch "L" then when (negb (large_pages H)) reject
  else if c =? ch "C" then setting (set_use_cas false)
  else if c =? ch "b" then setting (set_backlog (atoi optarg))
  else if c =? ch "B" then parse_binding optarg
  else if c =? ch "I" then parse_item_size optarg
  else if c =? ch "S" then if with_sasl H then setting (set_sasl true) else fail (Exited EX_USAGE)
  else if c =? ch "F" then setting (set_flush_enabled false)
  else if c =? ch "o" then parse_subopts optarg
  else reject.

Definition parse_options (argv : list (list Z)) : om unit :=
  foldl (λ m o, _ ← m; parse_option o.1 o.2) (mret tt) (getopt argv).

(** ** The checks that follow *)
Definition CHUNK_ALIGN_BYTES : Z := 8.
(** The pieces between dashes, as [strtok_r] finds them. *)
Fixpoint dash_tokens (acc s : list Z) : list (list Z) :=
  match s with
  | [] => match acc with [] => [] | _ => [acc] end
  | c :: s =>
      if c =? 45 then match acc with [] => dash_tokens [] s | _ => acc :: dash_tokens [] s end
      else dash_tokens (acc ++ [c]) s
  end.
Fixpoint slab_size_list (c : settings) (last_size i : Z) (ts : list (list Z)) : option (list Z) :=
  match ts with
  | [] => Some []
  | t :: ts =>
      let '(ok, size) := safe_strtoul t in
      if negb ok || (size <? u32 (chunk_size c)) || (size >? u32 (slab_chunk_size_max c)) then None
      else if last_size >=? size then None
      else if size <=? u32 (last_size + CHUNK_ALIGN_BYTES) then None
      else if i + 1 >=? MAX_NUMBER_OF_SLAB_CLASSES - 1 then None
      else l ← slab_size_list c size (i + 1) ts; mret (size :: l)
  end.
Definition _parse_slab_sizes (s : list Z) (c : settings) : option (list Z) :=
  match s with [] => None | _ => slab_size_list c 0 0 (dash_tokens [] s) end.

(** [exit(EX_USAGE)] *)
Definition usage_unless (ok : bool) : om unit := when (negb ok) (fail (Exited EX_USAGE)).
(** [a % b] *)
Definition modulo (a b : Z) : om Z := if b =? 0 then fail DivByZero else mret (Z.rem a b).

Definition check_sizes : om unit :=
  c ← ocfg;
  _ ← usage_unless (negb (slab_chunk_size_max c >? item_size_max c));
  r ← modulo (item_size_max c) (slab_chunk_size_max c);
  _ ← usage_unless (r =? 0);
  r ← modulo (slab_page_size c) (slab_chunk_size_max c);
  usage_unless (r =? 0).

(** It is [subopts_value] that is parsed, not [slab_sizes_unparsed]. *)
Definition check_slab_sizes : om unit :=
  p ← gets slab_sizes_unparsed;
  match p with
  | SNull => mret tt
  | _ =>
      v ← gets subopts_value;
      match v with
      | SNull => fail NullDeref
      | SFreed => fail UseAfterFree
      | SText s => c ← ocfg; usage_unless (match _parse_slab_sizes s c with Some _ => true | None => false end)
      end
  end.

Definition check_lru : om unit :=
  c ← ocfg;
  usage_unless (negb (lru_maintainer_thread c && (i32 (hot_lru_pct c + warm_lru_pct c) >? 80))).

(** [hash_init] stores the function that is used from then on. *)
Definition key_hash (t : hashfunc_type) (key : list Z) : Z :=
  (hash_init t).1 (store_bytes ∅ 0 key) 0 (length key).
Definition choose_hash : om unit :=
  t ← gets hash_type;
  setting (set_hash (key_hash t)).

Definition choose_udp_threads : om unit :=
  i ← gets inter;
  let several := match i with Some l => existsb (Z.eqb 44) l | None => false end in
  setting (λ c, set_num_threads_per_udp (if several then 1 else num_threads c) c).

Definition choose_protocol : om unit :=
  c ← ocfg;
  when (sasl c) (
    spec ← gets protocol_specified;
    if negb spec then set_binding binary_prot
    else b ← gets binding_protocol; usage_unless (bool_decide (b = binary_prot))).

Definition choose_ports : om unit :=
  t ← gets tcp_specified;
  u ← gets udp_specified;
  if t && negb u then setting (λ c, set_udpport (port c) c)
  else when (u && negb t) (setting (λ c, set_port (udpport c) c)).

Definition check_options : om unit :=
  _ ← check_sizes; _ ← check_slab_sizes; _ ← check_lru; _ ← choose_hash;
  _ ← choose_udp_threads; _ ← choose_protocol; choose_ports.

(** [exit(EX_OSERR)] *)
Definition os_unless (ok : bool) : om unit := when (negb ok) (fail (Exited EX_OSERR)).

(** Limits and identity: the core limit, the number of descriptors, and the
    user to become. *)
Definition check_host : om unit :=
  core ← gets maxcore;
  _ ← when core (os_unless (core_limit H));
  c ← ocfg;
  _ ← os_unless (nofile_known H);
  _ ← os_unless (nofile_set H (maxconns c));
  user ← gets username;
  _ ← when (is_root H) (
        match user with
        | None | Some [] => fail (Exited EX_USAGE)
        | Some u => _ ← when (negb (user_known H u)) (fail (Exited EX_NOUSER)); os_unless (setid_ok H)
        end);
  _ ← when (sasl c) (when (negb (sasl_ok H)) (fail (Exited 1)));
  daemon ← gets do_daemonize;
  when (daemon && negb (daemon_ok H)) (fail (Exited 1)).
End commandline.
