(* ===== verification/OptionsFacts.v ===== *)
(** * What the command line can configure

    Every option keeps the settings in their ranges or ends the program; the
    checks that follow establish the rest. *)
From Stdlib Require Import ZArith Lia SpecFloat.
From stdpp Require Import strings prelude gmap list functions.
From S2P Require Import Prelude Mem Util Hash Item State Items Prefix Pool Memlog Conn ConnOps Ascii IovFacts Thread Settings Crawler Options.

(** ** Proof rules *)
Definition config (s : options) : settings := cfg (kv (wd (csys (osys s)))).
Definition with_cache (f : cache → cache) (s : options) : options :=
  let y := csys (osys s) in set_osys (set_csys (set_wd (set_kv (f (kv (wd y))) (wd y)) y) (osys s)) s.
Definition with_config (f : settings → settings) : options → options := with_cache (λ k, set_cfg (f (cfg k)) k).
Definition with_mallocs (l : list bool) (s : options) : options :=
  let y := csys (osys s) in set_osys (set_csys (set_wd (set_en (set_mallocs l (en (wd y))) (wd y)) y) (osys s)) s.

Section rules.
Context (F : fault → Prop).
Lemma yields_setting f s (Q : unit → options → Prop) : Q tt (with_config f s) → yields F (setting f) s Q.
Proof. done. Qed.
Lemma yields_omalloc s (Q : bool → options → Prop) : (∀ b l, Q b (with_mallocs l s)) → yields F omalloc s Q.
Proof.
  intros HQ. unfold omalloc, osysio, ocrawl, csysio, wio, zoom, malloc_ok, yields.
  destruct (mallocs (en (wd (csys (osys s))))) as [|b l] eqn:E; [|apply HQ].
  specialize (HQ true []). unfold with_mallocs in HQ. rewrite <- E in HQ.
  by destruct s as [? ? ? ? ? ? ? ? ? ? ? ? ? ? ? ? ? ? ? [? ? ? ? ? ? ? ? ? ? ? ? ? ? [? ? ? ? ? ? ? ? ? ? [? ? ? ? []]]]].
Qed.
Lemma yields_ocfg s (Q : settings → options → Prop) : Q (config s) s → yields F ocfg s Q.
Proof. done. Qed.
Lemma yields_stats_sizes b s (Q : unit → options → Prop) :
  (∀ c i, Q tt (with_cache (λ k, set_cas_id i (set_cnt c k)) s)) → yields F (oserver (item_stats_sizes_init b)) s Q.
Proof.
  intros HQ. unfold oserver, osysio, ocrawl, csysio, wio, srv, zoom, yields, item_stats_sizes_init, mbind, M_bind, gets.
  set (k := kv (wd (csys (osys s)))). destruct (stats_sizes_hist (cnt k)) eqn:E.
  - specialize (HQ (cnt k) (cas_id k)). unfold k in HQ |- *.
    by destruct s as [? ? ? ? ? ? ? ? ? ? ? ? ? ? ? ? ? ? ? [? ? ? ? ? ? ? ? ? ? ? ? ? ? [? ? ? ? ? ? ? ? ? ? [? [] ? ? ?]]]].
  - cbn. destruct (use_cas (cfg k)) eqn:U; cbn.
    + eapply (HQ _ _).
    + specialize (HQ (set_stats_sizes_cas_min 0 (set_stats_sizes_hist (if b then Some (λ _, 0) else None) (set_stats_sizes_buckets (item_size_max (cfg k) / 32 + 1) (cnt k)))) (cas_id k)).
      unfold k in HQ |- *.
      by destruct s as [? ? ? ? ? ? ? ? ? ? ? ? ? ? ? ? ? ? ? [? ? ? ? ? ? ? ? ? ? ? ? ? ? [? ? ? ? ? ? ? ? ? ? [? [] ? ? ?]]]].
Qed.
End rules.

(** Run an operation on every path; the faults are of no interest. *)
Definition any (_ : fault) : Prop := True.
Ltac run_options := repeat lazymatch goal with
  | |- yields _ (mbind _ _) _ _ => apply yields_bind
  | |- yields _ (setting _) _ _ => apply yields_setting
  | |- yields _ (modify _) _ _ => apply yields_modify
  | |- yields _ (gets _) _ _ => apply yields_gets
  | |- yields _ (mret _) _ _ => apply yields_ret
  | |- yields _ (fail _) _ _ => exact I
  | |- yields _ reject _ _ => exact I
  | |- yields _ omalloc _ _ => apply yields_omalloc; intros ? ?
  | |- yields _ ocfg _ _ => apply yields_ocfg
  | |- yields _ (when ?b _) _ _ => destruct b eqn:?; cbn [when]
  | |- yields _ (if ?b then _ else _) _ _ => destruct b eqn:?
  | |- yields _ (match ?x with _ => _ end) _ _ => destruct x eqn:?
  end.

(** ** The ranges of the settings *)
Record ranges (c : settings) : Prop := {
  rg_maxconns : 0 < maxconns c < 2 ^ 31;
  rg_threads : 0 < num_threads c < 2 ^ 31;
  rg_reqs : reqs_per_event c ≠ 0;
  rg_chunk : chunk_size c ≠ 0;
  rg_hashpower : hashpower_init c = 0 ∨ 12 ≤ hashpower_init c ≤ 64;
  rg_item : 1024 ≤ item_size_max c ≤ 2 ^ 30;
  rg_automove : 0 ≤ slab_automove c ≤ 2;
  rg_repair : tail_repair_time c = 0 ∨ 10 ≤ tail_repair_time c;
  rg_sleep : 0 ≤ lru_crawler_sleep c ≤ 1000000;
  rg_hot : 1 ≤ hot_lru_pct c < 80;
  rg_warm : 1 ≤ warm_lru_pct c < 80;
  rg_page : slab_page_size c = 1024 * 1024;
  rg_maintainer : lru_maintainer_thread c = false
}.
Definition not_text (p : subopt_ptr) : Prop := match p with SText _ => False | _ => True end.
(** What the test of [-f] leaves: the factor is not at most one.  That is above one,
    or not a number. *)
Definition factor_ok (s : options) : Prop := SFleb (factor s) one_point_zero = false.
Lemma not_at_most_one f :
  SFleb f one_point_zero = false → SFcompare f one_point_zero = Some Gt ∨ f = S754_nan.
Proof.
  unfold SFleb. destruct (SFcompare f one_point_zero) as [[]|] eqn:E; try done; [by left|right].
  by destruct f as [| [] | |].
Qed.

Lemma atoi_range s : - 2 ^ 31 ≤ atoi s < 2 ^ 31.
Proof. unfold atoi. destruct (strtoll s) as [[[v ?] ?]|]; [apply i32_range|lia]. Qed.

(** Between two options. *)
Record parsed (s : options) : Prop := {
  pa_ranges : ranges (config s);
  pa_factor : factor_ok s;
  pa_sizes : not_text (slab_sizes_unparsed s);
  pa_value : not_text (subopts_value s)
}.
(** The request for slab reassignment is never taken back. *)
Definition keeps_slabs (s s' : options) : Prop := slab_reassign (config s) = true → slab_reassign (config s') = true.

(** Within the argument of -o. *)
Definition parsing (s s' : options) : Prop := ranges (config s') ∧ factor_ok s' ∧ keeps_slabs s s'.

Ltac reflect_all := repeat match goal with
  | H : orb _ _ = false |- _ => apply orb_false_iff in H as [? ?]
  | H : Z.gtb _ _ = false |- _ => rewrite Z.gtb_ltb in H; apply Z.ltb_ge in H
  | H : Z.geb _ _ = false |- _ => rewrite Z.geb_leb in H; apply Z.leb_gt in H
  | H : Z.ltb _ _ = false |- _ => apply Z.ltb_ge in H
  | H : Z.leb _ _ = false |- _ => apply Z.leb_gt in H
  | H : Z.eqb _ _ = false |- _ => apply Z.eqb_neq in H
  end.
Ltac solve_ranges := repeat match goal with H : SFleb _ _ = false |- _ => clear H end;
  split; cbn; reflect_all; first [done | assumption | lia | by auto].

Lemma parse_subopt_spec k v s :
  ranges (config s) → factor_ok s →
  yields any (parse_subopt k v) s (λ _ s', parsing s s' ∧
    (k = MODERN ∨ k = SLAB_REASSIGN → slab_reassign (config s') = true)).
Proof.
  intros [A1 A2 A3 A4 A5 A6 A7 A8 A9 A10 A11 A12 A13] Hf. unfold factor_ok in Hf.
  destruct k; cbn [parse_subopt]; unfold required, val_atoi, val_strtoul; run_options.
  all: try (apply yields_stats_sizes; intros c i).
  all: split; [split_and!; [solve_ranges|exact Hf|unfold keeps_slabs; done]|try (intros [?|?]; done)].
Qed.

#[global] Instance keeps_slabs_preorder : PreOrder keeps_slabs.
Proof. split; unfold keeps_slabs; [by intros s|intros s1 s2 s3; auto]. Qed.

(** A piece of the argument of -o that asks for slab reassignment. *)
Definition asks_slabs (piece : list Z) : Prop :=
  (getsubopt piece).1 = Some MODERN ∨ (getsubopt piece).1 = Some SLAB_REASSIGN.

Lemma parse_piece_spec piece s :
  ranges (config s) → factor_ok s →
  yields any (parse_piece tt piece) s (λ _ s', parsing s s' ∧ (asks_slabs piece → slab_reassign (config s') = true)).
Proof.
  intros Hr Hf. unfold parse_piece, asks_slabs. destruct (getsubopt piece) as [k v]. cbn [fst].
  apply yields_bind, yields_modify. destruct k as [k|]; [|exact I].
  eapply yields_mono; [|apply parse_subopt_spec; [exact Hr|exact Hf]]. intros [] s' [Hp Hk]. split; [exact Hp|].
  intros [[= ->]|[= ->]]; apply Hk; auto.
Qed.

Lemma parse_subopts_spec a s :
  parsed s → yields any (parse_subopts a) s (λ _ s', parsed s' ∧ keeps_slabs s s' ∧
    ((∃ p, p ∈ pieces [] a ∧ asks_slabs p) → slab_reassign (config s') = true)).
Proof.
  intros [P1 P2 P3 P4]. unfold parse_subopts. apply yields_bind, yields_omalloc. intros b l. destruct b; [|exact I]. cbn [negb].
  apply yields_bind. set (s1 := with_mallocs l s).
  eapply yields_mono; [|apply (yields_foldl any parse_piece (λ r _ s', ∃ l0, pieces [] a = l0 ++ r ∧ parsing s s' ∧
    (∀ p, p ∈ l0 → asks_slabs p → slab_reassign (config s') = true)))].
  - intros [] s2 (l0 & El & (H1 & H2 & H3) & H4). rewrite app_nil_r in El. subst l0. apply yields_modify.
    split; [split; [exact H1|exact H2|by destruct (slab_sizes_unparsed s2)|by destruct (subopts_value s2)]|].
    split; [exact H3|]. intros (p & Hp & Ha). by apply (H4 p).
  - exists []. split; [done|]. split; [split_and!; [exact P1|exact P2|intros Hs; exact Hs]|]. intros p Hp. by apply not_elem_of_nil in Hp.
  - intros [] p r s2 (l0 & El & (H1 & H2 & H3) & H4). eapply yields_mono; [|by apply parse_piece_spec].
    intros [] s3 [(H5 & H6 & H7) H8]. exists (l0 ++ [p]). rewrite <- app_assoc. split; [done|].
    split; [split_and!; [done|done|by etrans]|]. intros q [Hq|Hq%list_elem_of_singleton]%elem_of_app Ha.
    + apply H7. by apply (H4 q).
    + subst q. by apply H8.
Qed.

(** An option of the command line that asks for slab reassignment. *)
Definition option_asks_slabs (o : Z * list Z) : Prop := o.1 = ch "o" ∧ ∃ p, p ∈ pieces [] o.2 ∧ asks_slabs p.

Lemma parse_size_range a s : yields any (parse_size a) s (λ n s', s' = s ∧ - 2 ^ 31 ≤ n < 2 ^ 31).
Proof.
  unfold parse_size. destruct (rev a) as [|u r]; [exact I|]. apply yields_ret. split; [done|].
  repeat destruct (_ =? _); apply i32_range || apply atoi_range.
Qed.

Lemma parse_item_size_spec a s :
  parsed s → yields any (parse_item_size a) s (λ _ s', parsed s' ∧ keeps_slabs s s').
Proof.
  intros [[A1 A2 A3 A4 A5 A6 A7 A8 A9 A10 A11 A12 A13] P2 P3 P4]. unfold parse_item_size. run_options.
  eapply yields_mono; [|apply parse_size_range]. intros n s1 [-> Hn]. run_options.
  all: split; [split; [solve_ranges|exact P2|exact P3|exact P4]|intros Hs; exact Hs].
Qed.

Ltac factor_tac P := unfold factor_ok; cbn [factor set_factor]; lazymatch goal with
  | H : ?Q |- ?Q => exact H
  | |- _ => exact P
  end.
(** What is shown of an option that is not -o. *)
Lemma not_o c a s s' : c ≠ ch "o" → parsed s' → keeps_slabs s s' →
  parsed s' ∧ keeps_slabs s s' ∧ (option_asks_slabs (c, a) → slab_reassign (config s') = true).
Proof. intros Hc Hp Hk. split_and!; [done|done|]. intros [E _]. by destruct Hc. Qed.

Lemma parse_option_spec H c a s :
  parsed s → yields any (parse_option H c a) s (λ _ s', parsed s' ∧ keeps_slabs s s' ∧
    (option_asks_slabs (c, a) → slab_reassign (config s') = true)).
Proof.
  intros Hp. pose proof Hp as [[A1 A2 A3 A4 A5 A6 A7 A8 A9 A10 A11 A12 A13] P2 P3 P4]. pose proof (atoi_range a) as Ha.
  unfold factor_ok in P2. unfold parse_option, add_interface, parse_binding, set_binding. revert Ha. generalize (atoi a). intros n Ha.
  repeat lazymatch goal with
  | |- yields _ (if ?c =? ch ?x then _ else _) _ _ => destruct (Z.eqb_spec c (ch x)) as [->|_]
  | |- yields _ (if (?c =? ch ?x) || _ || _ then _ else _) _ _ => destruct ((c =? ch x) || (c =? ch "i") || (c =? ch "V")); [exact I|]
  end.
  all: lazymatch goal with
  | |- yields _ (parse_item_size _) _ _ =>
      eapply yields_mono; [|by apply parse_item_size_spec]; intros [] s' [? ?]; by apply not_o
  | |- yields _ (parse_subopts _) _ _ =>
      eapply yields_mono; [|by apply parse_subopts_spec]; intros [] s' (? & ? & Hs); split_and!; [done|done|];
      intros [_ Hx]; by apply Hs
  | |- _ => run_options; (exact I || (apply not_o; [done|split; [solve_ranges|factor_tac P2|exact P3|exact P4]|intros Hs; exact Hs]))
  end.
Qed.

Lemma parse_options_spec H argv s :
  parsed s → yields any (parse_options H argv) s (λ _ s', parsed s' ∧
    ((∃ o, o ∈ getopt argv ∧ option_asks_slabs o) → slab_reassign (config s') = true)).
Proof.
  intros Hp. unfold parse_options.
  eapply yields_mono; [|apply (yields_foldl any (λ _ o, parse_option H o.1 o.2) (λ r _ s', ∃ l0, getopt argv = l0 ++ r ∧ parsed s' ∧
    (∀ o, o ∈ l0 → option_asks_slabs o → slab_reassign (config s') = true)))].
  - intros [] s' (l0 & El & H1 & H2). rewrite app_nil_r in El. subst l0. split; [done|]. intros (o & Ho & Ha). by apply (H2 o).
  - exists []. split_and!; [done|done|]. intros o Ho. by apply not_elem_of_nil in Ho.
  - intros [] [c a] r s1 (l0 & El & H1 & H2). eapply yields_mono; [|by apply (parse_option_spec H c a s1)].
    intros [] s2 (H3 & H4 & H5). exists (l0 ++ [(c, a)]). rewrite <- app_assoc. split_and!; [done|done|].
    intros o [Ho|Ho%list_elem_of_singleton]%elem_of_app Ha; [apply H4; by apply (H2 o)|subst o; by apply H5].
Qed.

Lemma reset_spec s : yields any reset_settings s (λ _ s', ranges (config s') ∧ factor_ok s' ∧
  slab_sizes_unparsed s' = slab_sizes_unparsed s ∧ subopts_value s' = subopts_value s).
Proof.
  unfold reset_settings. run_options. split_and!; [|vm_compute; reflexivity|done|done]. split; cbn; (done || lia || by auto).
Qed.

(** ** After the checks *)
(** Sizes that divide each other, the protocol SASL needs, a hash of 32 bits. *)
Record checked (s : options) : Prop := {
  ck_ranges : ranges (config s);
  ck_factor : SFcompare (factor s) one_point_zero = Some Gt ∨ factor s = S754_nan;
  ck_sizes : slab_sizes_unparsed s = SNull;
  ck_chunk_max : 0 < Z.abs (slab_chunk_size_max (config s)) ∧ slab_chunk_size_max (config s) ≤ item_size_max (config s);
  ck_divides : (slab_chunk_size_max (config s) | item_size_max (config s)) ∧
    (slab_chunk_size_max (config s) | slab_page_size (config s));
  ck_sasl : sasl (config s) = true → binding_protocol s = binary_prot;
  ck_udp : num_threads_per_udp (config s) = 1 ∨ num_threads_per_udp (config s) = num_threads (config s);
  ck_hash : ∃ t, hash (config s) = key_hash t
}.

Lemma modulo_spec a b s (Q : Z → options → Prop) : (b ≠ 0 → Q (Z.rem a b) s) → yields any (modulo a b) s Q.
Proof. intros HQ. unfold modulo. destruct (Z.eqb_spec b 0) as [|Hb]; [exact I|]. apply yields_ret. by apply HQ. Qed.

Lemma check_options_spec s :
  parsed s → yields any check_options s (λ _ s', checked s' ∧ slab_reassign (config s') = slab_reassign (config s)).
Proof.
  intros [Hr P2 P3 P4]. unfold check_options, check_sizes, usage_unless.
  apply yields_bind, yields_bind, yields_ocfg, yields_bind.
  destruct (Z.ltb_spec (item_size_max (config s)) (slab_chunk_size_max (config s))) as [|Hle]; rewrite Z.gtb_ltb.
  { by rewrite (proj2 (Z.ltb_lt _ _)). }
  rewrite (proj2 (Z.ltb_ge _ _)) by done. cbn [negb when]. apply yields_ret, yields_bind, modulo_spec. intros Hb.
  apply yields_bind. destruct (Z.eqb_spec (Z.rem (item_size_max (config s)) (slab_chunk_size_max (config s))) 0) as [Hd1|]; [|exact I].
  apply yields_ret, yields_bind, modulo_spec. intros _.
  destruct (Z.eqb_spec (Z.rem (slab_page_size (config s)) (slab_chunk_size_max (config s))) 0) as [Hd2|]; [|exact I].
  apply yields_ret, yields_bind. unfold check_slab_sizes. apply yields_bind, yields_gets.
  destruct (slab_sizes_unparsed s) eqn:Es; [|done|].
  2: { apply yields_bind, yields_gets. by destruct (subopts_value s). }
  apply Z.rem_divide in Hd1, Hd2; [|done..].
  apply yields_bind. unfold check_lru, usage_unless. apply yields_bind, yields_ocfg. rewrite (rg_maintainer _ Hr). apply yields_ret.
  unfold choose_hash, choose_udp_threads, choose_protocol, choose_ports, usage_unless, set_binding.
  set (Post := λ s' : options, checked s' ∧ slab_reassign (config s') = slab_reassign (config s)).
  assert (∀ s', ranges (config s') → factor_ok s' → slab_sizes_unparsed s' = SNull →
    slab_chunk_size_max (config s') = slab_chunk_size_max (config s) → item_size_max (config s') = item_size_max (config s) →
    slab_page_size (config s') = slab_page_size (config s) → slab_reassign (config s') = slab_reassign (config s) →
    (sasl (config s') = true → binding_protocol s' = binary_prot) →
    (num_threads_per_udp (config s') = 1 ∨ num_threads_per_udp (config s') = num_threads (config s')) →
    (∃ t, hash (config s') = key_hash t) → Post s') as HP.
  { intros s' H1 H2 H3 H4 H5 H6 H7 H8 H9 H10. split; [|done]. split; rewrite ?H4, ?H5, ?H6; try done; [by apply not_at_most_one|split; [lia|done]]. }
  clearbody Post. run_options.
  all: apply HP; cbn; try done; try (by eexists); try (by rewrite Es).
  all: try (destruct Hr; split; assumption).
  all: try (by destruct (match inter s with Some _ => _ | None => _ end); auto).
  all: intros ?; cbn in *; try congruence.
  all: match goal with H : negb (bool_decide _) = false |- _ => apply negb_false_iff, bool_decide_eq_true in H; exact H end.
Qed.

(** The options from their defaults to their checks. *)
Definition command_line (H : host) (argv : list (list Z)) : om unit :=
  _ ← reset_settings; _ ← parse_options H argv; check_options.

(** C24: what the command line's checks guarantee, whatever the arguments, when
    [main] gets past them.  Connections and threads are positive, the hash power
    is 0 or 12 to 64, the maximal item size 1 KB to 1 GB, slab automove 0 to 2,
    the tail repair time 0 or at least 10, the crawler's sleep at most a second,
    the hot and warm percentages each 1 to 79, and the page size 1 MB; requests
    per event and chunk size are only known to be nonzero (negative ones pass).
    The maximal chunk size is nonzero, at most the item size, and divides the
    item and the page size; SASL comes with the binary protocol; the UDP threads
    are one or all; the hash function is one of the two; the growth factor is
    above one or not a number ("-f nan" passes).  No list of slab sizes ever gets
    through: its text is only looked at after it was freed. *)
Theorem options_checked H argv s s'
    (Hsizes : slab_sizes_unparsed s = SNull) (Hvalue : subopts_value s = SNull)
    (Hrun : command_line H argv s = Ok (tt, s')) :
  checked s'.
Proof.
  refine (yields_inv any _ s (λ _, checked) tt s' _ Hrun). unfold command_line. apply yields_bind.
  eapply yields_mono; [|apply reset_spec]. intros [] s1 (H1 & H2 & H3 & H4). apply yields_bind.
  eapply yields_mono; [|apply (parse_options_spec H argv s1); split; rewrite ?H3, ?H4, ?Hsizes, ?Hvalue; done].
  intros [] s2 [Hp _]. eapply yields_mono; [|by apply check_options_spec]. by intros [] s3 [Hc _].
Qed.

(** ** Concrete runs *)
(** The state of a process that starts. *)
Definition cold_cache : cache :=
  Cache ∅ (Memlog 0 0 0 0 0) ∅ None (empty_table 16) (settings_init (λ _, 0)) empty_counters 0 0 0.
Definition cold_system : system :=
  System ∅ None 0 [] (-1) ∅ [] 0 false 0
    (World (fresh_conn DATA_BUFFER_SIZE) cold_cache stats_prefix_clear (Pool ∅ 40 64 0 ∅) blank_env).
Definition cold_crawler : crawlsys :=
  CrawlSys (replicate 256 no_crawl) 0 false false None None (CrawlerClient None 0 None None []) ∅ 1 false [] [] [] [] cold_system.
Definition cold_options : options :=
  Options None None (S754_zero false) ascii_prot None false false false None None false false false false false
    JENKINS_HASH SNull false SNull cold_crawler.
Definition plain_host : host := Host false false true true (λ _, true) false (λ _, true) true true true true.

Definition some_arguments : list (list Z) :=
  [str "-p"; str "0"; str "-vU11212"; str "-I2m"; str "-t"; str "8"; str "-f1.5"; str "-l"; str "localhost"; str "-o";
   str "hashpower=20,hash_algorithm=murmur3,lru_crawler"].
Definition summary (r : result (unit * options)) : option (Z * Z * Z) :=
  match r with
  | Ok (_, s) => Some (port (config s), hashpower_init (config s), slab_chunk_size_max (config s))
  | Fault _ => None
  end.
Lemma options_checked_witness :
  ∃ s', command_line plain_host some_arguments cold_options = Ok (tt, s') ∧ checked s' ∧
    hashpower_init (config s') = 20 ∧ slab_chunk_size_max (config s') = 524288.
Proof.
  assert (summary (command_line plain_host some_arguments cold_options) = Some (0, 20, 524288)) as Hv by (vm_compute; reflexivity).
  destruct (command_line plain_host some_arguments cold_options) as [[[] s']|f] eqn:E; [|discriminate Hv].
  injection Hv as _ H2 H3. exists s'. split; [reflexivity|]. split; [|split; [exact H2|exact H3]].
  exact (options_checked plain_host some_arguments cold_options s' eq_refl eq_refl E).
Defined.

Definition options_after (argv : list (list Z)) : result (unit * options) := command_line plain_host argv cold_options.
Definition fault_of {A} (r : result A) : option fault := match r with Fault f => Some f | Ok _ => None end.
(** Slab sizes are parsed from freed memory; so is the size of a worker's log
    buffer, whose case falls through to them. *)
Example slab_sizes_freed : fault_of (options_after [str "-o"; str "slab_sizes=96-1024"]) = Some UseAfterFree.
Proof. vm_compute. reflexivity. Qed.
Example worker_logbuf_freed : fault_of (options_after [str "-o"; str "worker_logbuf_size=64"]) = Some UseAfterFree.
Proof. vm_compute. reflexivity. Qed.
(** A chunk size that does not parse becomes 0, and then divides. *)
Example chunk_max_divides : fault_of (options_after [str "-o"; str "slab_chunk_max=512k"]) = Some DivByZero.
Proof. vm_compute. reflexivity. Qed.
(** [-I] is compared with the memory limit of the options before it only. *)
Example item_size_order :
  fault_of (options_after [str "-m"; str "1"; str "-I"; str "2m"]) = Some (Exited 1) ∧
  fault_of (options_after [str "-I"; str "2m"; str "-m"; str "1"]) = None.
Proof. vm_compute. split; reflexivity. Qed.
(** The hot and warm segments are not limited to 80% together: the check looks
    at a thread that is not started yet. *)
Example lru_percentages :
  fault_of (options_after [str "-o"; str "lru_maintainer,hot_lru_pct=79,warm_lru_pct=79"]) = None.
Proof. vm_compute. reflexivity. Qed.
(** The tests of [-f], [-R] and [-n] let through what their messages exclude. *)
Example not_positive :
  fault_of (options_after [str "-f"; str "nan"; str "-R"; str "-1"; str "-n"; str "-48"]) = None.
Proof. vm_compute. reflexivity. Qed.
