(* ===== verification/Rdma.v ===== *)
(** * The backup's transport (backup_rdma.c)

    A backup connects to the primary over TCP, the two exchange the addresses
    of their queue pairs and of the primary's log, and from then on the backup
    reads the log by RDMA, a chunk at a time, and replays what it got
    (Replication.v).  The verbs library is outside: each call is recorded with
    its arguments and answered from a list, as sockets and malloc are. *)
From Stdlib Require Import ZArith Lia.
From stdpp Require Import strings prelude gmap list.
From S2P Require Import Prelude Mem Util Item State Memlog Items Replication.

(** ** Hexadecimal text: [%0wx] and the [%x] of sscanf *)
Definition xdigit (d : Z) : Z := if d <? 10 then 48 + d else 87 + d.
Fixpoint xhex (fuel : nat) (n : Z) : list Z :=
  match fuel with
  | O => []
  | S f => (if n <? 16 then [] else xhex f (n / 16)) ++ [xdigit (n mod 16)]
  end.
(** [%x] with zeros up to the width; at most the 16 digits of a long. *)
Definition fmt_x (width : nat) (n : Z) : list Z :=
  let s := xhex 16 n in replicate (width - length s) 48 ++ s.

Definition isxdigit (c : Z) : bool := isdigit c || ((65 <=? c) && (c <=? 70)) || ((97 <=? c) && (c <=? 102)).
Definition unxdigit (c : Z) : Z := if c <=? 57 then c - 48 else if c <=? 70 then c - 55 else c - 87.
Definition hex_value (ds : list Z) : Z := fold_left (λ v d, v * 16 + unxdigit d) ds 0.
(** The number and what follows it; the conversion fails without digits, and a
    number beyond 64 bits is the largest one. *)
Definition scan_hex (s : list Z) : option (Z * list Z) :=
  let s := drop_while isspace s in
  let '(neg, s) := match s with 45 :: s => (true, s) | 43 :: s => (false, s) | _ => (false, s) end in
  let s := match s with 48 :: x :: s0 => if (x =? 120) || (x =? 88) then s0 else s | _ => s end in
  match take_while isxdigit s with
  | [] => None
  | ds => let v := hex_value ds in
          Some (if 2 ^ 64 <=? v then 2 ^ 64 - 1 else if neg then u64 (- v) else v, drop_while isxdigit s)
  end.
(** Plain characters of the format; a space stands for any white space. *)
Fixpoint scan_text (fmt s : list Z) : option (list Z) :=
  match fmt with
  | [] => Some s
  | 32 :: fmt => scan_text fmt (drop_while isspace s)
  | c :: fmt => match s with x :: s => if x =? c then scan_text fmt s else None | [] => None end
  end.

(** ** Byte order on a little-endian host *)
Definition swap32 (v : Z) : Z := le_decode (rev (le_encode 4 v)).
Definition htonl (v : Z) : Z := swap32 v.
Definition ntohl (v : Z) : Z := swap32 v.

(** ** Addresses *)
Record backup_ibv_dest := Dest {
  d_lid : Z;
  d_qpn : Z;
  d_psn : Z;
  remote_address : Z;
  remote_key : Z;
  d_gid : list Z
}.
Definition set_lid (v : Z) (d : backup_ibv_dest) : backup_ibv_dest := Dest v (d_qpn d) (d_psn d) (remote_address d) (remote_key d) (d_gid d).
Definition set_qpn (v : Z) (d : backup_ibv_dest) : backup_ibv_dest := Dest (d_lid d) v (d_psn d) (remote_address d) (remote_key d) (d_gid d).
Definition set_psn (v : Z) (d : backup_ibv_dest) : backup_ibv_dest := Dest (d_lid d) (d_qpn d) v (remote_address d) (remote_key d) (d_gid d).
Definition set_remote_address (v : Z) (d : backup_ibv_dest) : backup_ibv_dest := Dest (d_lid d) (d_qpn d) (d_psn d) v (remote_key d) (d_gid d).
Definition set_remote_key (v : Z) (d : backup_ibv_dest) : backup_ibv_dest := Dest (d_lid d) (d_qpn d) (d_psn d) (remote_address d) v (d_gid d).
Definition set_gid (v : list Z) (d : backup_ibv_dest) : backup_ibv_dest := Dest (d_lid d) (d_qpn d) (d_psn d) (remote_address d) (remote_key d) v.

(** The four words of a GID as text, with the final NUL. *)
Definition gid_word (gid : list Z) (i : nat) : Z := le_decode (take 4 (drop (i * 4) gid)).
Definition gid_to_wire_gid (gid : list Z) : list Z :=
  concat ((λ i, fmt_x 8 (htonl (gid_word gid i))) <$> seq 0 4) ++ [0].
(** [v32] keeps its value when a word does not parse. *)
Definition wire_word (wgid : list Z) (r : Z * list Z) (i : nat) : Z * list Z :=
  let '(v32, gid) := r in
  let v32 := match scan_hex (take 8 (drop (i * 8) wgid)) with Some (v, _) => u32 v | None => v32 end in
  (v32, gid ++ le_encode 4 (ntohl v32)).
Definition wire_gid_to_gid (junk : Z) (wgid : list Z) : list Z := (foldl (wire_word wgid) (junk, []) (seq 0 4)).2.

Definition SIZEOF_msg : nat := 52.
Definition SIZEOF_msg2 : nat := 128.
(** ["%04x:%06x:%06x:%s"] *)
Definition address_text (d : backup_ibv_dest) : list Z :=
  fmt_x 4 (d_lid d) ++ [58] ++ fmt_x 6 (d_qpn d) ++ [58] ++ fmt_x 6 (d_psn d) ++ [58] ++
  take_while (λ c, negb (c =? 0)) (gid_to_wire_gid (d_gid d)).
(** [sprintf] into a buffer whose other bytes are what the stack holds. *)
Definition sprintf (size : nat) (stack text : list Z) : result (list Z) :=
  if (length text <? size)%nat then Ok (text ++ [0] ++ drop (length text + 1) stack) else Fault OutOfBounds.

(** [sscanf(msg, "%x:%x:%x:%s", ...)] into a destination and the buffer of the
    GID's text: what is not converted keeps its value. *)
Definition scan_gid (gidbuf s : list Z) : result (list Z) :=
  let w := take_while (λ c, negb (isspace c)) (drop_while isspace s) in
  if (32 <? length w)%nat then Fault OutOfBounds
  else Ok (match w with [] => gidbuf | _ => w ++ [0] ++ drop (length w + 1) gidbuf end).
Definition scan_address (d : backup_ibv_dest) (gidbuf msg : list Z) : result (backup_ibv_dest * list Z) :=
  if bool_decide (0 ∈ msg) then
    let s := take_while (λ c, negb (c =? 0)) msg in
    match scan_hex s with
    | None => Ok (d, gidbuf)
    | Some (v, s) =>
        let d := set_lid (u32 v) d in
        match s' ← scan_text [58] s; scan_hex s' with
        | None => Ok (d, gidbuf)
        | Some (v, s) =>
            let d := set_qpn (u32 v) d in
            match s' ← scan_text [58] s; scan_hex s' with
            | None => Ok (d, gidbuf)
            | Some (v, s) =>
                let d := set_psn (u32 v) d in
                match scan_text [58] s with
                | None => Ok (d, gidbuf)
                | Some s => match scan_gid gidbuf s with Ok g => Ok (d, g) | Fault f => Fault f end
                end
            end
        end
    end
  else Fault OutOfBounds.

(** ["RDMA addr %lx rkey %x"] and its scan. *)
Definition region_text (addr key : Z) : list Z :=
  str "RDMA addr " ++ fmt_x 0 (htonll addr) ++ str " rkey " ++ fmt_x 0 (htonl key).
Definition scan_region (d : backup_ibv_dest) (msg2 : list Z) : result backup_ibv_dest :=
  if bool_decide (0 ∈ msg2) then
    let s := take_while (λ c, negb (c =? 0)) msg2 in
    Ok match s' ← scan_text (str "RDMA addr ") s; scan_hex s' with
       | None => d
       | Some (v, s) =>
           let d := set_remote_address v d in
           match s' ← scan_text (str " rkey ") s; scan_hex s' with
           | None => d
           | Some (v, _) => set_remote_key (u32 v) d
           end
       end
  else Fault OutOfBounds.

(** ** State *)
Record backup_ibv_context := Ctx {
  cx_buf : Z;
  cx_size : Z;
  cx_rx_depth : Z;
  cx_lkey : Z;
  cx_rkey : Z;
  cx_qp_num : Z
}.
(** The calls of the verbs library, with the arguments that matter. *)
Inductive verb : Type :=
  | OpenDevice (name : list Z)
  | AllocPd
  | RegMr (addr size : Z)
  | CreateCq (entries : Z)
  | CreateQp (recv : Z)
  | ModifyInit (port : Z)
  | ModifyRtr (mtu qpn psn lid sl port : Z) (grh : option (list Z * Z))
  | ModifyRts (psn : Z)
  | QueryPort (port : Z)
  | QueryGid (port index : Z)
  | DestroyQp | DestroyCq | DeregMr | DeallocPd | CloseDevice.
Inductive role : Set := AsClient | AsServer | Handler (fd : Z).

(** [g_backup_meta] with what the library and the sockets will answer: [v_ok]
    the calls of verbs, [b_mallocs] malloc, [b_writes] write, [streams] what
    arrives on a descriptor, read by read; the calls, the bytes sent, the
    descriptors closed and the threads started are recorded. *)
Record backup := Backup {
  server_ip : option (list Z);
  ibv_port : Z;
  sgid_index : Z;
  ibv_dest : backup_ibv_dest;
  ctx : option backup_ibv_context;
  v_ok : list bool;
  b_mallocs : list bool;
  b_writes : list bool;
  streams : gmap Z (list (list Z));
  calls : list verb;
  sent_to : list (Z * list Z);
  b_closed : list Z;
  started_threads : list role
}.
Definition set_server_ip (v : option (list Z)) (s : backup) : backup := Backup v (ibv_port s) (sgid_index s) (ibv_dest s) (ctx s) (v_ok s) (b_mallocs s) (b_writes s) (streams s) (calls s) (sent_to s) (b_closed s) (started_threads s).
Definition set_ibv_port (v : Z) (s : backup) : backup := Backup (server_ip s) v (sgid_index s) (ibv_dest s) (ctx s) (v_ok s) (b_mallocs s) (b_writes s) (streams s) (calls s) (sent_to s) (b_closed s) (started_threads s).
Definition set_sgid_index (v : Z) (s : backup) : backup := Backup (server_ip s) (ibv_port s) v (ibv_dest s) (ctx s) (v_ok s) (b_mallocs s) (b_writes s) (streams s) (calls s) (sent_to s) (b_closed s) (started_threads s).
Definition set_ibv_dest (v : backup_ibv_dest) (s : backup) : backup := Backup (server_ip s) (ibv_port s) (sgid_index s) v (ctx s) (v_ok s) (b_mallocs s) (b_writes s) (streams s) (calls s) (sent_to s) (b_closed s) (started_threads s).
Definition set_ctx (v : option backup_ibv_context) (s : backup) : backup := Backup (server_ip s) (ibv_port s) (sgid_index s) (ibv_dest s) v (v_ok s) (b_mallocs s) (b_writes s) (streams s) (calls s) (sent_to s) (b_closed s) (started_threads s).
Definition set_v_ok (v : list bool) (s : backup) : backup := Backup (server_ip s) (ibv_port s) (sgid_index s) (ibv_dest s) (ctx s) v (b_mallocs s) (b_writes s) (streams s) (calls s) (sent_to s) (b_closed s) (started_threads s).
Definition set_b_mallocs (v : list bool) (s : backup) : backup := Backup (server_ip s) (ibv_port s) (sgid_index s) (ibv_dest s) (ctx s) (v_ok s) v (b_writes s) (streams s) (calls s) (sent_to s) (b_closed s) (started_threads s).
Definition set_b_writes (v : list bool) (s : backup) : backup := Backup (server_ip s) (ibv_port s) (sgid_index s) (ibv_dest s) (ctx s) (v_ok s) (b_mallocs s) v (streams s) (calls s) (sent_to s) (b_closed s) (started_threads s).
Definition set_streams (v : gmap Z (list (list Z))) (s : backup) : backup := Backup (server_ip s) (ibv_port s) (sgid_index s) (ibv_dest s) (ctx s) (v_ok s) (b_mallocs s) (b_writes s) v (calls s) (sent_to s) (b_closed s) (started_threads s).
Definition set_calls (v : list verb) (s : backup) : backup := Backup (server_ip s) (ibv_port s) (sgid_index s) (ibv_dest s) (ctx s) (v_ok s) (b_mallocs s) (b_writes s) (streams s) v (sent_to s) (b_closed s) (started_threads s).
Definition set_sent_to (v : list (Z * list Z)) (s : backup) : backup := Backup (server_ip s) (ibv_port s) (sgid_index s) (ibv_dest s) (ctx s) (v_ok s) (b_mallocs s) (b_writes s) (streams s) (calls s) v (b_closed s) (started_threads s).
Definition set_b_closed (v : list Z) (s : backup) : backup := Backup (server_ip s) (ibv_port s) (sgid_index s) (ibv_dest s) (ctx s) (v_ok s) (b_mallocs s) (b_writes s) (streams s) (calls s) (sent_to s) v (started_threads s).
Definition set_started_threads (v : list role) (s : backup) : backup := Backup (server_ip s) (ibv_port s) (sgid_index s) (ibv_dest s) (ctx s) (v_ok s) (b_mallocs s) (b_writes s) (streams s) (calls s) (sent_to s) (b_closed s) v.

Definition bk (A : Type) : Type := M backup A.
Definition verb_call (v : verb) : bk bool :=
  l ← gets v_ok;
  _ ← modify (λ s, set_v_ok (drop 1 l) (set_calls (calls s ++ [v]) s));
  mret (default true (head l)).
Definition b_malloc : bk bool :=
  l ← gets b_mallocs;
  _ ← modify (set_b_mallocs (drop 1 l));
  mret (default true (head l)).
(** At most [n] bytes of what arrived next; [None] is an error or the end. *)
Definition b_read (fd : Z) (n : nat) : bk (option (list Z)) :=
  m ← gets streams;
  match m !! fd with
  | Some (c :: l) =>
      let l := if (n <? length c)%nat then drop n c :: l else l in
      _ ← modify (set_streams (<[fd := l]> m));
      mret (Some (take n c))
  | _ => mret None
  end.
Definition b_write (fd : Z) (data : list Z) : bk bool :=
  l ← gets b_writes;
  let ok := default true (head l) in
  _ ← modify (λ s, set_b_writes (drop 1 l) (if ok : bool then set_sent_to (sent_to s ++ [(fd, data)]) s else s));
  mret ok.
Definition b_close (fd : Z) : bk unit := modify (λ s, set_b_closed (fd :: b_closed s) s).
Definition lift {A} (r : result A) : bk A := match r with Ok a => mret a | Fault f => fail f end.
Definition get_ctx : bk backup_ibv_context :=
  c ← gets ctx;
  match c with Some c => mret c | None => fail NullDeref end.

(** What is fixed by the machine: the devices, the numbers the library hands
    out, the base of the log, [lrand48] and the bytes of the stack. *)
Record machine := Machine {
  device_list : option (list (list Z));
  qp_num : Z;
  port_lid : Z;
  port_infiniband : bool;
  port_gid : list Z;
  mr_lkey : Z;
  mr_rkey : Z;
  lrand48 : Z;
  memlog_base : Z;
  stack : list Z;
  heap : backup_ibv_dest;
  v32_junk : Z
}.

Definition MTU_1024 : Z := 3.
Definition RX_DEPTH : Z := 500.
Definition SL : Z := 0.

Section machine.
Context (H : machine).

(** ** Queue pairs *)
(** Calls that must all succeed, in order. *)
Fixpoint all_calls (l : list verb) : bk bool :=
  match l with
  | [] => mret true
  | v :: l => ok ← verb_call v; if ok : bool then all_calls l else mret false
  end.
Definition init_ctx (device : list Z) (size rx_depth port : Z) : bk (option backup_ibv_context) :=
  ok ← b_malloc;
  if negb ok then mret None
  else
    ok ← all_calls [OpenDevice device; AllocPd; RegMr (memlog_base H) (u64 size); CreateCq (rx_depth + 1); CreateQp rx_depth; ModifyInit port];
    mret (if ok : bool then Some (Ctx (memlog_base H) size rx_depth (mr_lkey H) (mr_rkey H) (qp_num H)) else None).

(** The interface identifier of a GID, its last eight bytes, is not zero. *)
Definition is_global (gid : list Z) : bool := negb (le_decode (drop 8 gid) =? 0).
(** 0 when the queue pair is ready to send. *)
Definition connect_ctx (port my_psn : Z) (dest : backup_ibv_dest) (sgid : Z) : bk Z :=
  ok ← all_calls [ModifyRtr MTU_1024 (d_qpn dest) (d_psn dest) (d_lid dest) SL port
                    (if is_global (d_gid dest) then Some (d_gid dest, sgid) else None);
                  ModifyRts my_psn];
  mret (if ok : bool then 0 else 1).
(** There is no completion channel. *)
Definition close_ctx : bk Z :=
  _ ← get_ctx;
  ok ← all_calls [DestroyQp; DestroyCq; DeregMr; DeallocPd; CloseDevice];
  mret (if ok : bool then 0 else 1).

(** ** The server of the exchange *)
(** The handler reads its descriptor through a pointer to char: one signed
    byte of it. *)
Definition char_fd (fd : Z) : Z := (fd + 128) mod 256 - 128.
(** [None] when the thread ends; [Some] the backup's address when it goes on to
    wait for ever. *)
Definition backup_server_connection_handler (new_fd : Z) : bk (option backup_ibv_dest) :=
  let conn_fd := char_fd new_fd in
  let hang_up := (_ ← b_close conn_fd; mret None) in
  r ← b_read conn_fd SIZEOF_msg;
  match r with
  | Some msg =>
      if negb (length msg =? SIZEOF_msg)%nat then hang_up
      else
        ok ← b_malloc;
        if negb ok then hang_up
        else
          '(rem, gid) ← lift (scan_address (heap H) (take 33 (stack H)) msg);
          let rem := set_gid (wire_gid_to_gid (v32_junk H) gid) rem in
          b ← gets id;
          r ← connect_ctx (ibv_port b) (d_psn (ibv_dest b)) rem (sgid_index b);
          if negb (r =? 0) then hang_up
          else
            msg ← lift (sprintf SIZEOF_msg (take SIZEOF_msg msg) (address_text (ibv_dest b)));
            ok ← b_write conn_fd msg;
            if negb ok then hang_up
            else
              _ ← b_read conn_fd SIZEOF_msg;
              c ← get_ctx;
              msg2 ← lift (sprintf SIZEOF_msg2 (take SIZEOF_msg2 (stack H)) (region_text (cx_buf c) (cx_rkey c)));
              ok ← b_write conn_fd msg2;
              if negb ok then hang_up
              else
                _ ← b_read conn_fd SIZEOF_msg;
                _ ← b_close conn_fd;
                mret (Some rem)
  | None => hang_up
  end.

(** ** The client *)
Definition done_msg : list Z := str "done" ++ [0].
(** Once connected: the primary's address and region, or [None]. *)
Definition client_exchange (sockfd : Z) : bk (option backup_ibv_dest) :=
  let hang_up := (_ ← b_close sockfd; mret None) in
  b ← gets id;
  let gid := gid_to_wire_gid (d_gid (ibv_dest b)) in
  msg ← lift (sprintf SIZEOF_msg (take SIZEOF_msg (stack H)) (address_text (ibv_dest b)));
  ok ← b_write sockfd msg;
  if negb ok then hang_up
  else
    r ← b_read sockfd SIZEOF_msg;
    match r with
    | Some msg =>
        if negb (length msg =? SIZEOF_msg)%nat then hang_up
        else
          _ ← b_write sockfd done_msg;
          ok ← b_malloc;
          if negb ok then hang_up
          else
            '(rem, gid) ← lift (scan_address (heap H) gid msg);
            let rem := set_gid (wire_gid_to_gid (v32_junk H) gid) rem in
            r ← b_read sockfd SIZEOF_msg2;
            match r with
            | Some msg2 =>
                if negb (length msg2 =? SIZEOF_msg2)%nat then hang_up
                else
                  rem ← lift (scan_region rem msg2);
                  let rem := set_remote_address (ntohll (remote_address rem)) (set_remote_key (ntohl (remote_key rem)) rem) in
                  _ ← b_write sockfd done_msg;
                  _ ← b_close sockfd;
                  mret (Some rem)
            | None => hang_up
            end
    | None => hang_up
    end.

(** The first address that takes a socket and a connection; the sockets of the
    others are closed. *)
Fixpoint connect_first (addrs : list (option Z * bool)) : bk (option Z) :=
  match addrs with
  | [] => mret None
  | (None, _) :: l => connect_first l
  | (Some fd, true) :: _ => mret (Some fd)
  | (Some fd, false) :: l => _ ← b_close fd; connect_first l
  end.
(** Up to the replication: [Some] the primary it reads from. *)
Definition backup_client_thread (addrs : option (list (option Z * bool))) : bk (option backup_ibv_dest) :=
  match addrs with
  | None => mret None
  | Some addrs =>
      r ← connect_first addrs;
      match r with
      | None => mret None
      | Some fd =>
          rem ← client_exchange fd;
          match rem with
          | None => mret None
          | Some rem =>
              b ← gets id;
              r ← connect_ctx (ibv_port b) (d_psn (ibv_dest b)) rem (sgid_index b);
              mret (if r =? 0 then Some rem else None)
          end
      end
  end.

(** ** The listening server: an address is a socket, whether setsockopt takes
    the option and whether bind succeeds *)
Fixpoint bind_first (addrs : list (option Z * bool * bool)) : bk (option Z) :=
  match addrs with
  | [] => mret None
  | (None, _, _) :: l => bind_first l
  | (Some _, false, _) :: _ => fail (Exited 1)
  | (Some fd, true, true) :: _ => mret (Some fd)
  | (Some fd, true, false) :: l => _ ← b_close fd; bind_first l
  end.
(** [accepted] is what accept returns, call by call; the loop has no end. *)
Definition backup_server_thread (addrs : option (list (option Z * bool * bool))) (listen_ok sigaction_ok : bool)
    (accepted : list (option Z)) : bk unit :=
  match addrs with
  | None => fail (Exited 1)
  | Some addrs =>
      r ← bind_first addrs;
      match r with
      | None => fail (Exited 1)
      | Some _ =>
          if negb listen_ok then fail (Exited 1)
          else if negb sigaction_ok then fail (Exited 1)
          else foldl (λ m a, _ ← m; match a with
                 | None => mret tt
                 | Some fd => modify (λ s, set_started_threads (started_threads s ++ [Handler fd]) s)
                 end) (mret tt) accepted
      end
  end.

(** ** Start *)
Definition start_thread (r : role) : bk unit :=
  ok ← b_malloc;
  if negb ok then fail NullDeref
  else modify (λ s, set_started_threads (started_threads s ++ [r]) s).
Definition zero_gid : list Z := replicate 16 0.
Definition rdma_init (limit : Z) (is_client : bool) (server_name ibv_device_name : option (list Z)) (port sgid : Z) : bk bool :=
  _ ← when (port >? 0) (modify (set_ibv_port port));
  _ ← when (sgid >? -1) (modify (set_sgid_index sgid));
  _ ← modify (set_server_ip server_name);
  match device_list H with
  | None => mret false
  | Some devs =>
      match (match ibv_device_name with
             | None => head devs
             | Some n => head (filter (λ d, d = n) devs)
             end) with
      | None => mret false
      | Some dev =>
          b ← gets id;
          c ← init_ctx dev (i32 limit) RX_DEPTH (ibv_port b);
          _ ← modify (set_ctx c);
          match c with
          | None => mret false
          | Some c =>
              ok ← verb_call (QueryPort (ibv_port b));
              if negb ok then mret false
              else
                _ ← modify (λ s, set_ibv_dest (set_lid (port_lid H) (ibv_dest s)) s);
                if port_infiniband H && (port_lid H =? 0) then mret false
                else
                  ok ← (if sgid_index b >=? 0 then
                          ok ← verb_call (QueryGid (ibv_port b) (sgid_index b));
                          _ ← when ok (modify (λ s, set_ibv_dest (set_gid (port_gid H) (ibv_dest s)) s));
                          mret ok
                        else _ ← modify (λ s, set_ibv_dest (set_gid zero_gid (ibv_dest s)) s); mret true);
                  if negb ok then mret false
                  else
                    _ ← modify (λ s, set_ibv_dest (set_psn (Z.land (lrand48 H) 16777215) (set_qpn (cx_qp_num c) (ibv_dest s))) s);
                    _ ← start_thread (if is_client then AsClient else AsServer);
                    mret true
          end
      end
  end.
End machine.

(** ** Replication *)
Definition REPLICATION_CHUNK : Z := 1024 * 1024 * 2.
(** A read of the primary's log: where to, how much, where from, with which
    key. *)
Record rdma_read := RdmaRead {
  sg_addr : Z;
  sg_length : Z;
  wr_remote_addr : Z;
  wr_rkey : Z
}.
(** What a poll of the completion queue finds: nothing, a completion, an
    error. *)
Inductive poll1 : Set := NoCompletion | Completion (success : bool) | PollError.
(** How far a read has got when the replay starts: the primary's log, by
    offset, and which of its bytes have arrived. *)
Record arrival := Arrival { image : memory; arrived : Z → bool }.

(** [reads_posted] lists the reads, [completions] counts those that completed. *)
Record replica_state := Replica {
  r_ctx : backup_ibv_context;
  r_dest : backup_ibv_dest;
  posts : list bool;
  cq_polls : list poll1;
  arrivals : list arrival;
  reads_posted : list rdma_read;
  completions : Z;
  rcache : cache
}.
Definition set_posts (v : list bool) (s : replica_state) : replica_state := Replica (r_ctx s) (r_dest s) v (cq_polls s) (arrivals s) (reads_posted s) (completions s) (rcache s).
Definition set_cq_polls (v : list poll1) (s : replica_state) : replica_state := Replica (r_ctx s) (r_dest s) (posts s) v (arrivals s) (reads_posted s) (completions s) (rcache s).
Definition set_arrivals (v : list arrival) (s : replica_state) : replica_state := Replica (r_ctx s) (r_dest s) (posts s) (cq_polls s) v (reads_posted s) (completions s) (rcache s).
Definition set_reads_posted (v : list rdma_read) (s : replica_state) : replica_state := Replica (r_ctx s) (r_dest s) (posts s) (cq_polls s) (arrivals s) v (completions s) (rcache s).
Definition set_completions (v : Z) (s : replica_state) : replica_state := Replica (r_ctx s) (r_dest s) (posts s) (cq_polls s) (arrivals s) (reads_posted s) v (rcache s).
Definition set_rcache (v : cache) (s : replica_state) : replica_state := Replica (r_ctx s) (r_dest s) (posts s) (cq_polls s) (arrivals s) (reads_posted s) (completions s) v.
Definition rep (A : Type) : Type := M replica_state A.

(** [ctx->size - replication_offset] is unsigned. *)
Definition size_to_replicate (size offset : Z) : Z :=
  if REPLICATION_CHUNK <? u32 (size - offset) then REPLICATION_CHUNK else u32 (size - offset).

(** One post; the count of failures is looked at before the result. *)
Definition post_body (wr : rdma_read) (failed : Z) : rep (Z + unit) :=
  l ← gets posts;
  let ok := default true (head l) in
  _ ← modify (λ s, set_posts (drop 1 l) (if ok : bool then set_reads_posted (reads_posted s ++ [wr]) s else s));
  if failed >? 100 then fail (Exited 1)
  else mret (if ok then inr tt else inl (failed + 1)).
(** One poll: [continue] in a do-while goes to the condition, so an empty queue
    ends the loop. *)
Definition poll_body (_ : unit) : rep (unit + unit) :=
  l ← gets cq_polls;
  _ ← modify (set_cq_polls (drop 1 l));
  match default NoCompletion (head l) with
  | PollError => fail (Exited 1)
  | NoCompletion => mret (inr tt)
  | Completion false => fail (Exited 1)
  | Completion true => _ ← modify (λ s, set_completions (completions s + 1) s); mret (inl tt)
  end.
(** The bytes of the read that have arrived. *)
Definition dma_byte (a : arrival) (m : memory) (x : Z) : memory := if arrived a x then <[x := mget (image a) x]> m else m.
Definition dma (a : arrival) (off len : Z) (m : memory) : memory := foldl (dma_byte a) m (seqZ off len).

(** A turn of [backup_client_replication_handler]: the next offset. *)
Definition replication_turn (offset : Z) : rep Z :=
  s ← gets id;
  let size := size_to_replicate (cx_size (r_ctx s)) offset in
  let wr := RdmaRead (cx_buf (r_ctx s) + offset) size (u64 (remote_address (r_dest s) + offset)) (remote_key (r_dest s)) in
  _ ← loop FUEL (post_body wr) 0;
  _ ← loop FUEL poll_body tt;
  l ← gets arrivals;
  _ ← modify (set_arrivals (drop 1 l));
  _ ← match l with
      | [] => mret tt
      | a :: _ => zoom rcache set_rcache (upd_log (dma a offset size))
      end;
  zoom rcache set_rcache (do_store_replication size offset).
(** [run] is never cleared: any number of turns. *)
Fixpoint backup_client_replication_handler (turns : nat) (offset : Z) : rep Z :=
  match turns with
  | O => mret offset
  | S n => off ← replication_turn offset; backup_client_replication_handler n off
  end.

(** [g_backup_meta] when the program starts; [m] is what will arrive on its
    sockets. *)
Definition no_dest : backup_ibv_dest := Dest 0 0 0 0 0 zero_gid.
Definition idle_backup (m : gmap Z (list (list Z))) : backup := Backup None (-1) (-1) no_dest None [] [] [] m [] [] [] [].

(** The end of [main]: the results of [rdma_init] are not looked at. *)
Definition start_backup (H : machine) (limit : Z) (backup_server backup_client : bool) (server_name : option (list Z))
    (port sgid : Z) : bk unit :=
  if backup_server then _ ← rdma_init H limit false None None port sgid; mret tt
  else if backup_client then _ ← rdma_init H limit true server_name None port sgid; mret tt
  else mret tt.
