(* ===== verification/Sockets.v ===== *)
(** * Listening sockets and the clock (memcached.c)

    [maximize_sndbuf], [server_socket], [server_sockets], [server_socket_unix]
    and [clock_handler].  What the resolver and the sockets answer is an input:
    each [getaddrinfo] takes the next list of addresses, and an address says
    what happens when a socket is made for it, bound and listened on. *)
From Stdlib Require Import ZArith Lia.
From stdpp Require Import strings prelude gmap list functions.
From S2P Require Import Rdma.
From S2P Require Import Prelude Mem Util Hash Item State Items Conn ConnOps Ascii Thread Settings Logger Crawler Options.

(** ** The send buffer of a UDP socket *)
Definition MAX_SENDBUF_SIZE : Z := 256 * 1024 * 1024.
(** A turn of the binary search: [accepts] answers [setsockopt], the state is
    [last_good]. *)
Definition sndbuf_body (accepts : Z → bool) (x : Z * Z) : M Z (Z * Z + unit) :=
  let '(min, max) := x in
  if min <=? max then
    let avg := i32 (u32 (min + max) / 2) in
    if accepts avg then _ ← modify (λ _, avg); mret (inl (i32 (avg + 1), max))
    else mret (inl (min, i32 (avg - 1)))
  else mret (inr tt).
(** The largest size that was accepted, or 0; [old_size] is what [getsockopt]
    reports. *)
Definition maximize_sndbuf (old_size : option Z) (accepts : Z → bool) : result (unit * Z) :=
  match old_size with
  | None => Ok (tt, 0)
  | Some n => loop FUEL (sndbuf_body accepts) (n, MAX_SENDBUF_SIZE) 0
  end.

(** ** State *)
Inductive family : Set := AF_INET | AF_INET6 | AF_UNIX.
#[global] Instance family_eq_dec : EqDecision family.
Proof. solve_decision. Defined.
Inductive bound : Set := BindOk | BindInUse | BindError.
(** An address and how its socket fares: [ai_sfd] is [None] when [new_socket]
    fails, [ai_emfile] whether that is for lack of descriptors; [ai_dups] are
    the descriptors [dup] returns, [ai_name] the port [getsockname] reports. *)
Record address := Address {
  ai_family : family;
  ai_sfd : option Z;
  ai_emfile : bool;
  ai_v6only : bool;
  ai_sndbuf : option Z;
  ai_accepts : Z → bool;
  ai_bind : bound;
  ai_listen : bool;
  ai_name : option Z;
  ai_dups : list Z
}.

Record startup := Startup {
  opts : options;
  answers : list (option (list address));
  asked : list (option (list Z) * Z * network_transport);
  listen_conn : list Z;
  portnumber_file : option (list Z);
  clock_initialized : bool;
  monotonic : bool;
  monotonic_start : Z;
  hash_bulk_move : Z;
  slog : logsys;
  sbackup : backup
}.
Definition set_opts (v : options) (s : startup) : startup := Startup v (answers s) (asked s) (listen_conn s) (portnumber_file s) (clock_initialized s) (monotonic s) (monotonic_start s) (hash_bulk_move s) (slog s) (sbackup s).
Definition set_answers (v : list (option (list address))) (s : startup) : startup := Startup (opts s) v (asked s) (listen_conn s) (portnumber_file s) (clock_initialized s) (monotonic s) (monotonic_start s) (hash_bulk_move s) (slog s) (sbackup s).
Definition set_asked (v : list (option (list Z) * Z * network_transport)) (s : startup) : startup := Startup (opts s) (answers s) v (listen_conn s) (portnumber_file s) (clock_initialized s) (monotonic s) (monotonic_start s) (hash_bulk_move s) (slog s) (sbackup s).
Definition set_listen_conn (v : list Z) (s : startup) : startup := Startup (opts s) (answers s) (asked s) v (portnumber_file s) (clock_initialized s) (monotonic s) (monotonic_start s) (hash_bulk_move s) (slog s) (sbackup s).
Definition set_portnumber_file (v : option (list Z)) (s : startup) : startup := Startup (opts s) (answers s) (asked s) (listen_conn s) v (clock_initialized s) (monotonic s) (monotonic_start s) (hash_bulk_move s) (slog s) (sbackup s).
Definition set_clock_initialized (v : bool) (s : startup) : startup := Startup (opts s) (answers s) (asked s) (listen_conn s) (portnumber_file s) v (monotonic s) (monotonic_start s) (hash_bulk_move s) (slog s) (sbackup s).
Definition set_monotonic (v : bool) (s : startup) : startup := Startup (opts s) (answers s) (asked s) (listen_conn s) (portnumber_file s) (clock_initialized s) v (monotonic_start s) (hash_bulk_move s) (slog s) (sbackup s).
Definition set_monotonic_start (v : Z) (s : startup) : startup := Startup (opts s) (answers s) (asked s) (listen_conn s) (portnumber_file s) (clock_initialized s) (monotonic s) v (hash_bulk_move s) (slog s) (sbackup s).
Definition set_hash_bulk_move (v : Z) (s : startup) : startup := Startup (opts s) (answers s) (asked s) (listen_conn s) (portnumber_file s) (clock_initialized s) (monotonic s) (monotonic_start s) v (slog s) (sbackup s).
Definition set_sbackup (v : backup) (s : startup) : startup := Startup (opts s) (answers s) (asked s) (listen_conn s) (portnumber_file s) (clock_initialized s) (monotonic s) (monotonic_start s) (hash_bulk_move s) (slog s) v.
Definition set_slog (v : logsys) (s : startup) : startup := Startup (opts s) (answers s) (asked s) (listen_conn s) (portnumber_file s) (clock_initialized s) (monotonic s) (monotonic_start s) (hash_bulk_move s) v (sbackup s).

Definition st (A : Type) : Type := M startup A.
Definition sopts {A} (m : om A) : st A := zoom opts set_opts m.
Definition ssys {A} (m : sys A) : st A := sopts (osysio m).
Definition scfg : st settings := sopts ocfg.

(** ** TCP and UDP *)
Definition port_line (f : family) (tr : network_transport) (p : Z) : list Z :=
  (if bool_decide (tr = udp_transport) then str "UDP" else str "TCP") ++
  (match f with AF_INET => str " INET: " | _ => str " INET6: " end) ++ fmt_u p ++ [10].
Definition write_port (a : address) (tr : network_transport) : st unit :=
  f ← gets portnumber_file;
  match f, ai_name a with
  | Some out, Some p =>
      when (negb (bool_decide (ai_family a = AF_UNIX)))
        (modify (set_portnumber_file (Some (out ++ port_line (ai_family a) tr p))))
  | _, _ => mret tt
  end.

Definition UDP_READ_BUFFER_SIZE : Z := 65536.
(** A UDP descriptor for each thread that serves the socket. *)
Definition udp_thread (fd : Z) (dups : list Z) (_ : unit) (c : Z) : st unit :=
  let per_thread_fd := if c =? 0 then fd else default (-1) (dups !! Z.to_nat (c - 1)) in
  ssys (dispatch_conn_new per_thread_fd conn_read (Z.lor EV_READ EV_PERSIST) UDP_READ_BUFFER_SIZE udp_transport).

Definition listen_on (fd : Z) (tr : network_transport) : st unit :=
  o ← gets opts;
  c ← ssys (wio (conn_new fd conn_listening (Z.lor EV_READ EV_PERSIST) 1 tr (binding_protocol o)
                   (match socketpath o with Some _ => true | None => false end)));
  match c with
  | None => fail (Exited 1)
  | Some _ => modify (λ s, set_listen_conn (fd :: listen_conn s) s)
  end.

(** One address of the loop: [inl n] goes on with [n] sockets bound, [inr r]
    returns [r]. *)
Definition try_address (tr : network_transport) (success : Z) (a : address) : st (Z + Z) :=
  match ai_sfd a with
  | None => if ai_emfile a then fail (Exited EX_OSERR) else mret (inl success)
  | Some fd =>
      if bool_decide (ai_family a = AF_INET6) && negb (ai_v6only a) then _ ← ssys (close_fd fd); mret (inl success)
      else
        _ ← (if bool_decide (tr = udp_transport) then
               match maximize_sndbuf (ai_sndbuf a) (ai_accepts a) with Ok _ => mret tt | Fault f => fail f end
             else mret tt);
        match ai_bind a with
        | BindError => _ ← ssys (close_fd fd); mret (inr 1)
        | BindInUse => _ ← ssys (close_fd fd); mret (inl success)
        | BindOk =>
            if negb (bool_decide (tr = udp_transport)) && negb (ai_listen a) then _ ← ssys (close_fd fd); mret (inr 1)
            else
              _ ← write_port a tr;
              c ← scfg;
              _ ← (if bool_decide (tr = udp_transport)
                   then foldl (λ m i, u ← m; udp_thread fd (ai_dups a) u i) (mret tt) (seqZ 0 (num_threads_per_udp c))
                   else listen_on fd tr);
              mret (inl (success + 1))
        end
  end.
Definition next_address (tr : network_transport) (r : Z + Z) (a : address) : st (Z + Z) :=
  match r with inl n => try_address tr n a | inr v => mret (inr v) end.

Definition server_socket (interface : option (list Z)) (port : Z) (tr : network_transport) : st Z :=
  let port := if port =? -1 then 0 else port in
  _ ← modify (λ s, set_asked (asked s ++ [(interface, port, tr)]) s);
  l ← gets answers;
  match l with
  | [] | None :: _ => _ ← modify (λ s, set_answers (drop 1 (answers s)) s); mret 1
  | Some addrs :: l =>
      _ ← modify (set_answers l);
      r ← foldl (λ m a, r ← m; next_address tr r a) (mret (inl 0)) addrs;
      mret (match r with inr v => v | inl n => if n =? 0 then 1 else 0 end)
  end.

(** The pieces between commas and semicolons, as [strtok_r] finds them. *)
Definition is_separator (c : Z) : bool := (c =? 59) || (c =? 44).
Fixpoint interface_tokens (acc s : list Z) : list (list Z) :=
  match s with
  | [] => match acc with [] => [] | _ => [acc] end
  | c :: s =>
      if is_separator c then match acc with [] => interface_tokens [] s | _ => acc :: interface_tokens [] s end
      else interface_tokens (acc ++ [c]) s
  end.
(** Text before the first [c] and after it. *)
Definition strchr (s : list Z) (c : Z) : option (list Z * list Z) :=
  match drop_while (λ x, negb (x =? c)) s with
  | [] => None
  | _ :: r => Some (take_while (λ x, negb (x =? c)) s, r)
  end.
(** The host and the port of an interface; [None] when it is malformed. *)
Definition split_interface (p : list Z) (port : Z) : option (option (list Z) * Z) :=
  '(h, p) ← match p with
            | 91 :: p' => '(h, rest) ← strchr p' 93; mret (Some h, rest)
            | _ => mret (None, p)
            end;
  '(p, the_port) ←
    match strchr p 58 with
    | None => mret (p, port)
    | Some (p', s) =>
        if bool_decide (strchr s 58 = None) || bool_decide (is_Some h)
        then let '(ok, n) := safe_strtol s in if ok : bool then mret (p', n) else None
        else mret (p, port)
    end;
  let p := default p h in
  mret (if bool_decide (p = str "*") then None else Some p, the_port).

Definition bind_interface (port : Z) (tr : network_transport) (r : Z + Z) (p : list Z) : st (Z + Z) :=
  match r with
  | inr v => mret (inr v)
  | inl ret =>
      match split_interface p port with
      | None => mret (inr 1)
      | Some (h, the_port) => r ← server_socket h the_port tr; mret (inl (Z.lor ret r))
      end
  end.
Definition server_sockets (port : Z) (tr : network_transport) : st Z :=
  o ← gets opts;
  match inter o with
  | None => server_socket None port tr
  | Some l =>
      ok ← sopts omalloc;
      if negb ok then mret 1
      else
        r ← foldl (λ m p, r ← m; bind_interface port tr r p) (mret (inl 0)) (interface_tokens [] l);
        mret (match r with inl v | inr v => v end)
  end.

(** ** The unix socket *)
Definition SUN_PATH_MAX : Z := 108.
Definition server_socket_unix (path : list Z) (a : address) : st Z :=
  match ai_sfd a with
  | None => mret 1
  | Some fd =>
      (* assert(strcmp(addr.sun_path, path) == 0) *)
      if negb (Z.of_nat (length path) <? SUN_PATH_MAX) then fail AssertFailed
      else
        match ai_bind a with
        | BindOk =>
            if negb (ai_listen a) then _ ← ssys (close_fd fd); mret 1
            else
              o ← gets opts;
              c ← ssys (wio (conn_new fd conn_listening (Z.lor EV_READ EV_PERSIST) 1 local_transport (binding_protocol o)
                               (match socketpath o with Some _ => true | None => false end)));
              match c with
              | None => fail (Exited 1)
              | Some _ => _ ← modify (set_listen_conn [fd]); mret 0
              end
        | _ => _ ← ssys (close_fd fd); mret 1
        end
  end.

(** ** The clock: [mono] lists the readings of the monotonic clock in seconds,
    [tod] is the time of day *)
Definition set_time (t : Z) : st unit := ssys (wio (srv (modify (set_current_time (u32 t))))).
Definition clock_handler (mono : option Z * option Z) (tod : Z) : st unit :=
  i ← gets clock_initialized;
  _ ← when (negb i) (
        _ ← modify (set_clock_initialized true);
        match mono.1 with
        | Some t => modify (λ s, set_monotonic true (set_monotonic_start (t - ITEM_UPDATE_INTERVAL - 2) s))
        | None => mret tt
        end);
  m ← gets monotonic;
  if m : bool then
    start ← gets monotonic_start;
    match mono.2 with Some t => set_time (t - start) | None => mret tt end
  else
    p ← ssys (wio (srv (gets process_started)));
    set_time (tod - p).
