(* ===== verification/SocketsFacts.v ===== *)
(** * Listening where the configuration says, with the largest send buffer *)
From Stdlib Require Import ZArith Lia.
From stdpp Require Import strings prelude gmap list functions.
From S2P Require Import Rdma.
From S2P Require Import Prelude Mem Util Hash Item State Items Conn ConnOps Ascii Thread Settings Logger Crawler Options OptionsFacts Sockets.

(** ** The send buffer *)
(** The sizes above [max] are refused, those accepted so far end below [min]. *)
Definition searching (old : Z) (accepts : Z → bool) (k : Z) (x : Z * Z) (good : Z) : Prop :=
  let '(min, max) := x in
  k = max - min + 1 ∧ 0 ≤ k ∧ old ≤ min ∧ max ≤ MAX_SENDBUF_SIZE ∧ (∀ n, max < n ≤ MAX_SENDBUF_SIZE → accepts n = false) ∧
  (min = old ∧ good = 0 ∨ old < min ∧ good = min - 1 ∧ accepts good = true).

Lemma sndbuf_turn old accepts k x good :
  0 ≤ old → (∀ a b, a ≤ b → accepts b = true → accepts a = true) → searching old accepts k x good →
  yields (λ _, False) (sndbuf_body accepts x) good (λ r good', match r with
    | inl x' => ∃ k', 0 ≤ k' < k ∧ searching old accepts k' x' good'
    | inr _ => k = 0 ∧ searching old accepts 0 x good'
    end).
Proof.
  destruct x as [mn mx]. intros Hold Hmono (-> & Hk & H1 & H2 & H3 & H4). unfold sndbuf_body, MAX_SENDBUF_SIZE in *.
  destruct (Z.leb_spec mn mx) as [Hle|Hgt].
  2: { apply yields_ret. split; [lia|]. split_and!; try done; lia. }
  assert (i32 (u32 (mn + mx) / 2) = (mn + mx) / 2) as ->.
  { rewrite u32_small by lia. apply i32_small. split; [|apply Z.div_lt_upper_bound]; [|lia|lia].
    pose proof (Z.div_pos (mn + mx) 2). lia. }
  pose proof (Z.div_le_lower_bound (mn + mx) 2 mn ltac:(lia) ltac:(lia)).
  pose proof (Z.div_le_upper_bound (mn + mx) 2 mx ltac:(lia) ltac:(lia)). set (avg := (mn + mx) / 2) in *.
  destruct (accepts avg) eqn:Ha.
  - apply yields_bind, yields_modify, yields_ret. rewrite i32_small by lia. exists (mx - avg). split; [lia|].
    split_and!; [lia|lia|lia|exact H2|exact H3|]. right. split_and!; [lia|lia|done].
  - apply yields_ret. rewrite i32_small by lia. exists (avg - 1 - mn + 1). split; [lia|]. split_and!; [lia|lia|lia|unfold MAX_SENDBUF_SIZE; lia| |exact H4].
    intros n Hn. destruct (accepts n) eqn:En; [|done]. rewrite (Hmono avg n) in Ha by (done || lia). done.
Qed.

(** The search for the largest send buffer ends, for every kernel that
    refuses what is larger than a size it refuses, with the largest size up to
    [MAX_SENDBUF_SIZE] that the kernel accepts, or with none when it does not
    even accept the size the socket had. *)
Theorem maximize_sndbuf_correct old accepts
    (Hold : 0 ≤ old ≤ MAX_SENDBUF_SIZE) (Hmono : ∀ a b, a ≤ b → accepts b = true → accepts a = true) :
  ∃ good, maximize_sndbuf (Some old) accepts = Ok (tt, good) ∧
    if accepts old
    then old ≤ good ≤ MAX_SENDBUF_SIZE ∧ accepts good = true ∧ ∀ n, good < n ≤ MAX_SENDBUF_SIZE → accepts n = false
    else good = 0.
Proof.
  assert (yields (λ _, False) (loop FUEL (sndbuf_body accepts) (old, MAX_SENDBUF_SIZE)) 0 (λ _ good, ∃ mn mx,
    searching old accepts 0 (mn, mx) good)) as Hl.
  { apply (yields_loop _ FUEL _ (searching old accepts) _ (MAX_SENDBUF_SIZE - old + 1)).
    - intros k x g Hs. eapply yields_mono; [|apply (sndbuf_turn old accepts k x g (proj1 Hold) Hmono Hs)]. intros [x'|[]] g' Hx; [done|].
      destruct x as [mn mx]. destruct Hx as [_ Hx]. by exists mn, mx.
    - split_and!; [lia|lia|lia|lia|lia|by left].
    - change (2 ^ Z.of_nat FUEL) with (2 ^ 64). unfold MAX_SENDBUF_SIZE. lia. }
  apply wp_yields in Hl as ([] & good & E & mn & mx & Hk & _ & H1 & H2 & H3 & H4). exists good. split; [exact E|]. clear E.
  destruct (accepts old) eqn:Ho.
  - destruct H4 as [[-> ->]|(H4 & -> & H5)].
    + rewrite H3 in Ho by lia. done.
    + split_and!; [lia|lia|done|]. intros n Hn. apply H3. lia.
  - destruct H4 as [[_ ->]|(H4 & -> & H5)]; [done|]. rewrite (Hmono old (mn - 1)) in Ho by (done || lia). done.
Qed.
Lemma maximize_sndbuf_correct_witness :
  ∃ good, maximize_sndbuf (Some 212992) (λ n, n <=? 1000000) = Ok (tt, good) ∧ 212992 ≤ good ∧ (good <=? 1000000) = true.
Proof.
  destruct (maximize_sndbuf_correct 212992 (λ n, n <=? 1000000)) as (good & E & H).
  - unfold MAX_SENDBUF_SIZE. lia.
  - intros a b Hab Hb. apply Z.leb_le in Hb. apply Z.leb_le. lia.
  - cbn beta in H. change (212992 <=? 1000000) with true in H. destruct H as (H1 & H2 & _).
    exists good. split; [exact E|]. split; [apply H1|exact H2].
Defined.

(** ** The list of interfaces *)
(** An interface: a host name or an address in brackets, with its port. *)
Inductive iface : Set := Plain (host : list Z) (port : option Z) | Bracketed (addr : list Z) (port : option Z).
Definition free_of (cs : list Z) (s : list Z) : Prop := Forall (λ c, c ∉ cs) s.
Definition port_text (p : option Z) : list Z := match p with Some n => 58 :: fmt_u n | None => [] end.
Definition iface_text (i : iface) : list Z :=
  match i with
  | Plain h p => h ++ port_text p
  | Bracketed a p => 91 :: a ++ 93 :: port_text p
  end.
Definition iface_host (i : iface) : list Z := match i with Plain h _ => h | Bracketed a _ => a end.
Definition iface_port (i : iface) : option Z := match i with Plain _ p | Bracketed _ p => p end.
Definition port_valid (p : option Z) : Prop := match p with Some n => 0 ≤ n < 2 ^ 31 | None => True end.
Definition iface_valid (i : iface) : Prop :=
  port_valid (iface_port i) ∧
  match i with
  | Plain h _ => h ≠ [] ∧ head h ≠ Some 91 ∧ free_of [44; 59; 58] h
  | Bracketed a _ => free_of [44; 59; 93] a
  end.
(** Where a server listens for it: every address for "*". *)
Definition iface_target (port : Z) (tr : network_transport) (i : iface) : option (list Z) * Z * network_transport :=
  (if bool_decide (iface_host i = str "*") then None else Some (iface_host i),
   let p := default port (iface_port i) in if p =? -1 then 0 else p, tr).
Fixpoint joined (l : list (list Z)) : list Z :=
  match l with [] => [] | [x] => x | x :: l => x ++ 44 :: joined l end.

Lemma strchr_found c a r : free_of [c] a → strchr (a ++ c :: r) c = Some (a, r).
Proof.
  intros Ha. unfold strchr. induction Ha as [|x a Hx Ha IH]; cbn [app drop_while take_while].
  - by rewrite Z.eqb_refl.
  - assert (x ≠ c) as Hne by set_solver. rewrite (proj2 (Z.eqb_neq _ _) Hne). cbn [negb].
    destruct (drop_while _ (a ++ c :: r)); [done|]. by injection IH as -> ->.
Qed.
Lemma strchr_missing c a : free_of [c] a → strchr a c = None.
Proof.
  intros Ha. unfold strchr. induction Ha as [|x a Hx Ha IH]; cbn [drop_while]; [done|].
  assert (x ≠ c) as Hne by set_solver. rewrite (proj2 (Z.eqb_neq _ _) Hne). cbn [negb].
  by destruct (drop_while _ a).
Qed.
Lemma free_of_sub cs cs' s : cs' ⊆ cs → free_of cs s → free_of cs' s.
Proof. intros Hs. apply Forall_impl. set_solver. Qed.


(** The tokens of a text that does not need quoting. *)
Lemma tokens_word x acc r :
  free_of [44; 59] x → interface_tokens acc (x ++ r) = interface_tokens (acc ++ x) r.
Proof.
  intros Hx. revert acc. induction Hx as [|c x Hc Hx IH]; intros acc; cbn [app]; [by rewrite app_nil_r|].
  cbn [interface_tokens]. unfold is_separator. assert (c ≠ 44 ∧ c ≠ 59) as [H1 H2] by set_solver.
  rewrite (proj2 (Z.eqb_neq _ _) H1), (proj2 (Z.eqb_neq _ _) H2). cbn [orb]. rewrite IH. by rewrite <- app_assoc.
Qed.
Lemma tokens_joined l :
  Forall (λ x, x ≠ [] ∧ free_of [44; 59] x) l → interface_tokens [] (joined l) = l.
Proof.
  induction 1 as [|x l [Hne Hx] Hl IH]; [done|]. destruct l as [|y l].
  - cbn [joined]. rewrite <- (app_nil_r x), tokens_word by done. rewrite app_nil_r. by destruct x.
  - change (joined (x :: y :: l)) with (x ++ 44 :: joined (y :: l)). rewrite tokens_word by done. cbn [app interface_tokens]. change (is_separator 44) with true. cbn beta iota.
    rewrite IH. by destruct x.
Qed.

Lemma digits_free n cs : 0 ≤ n → Forall (λ c, c < 48 ∨ 57 < c) cs → free_of cs (fmt_u n).
Proof.
  intros Hn Hcs. apply Forall_forall. intros c Hc Hin. pose proof (udec_digits 20 n Hn) as Hd. rewrite forallb_forall in Hd.
  specialize (Hd c Hc). unfold isdigit in Hd. apply andb_true_iff in Hd as [?%Z.leb_le ?%Z.leb_le].
  rewrite Forall_forall in Hcs. apply list_elem_of_In in Hin. specialize (Hcs c Hin). lia.
Qed.
Lemma port_text_free p cs : port_valid p → Forall (λ c, c < 48 ∨ 58 < c) cs → free_of cs (port_text p).
Proof.
  intros Hp Hcs. destruct p as [n|]; [|constructor]. constructor.
  - rewrite Forall_forall in Hcs. intros Hin%list_elem_of_In. specialize (Hcs 58 Hin). lia.
  - apply digits_free; [cbn in Hp; lia|]. eapply Forall_impl; [|exact Hcs]. cbn. lia.
Qed.
Lemma iface_text_token i : iface_valid i → iface_text i ≠ [] ∧ free_of [44; 59] (iface_text i).
Proof.
  intros [Hp Hi]. assert (free_of [44; 59] (port_text (iface_port i))) as Hpt by (apply port_text_free; [done|repeat constructor; lia]).
  destruct i as [h p|a p]; cbn [iface_text iface_port] in *.
  - destruct Hi as (Hne & _ & Hf). split; [by destruct h|]. apply Forall_app. split; [eapply free_of_sub; [|exact Hf]; set_solver|done].
  - split; [done|]. constructor; [set_solver|]. apply Forall_app. split; [eapply free_of_sub; [|exact Hi]; set_solver|].
    constructor; [set_solver|done].
Qed.

Lemma strtol_port n : 0 ≤ n < 2 ^ 31 → safe_strtol (fmt_u n) = (true, n).
Proof. intros Hn. rewrite (proj2 (safe_strtoul_truncates n ltac:(lia))). by rewrite i32_small by lia. Qed.

(** What an interface asks for is what its text is parsed to. *)
Lemma split_iface i port :
  iface_valid i →
  split_interface (iface_text i) port =
    Some (if bool_decide (iface_host i = str "*") then None else Some (iface_host i), default port (iface_port i)).
Proof.
  intros [Hp Hi]. unfold split_interface. destruct i as [h p|a p]; cbn [iface_text iface_port iface_host] in *.
  - destruct Hi as (Hne & Hhd & Hf).
    assert (match h ++ port_text p with 91 :: p' => '(h, rest) ← strchr p' 93; mret (Some h, rest) | _ => mret (None, h ++ port_text p) end
      = Some (None, h ++ port_text p)) as ->.
    { destruct h as [|c h]; [done|]. cbn in Hhd. cbn [app]. assert (c ≠ 91) by congruence.
      destruct c as [|c|c]; try done. repeat (destruct c as [c|c|]; try done). }
    cbn [mbind option_bind]. destruct p as [n|]; cbn [port_text].
    + rewrite strchr_found by (eapply free_of_sub; [|exact Hf]; set_solver).
      rewrite (strchr_missing 58 (fmt_u n)) by (apply digits_free; [cbn in Hp; lia|repeat constructor; lia]).
      rewrite bool_decide_eq_true_2 by done. cbn [orb]. rewrite strtol_port by done. done.
    + rewrite app_nil_r, strchr_missing by (eapply free_of_sub; [|exact Hf]; set_solver). done.
  - rewrite strchr_found by (eapply free_of_sub; [|exact Hi]; set_solver). cbn [mbind option_bind mret option_ret].
    destruct p as [n|]; cbn [port_text].
    + change (58 :: fmt_u n) with ([] ++ 58 :: fmt_u n). rewrite strchr_found by constructor. rewrite (bool_decide_eq_true_2 (is_Some (Some a))) by done.
      rewrite orb_true_r. rewrite strtol_port by done. done.
    + done.
Qed.

Lemma yields_frame {S A U} (f : S → U) (m : M S A) s : frame f m → yields any m s (λ _ s', f s' = f s).
Proof. intros Hf. apply yields_frame_any; [apply Hf|done]. Qed.

(** What is asked of the resolver is only recorded by [server_socket]. *)
Lemma frame_sopts {A} (m : om A) : frame asked (sopts m).
Proof. apply frame_zoom_out. done. Qed.
Lemma frame_ssys {A} (m : sys A) : frame asked (ssys m).
Proof. apply frame_sopts. Qed.
#[export] Hint Resolve frame_sopts frame_ssys : frames.
Lemma frame_write_port a tr : frame asked (write_port a tr).
Proof. unfold write_port. frame_tac. Qed.
Lemma frame_listen_on fd tr : frame asked (listen_on fd tr).
Proof. unfold listen_on. frame_tac. Qed.
Lemma frame_udp_threads fd dups l : frame asked (foldl (λ m i, u ← m; udp_thread fd dups u i) (mret tt) l).
Proof. apply frame_foldl; [apply frame_ret|]. intros m x Hm. apply frame_bind; [done|]. intros ?. apply frame_ssys. Qed.
#[export] Hint Resolve frame_write_port frame_listen_on frame_udp_threads : frames.
Lemma frame_next_address tr r a : frame asked (next_address tr r a).
Proof. unfold next_address, try_address, scfg. frame_tac. Qed.

Lemma server_socket_asks h p tr s :
  yields any (server_socket h p tr) s (λ _ s', asked s' = asked s ++ [(h, if p =? -1 then 0 else p, tr)]).
Proof.
  unfold server_socket. apply yields_bind, yields_modify, yields_bind, yields_gets. set (s1 := set_asked _ s).
  destruct (answers s1) as [|[addrs|] l]; [by apply yields_bind, yields_modify| |by apply yields_bind, yields_modify].
  apply yields_bind, yields_modify, yields_bind. eapply yields_mono; [|apply (yields_frame asked)].
  - intros r s2 E. apply yields_ret. by rewrite E.
  - apply frame_foldl; [apply frame_ret|]. intros m a Hm. apply frame_bind; [done|]. intros r. apply frame_next_address.
Qed.

(** C31: a list of interfaces is listened on as it is written: for host names
    and bracketed addresses, with or without a port, separated by commas,
    [server_sockets] asks for each of them in order, with its own port or the
    configured one, and for every address when it is "*".  Nothing is skipped
    when one of them cannot be bound. *)
Theorem server_sockets_asks (l : list iface) port tr s s' r
    (Hinter : inter (opts s) = Some (joined (iface_text <$> l))) (Hl : Forall iface_valid l)
    (Hmem : mallocs (en (wd (csys (osys (opts s))))) = [])
    (Hrun : server_sockets port tr s = Ok (r, s')) :
  asked s' = asked s ++ (iface_target port tr <$> l).
Proof.
  refine (yields_inv any (server_sockets port tr) s (λ _ s', asked s' = asked s ++ (iface_target port tr <$> l)) r s' _ Hrun). clear r s' Hrun.
  unfold server_sockets. apply yields_bind, yields_gets. rewrite Hinter.
  rewrite tokens_joined by (apply Forall_fmap; eapply Forall_impl; [|exact Hl]; intros i; apply iface_text_token).
  apply yields_bind. unfold sopts, omalloc, osysio, ocrawl, csysio, wio, zoom, malloc_ok. unfold yields at 1. rewrite Hmem. cbn [negb].
  apply yields_bind. eapply yields_mono; [|apply (yields_foldl any (bind_interface port tr) (λ rest r s', ∃ l1 l2 v, l = l1 ++ l2 ∧
    rest = iface_text <$> l2 ∧ r = inl v ∧ asked s' = asked s ++ (iface_target port tr <$> l1)))].
  - intros r s' (l1 & l2 & v & -> & E & -> & Ha). destruct l2; [|done]. rewrite app_nil_r. by apply yields_ret.
  - exists [], l, 0. split_and!; [done|done|done|]. by rewrite app_nil_r.
  - intros r x rest s1 (l1 & [|i l2] & v & El & [= -> ->] & -> & Ha). cbn [bind_interface].
    assert (iface_valid i) as Hi by (rewrite El in Hl; apply Forall_app in Hl as [_ Hl]; by inversion Hl).
    rewrite split_iface by done. apply yields_bind. eapply yields_mono; [|apply server_socket_asks]. intros r s2 E. apply yields_ret.
    exists (l1 ++ [i]), l2, (Z.lor v r). split_and!; [by rewrite <- app_assoc|done|done|].
    rewrite E, Ha, fmap_app, app_assoc. done.
Qed.

(** ** A concrete run *)
(** A host whose resolver knows no address. *)
Definition cold_logger : logsys :=
  LogSys ∅ None None 0 1 false ∅ 0 [] 0 (LoggerStats 0 0 0 0) [] [] [] [] ∅ cold_system.
Definition cold_startup (l : option (list Z)) : startup :=
  Startup (set_inter l cold_options) [] [] [] None false false 0 1 cold_logger (idle_backup ∅).
Definition some_ifaces : list iface := [Plain (str "localhost") (Some 11212); Bracketed (str "::1") None; Plain (str "*") None].
Definition asked_of (r : result (Z * startup)) : option (list (option (list Z) * Z * network_transport)) :=
  match r with Ok (_, s) => Some (asked s) | Fault _ => None end.
Lemma server_sockets_asks_witness :
  asked_of (server_sockets 11211 tcp_transport (cold_startup (Some (str "localhost:11212,[::1],*")))) =
  Some (iface_target 11211 tcp_transport <$> some_ifaces).
Proof.
  set (s := cold_startup _).
  destruct (server_sockets 11211 tcp_transport s) as [[r s']|f] eqn:E.
  - cbn [asked_of]. f_equal.
    apply (server_sockets_asks some_ifaces 11211 tcp_transport s s' r).
    + reflexivity.
    + repeat constructor; cbn; try lia; try discriminate; unfold free_of; repeat constructor; set_solver.
    + reflexivity.
    + exact E.
  - assert (asked_of (server_sockets 11211 tcp_transport s) ≠ None) as Hn by (vm_compute; discriminate). rewrite E in Hn. by destruct Hn.
Defined.
