(* ===== verification/Startup.v ===== *)
(** * [main] (memcached.c), up to its event loop

    The options are read and checked (Options.v), the components are
    initialised in the order of the source, the threads are started, the sockets
    opened (Sockets.v) and replication is set up (Rdma.v).  These are the steps of
    the main thread alone: the threads it starts take theirs in the models of
    their own files.  The pid file and the privileges to drop are left out. *)
From Stdlib Require Import ZArith Lia SpecFloat.
From stdpp Require Import strings prelude gmap list functions.
From S2P Require Import Rdma.
From S2P Require Import Prelude Mem Util Hash Item State Memlog Assoc Items Prefix Pool Bip Conn ConnOps Ascii Thread Settings Logger Crawler Options Sockets.

(** What the start-up asks of its host besides [host]: the version of libevent,
    the time, the descriptor [dup] returns with the limit on descriptors, the
    bulk move of the environment, the readings of the clocks, the address of
    the unix socket and the machine's RDMA devices. *)
Record inputs := Inputs {
  in_host : host;
  event_version : option (list Z);
  time_0 : Z;
  next_fd : Z;
  rlim_max : option Z;
  bulk_move : option (list Z);
  port_filename : bool;
  mono : option Z * option Z;
  time_of_day : Z;
  unix_address : address;
  rdma_machine : machine
}.

(** An old libevent: version 1.0, 1.1 or 1.2. *)
Definition sanitycheck (ever : option (list Z)) : bool :=
  match ever with
  | None => true
  | Some v =>
      let c2 := default 0 (v !! 2%nat) in
      negb (is_prefix (str "1.") v && ((48 <=? c2) && (c2 <? 51)) && negb (isdigit (default 0 (v !! 3%nat))))
  end.

Definition stats_init (now : Z) : io unit :=
  _ ← srv (upd_cnt (λ c, set_stats_flag (<[accepting_conns := true]> (λ _, false))
        (set_stats_state (λ _, 0) (set_stats (λ _, 0) c))));
  _ ← srv (modify (set_process_started (now - ITEM_UPDATE_INTERVAL - 2)));
  modify (λ w, set_px (stats_prefix_init (px w)) w).

Definition start_assoc_maintenance_thread (env : option (list Z)) : st Z :=
  _ ← match env with
      | None => mret tt
      | Some e => modify (set_hash_bulk_move (if atoi e =? 0 then DEFAULT_HASH_BULK_MOVE else atoi e))
      end;
  ok ← ssys (wio event_ok);
  mret (if ok : bool then 0 else -1).

Definition start_lru_maintainer_thread : om Z :=
  _ ← setting (set_lru_maintainer_thread true);
  ok ← osysio (wio event_ok);
  mret (if ok : bool then 0 else -1).

Definition start_conn_timeout_thread : st Z :=
  c ← scfg;
  if idle_timeout c =? 0 then mret (-1)
  else ok ← ssys (wio event_ok); mret (if ok : bool then 0 else -1).

(** The logger's operations on the same system. *)
Definition slogger {A} (m : lg A) : st A :=
  zoom (λ s, set_lsys (csys (osys (opts s))) (slog s))
       (λ l s, let o := opts s in set_opts (set_osys (set_csys (lsys l) (osys o)) o) (set_slog l s)) m.

Definition exit_unless (code : Z) (ok : bool) : st unit := when (negb ok) (fail (Exited code)).
Definition smalloc : st bool := sopts omalloc.
Definition sserver {A} (m : server A) : st A := sopts (oserver m).

Section main.
Context (I : inputs).

Definition init_components : st unit :=
  _ ← slogger logger_init;
  _ ← ssys (wio (stats_init (time_0 I)));
  c ← scfg;
  ok ← smalloc; _ ← sserver (assoc_init (hashpower_init c) ok);
  _ ← ssys (wio (conn_init (next_fd I) (rlim_max I)));
  ok ← smalloc; _ ← sserver (memlog_init ok);
  ok ← smalloc; _ ← sserver (freelist_init MEMLOG_DEFAULT_SIZE ok);
  exit_unless EX_OSERR (sigpipe_ok (in_host I)).

Definition start_threads : st unit :=
  c ← scfg;
  _ ← ssys (memcached_thread_init (num_threads c));
  r ← start_assoc_maintenance_thread (bulk_move I);
  _ ← exit_unless 1 (negb (r =? -1));
  o ← gets opts;
  _ ← when (start_lru_crawler o) (r ← sopts (ocrawl start_item_crawler_thread); exit_unless 1 (r =? 0));
  _ ← when (start_lru_maintainer o) (r ← sopts start_lru_maintainer_thread; exit_unless 1 (r =? 0));
  c ← scfg;
  _ ← exit_unless 1 (negb (slab_reassign c));
  when (negb (idle_timeout c =? 0)) (r ← start_conn_timeout_thread; exit_unless 1 (negb (r =? -1))).

Definition open_sockets : st unit :=
  o ← gets opts;
  match socketpath o with
  | Some path => r ← server_socket_unix path (unix_address I); exit_unless EX_OSERR (r =? 0)
  | None =>
      _ ← modify (set_portnumber_file (if port_filename I then Some [] else None));
      c ← scfg;
      _ ← when (negb (port c =? 0)) (r ← server_sockets (port c) tcp_transport; exit_unless EX_OSERR (r =? 0));
      when (negb (udpport c =? 0)) (r ← server_sockets (udpport c) udp_transport; exit_unless EX_OSERR (r =? 0))
  end.

(** Descriptors in use and reserved against the limit. *)
Definition check_maxconns : st unit :=
  c ← scfg;
  k ← sserver (gets cnt);
  exit_unless 1 (negb (u64 (stats_state k curr_conns + stats_state k reserved_fds) >=? u64 (i32 (maxconns c - 1)))).

(** As a backup server, or else as a backup client; what [rdma_init] returns is
    not looked at. *)
Definition begin_replication : st unit :=
  c ← scfg;
  o ← gets opts;
  limit ← sserver (gets get_memory_limit);
  zoom sbackup set_sbackup (start_backup (rdma_machine I) limit (backup_server c) (backup_client c)
    (backup_client_servername o) (i32 (backup_ibv_port c)) (backup_sgid_index c)).

Definition main (argv : list (list Z)) : st unit :=
  _ ← exit_unless EX_OSERR (sanitycheck (event_version I));
  _ ← sopts reset_settings;
  _ ← sopts (ocrawl (init_lru_crawler false));
  _ ← sopts (parse_options (in_host I) argv);
  _ ← sopts check_options;
  _ ← sopts (check_host (in_host I));
  _ ← init_components;
  _ ← start_threads;
  _ ← clock_handler (mono I) (time_of_day I);
  _ ← open_sockets;
  _ ← check_maxconns;
  begin_replication.
End main.
