(* ===== verification/StartupFacts.v ===== *)
(** * The server that starts is the server the other theorems are about

    The invariants of the components hold when [main] reaches its event loop,
    whatever the command line and the answers of the host; and some command
    lines never get there. *)
From Stdlib Require Import ZArith Lia.
From stdpp Require Import strings prelude gmap list functions.
From S2P Require Import Rdma.
From S2P Require Import Prelude Mem Util Hash Item State Memlog Assoc AssocFacts Items ItemFacts ItemSpec ItemClaims Prefix Pool Bip Conn ConnOps Ascii Thread ThreadFacts Settings Logger Crawler CrawlerFacts Options OptionsFacts Sockets SocketsFacts Startup.

(** ** What the options leave alone *)
(** The parts of the server that only [init_components] sets up. *)
Definition hardware (x : crawlsys) :=
  let y := csys x in let k := kv (wd y) in
  (tab k, first_free k, cq_items y, last_thread y, conn_thread y, crawlers x, crawler_count x, lru_crawler_lock x, cm_client x).
Definition ohardware (o : options) := hardware (osys o).

Lemma frame_setting f : frame ohardware (setting f).
Proof. intros s a s' [= <- <-]. done. Qed.
Lemma frame_omalloc : frame ohardware omalloc.
Proof.
  intros s a s'. unfold omalloc, osysio, ocrawl, csysio, wio, zoom, malloc_ok.
  destruct (mallocs _); intros [= <- <-]; done.
Qed.
Lemma frame_ocfg : frame ohardware ocfg.
Proof. intros s a s' [= <- <-]. done. Qed.
Lemma frame_sizes_init b : frame ohardware (oserver (item_stats_sizes_init b)).
Proof.
  intros s a s' E. refine (yields_inv any _ s (λ _ s', ohardware s' = ohardware s) a s' _ E).
  apply yields_stats_sizes. intros c i. done.
Qed.
#[export] Hint Resolve frame_setting frame_omalloc frame_ocfg frame_sizes_init : frames.
Ltac frame_options := unfold set_binding, usage_unless, os_unless, required, val_atoi, val_strtoul, reject; frame_tac.

Lemma frame_parse_subopt k v : frame ohardware (parse_subopt k v).
Proof. destruct k; cbn [parse_subopt]; frame_options. Qed.
Lemma frame_parse_subopts a : frame ohardware (parse_subopts a).
Proof.
  unfold parse_subopts. frame_options. apply frame_foldl; [apply frame_ret|]. intros m p Hm. apply frame_bind; [done|]. intros [].
  unfold parse_piece. destruct (getsubopt p) as [[k|] v]; frame_options. apply frame_parse_subopt.
Qed.
#[export] Hint Resolve frame_parse_subopts : frames.
Lemma frame_parse_option H c a : frame ohardware (parse_option H c a).
Proof.
  unfold parse_option, add_interface, parse_binding, parse_item_size, parse_size. frame_options.
Qed.
Lemma frame_parse_options H argv : frame ohardware (parse_options H argv).
Proof. apply frame_foldl; [apply frame_ret|]. intros m o Hm. apply frame_bind; [done|]. intros _. apply frame_parse_option. Qed.
Lemma frame_check_options : frame ohardware check_options.
Proof.
  unfold check_options, check_sizes, check_slab_sizes, check_lru, choose_hash, choose_udp_threads, choose_protocol, choose_ports, modulo.
  frame_options.
Qed.
Lemma frame_check_host H : frame ohardware (check_host H).
Proof. unfold check_host. frame_options. Qed.

(** ** Initialisation *)
Definition sy (s : startup) : system := csys (osys (opts s)).
(** The start-up state with another world and another logger. *)
Definition at_world (w : world) (l : logsys) (s : startup) : startup :=
  set_slog l (set_opts (set_osys (set_csys (set_wd w (sy s)) (osys (opts s))) (opts s)) s).
Lemma at_world_id s : at_world (wd (sy s)) (slog s) s = s.
Proof. by destruct s as [[? ? ? ? ? ? ? ? ? ? ? ? ? ? ? ? ? ? ? [? ? ? ? ? ? ? ? ? ? ? ? ? ? []]]]. Qed.

Lemma yields_at {A} (m : io A) w l s (Q : A → startup → Prop) :
  yields any m w (λ a w', Q a (at_world w' l s)) → yields any (ssys (wio m)) (at_world w l s) Q.
Proof.
  unfold ssys, sopts, osysio, ocrawl, csysio, wio, zoom, yields. cbn. by destruct (m w) as [[a w']|].
Qed.

(** What the items are stored in, and the configuration. *)
Definition storage (w : world) := let k := kv w in (log k, ml k, meta k, first_free k, tab k, cfg k).
Definition kstorage (k : cache) := (log k, ml k, meta k, first_free k, tab k, cfg k).
Lemma frame_srv_storage {A} (m : server A) : frame kstorage m → frame storage (srv m).
Proof. by apply frame_zoom. Qed.
Lemma frame_malloc_storage : frame storage malloc_ok.
Proof. intros w a w'. unfold malloc_ok. destruct (mallocs (en w)); by intros [= <- <-]. Qed.
Lemma frame_event_storage : frame storage event_ok.
Proof. intros w a w'. unfold event_ok. destruct (ev_ops (en w)); by intros [= <- <-]. Qed.
#[export] Hint Resolve frame_srv_storage frame_malloc_storage frame_event_storage : frames.
Lemma frame_upd_cnt f : frame kstorage (upd_cnt f).
Proof. unfold upd_cnt. frame_tac. Qed.
#[export] Hint Resolve frame_upd_cnt : frames.
Lemma frame_stats_put k v : frame kstorage (stats_put k v).
Proof. apply frame_upd_cnt. Qed.
Lemma frame_stats_add_st k v : frame kstorage (stats_add k v).
Proof. apply frame_upd_cnt. Qed.
Lemma frame_state_add_st k v : frame kstorage (state_add k v).
Proof. apply frame_upd_cnt. Qed.
Lemma frame_process_started t : frame kstorage (modify (set_process_started t)).
Proof. frame_tac. Qed.
#[export] Hint Resolve frame_stats_put frame_stats_add_st frame_state_add_st frame_process_started : frames.
Lemma frame_stats_init t : frame storage (stats_init t).
Proof. unfold stats_init. frame_tac. Qed.
Lemma frame_conn_init n r : frame storage (conn_init n r).
Proof. unfold conn_init, on_en. frame_tac. Qed.
Lemma frame_new_conn fd st fl rbs tr b p : frame storage (conn_new fd st fl rbs tr b p).
Proof. unfold conn_new, malloc_counted, conn_buffers, on_en. frame_tac. Qed.
#[export] Hint Resolve frame_stats_init frame_conn_init frame_new_conn : frames.

Lemma logger_init_at w l s :
  yields any (slogger logger_init) (at_world w l s) (λ _ s', ∃ w' l', s' = at_world w' l' s ∧ storage w' = storage w).
Proof.
  unfold slogger, logger_init, lsysio, wio, srv, zoom, yields, mbind, M_bind, modify. cbn.
  unfold event_ok. destruct (ev_ops (en w)) as [|[|] l0]; cbn; try exact I.
  - eexists _, _. split; [reflexivity|done].
  - eexists _, _. split; [reflexivity|done].
Qed.

Definition start_power (c : settings) : Z := if hashpower_init c =? 0 then HASHPOWER_DEFAULT else hashpower_init c.
Definition slots : nat := Z.to_nat (MEMLOG_DEFAULT_SIZE / SIZEOF_item_metadata).
(** The storage as [init_components] leaves it. *)
Record initialised (c : settings) (w : world) : Prop := {
  in_log : log (kv w) = ∅;
  in_ml : ml (kv w) = fresh_log;
  in_tab : tab (kv w) = empty_table (start_power c);
  in_cfg : cfg (kv w) = c;
  in_free : freelist (meta (kv w)) (first_free (kv w)) (down slots);
  in_slots : dom (meta (kv w)) = dom (zeroed_slots slots)
}.

Lemma yields_srv {A} (m : server A) w (Q : A → world → Prop) :
  yields any m (kv w) (λ a k, Q a (set_kv k w)) → yields any (srv m) w Q.
Proof. unfold srv, zoom, yields. by destruct (m (kv w)) as [[a k]|]. Qed.
Lemma assoc_init_spec p b k :
  tab k = empty_table 16 → yields any (assoc_init p b) k (λ _ k',
    tab k' = empty_table (if p =? 0 then 16 else p) ∧ first_free k' = first_free k ∧ cfg k' = cfg k).
Proof.
  intros Ht. unfold assoc_init. destruct b; [|destruct (p =? 0); exact I]. destruct k; cbn in Ht; subst. by destruct (p =? 0).
Qed.
Lemma memlog_init_spec b k :
  yields any (memlog_init b) k (λ _ k', log k' = ∅ ∧ ml k' = fresh_log ∧ tab k' = tab k ∧ first_free k' = first_free k ∧ cfg k' = cfg k).
Proof. destruct b; [done|exact I]. Qed.
Lemma freelist_init_yields b k :
  first_free k = None → yields any (freelist_init MEMLOG_DEFAULT_SIZE b) k (λ _ k', ∃ me ff,
    k' = set_first_free ff (set_meta me k) ∧ freelist me ff (down slots) ∧ dom me = dom (zeroed_slots slots)).
Proof. intros Hk. destruct b; [|exact I]. apply yields_wp. exact (freelist_init_spec MEMLOG_DEFAULT_SIZE k Hk). Qed.

Lemma slots_bound : Z.of_nat slots < 2 ^ 32.
Proof. unfold slots. rewrite Z2Nat.id by (vm_compute; discriminate). reflexivity. Qed.
#[global] Opaque slots.

(** The next allocation, and an operation on the cache. *)
Lemma smalloc_at w l s (Q : bool → startup → Prop) :
  (∀ b w', storage w' = storage w → Q b (at_world w' l s)) → yields any smalloc (at_world w l s) Q.
Proof.
  intros HQ. apply (yields_at malloc_ok). eapply yields_mono; [|apply (yields_frame storage), frame_malloc_storage]. intros b w' E. by apply HQ.
Qed.
Lemma sserver_at {A} (m : server A) w l s (Q : A → startup → Prop) :
  yields any m (kv w) (λ a k, Q a (at_world (set_kv k w) l s)) → yields any (sserver m) (at_world w l s) Q.
Proof. intros HQ. apply (yields_at (srv m)). by apply yields_srv. Qed.

Lemma init_components_spec inp s :
  tab (kv (wd (sy s))) = empty_table 16 → first_free (kv (wd (sy s))) = None →
  yields any (init_components inp) s (λ _ s', ∃ w l, s' = at_world w l s ∧ initialised (cfg (kv (wd (sy s)))) w).
Proof.
  intros Htab Hff. set (c := cfg (kv (wd (sy s)))).
  assert (∀ w w', storage w' = storage w → log (kv w') = log (kv w) ∧ ml (kv w') = ml (kv w) ∧ tab (kv w') = tab (kv w) ∧
    first_free (kv w') = first_free (kv w) ∧ cfg (kv w') = cfg (kv w)) as Hst by (intros w w' [= -> -> _ -> -> ->]; done).
  rewrite <- (at_world_id s) at 1. unfold init_components. apply yields_bind.
  eapply yields_mono; [|apply logger_init_at]. intros [] s1 (w1 & l & -> & (_ & _ & T1 & F1 & C1)%Hst).
  rewrite Htab in T1. rewrite Hff in F1. fold c in C1. apply yields_bind, yields_at.
  eapply yields_mono; [|apply (yields_frame storage), frame_stats_init]. intros [] w2 (_ & _ & T2 & F2 & C2)%Hst.
  apply yields_bind. apply (yields_gets any (λ s : startup, cfg (kv (wd (sy s))))).
  change (cfg (kv (wd (sy (at_world w2 l s))))) with (cfg (kv w2)).
  apply yields_bind, smalloc_at. intros b3 w3 (_ & _ & T3 & F3 & C3)%Hst. apply yields_bind, sserver_at.
  eapply yields_mono; [|apply assoc_init_spec; congruence]. intros [] k4 (T4 & F4 & C4). apply yields_bind, yields_at.
  eapply yields_mono; [|apply (yields_frame storage), frame_conn_init]. intros [] w5 (_ & _ & T5 & F5 & C5)%Hst. cbn in T5, F5, C5.
  apply yields_bind, smalloc_at. intros b6 w6 (_ & _ & T6 & F6 & C6)%Hst. apply yields_bind, sserver_at.
  eapply yields_mono; [|apply memlog_init_spec]. intros [] k7 (L7 & M7 & T7 & F7 & C7).
  apply yields_bind, smalloc_at. intros b8 w8 (L8 & M8 & T8 & F8 & C8)%Hst. cbn in L8, M8, T8, F8, C8. apply yields_bind, sserver_at.
  eapply yields_mono; [|apply freelist_init_yields; congruence]. intros [] k9 (me & ff & -> & Hfl & Hdom).
  unfold exit_unless. destruct (sigpipe_ok _); [|exact I]. cbn [negb when]. apply yields_ret. eexists _, l. split; [reflexivity|].
  split; [exact (eq_trans L8 L7)|exact (eq_trans M8 M7)| | |exact Hfl|exact Hdom].
  - clear Hfl Hdom. etrans; [exact T8|]. rewrite T7. cbn. rewrite T6, T5, T4.
    unfold start_power, HASHPOWER_DEFAULT. change (cfg (kv (wd (sy (set_opts _ _))))) with (cfg (kv w2)). rewrite C2, C1. reflexivity.
  - clear Hfl Hdom. etrans; [exact C8|]. rewrite C7. cbn. rewrite C6, C5, C4, C3, C2, C1. reflexivity.
Qed.

(** ** The invariant of the threads and the sockets *)
(** What the later steps of the start-up leave alone. *)
Definition essence (w : world) :=
  let k := kv w in (log k, ml k, meta k, first_free k, tab k, hash (cfg k), num_threads (cfg k), slab_reassign (cfg k), maxconns (cfg k)).
Definition frozen (y : system) := (essence (wd y), item_lock_hashpower y).
Lemma frame_essence {A} (m : io A) : frame storage m → frame essence m.
Proof. intros Hm w a w' E%Hm. unfold essence. by injection E as -> -> -> -> -> ->. Qed.

(** The workers are served in turn from consistent queues, no crawl runs, and
    the rest is as it was. *)
Record up (y : system) (s : startup) : Prop := {
  up_frozen : frozen (sy s) = frozen y;
  up_hand : ∃ Q F, hand_ok (sy s) Q F;
  up_crawler : crawler_idle (osys (opts s))
}.
(** An operation of the start-up that keeps them so. *)
Definition keeps {A} (m : st A) : Prop := ∀ z s, up z s → yields any m s (λ _ s', up z s').

Lemma keeps_ret {A} (a : A) : keeps (mret a).
Proof. by intros z s Hs. Qed.
Lemma keeps_fail {A} e : keeps (A:=A) (fail e).
Proof. by intros z s Hs. Qed.
Lemma keeps_gets {A} (f : startup → A) : keeps (gets f).
Proof. by intros z s Hs. Qed.
Lemma keeps_scfg : keeps scfg.
Proof. intros z s [H1 H2 H3]. split; [exact H1|exact H2|exact H3]. Qed.
Lemma keeps_bind {A B} (m : st A) (k : A → st B) : keeps m → (∀ a, keeps (k a)) → keeps (m ≫= k).
Proof. intros Hm Hk z s Hs. apply yields_bind. eapply yields_mono; [|by apply Hm]. intros a s'. apply Hk. Qed.
Lemma keeps_when b m : keeps m → keeps (when b m).
Proof. intros Hm. destruct b; [done|apply keeps_ret]. Qed.
Lemma keeps_foldl {X A} (f : A → X → st A) m l : keeps m → (∀ a x, keeps (f a x)) → keeps (foldl (λ m x, a ← m; f a x) m l).
Proof.
  intros Hm Hf z s Hs. apply (yields_foldl any f (λ _ _ s', up z s')); [by apply Hm|]. intros a x _ s' Hs'. by apply Hf.
Qed.
Lemma keeps_modify (f : startup → startup) : (∀ s, opts (f s) = opts s) → keeps (modify f).
Proof.
  intros Hf z s [H1 H2 H3]. apply yields_modify.
  assert (sy (f s) = sy s) as E by (unfold sy; by rewrite Hf). split; rewrite ?E, ?Hf; done.
Qed.
(** An operation on a connection or the cache. *)
Lemma keeps_world {A} (m : io A) : frame essence m → keeps (ssys (wio m)).
Proof.
  intros Hm z s [H1 (Q & F & Hh) H3]. unfold ssys, sopts, osysio, ocrawl, csysio, wio, zoom, yields.
  pose proof (Hm (wd (sy s))) as Hw. unfold sy in *. destruct (m _) as [[a w]|] eqn:E; [|exact I].
  specialize (Hw _ _ eq_refl). split; cbn.
  - rewrite <- H1. unfold frozen. cbn. by rewrite Hw.
  - exists Q, F. apply (hand_ok_parts _ _ _ _ Hh); try done; [by apply (ok_parts _ _ _ _ (ho_cq _ _ _ Hh))| |apply Hh].
    unfold nthreads. cbn. unfold essence in Hw. by injection Hw.
  - exact H3.
Qed.
Lemma keeps_close fd : keeps (ssys (close_fd fd)).
Proof.
  intros z s [H1 (Q & F & Hh) H3]. split; [done| |done]. exists Q, F.
  apply (hand_ok_parts _ _ _ _ Hh); try done; [by apply (ok_parts _ _ _ _ (ho_cq _ _ _ Hh))|apply Hh].
Qed.

Lemma frame_wio {A} (m : io A) : frame essence m → frame frozen (wio m).
Proof.
  intros Hm y a y'. unfold wio, zoom. destruct (m (wd y)) as [[b w]|] eqn:E; [|done]. intros [= <- <-].
  unfold frozen. cbn. by rewrite (Hm _ _ _ E).
Qed.
Lemma frame_get_cqi a : frame frozen (get_cqi a).
Proof. intros y x y'. unfold get_cqi. destruct (cq_items y !! a); [|done]. by intros [= <- <-]. Qed.
Lemma frame_get_worker t : frame frozen (get_worker t).
Proof. intros y x y'. unfold get_worker. destruct (t <? 0); [done|]. destruct (workers y !! _); [|done]. by intros [= <- <-]. Qed.
#[export] Hint Resolve frame_essence frame_wio frame_get_cqi frame_get_worker : frames.
Lemma frame_malloc_counted : frame storage malloc_counted.
Proof. unfold malloc_counted. frame_tac. Qed.
#[export] Hint Resolve frame_malloc_counted : frames.
Lemma frame_dispatch sfd st fl rbs tr : frame frozen (dispatch_conn_new sfd st fl rbs tr).
Proof.
  unfold dispatch_conn_new, dispatch_push, cqi_new, link_items, cq_push, notify, close_fd, upd_cqi, upd_worker. frame_tac.
  apply frame_foldl; [frame_tac|]. intros m i Hm. frame_tac.
Qed.
Lemma keeps_dispatch sfd st fl rbs tr : keeps (ssys (dispatch_conn_new sfd st fl rbs tr)).
Proof.
  intros z s [H1 (Q & F & Hh) H3]. pose proof (frame_dispatch sfd st fl rbs tr (sy s)) as Hf.
  destruct (dispatch_spec _ _ _ sfd st fl rbs tr Hh) as ([] & y & E & _ & Q' & F' & Hh' & _).
  specialize (Hf _ _ E). unfold ssys, sopts, osysio, ocrawl, csysio, zoom, yields. unfold sy in *. rewrite E. split; cbn.
  - etrans; [exact Hf|exact H1].
  - by exists Q', F'.
  - exact H3.
Qed.

#[export] Hint Resolve keeps_scfg keeps_world keeps_close keeps_dispatch : frames.
Ltac keeps_tac :=
  repeat lazymatch goal with
  | |- keeps (mbind _ _) => apply keeps_bind; [|intros ?]
  | |- keeps (mret _) => apply keeps_ret
  | |- keeps (fail _) => apply keeps_fail
  | |- keeps (gets _) => apply keeps_gets
  | |- keeps (when _ _) => apply keeps_when
  | |- keeps (modify _) => apply keeps_modify; intros ?; reflexivity
  | |- keeps (if ?b then _ else _) => destruct b
  | |- keeps (match ?x with _ => _ end) => destruct x
  | |- keeps _ => solve [auto with frames nocore]
  end.

Lemma keeps_exit n b : keeps (exit_unless n b).
Proof. unfold exit_unless. keeps_tac. Qed.
Lemma keeps_next_address tr r a : keeps (next_address tr r a).
Proof.
  unfold next_address, try_address, write_port, listen_on. keeps_tac.
  apply keeps_foldl; [keeps_tac|]. intros u i. unfold udp_thread. apply keeps_dispatch.
Qed.
Lemma keeps_server_socket h p tr : keeps (server_socket h p tr).
Proof. unfold server_socket. keeps_tac; (apply keeps_foldl; [keeps_tac|]; intros ? ?; apply keeps_next_address). Qed.
#[export] Hint Resolve keeps_exit keeps_server_socket : frames.
Lemma keeps_omalloc : keeps (sopts omalloc).
Proof. apply (keeps_world malloc_ok), frame_essence, frame_malloc_storage. Qed.
#[export] Hint Resolve keeps_omalloc : frames.
Lemma keeps_server_sockets p tr : keeps (server_sockets p tr).
Proof.
  unfold server_sockets. keeps_tac. apply keeps_foldl; [keeps_tac|]. intros r x. unfold bind_interface. keeps_tac.
Qed.
#[export] Hint Resolve keeps_server_sockets : frames.
Lemma keeps_open_sockets inp : keeps (open_sockets inp).
Proof. unfold open_sockets, server_socket_unix. keeps_tac. Qed.
Lemma frame_started_at : frame kstorage (gets process_started).
Proof. apply frame_gets. Qed.
Lemma frame_current_time v : frame kstorage (modify (set_current_time v)).
Proof. frame_tac. Qed.
#[export] Hint Resolve frame_started_at frame_current_time : frames.
Lemma keeps_clock mono tod : keeps (clock_handler mono tod).
Proof. unfold clock_handler, set_time. keeps_tac. Qed.

(** ** The threads *)
Definition still (y : system) :=
  (storage (wd y), cq_items y, cqi_freelist y, cq_brk y, last_thread y, conn_thread y, item_lock_hashpower y).
Lemma frame_wio_still {A} (m : io A) : frame storage m → frame still (wio m).
Proof.
  intros Hm y a y'. unfold wio, zoom. destruct (m (wd y)) as [[b w]|] eqn:E; [|done]. intros [= <- <-].
  unfold still. cbn. by rewrite (Hm _ _ _ E).
Qed.
#[export] Hint Resolve frame_wio_still : frames.
Lemma yields_both {S A} (m : M S A) s (P Q : A → S → Prop) :
  yields any m s P → yields any m s Q → yields any m s (λ a s', P a s' ∧ Q a s').
Proof. unfold yields. by destruct (m s) as [[a s']|]. Qed.

Definition setup_step (l : list worker) (_ : Z) : sys (list worker) :=
  ok ← wio event_ok; _ ← need ok; w ← setup_thread; _ ← wio (srv (state_add reserved_fds 5)); mret (l ++ [w]).
Lemma frame_setup l i : frame still (setup_step l i).
Proof. unfold setup_step, setup_thread, need. frame_tac. Qed.
Lemma yields_anything {S A B} (m : M S A) (k : A → M S B) s (Q : B → S → Prop) :
  (∀ a s', yields any (k a) s' Q) → yields any (m ≫= k) s Q.
Proof. intros Hk. apply yields_bind. unfold yields at 1. destruct (m s) as [[a s']|]; [apply Hk|exact I]. Qed.
Lemma yields_past {S A B U} (f : S → U) (m : M S A) (k : A → M S B) s (Q : B → S → Prop) :
  frame f m → (∀ a s', f s' = f s → yields any (k a) s' Q) → yields any (m ≫= k) s Q.
Proof. intros Hm Hk. apply yields_bind. eapply yields_mono; [|by apply (yields_frame f)]. exact Hk. Qed.
Lemma setup_value l i y : yields any (setup_step l i) y (λ l' _, l' = l ++ [cq_init (Worker None None [] false)]).
Proof.
  unfold setup_step. do 2 (apply yields_anything; intros ? ?). apply yields_bind. unfold setup_thread.
  do 8 (apply yields_anything; intros ? ?). apply yields_ret, yields_anything. intros ? ?. by apply yields_ret.
Qed.
Lemma setup_all (n : nat) y :
  yields any (foldl (λ m i, l ← m; setup_step l i) (mret []) (seqZ 0 (Z.of_nat n))) y
    (λ ws y', ws = replicate n (cq_init (Worker None None [] false)) ∧ still y' = still y).
Proof.
  eapply yields_mono; [|apply (yields_foldl any setup_step (λ r ws y', (∃ k, (k + length r = n)%nat ∧
    ws = replicate k (cq_init (Worker None None [] false))) ∧ still y' = still y))].
  - intros ws y' [(k & Hk & ->) Hy]. cbn in Hk. rewrite Nat.add_0_r in Hk. by subst k.
  - split; [|done]. exists 0%nat. by rewrite length_seqZ, Nat2Z.id.
  - intros ws x r y1 [(k & Hk & ->) Hy]. eapply yields_mono; [|apply yields_both; [apply setup_value|apply (yields_frame still), frame_setup]].
    intros ws' y2 [-> Hs]. split; [|congruence]. exists (S k). cbn in Hk. split; [lia|]. by rewrite replicate_S_end.
Qed.

(** The system once the workers run. *)
Lemma thread_init_spec (n : nat) y :
  (0 < n)%nat → nthreads (wd y) = Z.of_nat n → cq_items y = ∅ → last_thread y = -1 → conn_thread y = ∅ →
  yields any (memcached_thread_init (Z.of_nat n)) y (λ _ y',
    storage (wd y') = storage (wd y) ∧ item_lock_hashpower y' < hashpower (tab (kv (wd y'))) ∧ hand_ok y' (replicate n []) []).
Proof.
  intros Hn Ht Hi Hl Hc. unfold memcached_thread_init. apply yields_bind, yields_modify, yields_bind, yields_gets.
  cbv beta. cbn [wd set_worker_hang_lock set_cqi_freelist]. set (hp := hashpower _). rewrite Z.geb_leb. unfold need at 1.
  destruct (Z.leb_spec hp (item_lock_power (Z.of_nat n))) as [|Hlt]; [exact I|]. apply yields_bind, yields_ret, yields_bind, yields_modify.
  set (y1 := set_item_lock_hashpower _ _).
  apply (yields_past still); [frame_tac|]. intros b1 y2 E2. apply (yields_past still); [unfold need; frame_tac|]. intros _ y3 E3.
  apply (yields_past still); [frame_tac|]. intros b4 y4 E4. apply (yields_past still); [unfold need; frame_tac|]. intros _ y5 E5.
  apply yields_bind. eapply yields_mono; [|apply (setup_all n)]. intros ws y6 [-> E6]. apply yields_modify.
  assert (still y6 = still y1) as E by congruence. clear - E Hlt Hn Ht Hi Hl Hc.
  injection E as A1 A2 A3 A4 A5 A6 B1 B2 B3 B4 B5 B6. cbn in *. unfold storage, nthreads in *. cbn.
  split; [congruence|]. split; [rewrite B6, A5; exact Hlt|].
  rewrite <- A6 in Ht. pose proof (started_ok n (wd y6) Hn Ht) as Hs. pose proof Hs as [H1 H2 H3 H4 H5 H6].
  split; cbn; rewrite ?B4, ?B5, ?Hl, ?Hc; try done.
  destruct H1 as [O1 O2 O3 O4 O5 O6]. split; cbn; rewrite ?B1, ?B2, ?Hi; try done.
  intros a [x Hx]. by rewrite lookup_empty in Hx.
Qed.

(** A setting of a thread that none of the above reads. *)
Lemma keeps_setting f :
  (∀ c, hash (f c) = hash c ∧ num_threads (f c) = num_threads c ∧ slab_reassign (f c) = slab_reassign c ∧ maxconns (f c) = maxconns c) →
  keeps (sopts (setting f)).
Proof.
  intros Hf. apply (keeps_world (srv (upd_cfg f))). intros w a w' [= <- <-]. destruct (Hf (cfg (kv w))) as (E1 & E2 & E3 & E4).
  unfold essence. cbn. by rewrite E1, E2, E3, E4.
Qed.
Lemma yields_zoom {S T A B} (get : S → T) (set : T → S → S) (m : M T A) (k : A → M T B) s Q :
  (∀ t, get (set t s) = t) → (∀ t t', set t' (set t s) = set t' s) →
  yields any (zoom get set m ≫= λ a, zoom get set (k a)) s Q → yields any (zoom get set (m ≫= k)) s Q.
Proof.
  intros Hgs Hss. unfold yields, zoom, mbind, M_bind. destruct (m (get s)) as [[a t]|]; [|done]. rewrite Hgs.
  destruct (k a t) as [[b t']|]; [|done]. by rewrite Hss.
Qed.
Lemma keeps_sopts {A B} (m : om A) (k : A → om B) : keeps (sopts m) → (∀ a, keeps (sopts (k a))) → keeps (sopts (m ≫= k)).
Proof.
  intros Hm Hk z s Hs. apply yields_zoom; [done..|]. by apply (keeps_bind (sopts m) (λ a, sopts (k a))).
Qed.
Lemma keeps_sopts_ret {A} (a : A) : keeps (sopts (mret a)).
Proof. intros z s [H1 H2 H3]. by split. Qed.
Lemma keeps_event : keeps (ssys (wio event_ok)).
Proof. apply keeps_world, frame_essence, frame_event_storage. Qed.
#[export] Hint Resolve keeps_event : frames.
Lemma keeps_maintainer : keeps (sopts start_lru_maintainer_thread).
Proof.
  unfold start_lru_maintainer_thread. apply keeps_sopts; [by apply keeps_setting|intros _].
  apply keeps_sopts; [apply keeps_event|]. intros ok. apply keeps_sopts_ret.
Qed.

(** What the crawler's thread does on its way to its first wait. *)
Lemma start_crawler_spec x :
  lru_crawler_lock x = false → yields any start_item_crawler_thread x (λ _ x', ∃ b on w,
    x' = set_do_run_lru_crawler_thread b (set_csys (set_wd w (csys x)) x) ∧
    storage w = storage (set_kv (set_cfg (set_lru_crawler on (cfg (kv (wd (csys x))))) (kv (wd (csys x)))) (wd (csys x)))).
Proof.
  intros Hl. unfold start_item_crawler_thread. apply yields_bind, yields_gets.
  destruct (lru_crawler (cfg (kv (wd (csys x))))) eqn:E.
  - apply yields_ret. exists (do_run_lru_crawler_thread x), true, (wd (csys x)). split; [by destruct x as [? ? ? ? ? ? ? ? ? ? ? ? ? ? []]|].
    unfold storage. cbn. rewrite <- E. by destruct (cfg (kv (wd (csys x)))).
  - unfold crawler_lock, crawler_unlock. destruct x as [? ? lk ? ? ? ? ? ? ? ? ? ? ? [? ? ? ? ? ? ? ? ? ? [? ? ? ? e]]]. cbn in *. subst lk.
    unfold yields, cserver, csysio, wio, srv, zoom, upd_cfg, modify, event_ok, mbind, M_bind. cbn.
    destruct (ev_ops e) as [|[|] l]; cbn; [exists true, true|exists true, true|exists true, false]; eexists; (split; [reflexivity|]).
    1, 2: reflexivity. unfold storage. cbn. rewrite <- E. by destruct (cfg _).
Qed.
Lemma keeps_crawler : keeps (sopts (ocrawl start_item_crawler_thread)).
Proof.
  intros z s [H1 (Q & F & Hh) H3]. pose proof (start_crawler_spec (osys (opts s))) as Hx.
  destruct H3 as (I1 & I2 & I3 & I4 & I5). specialize (Hx I4). unfold sopts, ocrawl, zoom, yields in *.
  destruct (start_item_crawler_thread _) as [[r x]|]; [|exact I]. destruct Hx as (b & on & w & -> & E).
  change (csys (osys (opts s))) with (sy s) in *. injection E as E1 E2 E3 E4 E5 E6. cbn in *. split; cbn.
  - rewrite <- H1. unfold frozen, essence. cbn. by rewrite E1, E2, E3, E4, E5, E6.
  - exists Q, F. apply (hand_ok_parts _ _ _ _ Hh); try done; [by apply (ok_parts _ _ _ _ (ho_cq _ _ _ Hh))| |apply Hh].
    unfold nthreads. cbn. by rewrite E6.
  - done.
Qed.
#[export] Hint Resolve keeps_maintainer keeps_crawler : frames.

(** The threads after the workers; slab reassignment is asked for in vain. *)
Definition other_threads (inp : inputs) : st unit :=
  r ← start_assoc_maintenance_thread (bulk_move inp);
  _ ← exit_unless 1 (negb (r =? -1));
  o ← gets opts;
  _ ← when (start_lru_crawler o) (r ← sopts (ocrawl start_item_crawler_thread); exit_unless 1 (r =? 0));
  _ ← when (start_lru_maintainer o) (r ← sopts start_lru_maintainer_thread; exit_unless 1 (r =? 0));
  c ← scfg;
  _ ← exit_unless 1 (negb (slab_reassign c));
  when (negb (idle_timeout c =? 0)) (r ← start_conn_timeout_thread; exit_unless 1 (negb (r =? -1))).
Lemma start_threads_split inp :
  start_threads inp = (c ← scfg; _ ← ssys (memcached_thread_init (num_threads c)); other_threads inp).
Proof. reflexivity. Qed.

Lemma yields_scfg s (Q : settings → startup → Prop) : Q (cfg (kv (wd (sy s)))) s → yields any scfg s Q.
Proof. by destruct s. Qed.
Lemma yields_cache {A} (f : cache → A) s (Q : A → startup → Prop) : Q (f (kv (wd (sy s)))) s → yields any (sserver (gets f)) s Q.
Proof. by destruct s as [[? ? ? ? ? ? ? ? ? ? ? ? ? ? ? ? ? ? ? [? ? ? ? ? ? ? ? ? ? ? ? ? ? [? ? ? ? ? ? ? ? ? ? []]]]]. Qed.
Lemma yields_keeps {A B} (m : st A) (k : A → st B) y s (Q : B → startup → Prop) :
  keeps m → up y s → (∀ a s', up y s' → yields any (k a) s' Q) → yields any (m ≫= k) s Q.
Proof. intros Hm Hs Hk. apply yields_bind. eapply yields_mono; [|by apply Hm]. exact Hk. Qed.
Lemma other_threads_spec inp y s :
  up y s → yields any (other_threads inp) s (λ _ s', up y s' ∧ slab_reassign (cfg (kv (wd y))) = false).
Proof.
  intros Hs. unfold other_threads.
  apply (yields_keeps _ _ y); [unfold start_assoc_maintenance_thread; keeps_tac|done|]. intros r s1 H1.
  apply (yields_keeps _ _ y); [keeps_tac|done|]. intros _ s2 H2. apply yields_bind, yields_gets.
  apply (yields_keeps _ _ y); [keeps_tac|done|]. intros _ s3 H3. apply (yields_keeps _ _ y); [keeps_tac|done|]. intros _ s4 H4.
  apply yields_bind, yields_scfg. pose proof (up_frozen _ _ H4) as E. unfold frozen, essence in E. injection E as E1 E2 E3 E4 E5 E6 E7 E8 E9 E10.
  rewrite E8. destruct (slab_reassign (cfg (kv (wd y)))); [exact I|]. apply yields_bind, yields_ret.
  eapply yields_mono; [|apply (λ m : keeps _, m y s4 H4)]; [by intros [] s5 H5|].
  unfold start_conn_timeout_thread. keeps_tac.
Qed.

(** ** From the command line to the event loop *)
(** The state of a process that has not run [main] yet. *)
Record statics (s : startup) : Prop := {
  su_tab : tab (kv (wd (sy s))) = empty_table 16;
  su_free : first_free (kv (wd (sy s))) = None;
  su_items : cq_items (sy s) = ∅;
  su_last : last_thread (sy s) = -1;
  su_conns : conn_thread (sy s) = ∅;
  su_crawlers : length (crawlers (osys (opts s))) = 256%nat ∧ active (crawlers (osys (opts s))) = 0;
  su_count : crawler_count (osys (opts s)) = 0 ∧ lru_crawler_lock (osys (opts s)) = false;
  su_sizes : slab_sizes_unparsed (opts s) = SNull ∧ subopts_value (opts s) = SNull;
  su_backup : started_threads (sbackup s) = []
}.
(** The server the other theorems start from: an empty cache over an
    initialised log, a known hash, one running worker per configured thread,
    item locks that cover buckets, an idle crawler, no slab reassignment,
    descriptors to spare, and at most the one replication thread the options
    ask for. *)
Definition roles (c : settings) (l : list role) : Prop :=
  l = [] ∨ backup_server c = true ∧ l = [AsServer] ∨
  backup_server c = false ∧ backup_client c = true ∧ l = [AsClient].
Record serving (s : startup) : Prop := {
  sv_cache : hashpower (tab (kv (wd (sy s)))) < 32 → ∃ FL, cache_ok (kv (wd (sy s))) ∅ FL;
  sv_hash : ∃ t, hash (cfg (kv (wd (sy s)))) = key_hash t;
  sv_hand : ∃ Q F, hand_ok (sy s) Q F;
  sv_locks : item_lock_hashpower (sy s) < hashpower (tab (kv (wd (sy s))));
  sv_crawler : crawler_idle (osys (opts s));
  sv_slabs : slab_reassign (cfg (kv (wd (sy s)))) = false;
  sv_room : let k := kv (wd (sy s)) in
    u64 (stats_state (cnt k) curr_conns + stats_state (cnt k) reserved_fds) < maxconns (cfg k) - 1;
  sv_backup : roles (cfg (kv (wd (sy s)))) (started_threads (sbackup s))
}.

Lemma yields_sopts {A} (m : om A) s (Q : A → startup → Prop) :
  yields any m (opts s) (λ a o, Q a (set_opts o s)) → yields any (sopts m) s Q.
Proof. unfold sopts, zoom, yields. by destruct (m (opts s)) as [[a o]|]. Qed.
Definition set_sy (y : system) (s : startup) : startup := set_opts (set_osys (set_csys y (osys (opts s))) (opts s)) s.
Lemma yields_ssys {A} (m : sys A) s (Q : A → startup → Prop) :
  yields any m (sy s) (λ a y, Q a (set_sy y s)) → yields any (ssys m) s Q.
Proof. unfold ssys, sopts, osysio, ocrawl, csysio, zoom, yields, sy. by destruct (m _) as [[a y]|]. Qed.

(** The options have left the components as they were. *)
Record configured (argv : list (list Z)) (s : startup) : Prop := {
  cf_checked : checked (opts s);
  cf_statics : tab (kv (wd (sy s))) = empty_table 16 ∧ first_free (kv (wd (sy s))) = None ∧
    cq_items (sy s) = ∅ ∧ last_thread (sy s) = -1 ∧ conn_thread (sy s) = ∅;
  cf_idle : crawler_idle (osys (opts s));
  cf_slabs : (∃ o, o ∈ getopt argv ∧ option_asks_slabs o) → slab_reassign (config (opts s)) = true
}.
Lemma frame_reset : frame ohardware reset_settings.
Proof. unfold reset_settings. frame_options. Qed.
Lemma frame_host_all H : frame id (check_host H).
Proof. unfold check_host, os_unless, ocfg. frame_tac. Qed.

(** [main] before [init_components]; [k] is the rest. *)
Lemma command_line_spec inp argv s (k : st unit) Q :
  statics s → (∀ s', configured argv s' → yields any k s' Q) →
  yields any (_ ← sopts reset_settings; _ ← sopts (ocrawl (init_lru_crawler false)); _ ← sopts (parse_options (in_host inp) argv);
    _ ← sopts check_options; _ ← sopts (check_host (in_host inp)); k) s Q.
Proof.
  intros [S1 S2 S3 S4 S5 [S6 S7] [S8 S9] [S10 S11]] Hk.
  apply yields_bind, yields_sopts.
  eapply yields_mono; [|apply yields_both; [apply reset_spec|apply (yields_frame ohardware), frame_reset]].
  intros [] o1 [(R1 & R2 & R3 & R4) H1]. apply yields_bind, yields_sopts, yields_modify.
  set (o2 := set_osys _ _).
  unfold ohardware, hardware in H1. injection H1 as A1 A2 A3 A4 A5 A6 A7 A8 A9.
  assert (parsed o2) as Hp by (split; cbn; [done|done|by rewrite R3, S10|by rewrite R4, S11]).
  apply yields_bind, yields_sopts.
  eapply yields_mono; [|apply yields_both; [by apply parse_options_spec|apply (yields_frame ohardware), frame_parse_options]].
  intros [] o3 [[P1 P2] H3]. apply yields_bind, yields_sopts.
  eapply yields_mono; [|apply yields_both; [by apply check_options_spec|apply (yields_frame ohardware), frame_check_options]].
  intros [] o4 [[C1 C2] H4]. apply yields_bind, yields_sopts.
  eapply yields_mono; [|apply (yields_frame id), frame_host_all].
  intros [] o5 H5. cbn [id] in H5. cbn [opts set_opts] in *. subst o5. apply Hk. clear Hk.
  rewrite H3 in H4. unfold ohardware, hardware in H4. injection H4 as B1 B2 B3 B4 B5 B6 B7 B8 B9. cbn in B1, B2, B3, B4, B5, B6, B7, B8, B9.
  split; unfold sy; cbn [opts set_opts].
  - exact C1.
  - split_and!; unfold sy in *; congruence.
  - unfold crawler_idle. rewrite B9. split_and!; unfold sy in *; congruence || (cbn; congruence).
  - intros Ha. rewrite C2. by apply P2.
Qed.

Lemma cache_ok_ext k k' K FL :
  (log k', ml k', meta k', first_free k', tab k', hash (cfg k')) = (log k, ml k, meta k, first_free k, tab k, hash (cfg k)) →
  cache_ok k K FL → cache_ok k' K FL.
Proof.
  intros [= E1 E2 E3 E4 E5 E6] [O1 O2 O3 O4 O5 O6 O7 O8].
  split; unfold represents in *; rewrite ?E1, ?E2, ?E3, ?E4, ?E5, ?E6; done.
Qed.
Lemma initialised_ok c w : initialised c w → ranges c → hashpower (tab (kv w)) < 32 → cache_ok (kv w) ∅ (down slots).
Proof.
  intros [I1 I2 I3 I4 I5 I6] Hr Hp. rewrite I3 in Hp.
  assert (0 < start_power c < 32) as Hs.
  { split; [|exact Hp]. unfold start_power, HASHPOWER_DEFAULT. pose proof (rg_hashpower _ Hr) as Hh. destruct (Z.eqb_spec (hashpower_init c) 0); lia. }
  apply (fresh_ok (kv w) slots (start_power c)); [exact I1| |exact I3|exact Hs|exact I5|exact I6|].
  - rewrite I2. exact fresh_geometry.
  - exact slots_bound.
Qed.

Lemma start_threads_spec inp argv s w l :
  configured argv s → initialised (config (opts s)) w →
  yields any (start_threads inp) (at_world w l s) (λ _ s', slab_reassign (config (opts s)) = false ∧
    ∃ y, up y s' ∧ storage (wd y) = storage w ∧ item_lock_hashpower y < hashpower (tab (kv (wd y)))).
Proof.
  intros [C1 (C2 & C3 & C4 & C5 & C6) C7 C8] Hi. rewrite start_threads_split.
  apply yields_bind, yields_scfg. change (cfg (kv (wd (sy (at_world w l s))))) with (cfg (kv w)). rewrite (in_cfg _ _ Hi).
  pose proof (rg_threads _ (ck_ranges _ C1)) as Hn. apply yields_bind, yields_ssys.
  change (sy (at_world w l s)) with (set_wd w (sy s)). set (n := Z.to_nat (num_threads (config (opts s)))).
  replace (num_threads (config (opts s))) with (Z.of_nat n) by lia.
  eapply yields_mono; [|apply (thread_init_spec n (set_wd w (sy s))); [lia| |exact C4|exact C5|exact C6]].
  - intros [] y (Hst & Hlk & Hh). eapply yields_mono; [|apply (other_threads_spec inp y)].
    + intros [] s' [Hup Hs]. split; [|by exists y]. injection Hst as A1 A2 A3 A4 A5 A6. rewrite A6 in Hs.
      change (cfg (kv w)) with (cfg (kv w)) in Hs. rewrite (in_cfg _ _ Hi) in Hs. exact Hs.
    + split; [done|by eexists _, _|exact C7].
  - change (num_threads (cfg (kv w)) = Z.of_nat n). rewrite (in_cfg _ _ Hi). lia.
Qed.

(** ** Replication *)
Lemma frame_verb_call v : frame started_threads (verb_call v).
Proof. unfold verb_call. frame_tac. Qed.
Lemma frame_b_malloc : frame started_threads b_malloc.
Proof. unfold b_malloc. frame_tac. Qed.
#[export] Hint Resolve frame_verb_call frame_b_malloc : frames.
Lemma frame_all_calls l : frame started_threads (all_calls l).
Proof. induction l as [|v l IH]; cbn [all_calls]; frame_tac; done. Qed.
#[export] Hint Resolve frame_all_calls : frames.
Lemma frame_init_ctx H d n rx p : frame started_threads (init_ctx H d n rx p).
Proof. unfold init_ctx. frame_tac. Qed.
#[export] Hint Resolve frame_init_ctx : frames.

(** Step over an operation that keeps [f]. *)
Lemma yields_over {S A B X} (f : S → X) (m : M S A) (k : A → M S B) s (Q : B → S → Prop) :
  frame f m → (∀ a s1, f s1 = f s → yields any (k a) s1 Q) → yields any (m ≫= k) s Q.
Proof.
  intros Hm Hk. apply yields_bind. eapply yields_mono; [|by apply (yields_frame f)]. intros a s1. apply Hk.
Qed.

(** [rdma_init] starts its thread or none. *)
Lemma rdma_init_thread H limit cl name dev p g b :
  yields any (rdma_init H limit cl name dev p g) b (λ _ b',
    started_threads b' = started_threads b ∨
    started_threads b' = started_threads b ++ [if cl then AsClient else AsServer]).
Proof.
  unfold rdma_init. do 3 (apply (yields_over started_threads); [frame_tac|]; intros ? ? ?).
  assert (∀ b', started_threads b' = started_threads b → started_threads b' = started_threads b ∨
    started_threads b' = started_threads b ++ [if cl then AsClient else AsServer]) as Hno by auto.
  destruct (device_list H) as [devs|]; [|apply yields_ret, Hno; congruence].
  destruct (match dev with None => _ | Some _ => _ end) as [d|]; [|apply yields_ret, Hno; congruence].
  do 3 (apply (yields_over started_threads); [frame_tac|]; intros ? ? ?).
  match goal with |- yields _ (match ?c with _ => _ end) _ _ => destruct c end; [|apply yields_ret, Hno; congruence].
  apply (yields_over started_threads); [frame_tac|]; intros ok1 ? ?.
  destruct ok1; cbn [negb]; [|apply yields_ret, Hno; congruence].
  apply (yields_over started_threads); [frame_tac|]; intros ? ? ?.
  destruct (_ && _); [apply yields_ret, Hno; congruence|].
  apply (yields_over started_threads); [frame_tac|]; intros ok2 ? ?.
  destruct ok2; cbn [negb]; [|apply yields_ret, Hno; congruence].
  apply (yields_over started_threads); [frame_tac|]; intros ? ? ?.
  unfold start_thread. apply yields_bind. apply (yields_over started_threads); [frame_tac|]; intros ok3 ? ?.
  destruct ok3; cbn [negb]; [|exact I]. apply yields_modify, yields_ret. right. cbn. f_equal. congruence.
Qed.
Lemma begin_replication_opts inp s : yields any (begin_replication inp) s (λ _ s', opts s' = opts s).
Proof.
  unfold begin_replication. apply yields_bind, yields_scfg, yields_bind, yields_gets, yields_bind, yields_cache.
  unfold zoom, yields. by destruct (start_backup _ _ _ _ _ _ _ _) as [[[] b]|].
Qed.
Lemma begin_replication_spec inp s :
  started_threads (sbackup s) = [] →
  yields any (begin_replication inp) s (λ _ s', roles (cfg (kv (wd (sy s')))) (started_threads (sbackup s'))).
Proof.
  intros Hs. unfold begin_replication. apply yields_bind, yields_scfg. apply yields_bind, yields_gets.
  apply yields_bind, yields_cache.
  unfold zoom. set (c := cfg (kv (wd (sy s)))).
  assert (yields any (start_backup (rdma_machine inp) (get_memory_limit (kv (wd (sy s)))) (backup_server c) (backup_client c)
    (backup_client_servername (opts s)) (i32 (backup_ibv_port c)) (backup_sgid_index c)) (sbackup s)
    (λ _ b', roles c (started_threads b'))) as Hb.
  { unfold start_backup, roles. destruct (backup_server c); [|destruct (backup_client c)].
    - apply yields_bind. eapply yields_mono; [|apply rdma_init_thread]. intros r b' Hr. apply yields_ret.
      rewrite Hs in Hr. destruct Hr; auto.
    - apply yields_bind. eapply yields_mono; [|apply rdma_init_thread]. intros r b' Hr. apply yields_ret.
      rewrite Hs in Hr. destruct Hr; auto.
    - apply yields_ret. auto. }
  unfold yields in *. destruct (start_backup _ _ _ _ _ _ _ _) as [[[] b]|]; [|done]. done.
Qed.

(** No step before it touches the replication's state. *)
Lemma frame_on_sopts {A} (m : om A) : frame sbackup (sopts m).
Proof. intros s a s'. unfold sopts, zoom. destruct (m (opts s)) as [[b o]|]; [|done]. by intros [= <- <-]. Qed.
Lemma frame_slogger {A} (m : lg A) : frame sbackup (slogger m).
Proof. intros s a s'. unfold slogger, zoom. destruct (m _) as [[b o]|]; [|done]. by intros [= <- <-]. Qed.
Lemma frame_on_ssys {A} (m : sys A) : frame sbackup (ssys m).
Proof. apply frame_on_sopts. Qed.
Lemma frame_sserver {A} (m : server A) : frame sbackup (sserver m).
Proof. apply frame_on_sopts. Qed.
Lemma frame_smalloc : frame sbackup smalloc.
Proof. apply frame_on_sopts. Qed.
Lemma frame_scfg : frame sbackup scfg.
Proof. intros s a s'. unfold scfg. apply frame_on_sopts. Qed.
#[export] Hint Resolve frame_on_sopts frame_slogger frame_on_ssys frame_sserver frame_smalloc frame_scfg : frames.
Lemma frame_exit n b : frame sbackup (exit_unless n b).
Proof. unfold exit_unless. frame_tac. Qed.
#[export] Hint Resolve frame_exit : frames.
Lemma frame_init_components inp : frame sbackup (init_components inp).
Proof. unfold init_components. frame_tac. Qed.
Lemma frame_start_threads inp : frame sbackup (start_threads inp).
Proof. unfold start_threads, start_assoc_maintenance_thread, start_conn_timeout_thread. frame_tac. Qed.
Lemma frame_clock m t : frame sbackup (clock_handler m t).
Proof. unfold clock_handler, set_time. frame_tac. Qed.
Lemma frame_server_socket h p tr : frame sbackup (server_socket h p tr).
Proof.
  unfold server_socket. frame_tac. all: apply frame_foldl; [frame_tac|]; intros m ? Hm; apply frame_bind; [done|]; intros ?.
  all: unfold next_address, try_address, write_port, listen_on, udp_thread; frame_tac.
  all: apply frame_foldl; [frame_tac|]; intros m' ? Hm'; frame_tac; done.
Qed.
#[export] Hint Resolve frame_server_socket : frames.
Lemma frame_server_sockets p tr : frame sbackup (server_sockets p tr).
Proof.
  unfold server_sockets. frame_tac. apply frame_foldl; [frame_tac|]. intros m ? Hm. apply frame_bind; [done|]. intros ?.
  unfold bind_interface. frame_tac.
Qed.
#[export] Hint Resolve frame_server_sockets : frames.
Lemma frame_open_sockets inp : frame sbackup (open_sockets inp).
Proof. unfold open_sockets, server_socket_unix. frame_tac. Qed.
Lemma frame_check_maxconns : frame sbackup check_maxconns.
Proof. unfold check_maxconns. frame_tac. Qed.
Lemma main_replication inp argv s :
  started_threads (sbackup s) = [] →
  yields any (main inp argv) s (λ _ s', roles (cfg (kv (wd (sy s')))) (started_threads (sbackup s'))).
Proof.
  intros Hs. unfold main.
  do 6 (apply (yields_over sbackup); [auto with frames nocore|]; intros ? ? ?).
  apply (yields_over sbackup); [apply frame_init_components|]; intros ? ? ?.
  apply (yields_over sbackup); [apply frame_start_threads|]; intros ? ? ?.
  apply (yields_over sbackup); [apply frame_clock|]; intros ? ? ?.
  apply (yields_over sbackup); [apply frame_open_sockets|]; intros ? ? ?.
  apply (yields_over sbackup); [apply frame_check_maxconns|]; intros ? ? E.
  apply begin_replication_spec. congruence.
Qed.

(** All of [main]. *)
Lemma main_spec inp argv s :
  statics s → yields any (main inp argv) s (λ _ s', serving s' ∧ ¬ ∃ o, o ∈ getopt argv ∧ option_asks_slabs o).
Proof.
  intros Hs. pose proof (main_replication inp argv s (su_backup _ Hs)) as Hrep.
  enough (yields any (main inp argv) s (λ _ s', (roles (cfg (kv (wd (sy s')))) (started_threads (sbackup s')) → serving s') ∧
    ¬ ∃ o, o ∈ getopt argv ∧ option_asks_slabs o)) as Hmain.
  { eapply yields_mono; [|apply (yields_both _ _ _ _ Hmain Hrep)]. naive_solver. }
  clear Hrep. unfold main, exit_unless at 1. destruct (sanitycheck _); [|exact I]. apply yields_bind, yields_ret.
  apply command_line_spec; [exact Hs|]. intros s1 H1. pose proof H1 as [C1 (C2 & C3 & _) _ C4].
  apply yields_bind. eapply yields_mono; [|by apply init_components_spec]. intros [] s2 (w & l & -> & Hi).
  change (cfg (kv (wd (sy s1)))) with (config (opts s1)) in Hi.
  apply yields_bind. eapply yields_mono; [|by apply (start_threads_spec inp argv)].
  intros [] s3 (Hsl & y & H3 & Hst & Hlk).
  apply (yields_keeps _ _ y); [apply keeps_clock|exact H3|]. intros [] s4 H4.
  apply (yields_keeps _ _ y); [apply keeps_open_sockets|exact H4|]. intros [] s5 [U1 U2 U3].
  apply yields_bind. unfold check_maxconns. apply yields_bind, yields_scfg.
  apply yields_bind, yields_cache. unfold exit_unless.
  unfold frozen, essence in U1. injection U1 as E1 E2 E3 E4 E5 E6 E7 E8 E9 E10. injection Hst as D1 D2 D3 D4 D5 D6.
  pose proof (in_cfg _ _ Hi) as Hc. rewrite D6, Hc in E6, E7, E8, E9.
  pose proof (rg_maxconns _ (ck_ranges _ C1)) as Hm. rewrite Z.geb_leb. rewrite E9.
  rewrite (i32_small (maxconns (config (opts s1)) - 1)), (u64_small (maxconns (config (opts s1)) - 1)) by lia.
  destruct (Z.leb_spec (maxconns (config (opts s1)) - 1)
    (u64 (stats_state (cnt (kv (wd (sy s5)))) curr_conns + stats_state (cnt (kv (wd (sy s5)))) reserved_fds))) as [|Hroom]; [exact I|].
  apply yields_ret. eapply (yields_mono any _ _ (λ _ s', opts s' = opts s5)).
  2: { apply begin_replication_opts. }
  intros [] s6 E. assert (sy s6 = sy s5) as Es by (unfold sy; by rewrite E).
  split; [|intros Ha; specialize (C4 Ha); congruence]. intros Hroles.
  split; [|rewrite ?Es, ?E..|exact Hroles]; [|rewrite E6; apply C1|exact U2|rewrite E10, E5; exact Hlk|exact U3|by rewrite E8|cbv zeta; rewrite E9; exact Hroom].
  rewrite Es.
  intros Hp. exists (down slots). apply (cache_ok_ext (kv w)).
  - rewrite E1, E2, E3, E4, E5, E6, D1, D2, D3, D4, D5, Hc. reflexivity.
  - apply (initialised_ok (config (opts s1))); [exact Hi|apply C1|]. rewrite E5, D5 in Hp. exact Hp.
Qed.

(** C25: the server [main] builds is the one the other theorems are about.
    Whatever the command line, the answers of the host and the failures of
    malloc, sockets, threads and RDMA devices, when [main]'s own steps lead it to
    its event loop (those of the threads it starts are not part of it) the cache
    is empty and consistent over a fresh log (for a table of less than 2^32
    buckets), its hash is one of the two of hash.c, there is a worker with a
    consistent queue for every configured thread, item locks cover hash buckets,
    no crawl is under way, slab reassignment is off, fewer descriptors are in use
    than the connection limit allows, and of the replication threads at most the
    one the options ask for was started. *)
Theorem main_establishes (inp : inputs) (argv : list (list Z)) (s s' : startup)
    (Hstatics : statics s) (Hrun : main inp argv s = Ok (tt, s')) :
  serving s'.
Proof. apply (yields_inv any _ s _ tt s' (main_spec inp argv s Hstatics) Hrun). Qed.

(** A server asked for slab reassignment never serves.  With [-o modern] or
    [-o slab_reassign] anywhere on the command line, and anything else beside
    it, [main] ends before its event loop: there are no slabs in this server,
    and [start_threads] exits when the setting is on. *)
Theorem slabs_never_start (inp : inputs) (argv : list (list Z)) (s : startup) (o : Z * list Z)
    (Hstatics : statics s) (Ho : o ∈ getopt argv) (Hasks : option_asks_slabs o) :
  ∃ f, main inp argv s = Fault f.
Proof.
  pose proof (main_spec inp argv s Hstatics) as H. unfold yields in H.
  destruct (main inp argv s) as [[[] s']|f]; [|by exists f]. destruct H as [_ []]. by exists o.
Qed.

(** ** Concrete starts *)
(** [main] around the free list, whose slots are too many to list here. *)
Definition before (inp : inputs) (argv : list (list Z)) : st bool :=
  _ ← exit_unless EX_OSERR (sanitycheck (event_version inp));
  _ ← sopts reset_settings;
  _ ← sopts (ocrawl (init_lru_crawler false));
  _ ← sopts (parse_options (in_host inp) argv);
  _ ← sopts check_options;
  _ ← sopts (check_host (in_host inp));
  _ ← slogger logger_init;
  _ ← ssys (wio (stats_init (time_0 inp)));
  c ← scfg;
  ok ← smalloc; _ ← sserver (assoc_init (hashpower_init c) ok);
  _ ← ssys (wio (conn_init (next_fd inp) (rlim_max inp)));
  ok ← smalloc; _ ← sserver (memlog_init ok);
  smalloc.
Definition after (inp : inputs) : st unit :=
  _ ← exit_unless EX_OSERR (sigpipe_ok (in_host inp));
  _ ← start_threads inp;
  _ ← clock_handler (mono inp) (time_of_day inp);
  _ ← open_sockets inp;
  _ ← check_maxconns;
  begin_replication inp.
Lemma seq_assoc {S A B C} (m : M S A) (f : A → M S B) (g : B → M S C) s : ((m ≫= f) ≫= g) s = (m ≫= λ a, f a ≫= g) s.
Proof. unfold mbind, M_bind. by destruct (m s) as [[a s']|]. Qed.
Lemma bind_ext {S A B} (m : M S A) (f g : A → M S B) s : (∀ a s', f a s' = g a s') → (m ≫= f) s = (m ≫= g) s.
Proof. unfold mbind, M_bind. intros Hfg. destruct (m s) as [[a s']|]; [apply Hfg|done]. Qed.
Lemma main_split inp argv s :
  main inp argv s = (ok ← before inp argv; _ ← sserver (freelist_init MEMLOG_DEFAULT_SIZE ok); after inp) s.
Proof.
  unfold main, before, init_components. 
  do 6 (etrans; [|symmetry; apply seq_assoc]; apply bind_ext; intros ? ?).
  do 8 (etrans; [apply seq_assoc|]; etrans; [|symmetry; apply seq_assoc]; apply bind_ext; intros ? ?).
  do 2 (etrans; [apply seq_assoc|]; apply bind_ext; intros ? ?). reflexivity.
Qed.

Definition tcp_address (fd : Z) : address := Address AF_INET (Some fd) false false (Some 212992) (λ _, true) BindOk true (Some 11211) [].
Definition no_rdma : machine := Machine None 0 0 false [] 0 0 0 0 [] no_dest 0.
Definition plain_inputs : inputs :=
  Inputs plain_host (Some (str "2.0.21-stable")) 1700000000 5 (Some 1024) None false (Some 100, Some 100) 1700000000 (tcp_address 26) no_rdma.
(** A TCP socket, and a UDP socket shared by the workers. *)
Definition default_start : startup :=
  set_answers [Some [tcp_address 26]; Some [Address AF_INET (Some 27) false false (Some 212992) (λ n, n <=? 425984) BindOk true None [28; 29; 30]]]
    (cold_startup None).
Definition resume (me : gmap Z item_metadata) (ff : option Z) (s : startup) : startup :=
  set_sy (set_wd (set_kv (set_first_free ff (set_meta me (kv (wd (sy s))))) (wd (sy s))) (sy s)) s.
Definition starts (argv : list (list Z)) (me : gmap Z item_metadata) (ff : option Z) : bool :=
  match before plain_inputs argv default_start with
  | Ok (true, s) =>
      bool_decide (first_free (kv (wd (sy s))) = None) &&
      match after plain_inputs (resume me ff s) with Ok _ => true | Fault _ => false end
  | _ => false
  end.
Lemma starts_default me ff : starts [] me ff = true.
Proof. vm_compute. reflexivity. Qed.
Lemma bind_Ok_2 {S A B} (m : M S A) (k : A → M S B) s a s' r : m s = Ok (a, s') → k a s' = r → (m ≫= k) s = r.
Proof. intros E. by rewrite (bind_Ok _ _ _ _ _ E). Qed.
Lemma starts_returns argv : (∀ me ff, starts argv me ff = true) → ∃ s', main plain_inputs argv default_start = Ok (tt, s').
Proof.
  intros Hst. rewrite main_split. unfold starts in Hst.
  destruct (before plain_inputs argv default_start) as [[[|] s]|] eqn:E; [|discriminate (Hst ∅ None)..].
  pose proof (Hst ∅ None) as [Hff%bool_decide_eq_true _]%andb_true_iff.
  destruct (freelist_init_spec MEMLOG_DEFAULT_SIZE (kv (wd (sy s))) Hff) as ([] & k & Ek & me & ff & Hk & _).
  specialize (Hst me ff). apply andb_true_iff in Hst as [_ Hst].
  assert (sserver (freelist_init MEMLOG_DEFAULT_SIZE true) s = Ok (tt, resume me ff s)) as Ef.
  { unfold sserver, sopts, oserver, osysio, ocrawl, csysio, wio, srv, zoom. unfold sy in Ek. rewrite Ek, Hk. reflexivity. }
  destruct (after plain_inputs (resume me ff s)) as [[[] s']|f] eqn:Ea; [|discriminate Hst].
  exists s'. apply (bind_Ok_2 _ _ _ _ _ _ E), (bind_Ok_2 _ _ _ _ _ _ Ef), Ea.
Qed.
Lemma default_statics : statics default_start.
Proof. split; vm_compute; repeat split. Qed.

(** Without arguments, and with nothing failing, the server starts. *)
Lemma main_establishes_witness : ∃ s', main plain_inputs [] default_start = Ok (tt, s') ∧ serving s'.
Proof.
  destruct (starts_returns [] starts_default) as [s' E]. exists s'. split; [exact E|].
  exact (main_establishes plain_inputs [] default_start s' default_statics E).
Defined.

Lemma slabs_never_start_witness : ∃ f, main plain_inputs [str "-t"; str "2"; str "-o"; str "modern"] default_start = Fault f.
Proof.
  apply (slabs_never_start plain_inputs _ default_start (ch "o", str "modern") default_statics).
  - assert (getopt [str "-t"; str "2"; str "-o"; str "modern"] = [(ch "t", str "2"); (ch "o", str "modern")]) as -> by (vm_compute; reflexivity).
    right; left.
  - split; [reflexivity|]. exists (str "modern"). split; [|left; vm_compute; reflexivity].
    assert (pieces [] (str "modern") = [str "modern"]) as E by (vm_compute; reflexivity). cbn [snd]. rewrite E. left.
Defined.
