(* ===== verification/RdmaFacts.v ===== *)
(** * The backup's exchange and its reads

    Both ends of the exchange end up with each other's address; every read of
    the replication stays inside the registered log; and what the loop over
    completions and the size of a chunk get wrong. *)
From Stdlib Require Import ZArith Lia.
From stdpp Require Import strings prelude gmap list.
From S2P Require Import Prelude Mem Util Item State Memlog Assoc Items ItemFacts ItemSpec ItemClaims Replication Rdma.

(** ** Hexadecimal *)
(** The [k] digits of a number below [16 ^ k]. *)
Fixpoint hexw (k : nat) (n : Z) : list Z :=
  match k with O => [] | S k => hexw k (n / 16) ++ [xdigit (n mod 16)] end.
Lemma hexw_length k n : length (hexw k n) = k.
Proof. revert n. induction k as [|k IH]; intros n; [done|]. cbn. rewrite length_app, IH. cbn. lia. Qed.
Lemma hexw_zero j k n : 0 ≤ n < 16 ^ Z.of_nat k → hexw (j + k) n = replicate j 48 ++ hexw k n.
Proof.
  revert n. induction k as [|k IH]; intros n Hn.
  - rewrite Nat.add_0_r. cbn in Hn. assert (n = 0) as -> by lia. induction j as [|j IHj]; [done|].
    cbn [hexw]. change (0 / 16) with 0. rewrite IHj, !app_nil_r. cbn [replicate]. by rewrite <- (replicate_S_end j).
  - rewrite Nat.add_succ_r. cbn [hexw]. rewrite IH, app_assoc; [done|].
    rewrite Nat2Z.inj_succ, Z.pow_succ_r in Hn by lia. split; [apply Z.div_pos; lia|apply Z.div_lt_upper_bound; lia].
Qed.
Lemma xhex_hexw f n : (0 < f)%nat → 0 ≤ n < 16 ^ Z.of_nat f →
  ∃ k, (0 < k ≤ f)%nat ∧ n < 16 ^ Z.of_nat k ∧ xhex f n = hexw k n ∧ ∀ w, (0 < w)%nat → n < 16 ^ Z.of_nat w → (k ≤ w)%nat.
Proof.
  revert n. induction f as [|f IH]; intros n Hf Hn; [lia|]. cbn [xhex]. destruct (Z.ltb_spec n 16) as [Hlt|Hge].
  - exists 1%nat. split_and!; [lia|lia|lia|done|lia].
  - rewrite Nat2Z.inj_succ, Z.pow_succ_r in Hn by lia.
    assert (0 ≤ n / 16 < 16 ^ Z.of_nat f) as Hd by (split; [apply Z.div_pos; lia|apply Z.div_lt_upper_bound; lia]).
    destruct f as [|f]; [cbn in Hn; lia|]. destruct (IH (n / 16) ltac:(lia) Hd) as (k & Hk & Hlt & -> & Hmin).
    exists (S k). split_and!; [lia|lia| |done|].
    + rewrite Nat2Z.inj_succ, Z.pow_succ_r by lia. pose proof (Z.div_mod n 16). pose proof (Z.mod_pos_bound n 16). lia.
    + intros [|[|w]] Hw Hnw; [lia|cbn in Hnw; lia|]. apply le_n_S, Hmin; [lia|].
      rewrite Nat2Z.inj_succ, Z.pow_succ_r in Hnw by lia. apply Z.div_lt_upper_bound; lia.
Qed.
(** Padded or not, the text is the digits of the number. *)
Lemma fmt_x_hexw w n : 0 ≤ n < 2 ^ 64 → (w ≤ 16)%nat →
  ∃ k, (0 < k ≤ 16)%nat ∧ n < 16 ^ Z.of_nat k ∧ fmt_x w n = hexw k n ∧ ((0 < w)%nat → n < 16 ^ Z.of_nat w → k = w).
Proof.
  intros Hn Hw. destruct (xhex_hexw 16 n ltac:(lia)) as (k & Hk & Hlt & E & Hmin); [done|].
  unfold fmt_x. rewrite E, hexw_length. exists (w - k + k)%nat. split_and!; [lia|lia| | |].
  - eapply Z.lt_le_trans; [exact Hlt|]. apply Z.pow_le_mono_r; lia.
  - symmetry. apply hexw_zero. lia.
  - intros Hw0 Hnw. specialize (Hmin w Hw0 Hnw). lia.
Qed.
Lemma fmt_x_fixed w n : (0 < w ≤ 16)%nat → 0 ≤ n < 16 ^ Z.of_nat w → fmt_x w n = hexw w n.
Proof.
  intros Hw Hn. destruct (fmt_x_hexw w n) as (k & _ & _ & -> & Hk); [|lia|by rewrite Hk by lia].
  split; [lia|]. eapply Z.lt_le_trans; [apply Hn|]. change (2 ^ 64) with (16 ^ 16). apply Z.pow_le_mono_r; lia.
Qed.

Definition hexchar (c : Z) : Prop := 48 ≤ c ≤ 57 ∨ 97 ≤ c ≤ 102.
Lemma xdigit_hex d : 0 ≤ d < 16 → hexchar (xdigit d) ∧ unxdigit (xdigit d) = d.
Proof. intros Hd. unfold hexchar, xdigit, unxdigit. destruct (Z.ltb_spec d 10); (split; [lia|]); repeat match goal with |- context [?a <=? ?b] => destruct (Z.leb_spec a b) end; lia. Qed.
Lemma hexw_chars k n : Forall hexchar (hexw k n).
Proof.
  revert n. induction k as [|k IH]; intros n; [constructor|]. cbn. apply Forall_app. split; [apply IH|].
  constructor; [|constructor]. apply xdigit_hex. apply Z.mod_pos_bound. lia.
Qed.
Lemma hexchar_xdigit c : hexchar c → isxdigit c = true.
Proof. unfold hexchar, isxdigit, isdigit. lia. Qed.
Lemma hexw_value k n : 0 ≤ n < 16 ^ Z.of_nat k → hex_value (hexw k n) = n.
Proof.
  unfold hex_value. revert n. induction k as [|k IH]; intros n Hn; [cbn in *; lia|].
  rewrite Nat2Z.inj_succ, Z.pow_succ_r in Hn by lia. cbn [hexw]. rewrite fold_left_app, IH.
  - cbn. pose proof (Z.mod_pos_bound n 16 ltac:(lia)) as Hm. rewrite (proj2 (xdigit_hex _ Hm)). pose proof (Z.div_mod n 16). lia.
  - split; [apply Z.div_pos; lia|apply Z.div_lt_upper_bound; lia].
Qed.

(** A number's text, and then something else. *)
Definition not_hex (s : list Z) : Prop := match s with [] => True | c :: _ => isxdigit c = false end.
Lemma scan_hexw k n rest : (0 < k ≤ 16)%nat → 0 ≤ n < 16 ^ Z.of_nat k → not_hex rest → (match rest with x :: _ => x ≠ 120 ∧ x ≠ 88 | [] => True end) →
  scan_hex (hexw k n ++ rest) = Some (n, rest).
Proof.
  intros Hk Hn Hr Hx. pose proof (hexw_value k n Hn) as Hv. pose proof (hexw_chars k n) as Hc. pose proof (hexw_length k n) as Hl.
  assert (n < 2 ^ 64) as Hb. { eapply Z.lt_le_trans; [apply Hn|]. change (2 ^ 64) with (16 ^ 16). apply Z.pow_le_mono_r; lia. }
  destruct (hexw k n) as [|d ds] eqn:E; [cbn in Hl; lia|].
  assert (forallb isxdigit (d :: ds) = true) as Hall.
  { apply forallb_forall. intros x Hin. apply hexchar_xdigit. rewrite Forall_forall in Hc. apply Hc. by apply list_elem_of_In. }
  assert (scan_hex ((d :: ds) ++ rest) = match take_while isxdigit ((d :: ds) ++ rest) with
    | [] => None
    | l => Some (if 2 ^ 64 <=? hex_value l then 2 ^ 64 - 1 else hex_value l, drop_while isxdigit ((d :: ds) ++ rest)) end) as ->.
  { assert (∀ c r, ds ++ rest = c :: r → (c =? 120) || (c =? 88) = false) as Hsecond.
    { intros c r Ecr. destruct ds as [|c' ds']; cbn in Ecr.
      - rewrite Ecr in Hx. lia.
      - injection Ecr as -> _. inversion Hc as [|? ? _ Hds]. inversion Hds as [|? ? Hc' _]. unfold hexchar in Hc'. lia. }
    inversion Hc as [|? ? Hd _]. unfold hexchar in Hd.
    assert (d = 48 ∨ d = 49 ∨ d = 50 ∨ d = 51 ∨ d = 52 ∨ d = 53 ∨ d = 54 ∨ d = 55 ∨ d = 56 ∨ d = 57 ∨
      d = 97 ∨ d = 98 ∨ d = 99 ∨ d = 100 ∨ d = 101 ∨ d = 102) as Hcases by lia.
    clear - Hcases Hsecond. destruct_or! Hcases; subst d; try reflexivity.
    unfold scan_hex. change (drop_while isspace ((48 :: ds) ++ rest)) with (48 :: ds ++ rest). cbn [app]. cbv beta iota zeta.
    destruct (ds ++ rest) as [|c r] eqn:Er; [reflexivity|]. rewrite (Hsecond c r eq_refl). reflexivity. }
  assert (take_while isxdigit ((d :: ds) ++ rest) = d :: ds ∧ drop_while isxdigit ((d :: ds) ++ rest) = rest) as [-> ->].
  { destruct rest as [|c r]; [rewrite app_nil_r; split; [by apply take_while_all|by apply drop_while_all]|].
    split; [by apply take_while_app|by apply drop_while_app]. }
  cbv beta iota zeta. rewrite Hv. destruct (Z.leb_spec (2 ^ 64) n); [lia|done].
Qed.

(** ** GIDs *)
Lemma swap32_bytes bs : length bs = 4%nat → Forall is_byte bs → swap32 (le_decode bs) = le_decode (rev bs).
Proof. intros Hl Hb. unfold swap32. rewrite <- Hl. by rewrite le_encode_decode. Qed.
Lemma swap32_range v : 0 ≤ swap32 v < 2 ^ 32.
Proof.
  unfold swap32. pose proof (le_decode_range (rev (le_encode 4 v))) as Hr.
  rewrite length_rev, le_encode_length in Hr. apply Hr. apply Forall_rev, le_encode_bytes.
Qed.
Lemma swap32_twice v : 0 ≤ v < 2 ^ 32 → swap32 (swap32 v) = v.
Proof.
  intros Hv. unfold swap32 at 2. rewrite swap32_bytes.
  - rewrite rev_involutive. rewrite le_decode_encode. apply Z.mod_small. exact Hv.
  - by rewrite length_rev, le_encode_length.
  - apply Forall_rev, le_encode_bytes.
Qed.
(** The text of four bytes, and what it is read as. *)
Definition word_text (bs : list Z) : list Z := hexw 8 (swap32 (le_decode bs)).
Lemma word_read junk bs gid wgid (i : nat) :
  length bs = 4%nat → Forall is_byte bs → take 8 (drop (i * 8) wgid) = word_text bs →
  wire_word wgid (junk, gid) i = (swap32 (le_decode bs), gid ++ bs).
Proof.
  intros Hl Hb Ht. unfold wire_word. rewrite Ht. unfold word_text. pose proof (swap32_range (le_decode bs)) as Hr.
  rewrite <- (app_nil_r (hexw 8 _)), scan_hexw by (done || lia). rewrite u32_small by lia. f_equal. f_equal. unfold ntohl.
  rewrite swap32_twice; [rewrite <- Hl; by apply le_encode_decode|].
  pose proof (le_decode_range bs Hb) as Hd. rewrite Hl in Hd. exact Hd.
Qed.
(** A GID as its four words. *)
Definition gid_bytes (w : list (list Z)) : Prop := length w = 4%nat ∧ Forall (λ b, length b = 4%nat ∧ Forall is_byte b) w.
Lemma gid_words gid : length gid = 16%nat → Forall is_byte gid → ∃ w, gid_bytes w ∧ gid = concat w.
Proof.
  intros Hl Hb. do 16 (destruct gid as [|? gid]; [discriminate Hl|]). destruct gid; [|discriminate Hl].
  match goal with Hb : Forall _ [?a; ?b; ?c; ?d; ?e; ?f; ?g; ?h; ?i; ?j; ?k; ?l; ?m; ?n; ?o; ?p] |- _ =>
    exists [[a; b; c; d]; [e; f; g; h]; [i; j; k; l]; [m; n; o; p]] end.
  split; [|done]. split; [done|]. rewrite !Forall_cons in Hb. destruct_and!. repeat first [assumption | apply Forall_nil_2 | apply Forall_cons_2 | split; [reflexivity|]].
Qed.
Lemma gid_text w : gid_bytes w → gid_to_wire_gid (concat w) = concat (word_text <$> w) ++ [0].
Proof.
  intros [Hl Hw]. do 4 (destruct w as [|? w]; [discriminate Hl|]). destruct w; [|discriminate Hl].
  rewrite !Forall_cons in Hw. destruct Hw as ([L0 B0] & [L1 B1] & [L2 B2] & [L3 B3] & _).
  assert (∀ b, htonl (le_decode b) = swap32 (le_decode b)) as Eh by done.
  repeat match goal with H : length ?b = 4%nat |- _ => do 4 (destruct b as [|? b]; [discriminate H|]); destruct b; [|discriminate H]; clear H end.
  unfold gid_to_wire_gid, gid_word. cbn [fmap list_fmap seq concat take drop Nat.mul Nat.add app].
  unfold word_text, htonl. rewrite !fmt_x_fixed by (lia || apply swap32_range). reflexivity.
Qed.
Lemma word_text_length b : length (word_text b) = 8%nat.
Proof. apply hexw_length. Qed.
Lemma gid_read junk w rest : gid_bytes w → wire_gid_to_gid junk (concat (word_text <$> w) ++ rest) = concat w.
Proof.
  intros [Hl Hw]. do 4 (destruct w as [|? w]; [discriminate Hl|]). destruct w; [|discriminate Hl].
  rewrite !Forall_cons in Hw. destruct Hw as ([L0 B0] & [L1 B1] & [L2 B2] & [L3 B3] & _).
  unfold wire_gid_to_gid. cbn [seq foldl fmap list_fmap concat].
  rewrite <- !app_assoc. cbn [app].
  assert (∀ a r, take 8 (word_text a ++ r) = word_text a) as Ht by (intros a r; apply take_app_length'; by rewrite word_text_length).
  assert (∀ a r, drop 8 (word_text a ++ r) = r) as Hd by (intros a r; apply drop_app_length'; by rewrite word_text_length).
  rewrite (word_read junk l []); [|done|done|apply Ht].
  rewrite (word_read _ l0); [|done|done|]; [|change (1 * 8)%nat with 8%nat; by rewrite Hd, Ht].
  rewrite (word_read _ l1); [|done|done|]; [|change (2 * 8)%nat with (8 + 8)%nat; by rewrite <- drop_drop, !Hd, Ht].
  rewrite (word_read _ l2); [|done|done|]; [|change (3 * 8)%nat with (8 + (8 + 8))%nat; by rewrite <- !drop_drop, !Hd, Ht].
  cbn. by rewrite !app_assoc, app_nil_r.
Qed.

(** ** Messages *)
(** An address within its fields' widths: 16-bit LIDs, 24-bit numbers of queue
    pairs and packets. *)
Record sendable (d : backup_ibv_dest) : Prop := {
  sd_lid : 0 ≤ d_lid d < 2 ^ 16;
  sd_qpn : 0 ≤ d_qpn d < 2 ^ 24;
  sd_psn : 0 ≤ d_psn d < 2 ^ 24;
  sd_gid : length (d_gid d) = 16%nat ∧ Forall is_byte (d_gid d)
}.
(** Text whose characters are digits, and nothing the scans stop at. *)
Lemma hex_plain s : Forall hexchar s → forallb (λ c, negb (c =? 0)) s = true ∧ forallb (λ c, negb (isspace c)) s = true.
Proof. induction 1 as [|c s Hc _ IH]; [done|]. cbn. unfold hexchar in Hc. unfold isspace at 1. destruct IH as [-> ->]. lia. Qed.
Lemma hex_not_zero s : Forall hexchar s → 0 ∉ s.
Proof. intros Hs H0. rewrite Forall_forall in Hs. specialize (Hs 0 H0). unfold hexchar in Hs. lia. Qed.
Lemma skip_hex k n r : (0 < k)%nat → drop_while isspace (hexw k n ++ r) = hexw k n ++ r.
Proof.
  intros Hk. pose proof (hexw_length k n) as Hl. pose proof (hexw_chars k n) as Hc. destruct (hexw k n) as [|c s]; [cbn in Hl; lia|].
  inversion Hc as [|? ? Hh _]. cbn. unfold hexchar in Hh. assert (isspace c = false) as -> by (unfold isspace; lia). done.
Qed.
Lemma words_chars w : Forall hexchar (concat (word_text <$> w)).
Proof. induction w as [|b w IH]; [constructor|]. cbn [fmap list_fmap concat]. apply Forall_app. split; [apply hexw_chars|exact IH]. Qed.
Lemma words_length w : gid_bytes w → length (concat (word_text <$> w)) = 32%nat.
Proof.
  intros [Hl _]. do 4 (destruct w as [|? w]; [discriminate Hl|]). destruct w; [|discriminate Hl]. cbn [fmap list_fmap concat].
  by rewrite !length_app, !word_text_length.
Qed.
Lemma take_text s : 0 ∉ s → ∀ r, take_while (λ c, negb (c =? 0)) (s ++ 0 :: r) = s.
Proof.
  intros Hs r. apply take_while_app; [|done]. apply forallb_forall. intros c Hc. apply list_elem_of_In in Hc.
  destruct (Z.eqb_spec c 0) as [->|]; done.
Qed.

Definition address_of (d : backup_ibv_dest) (w : list (list Z)) : list Z :=
  hexw 4 (d_lid d) ++ [58] ++ hexw 6 (d_qpn d) ++ [58] ++ hexw 6 (d_psn d) ++ [58] ++ concat (word_text <$> w).
Lemma address_of_plain d w : 0 ∉ address_of d w.
Proof.
  unfold address_of. rewrite !not_elem_of_app. split_and!; try (apply hex_not_zero; (apply hexw_chars || apply words_chars)).
  all: intros H%list_elem_of_singleton; discriminate H.
Qed.
Lemma address_of_length d w : gid_bytes w → length (address_of d w) = 51%nat.
Proof. intros Hw. unfold address_of. rewrite !length_app, !hexw_length, words_length by done. done. Qed.
Lemma address_text_of d w : sendable d → gid_bytes w → d_gid d = concat w → address_text d = address_of d w.
Proof.
  intros [S1 S2 S3 _] Hw Hg. unfold address_text, address_of. rewrite Hg, gid_text by done.
  rewrite (take_text _ (hex_not_zero _ (words_chars w)) []). rewrite !fmt_x_fixed by lia. done.
Qed.

(** The address that was written is the address that is read. *)
Lemma scan_address_of d0 gidbuf d w : sendable d → gid_bytes w →
  scan_address d0 gidbuf (address_of d w ++ [0]) =
    Ok (set_psn (d_psn d) (set_qpn (d_qpn d) (set_lid (d_lid d) d0)), concat (word_text <$> w) ++ [0] ++ drop 33 gidbuf).
Proof.
  intros [S1 S2 S3 _] Hw. unfold scan_address. rewrite bool_decide_eq_true_2 by (apply elem_of_app; right; left).
  rewrite (take_text _ (address_of_plain d w) []). unfold address_of. cbn [app].
  rewrite scan_hexw by (done || lia). cbn [scan_text Z.eqb Pos.eqb mbind option_bind].
  rewrite scan_hexw by (done || lia). cbn [scan_text Z.eqb Pos.eqb mbind option_bind].
  rewrite scan_hexw by (done || lia). cbn [scan_text Z.eqb Pos.eqb mbind option_bind]. rewrite !u32_small by lia.
  unfold scan_gid. pose proof (words_chars w) as Hc. pose proof (words_length w Hw) as Hlen.
  set (T := concat (word_text <$> w)) in *.
  assert (drop_while isspace T = T) as ->.
  { destruct T as [|c T']; [done|]. inversion Hc as [|? ? Hh _]. unfold hexchar in Hh. cbn. assert (isspace c = false) as -> by (unfold isspace; lia). done. }
  rewrite take_while_all by apply (hex_plain _ Hc). rewrite Hlen. change (32 <? 32)%nat with false. cbv iota.
  destruct T as [|c T']; [discriminate Hlen|]. done.
Qed.

Lemma scan_addr_text s : scan_text (str "RDMA addr ") (str "RDMA addr " ++ s) = Some (drop_while isspace s).
Proof. reflexivity. Qed.
Lemma scan_rkey_text s : scan_text (str " rkey ") (str " rkey " ++ s) = Some (drop_while isspace s).
Proof. reflexivity. Qed.
Lemma region_plain k1 n1 k2 n2 : 0 ∉ str "RDMA addr " ++ hexw k1 n1 ++ str " rkey " ++ hexw k2 n2.
Proof. rewrite !not_elem_of_app. split_and!; try (apply hex_not_zero, hexw_chars); by apply (bool_decide_unpack _). Qed.
#[global] Opaque mc_swap64 swap32 hexw scan_hex scan_text.
(** The region that was written is the region that is read, whatever follows
    the text in its buffer. *)
Lemma scan_region_of d addr key rest : 0 ≤ addr < 2 ^ 64 → 0 ≤ key < 2 ^ 32 →
  scan_region d (region_text addr key ++ [0] ++ rest) = Ok (set_remote_key (htonl key) (set_remote_address (htonll addr) d)).
Proof.
  intros Ha Hk. unfold region_text, scan_region. pose proof (mc_swap64_range addr) as Ha'. pose proof (swap32_range key) as Hk'.
  destruct (fmt_x_hexw 0 (htonll addr)) as (k1 & K1 & N1 & -> & _); [exact Ha'|lia|].
  destruct (fmt_x_hexw 0 (htonl key)) as (k2 & K2 & N2 & -> & _); [unfold htonl; lia|lia|].
  rewrite bool_decide_eq_true_2 by (apply elem_of_app; right; left).
  change ([0] ++ rest) with (0 :: rest). rewrite (take_text _ (region_plain _ _ _ _) rest). unfold htonll, htonl in *.
  rewrite scan_addr_text, skip_hex by lia. cbn [mbind option_bind]. rewrite scan_hexw by (done || lia).
  rewrite <- (app_nil_r (hexw k2 _)), scan_rkey_text, skip_hex by lia. cbn [mbind option_bind]. rewrite scan_hexw by (done || lia).
  rewrite u32_small by lia. done.
Qed.
Lemma region_text_short addr key : 0 ≤ addr → 0 ≤ key → (length (region_text addr key) ≤ 48)%nat.
Proof.
  intros Ha Hk. unfold region_text. pose proof (mc_swap64_range addr) as Ha'. pose proof (swap32_range key) as Hk'.
  destruct (fmt_x_hexw 0 (htonll addr)) as (k1 & K1 & N1 & -> & _); [exact Ha'|lia|].
  destruct (fmt_x_hexw 0 (htonl key)) as (k2 & K2 & N2 & -> & _); [unfold htonl; lia|lia|].
  rewrite !length_app, !hexw_length. cbn [length str]. change (length (str "RDMA addr ")) with 10%nat. change (length (str " rkey ")) with 6%nat. lia.
Qed.

(** ** Proof rules: nothing fails *)
Record all_well (s : backup) : Prop := {
  aw_verbs : v_ok s = [];
  aw_mallocs : b_mallocs s = [];
  aw_writes : b_writes s = []
}.
Lemma wp_b_malloc s (P : bool → backup → Prop) : all_well s → P true s → wp b_malloc s P.
Proof.
  intros [_ Hm _] HP. exists true, s. split; [|exact HP]. unfold b_malloc, mbind, M_bind, gets, modify. rewrite Hm. cbn.
  rewrite <- Hm. by destruct s.
Qed.
Lemma wp_b_write fd data s (P : bool → backup → Prop) :
  all_well s → P true (set_sent_to (sent_to s ++ [(fd, data)]) s) → wp (b_write fd data) s P.
Proof.
  intros [_ _ Hw] HP. exists true, (set_sent_to (sent_to s ++ [(fd, data)]) s). split; [|exact HP].
  unfold b_write, mbind, M_bind, gets, modify. rewrite Hw. cbn. rewrite <- Hw. by destruct s.
Qed.
Lemma wp_b_read fd n c l s (P : option (list Z) → backup → Prop) :
  streams s !! fd = Some (c :: l) → (length c ≤ n)%nat → P (Some c) (set_streams (<[fd := l]> (streams s)) s) → wp (b_read fd n) s P.
Proof.
  intros Hs Hn HP. eexists _, _. split; [|exact HP]. unfold b_read, mbind, M_bind, gets, modify. rewrite Hs.
  rewrite (proj2 (Nat.ltb_ge n (length c))) by lia. by rewrite take_ge.
Qed.
Lemma wp_all_calls l s (P : bool → backup → Prop) : all_well s → P true (set_calls (calls s ++ l) s) → wp (all_calls l) s P.
Proof.
  revert s. induction l as [|v l IH]; intros s Hs HP; cbn [all_calls].
  - rewrite app_nil_r in HP. exists true, s. split; [done|]. by destruct s.
  - apply wp_bind. exists true, (set_calls (calls s ++ [v]) s). split.
    + unfold verb_call, mbind, M_bind, gets, modify. rewrite (aw_verbs _ Hs). cbn. rewrite <- (aw_verbs _ Hs). by destruct s.
    + apply IH; [by destruct Hs|]. cbn. rewrite <- app_assoc. exact HP.
Qed.
Lemma wp_lift {A} (r : result A) a s (P : A → backup → Prop) : r = Ok a → P a s → wp (lift r) s P.
Proof. intros -> HP. by exists a, s. Qed.
Lemma sprintf_fits size stk text :
  (length text < size)%nat → sprintf size stk text = Ok (text ++ [0] ++ drop (length text + 1) stk).
Proof. intros Hl. unfold sprintf. by rewrite (proj2 (Nat.ltb_lt _ _) Hl). Qed.

(** What one end learns of the other, and the queue pair it sets up. *)
Definition as_seen (junk d : backup_ibv_dest) : backup_ibv_dest :=
  Dest (d_lid d) (d_qpn d) (d_psn d) (remote_address junk) (remote_key junk) (d_gid d).
Definition paired (b : backup) (d : backup_ibv_dest) : list verb :=
  [ModifyRtr MTU_1024 (d_qpn d) (d_psn d) (d_lid d) SL (ibv_port b) (if is_global (d_gid d) then Some (d_gid d, sgid_index b) else None);
   ModifyRts (d_psn (ibv_dest b))].
Definition region_msg (H : machine) (addr key : Z) : list Z :=
  region_text addr key ++ [0] ++ drop (length (region_text addr key) + 1) (take SIZEOF_msg2 (stack H)).

Lemma address_msg d stk : sendable d → length stk = 52%nat → lift (sprintf SIZEOF_msg stk (address_text d)) = mret (address_text d ++ [0]).
Proof.
  intros Hd Hs. destruct (gid_words _ (proj1 (sd_gid _ Hd)) (proj2 (sd_gid _ Hd))) as (w & Hw & Ew).
  rewrite (address_text_of d w Hd Hw Ew). pose proof (address_of_length d w Hw) as Hl.
  rewrite sprintf_fits by (rewrite Hl; unfold SIZEOF_msg; lia). rewrite drop_ge by (rewrite Hl, Hs; lia). done.
Qed.
Lemma address_msg_length d : sendable d → length (address_text d ++ [0]) = 52%nat.
Proof.
  intros Hd. destruct (gid_words _ (proj1 (sd_gid _ Hd)) (proj2 (sd_gid _ Hd))) as (w & Hw & Ew).
  rewrite (address_text_of d w Hd Hw Ew), length_app, address_of_length by done. done.
Qed.
(** Reading an address that was written. *)
Lemma read_address junk d0 gidbuf d : sendable d →
  ∃ g, scan_address d0 gidbuf (address_text d ++ [0]) = Ok (set_psn (d_psn d) (set_qpn (d_qpn d) (set_lid (d_lid d) d0)), g) ∧
    set_gid (wire_gid_to_gid junk g) (set_psn (d_psn d) (set_qpn (d_qpn d) (set_lid (d_lid d) d0))) = as_seen d0 d.
Proof.
  intros Hd. destruct (gid_words _ (proj1 (sd_gid _ Hd)) (proj2 (sd_gid _ Hd))) as (w & Hw & Ew).
  rewrite (address_text_of d w Hd Hw Ew). eexists. split; [by apply scan_address_of|].
  rewrite gid_read, <- Ew by done. done.
Qed.

(** ** Both ends *)
Lemma all_well_ext s s' : v_ok s' = v_ok s → b_mallocs s' = b_mallocs s → b_writes s' = b_writes s → all_well s → all_well s'.
Proof. intros E1 E2 E3 [H1 H2 H3]. split; congruence. Qed.

Lemma server_end H fd v c d m1 m2 :
  all_well v → (128 ≤ length (stack H))%nat → 0 ≤ fd < 128 → ctx v = Some c → 0 ≤ cx_buf c < 2 ^ 64 → 0 ≤ cx_rkey c < 2 ^ 32 →
  sendable d → sendable (ibv_dest v) → (length m1 ≤ 52)%nat → (length m2 ≤ 52)%nat →
  streams v !! fd = Some [address_text d ++ [0]; m1; m2] →
  wp (backup_server_connection_handler H fd) v (λ r v',
    r = Some (as_seen (heap H) d) ∧ calls v' = calls v ++ paired v d ∧
    sent_to v' = sent_to v ++ [(fd, address_text (ibv_dest v) ++ [0]); (fd, region_msg H (cx_buf c) (cx_rkey c))]).
Proof.
  intros Hw Hst Hfd Hc Hb Hk Hd Hv L1 L2 Hs. unfold backup_server_connection_handler.
  assert (char_fd fd = fd) as -> by (unfold char_fd; rewrite Z.mod_small; lia). pose proof (address_msg_length d Hd) as Hl.
  apply wp_bind. eapply wp_b_read; [exact Hs|unfold SIZEOF_msg; lia|]. rewrite Hl. cbn [Nat.eqb negb SIZEOF_msg].
  apply wp_bind, wp_b_malloc; [by destruct Hw|]. cbn [negb]. apply wp_bind.
  destruct (read_address (v32_junk H) (heap H) (take 33 (stack H)) d Hd) as (g & Eg & Ed).
  eapply wp_lift; [exact Eg|]. cbv beta iota. rewrite Ed. apply wp_bind, wp_gets. apply wp_bind, wp_bind, wp_all_calls; [by destruct Hw|].
  cbn [ibv_port set_streams ibv_dest sgid_index id]. apply wp_ret. cbn [Z.eqb negb].
  rewrite (address_msg (ibv_dest v)) by (done || (rewrite take_ge; unfold SIZEOF_msg; lia)).
  apply wp_bind, wp_ret, wp_bind, wp_b_write; [by destruct Hw|]. cbn [negb].
  apply wp_bind. eapply wp_b_read; [apply lookup_insert_eq|exact L1|]. apply wp_bind. unfold get_ctx. apply wp_bind, wp_gets.
  cbn [ctx set_streams set_sent_to set_calls]. rewrite Hc. apply wp_ret, wp_bind.
  pose proof (region_text_short (cx_buf c) (cx_rkey c) ltac:(lia) ltac:(lia)) as Hrl.
  eapply wp_lift; [apply sprintf_fits; unfold SIZEOF_msg2; lia|].
  apply wp_bind, wp_b_write; [by destruct Hw|]. cbn [negb]. apply wp_bind.
  eapply wp_b_read; [apply lookup_insert_eq|exact L2|]. apply wp_bind, wp_modify, wp_ret.
  cbn [calls sent_to set_streams set_sent_to set_calls set_b_closed]. split_and!; [done|done|by rewrite <- app_assoc].
Qed.

Lemma region_msg_length H addr key : 0 ≤ addr → 0 ≤ key → (128 ≤ length (stack H))%nat → length (region_msg H addr key) = 128%nat.
Proof.
  intros Ha Hk Hs. pose proof (region_text_short addr key Ha Hk) as Hl. unfold region_msg, SIZEOF_msg2.
  rewrite !length_app, length_drop, length_take. cbn [length]. lia.
Qed.
Lemma client_end H H' fd rest b rd addr key :
  all_well b → (52 ≤ length (stack H))%nat → (128 ≤ length (stack H'))%nat → 0 ≤ addr < 2 ^ 64 → 0 ≤ key < 2 ^ 32 →
  sendable rd → sendable (ibv_dest b) →
  streams b !! fd = Some [address_text rd ++ [0]; region_msg H' addr key] →
  wp (backup_client_thread H (Some ((Some fd, true) :: rest))) b (λ r b',
    r = Some (set_remote_address addr (set_remote_key key (as_seen (heap H) rd))) ∧ calls b' = calls b ++ paired b rd ∧
    sent_to b' = sent_to b ++ [(fd, address_text (ibv_dest b) ++ [0]); (fd, done_msg); (fd, done_msg)]).
Proof.
  intros Hw Hst Hst' Ha Hk Hr Hb Hs. unfold backup_client_thread, client_exchange. cbn [connect_first]. apply wp_bind, wp_ret.
  apply wp_bind, wp_bind, wp_gets. cbn [id]. apply wp_bind.
  rewrite (address_msg (ibv_dest b)) by (done || (rewrite length_take; unfold SIZEOF_msg; lia)). apply wp_ret.
  apply wp_bind, wp_b_write; [by destruct Hw|]. cbn [negb]. pose proof (address_msg_length rd Hr) as Hl.
  apply wp_bind. eapply wp_b_read; [exact Hs|unfold SIZEOF_msg; lia|]. rewrite Hl. cbn [Nat.eqb negb SIZEOF_msg].
  apply wp_bind, wp_b_write; [by destruct Hw|]. apply wp_bind, wp_b_malloc; [by destruct Hw|]. cbn [negb]. apply wp_bind.
  destruct (read_address (v32_junk H) (heap H) (gid_to_wire_gid (d_gid (ibv_dest b))) rd Hr) as (g & Eg & Ed).
  eapply wp_lift; [exact Eg|]. cbv beta iota. rewrite Ed. apply wp_bind.
  pose proof (region_msg_length H' addr key ltac:(lia) ltac:(lia) Hst') as Hm.
  eapply wp_b_read; [apply lookup_insert_eq|unfold SIZEOF_msg2; lia|]. rewrite Hm. cbn [Nat.eqb negb SIZEOF_msg2].
  apply wp_bind. eapply wp_lift; [by apply scan_region_of|].
  apply wp_bind, wp_b_write; [by destruct Hw|]. apply wp_bind, wp_modify, wp_ret, wp_bind, wp_gets.
  apply wp_bind, wp_bind, wp_all_calls; [by destruct Hw|]. apply wp_ret, wp_ret. cbn [Z.eqb].
  cbn [remote_address remote_key set_remote_address set_remote_key].
  rewrite (proj1 (swap64_involutive addr Ha)). unfold ntohl, htonl. rewrite swap32_twice by done.
  cbn [calls sent_to set_streams set_sent_to set_calls set_b_closed]. split_and!; [done|done|by rewrite <- !app_assoc].
Qed.

(** C21: the exchange pairs the two machines.  Stated for a primary whose accepted
    socket has a descriptor of at most 127 (the code passes it through a char),
    for addresses whose fields have their widths (16-bit lid, 24-bit queue pair
    and packet numbers, 16-byte gid), for sockets on which each read returns one
    whole message of the other end, and for runs in which no call fails.  Then
    each end receives exactly what the other sends, the backup learns the
    primary's address and the place and key of its log, the primary learns the
    backup's address, and the queue pairs are set up against each other: the
    numbers and first packets either end expects are those the other end uses. *)
Theorem exchange_pairs (Hb Hp : machine) (bfd pfd : Z) (rest : list (option Z * bool)) (b p : backup) (cx : backup_ibv_context)
    (Hbw : all_well b) (Hpw : all_well p) (Hstack : (128 ≤ length (stack Hb))%nat ∧ (128 ≤ length (stack Hp))%nat)
    (Hfd : 0 ≤ pfd < 128) (Hctx : ctx p = Some cx) (Hbuf : 0 ≤ cx_buf cx < 2 ^ 64) (Hkey : 0 ≤ cx_rkey cx < 2 ^ 32)
    (Hbd : sendable (ibv_dest b)) (Hpd : sendable (ibv_dest p)) :
  let from_backup := [address_text (ibv_dest b) ++ [0]; done_msg; done_msg] in
  let from_primary := [address_text (ibv_dest p) ++ [0]; region_msg Hp (cx_buf cx) (cx_rkey cx)] in
  streams b !! bfd = Some from_primary → streams p !! pfd = Some from_backup →
  wp (backup_client_thread Hb (Some ((Some bfd, true) :: rest))) b (λ r b',
    r = Some (set_remote_address (cx_buf cx) (set_remote_key (cx_rkey cx) (as_seen (heap Hb) (ibv_dest p)))) ∧
    calls b' = calls b ++ paired b (ibv_dest p) ∧ sent_to b' = sent_to b ++ ((λ m, (bfd, m)) <$> from_backup)) ∧
  wp (backup_server_connection_handler Hp pfd) p (λ r p',
    r = Some (as_seen (heap Hp) (ibv_dest b)) ∧
    calls p' = calls p ++ paired p (ibv_dest b) ∧ sent_to p' = sent_to p ++ ((λ m, (pfd, m)) <$> from_primary)).
Proof.
  intros from_backup from_primary Hbs Hps. destruct Hstack as [S1 S2]. split.
  - apply (client_end Hb Hp); try done. lia.
  - apply (server_end Hp pfd p cx (ibv_dest b) done_msg done_msg); try done; cbn; lia.
Qed.

(** ** Concrete ends *)
Definition some_machine (lid qpn psn : Z) (gid : list Z) (base : Z) : machine :=
  Machine (Some [str "mlx4_0"]) qpn lid true gid 7 4660 psn base (replicate 128 170) (Dest 1 2 3 4 5 []) 9.
(** Started with [rdma_init], as the backup and as the primary. *)
Definition after_init (r : result (bool * backup)) : backup := match r with Ok (_, s) => s | Fault _ => idle_backup ∅ end.
Definition gid_a : list Z := [254; 128; 0; 0; 0; 0; 0; 0; 2; 0; 0; 0; 0; 0; 0; 17].
Definition machine_a : machine := some_machine 18 4660 123456789 gid_a 139637976727552.
Definition machine_b : machine := some_machine 35 43981 42 zero_gid 140000000000000.
Definition primary_end (m : gmap Z (list (list Z))) : backup :=
  after_init (rdma_init machine_a MEMLOG_DEFAULT_SIZE false None None 1 0 (idle_backup m)).
Definition backup_end (m : gmap Z (list (list Z))) : backup :=
  after_init (rdma_init machine_b MEMLOG_DEFAULT_SIZE true (Some (str "primary")) None 1 (-1) (idle_backup m)).

Lemma exchange_pairs_witness :
  let cx := Ctx 139637976727552 MEMLOG_DEFAULT_SIZE 500 7 4660 4660 in
  let p0 := ibv_dest (primary_end ∅) in
  let b := backup_end {[ 9 := [address_text p0 ++ [0]; region_msg machine_a (cx_buf cx) (cx_rkey cx)] ]} in
  wp (backup_client_thread machine_b (Some [(Some 9, true)])) b (λ r b',
    r = Some (Dest 18 4660 (123456789 mod 2 ^ 24) 139637976727552 4660 gid_a)).
Proof.
  set (cx := Ctx 139637976727552 MEMLOG_DEFAULT_SIZE 500 7 4660 4660). intros cx' p0 b. subst cx'.
  set (p := primary_end {[ 12 := [address_text (ibv_dest b) ++ [0]; done_msg; done_msg] ]}).
  pose proof (exchange_pairs machine_b machine_a 9 12 [] b p cx) as Hx.
  assert (all_well b ∧ all_well p) as [W1 W2] by (split; split; vm_compute; reflexivity).
  assert (sendable (ibv_dest b) ∧ sendable (ibv_dest p)) as [D1 D2].
  { split; (split; [vm_compute; split; (congruence || reflexivity)..|]).
    all: split; [reflexivity|]. all: repeat constructor; vm_compute; (congruence || reflexivity). }
  specialize (Hx W1 W2 ltac:(vm_compute; lia) ltac:(lia) ltac:(vm_compute; reflexivity)).
  specialize (Hx ltac:(vm_compute; split; [discriminate|reflexivity]) ltac:(vm_compute; split; [discriminate|reflexivity]) D1 D2).
  destruct Hx as [Hc _]; [vm_compute; reflexivity|vm_compute; reflexivity|].
  eapply wp_mono; [|exact Hc]. intros r b' (-> & _). vm_compute. reflexivity.
Defined.

(** A descriptor above 127 is not the one the handler reads from or closes. *)
Example handler_fd_truncated :
  let p := primary_end {[ 130 := [address_text (ibv_dest (backup_end ∅)) ++ [0]; done_msg; done_msg] ]} in
  match backup_server_connection_handler machine_a 130 p with
  | Ok (r, p') => r = None ∧ b_closed p' = [-126] ∧ sent_to p' = []
  | Fault _ => False
  end.
Proof. vm_compute. split_and!; reflexivity. Qed.

(** ** Replication: every read stays inside the log *)
(** A loop that returned, with an invariant. *)
Lemma loop_returned {S X R} n (body : X → M S (X + R)) (I : X → S → Prop) (Q : R → S → Prop) :
  (∀ x s r s', I x s → body x s = Ok (r, s') → match r with inl x' => I x' s' | inr v => Q v s' end) →
  ∀ x s v s', I x s → loop n body x s = Ok (v, s') → Q v s'.
Proof.
  intros Hb.
  assert (∀ x s r s', I x s → iterate n body x s = Ok (r, s') → match r with inl x' => I x' s' | inr v => Q v s' end) as Hit.
  { induction n as [|n IH]; intros x s r s' HI E; [by apply (Hb x s)|].
    cbn [iterate] in E. apply bind_inv in E as (r1 & s1 & E1 & E2). pose proof (IH _ _ _ _ HI E1) as H1.
    destruct r1 as [x1|v1]; [by apply (IH x1 s1)|by injection E2 as <- <-]. }
  intros x s v s' HI E. apply bind_inv in E as (r1 & s1 & E1 & E2). pose proof (Hit _ _ _ _ HI E1) as H1.
  destruct r1 as [x1|v1]; [discriminate E2|by injection E2 as <- <-].
Qed.

(** The replay moves forward inside what it was given, or back to the base. *)
Lemma do_store_replication_loop size off : do_store_replication size off = loop FUEL replicate_body (size, off).
Proof. reflexivity. Qed.
Lemma replicate_turn_offset (off size rem o : Z) s r s' :
  0 ≤ off → off + size < 2 ^ 32 → 0 ≤ rem → off ≤ o → o + rem = off + size → replicate_body (rem, o) s = Ok (r, s') →
  match r with inl x => 0 ≤ x.1 ∧ off ≤ x.2 ∧ x.2 + x.1 = off + size | inr v => v = 0 ∨ off ≤ v ≤ off + size end.
Proof.
  intros Ho Hb H1 H2 H3 E. unfold replicate_body in E.
  rewrite Z.geb_leb in E. destruct (Z.leb_spec MIN_RECORD rem) as [Hle|]; [|injection E as <- _; lia].
  apply bind_inv in E as (lg & s1 & [= <- <-] & E). destruct (_ && negb _ && negb _).
  - rewrite Z.gtb_ltb in E. destruct (Z.ltb_spec rem (u32 (ITEM_ntotal (log s) o))) as [|Hnt]; [injection E as <- _; lia|].
    pose proof (u32_range (ITEM_ntotal (log s) o)) as Hr.
    apply bind_inv in E as (_ & s2 & _ & E). apply bind_inv in E as (_ & s3 & _ & [= <- <-]). cbn [fst snd].
    revert Hnt Hr. generalize (u32 (ITEM_ntotal (log s) o)). intros nt Hnt Hr. rewrite !u32_small by lia. lia.
  - destruct (_ && negb _ && _).
    + apply bind_inv in E as (_ & s2 & _ & [= <- <-]). by left.
    + injection E as <- _. lia.
Qed.
Lemma replicate_offset size off s r s' :
  0 ≤ off → 0 ≤ size → off + size < 2 ^ 32 → do_store_replication size off s = Ok (r, s') → r = 0 ∨ off ≤ r ≤ off + size.
Proof.
  intros Ho Hs Hb E. rewrite do_store_replication_loop in E. refine (loop_returned _ replicate_body
    (λ x _, 0 ≤ x.1 ∧ off ≤ x.2 ∧ x.2 + x.1 = off + size) (λ r _, r = 0 ∨ off ≤ r ≤ off + size) _ (size, off) s r s' _ E); [|cbn [fst snd]; lia].
  clear s r s' E. intros [rem o] s r s' (H1 & H2 & H3) E. exact (replicate_turn_offset off size rem o s r s' Ho Hb H1 H2 H3 E).
Qed.

#[local] Opaque loop iterate do_store_replication.
Definition link_of (s : replica_state) := (r_ctx s, r_dest s).
Definition rest_of (s : replica_state) := (link_of s, arrivals s, rcache s).
Lemma post_returned wr s u s' : loop FUEL (post_body wr) 0 s = Ok (u, s') →
  rest_of s' = rest_of s ∧ reads_posted s' = reads_posted s ++ [wr].
Proof.
  intros E. refine (loop_returned FUEL (post_body wr) (λ _ s1, rest_of s1 = rest_of s ∧ reads_posted s1 = reads_posted s)
    (λ _ s1, rest_of s1 = rest_of s ∧ reads_posted s1 = reads_posted s ++ [wr]) _ 0 s u s' _ E); [|done].
  clear E u s'. intros n s1 r s2 [L1 P1] E. unfold post_body in E. apply bind_inv in E as (l & s3 & [= <- <-] & E).
  apply bind_inv in E as (u & s4 & [= <- <-] & E). destruct (n >? 100); [discriminate E|].
  destruct (default true (head (posts s1))); injection E as <- <-; [|done]. cbn. by rewrite P1.
Qed.
Lemma poll_returned s u s' : loop FUEL poll_body tt s = Ok (u, s') → rest_of s' = rest_of s ∧ reads_posted s' = reads_posted s.
Proof.
  intros E. refine (loop_returned FUEL poll_body (λ _ s1, rest_of s1 = rest_of s ∧ reads_posted s1 = reads_posted s)
    (λ _ s1, rest_of s1 = rest_of s ∧ reads_posted s1 = reads_posted s) _ tt s u s' _ E); [|done].
  clear E u s'. intros [] s1 r s2 Hs E. unfold poll_body in E. apply bind_inv in E as (l & s3 & [= <- <-] & E).
  apply bind_inv in E as (u & s4 & [= <- <-] & E).
  destruct (default NoCompletion (head (cq_polls s1))) as [|[|]|]; [injection E as <- <-| |discriminate E..]; [done|].
  apply bind_inv in E as (u & s5 & [= <- <-] & [= <- <-]). done.
Qed.

(** A read inside the two registered regions. *)
Definition inside (cx : backup_ibv_context) (d : backup_ibv_dest) (r : rdma_read) : Prop :=
  ∃ off, 0 ≤ off ∧ 0 ≤ sg_length r ≤ REPLICATION_CHUNK ∧ off + sg_length r ≤ cx_size cx ∧
    sg_addr r = cx_buf cx + off ∧ wr_remote_addr r = u64 (remote_address d + off) ∧ wr_rkey r = remote_key d.
Lemma size_bound size off : 0 ≤ off ≤ size → size < 2 ^ 31 →
  0 ≤ size_to_replicate size off ≤ REPLICATION_CHUNK ∧ off + size_to_replicate size off ≤ size.
Proof. intros Ho Hs. unfold size_to_replicate, REPLICATION_CHUNK. rewrite u32_small by lia. destruct (Z.ltb_spec (1024 * 1024 * 2) (size - off)); lia. Qed.

Lemma turn_inside off s r s' :
  0 ≤ off ≤ cx_size (r_ctx s) → cx_size (r_ctx s) < 2 ^ 31 → replication_turn off s = Ok (r, s') →
  link_of s' = link_of s ∧ 0 ≤ r ≤ cx_size (r_ctx s) ∧
  ∃ wr, reads_posted s' = reads_posted s ++ [wr] ∧ inside (r_ctx s) (r_dest s) wr.
Proof.
  intros Ho Hs E. unfold replication_turn in E. apply bind_inv in E as (s0 & s1 & [= <- <-] & E). cbn [id] in E.
  pose proof (size_bound _ _ Ho Hs) as [B1 B2]. set (n := size_to_replicate (cx_size (r_ctx s)) off) in *.
  apply bind_inv in E as (u1 & s2 & E1 & E). apply post_returned in E1 as [[= L1c L1d _ _] P1].
  apply bind_inv in E as (u2 & s3 & E2 & E). apply poll_returned in E2 as [[= L2c L2d _ _] P2].
  apply bind_inv in E as (l & s4 & [= <- <-] & E). apply bind_inv in E as (u3 & s4 & [= <- <-] & E).
  apply bind_inv in E as (u4 & s5 & E4 & E).
  assert (link_of s5 = link_of s3 ∧ reads_posted s5 = reads_posted s3) as [L4 P4].
  { destruct (arrivals s3); injection E4 as <- <-; done. }
  unfold zoom in E. destruct (do_store_replication n off (rcache s5)) as [[r' k]|] eqn:Er; [|discriminate E].
  injection E as <- <-. apply replicate_offset in Er; [|lia..]. split; [change (link_of s5 = link_of s); rewrite L4; unfold link_of; congruence|].
  split; [lia|]. exists (RdmaRead (cx_buf (r_ctx s) + off) n (u64 (remote_address (r_dest s) + off)) (remote_key (r_dest s))).
  split; [cbn [reads_posted set_rcache]; congruence|].
  exists off. cbn. split_and!; try done; lia.
Qed.

(** C22: the backup never reads or writes outside the log.  In any number of turns
    of the replication loop, whatever the primary's log holds and however
    posts, completions and transfers go, every RDMA read that was posted lies
    inside the registered log of both machines, at the same offset, and is no
    longer than a chunk. *)
Theorem reads_inside (turns : nat) (s s' : replica_state) (r : Z)
    (Hsize : 0 ≤ cx_size (r_ctx s) < 2 ^ 31) (Hnone : reads_posted s = [])
    (Hrun : backup_client_replication_handler turns 0 s = Ok (r, s')) :
  length (reads_posted s') = turns ∧ Forall (inside (r_ctx s) (r_dest s)) (reads_posted s') ∧ 0 ≤ r ≤ cx_size (r_ctx s).
Proof.
  assert (∀ n off s1, 0 ≤ off ≤ cx_size (r_ctx s) → link_of s1 = link_of s →
    Forall (inside (r_ctx s) (r_dest s)) (reads_posted s1) → backup_client_replication_handler n off s1 = Ok (r, s') →
    length (reads_posted s') = (length (reads_posted s1) + n)%nat ∧ Forall (inside (r_ctx s) (r_dest s)) (reads_posted s') ∧
    0 ≤ r ≤ cx_size (r_ctx s)) as Hall.
  { induction n as [|n IH]; intros off s1 Ho Hl Hp E; cbn [backup_client_replication_handler] in E.
    - injection E as <- <-. split_and!; [lia|done|lia..].
    - apply bind_inv in E as (o2 & s2 & E1 & E2). injection Hl as Hc Hd.
      apply turn_inside in E1 as (L2 & B2 & wr & P2 & Hin); [|rewrite Hc; lia..]. rewrite Hc, Hd in *.
      destruct (IH o2 s2 ltac:(lia)) as (G1 & G2 & G3); [unfold link_of in *; congruence| |exact E2|].
      + rewrite P2. apply Forall_app. split; [done|]. by constructor.
      + rewrite P2, length_app in G1. cbn in G1. split_and!; [lia|done|lia..]. }
  destruct (Hall turns 0 s) as (G1 & G2 & G3); [lia|done|by rewrite Hnone; constructor|done|]. by rewrite Hnone in G1.
Qed.

(** ** Replication: what a turn does *)
Definition wr_at (s : replica_state) (off : Z) : rdma_read :=
  RdmaRead (cx_buf (r_ctx s) + off) (size_to_replicate (cx_size (r_ctx s)) off) (u64 (remote_address (r_dest s) + off))
    (remote_key (r_dest s)).
(** The log once the arrived part of the read is in it. *)
Definition received (s : replica_state) (off : Z) : memory :=
  match arrivals s with
  | [] => log (rcache s)
  | a :: _ => dma a off (size_to_replicate (cx_size (r_ctx s)) off) (log (rcache s))
  end.
(** The posting succeeds and the completion queue is found empty. *)
Definition not_completed (s : replica_state) : Prop :=
  head (posts s) ≠ Some false ∧ (cq_polls s = [] ∨ head (cq_polls s) = Some NoCompletion).
Lemma turn_not_completed off s r k' :
  not_completed s →
  do_store_replication (size_to_replicate (cx_size (r_ctx s)) off) off (set_log (received s off) (rcache s)) = Ok (r, k') →
  replication_turn off s = Ok (r, Replica (r_ctx s) (r_dest s) (drop 1 (posts s)) (drop 1 (cq_polls s)) (drop 1 (arrivals s))
    (reads_posted s ++ [wr_at s off]) (completions s) k').
Proof.
  intros [Hp Hq] E. unfold replication_turn. rewrite (bind_Ok _ _ s s s) by done. cbn [id]. fold (wr_at s off).
  set (s1 := set_posts (drop 1 (posts s)) (set_reads_posted (reads_posted s ++ [wr_at s off]) s)).
  assert (loop FUEL (post_body (wr_at s off)) 0 s = Ok (tt, s1)) as E1.
  { apply loop_first. unfold post_body, mbind, M_bind, gets, modify.
    assert (default true (head (posts s)) = true) as -> by (destruct (posts s) as [|[|] l]; done). done. }
  rewrite (bind_Ok _ _ _ _ _ E1). set (s2 := set_cq_polls (drop 1 (cq_polls s)) s1).
  assert (loop FUEL poll_body tt s1 = Ok (tt, s2)) as E2.
  { apply loop_first. unfold poll_body, mbind, M_bind, gets, modify. change (cq_polls s1) with (cq_polls s).
    assert (default NoCompletion (head (cq_polls s)) = NoCompletion) as -> by (destruct Hq as [-> | ->]; done). done. }
  rewrite (bind_Ok _ _ _ _ _ E2). rewrite (bind_Ok _ _ s2 (arrivals s) s2) by done. erewrite bind_Ok by reflexivity.
  unfold received in E. unfold mbind, M_bind. destruct (arrivals s) as [|a l].
  - cbn [mret M_ret]. unfold zoom. cbn [rcache set_arrivals s2 set_cq_polls s1 set_posts set_reads_posted].
    assert (set_log (log (rcache s)) (rcache s) = rcache s) as El by (by destruct (rcache s)). rewrite El in E. rewrite E. done.
  - unfold zoom, upd_log, modify. cbn [rcache set_arrivals s2 set_cq_polls s1 set_posts set_reads_posted set_rcache]. rewrite E. done.
Qed.

(** C29: the replay does not wait for the read.  The loop over the completion
    queue ends as soon as the queue is empty, so when the first poll comes
    before the completion, the replay runs on whatever part of the read has
    arrived: the turn sees no completion of the read it posted, and its result
    is that of the replay over the partly received log. *)
Theorem replay_before_completion (s : replica_state) (off r : Z) (k' : cache) (Hnot : not_completed s)
    (Hreplay : do_store_replication (size_to_replicate (cx_size (r_ctx s)) off) off (set_log (received s off) (rcache s)) = Ok (r, k')) :
  ∃ s', replication_turn off s = Ok (r, s') ∧ rcache s' = k' ∧ completions s' = completions s ∧
    reads_posted s' = reads_posted s ++ [wr_at s off].
Proof. eexists. split; [by apply turn_not_completed|]. done. Qed.

(** A read of which the header and the key have arrived but not the value: the
    backup serves the key with three zero bytes. *)
Definition torn : replica_state :=
  Replica (Ctx 0 100 500 7 4660 4660) no_dest [] [NoCompletion]
    [Arrival (log primary) (λ x, x <? ITEM_data (log primary) 0)] [] 0 (boot one_hash 4).
Definition torn_replay : result (Z * cache) := do_store_replication 100 0 (set_log (received torn 0) (rcache torn)).
Definition served_value (s : cache) : option (list Z) :=
  match item_get (str "k") s with
  | Ok (Some p, s') => x ← meta s' !! p; Some (item_value (log s') (item x))
  | _ => None
  end.
Lemma replay_before_completion_witness :
  ∃ s', replication_turn 0 torn = Ok (35, s') ∧ completions s' = 0 ∧ served_value (rcache s') = Some [0; 0; 0] ∧
    item_value (log primary) 0 = str "v" ++ crlf.
Proof.
  assert (match torn_replay with Ok (r, k) => Some (r, served_value k) | Fault _ => None end = Some (35, Some [0; 0; 0])) as Ht
    by (vm_compute; reflexivity).
  unfold torn_replay in Ht. destruct (do_store_replication 100 0 (set_log (received torn 0) (rcache torn))) as [[r k]|f] eqn:E; [|discriminate Ht].
  injection Ht as -> Hv.
  destruct (replay_before_completion torn 0 35 k) as (s' & E1 & E2 & E3 & _).
  - split; [discriminate|right; reflexivity].
  - exact E.
  - exists s'. rewrite E2. split; [exact E1|]. split; [exact E3|]. split; [exact Hv|vm_compute; reflexivity].
Defined.

(** ** Replication: records that are too long *)
Lemma dma_bytes a l m x :
  mget (foldl (dma_byte a) m l) x = if bool_decide (x ∈ l) && arrived a x then mget (image a) x else mget m x.
Proof.
  revert m. induction l as [|y l IH]; intros m; cbn [foldl]; [rewrite bool_decide_eq_false_2 by set_solver; done|].
  rewrite IH. unfold dma_byte. destruct (decide (x = y)) as [->|Hne].
  - rewrite (bool_decide_eq_true_2 (y ∈ y :: l)) by set_solver. destruct (arrived a y); cbn; [|by rewrite andb_false_r].
    rewrite andb_true_r. destruct (bool_decide (y ∈ l)); [done|]. unfold mget at 1. rewrite lookup_insert_eq. cbn.
    apply u8_small. apply mget_byte.
  - assert (mget (if arrived a y then <[y := mget (image a) y]> m else m) x = mget m x) as ->.
    { destruct (arrived a y); [|done]. unfold mget. by rewrite lookup_insert_ne. }
    rewrite (bool_decide_ext (x ∈ y :: l) (x ∈ l)) by set_solver. done.
Qed.
(** What arrives of a log that has not changed there changes nothing. *)
Lemma dma_agree a off len m b n : agree (image a) m b n → agree (dma a off len m) m b n.
Proof. intros Ha x Hx. unfold dma. rewrite dma_bytes. destruct (_ && _); [by apply Ha|done]. Qed.
Lemma header_agree m m' off : agree m m' off 16 → it_data_flags m off = it_data_flags m' off ∧ ITEM_ntotal m off = ITEM_ntotal m' off.
Proof.
  intros Ha. unfold ITEM_ntotal, it_data_flags, nkey, nsuffix, nbytes.
  rewrite (load_le_agree m m' (off + 9) 1), (load_le_agree m m' (off + 10) 1), (load_le_agree m m' (off + 8) 1), (load_le_agree m m' (off + 4) 4).
  - done.
  - eapply agree_sub; [exact Ha|lia|lia].
  - eapply agree_sub; [exact Ha|lia|lia].
  - eapply agree_sub; [exact Ha|lia|lia].
  - eapply agree_sub; [exact Ha|lia|lia].
Qed.

(** The state of a backup in front of a record longer than a chunk, which the
    primary does not change. *)
Record before_large (off : Z) (s : replica_state) : Prop := {
  bl_off : 0 ≤ off ≤ cx_size (r_ctx s) ∧ cx_size (r_ctx s) < 2 ^ 31;
  bl_cycle : is_cycle (log (rcache s)) off = false;
  bl_large : REPLICATION_CHUNK < u32 (ITEM_ntotal (log (rcache s)) off);
  bl_still : Forall (λ a, agree (image a) (log (rcache s)) off 16) (arrivals s)
}.
Lemma turn_stalls off s r s' :
  before_large off s → replication_turn off s = Ok (r, s') →
  r = off ∧ before_large off s' ∧ tab (rcache s') = tab (rcache s) ∧ ml (rcache s') = ml (rcache s) ∧ meta (rcache s') = meta (rcache s).
Proof.
  intros [[Ho Hs] Hc Hl Hst] E. unfold replication_turn in E. apply bind_inv in E as (s0 & s1 & [= <- <-] & E). cbn [id] in E.
  pose proof (size_bound _ _ Ho Hs) as [B1 B2]. set (n := size_to_replicate (cx_size (r_ctx s)) off) in *.
  apply bind_inv in E as (u1 & s2 & E1 & E). apply post_returned in E1 as [[= A1 A2 A3 A4] _].
  apply bind_inv in E as (u2 & s3 & E2 & E). apply poll_returned in E2 as [[= B3 B4 B5 B6] _].
  apply bind_inv in E as (l & s4 & [= <- <-] & E). apply bind_inv in E as (u3 & s4 & [= <- <-] & E).
  apply bind_inv in E as (u4 & s5 & E4 & E).
  assert (∃ m, agree m (log (rcache s)) off 16 ∧ rcache s5 = set_log m (rcache s) ∧ r_ctx s5 = r_ctx s ∧ arrivals s5 = drop 1 (arrivals s))
    as (m & Hm & Hk & Hx & Ha).
  { rewrite B5, A3 in E4. destruct (arrivals s) as [|a al] eqn:Ea.
    - injection E4 as <- <-. exists (log (rcache s)). cbn. rewrite ?B6, ?A4, ?B5, ?A3, ?Ea. split_and!; [apply agree_refl|by destruct (rcache s)|congruence|done].
    - injection E4 as <- <-. exists (dma a off n (log (rcache s))). cbn. rewrite ?B6, ?A4, ?B5, ?A3, ?Ea.
      split_and!; [|done|congruence|done]. inversion Hst. by apply dma_agree. }
  unfold zoom in E. rewrite Hk in E. destruct (header_agree _ _ _ Hm) as [Ef En].
  rewrite replication_stops in E.
  - injection E as <- <-. split; [done|]. split; [|done]. cbn. split; cbn; rewrite ?Hx, ?Ha; try done.
    + unfold is_cycle in *. by rewrite Ef.
    + by rewrite En.
    + apply Forall_drop. eapply Forall_impl; [exact Hst|]. intros a Hi. cbn in Hi |- *. eapply agree_trans; [exact Hi|by apply agree_sym].
  - right. right. unfold is_cycle in *. cbn [log set_log]. rewrite Ef, En. split; [done|lia].
Qed.

(** C30: a record longer than a chunk stops the replication for good.  Once the
    backup stands in front of a record of more than two megabytes that the
    primary leaves as it is, the replication loop stays there however long it
    runs and however the transfers go: the offset, the table, the metadata and
    the positions of the log never change again. *)
Theorem large_record_stalls (turns : nat) (off r : Z) (s s' : replica_state) (Hlarge : before_large off s)
    (Hrun : backup_client_replication_handler turns off s = Ok (r, s')) :
  r = off ∧ tab (rcache s') = tab (rcache s) ∧ ml (rcache s') = ml (rcache s) ∧ meta (rcache s') = meta (rcache s).
Proof.
  revert s Hlarge Hrun. induction turns as [|n IH]; intros s Hl E; cbn [backup_client_replication_handler] in E.
  - by injection E as <- <-.
  - apply bind_inv in E as (o & s1 & E1 & E2). destruct (turn_stalls _ _ _ _ Hl E1) as (-> & Hl1 & T1 & T2 & T3).
    destruct (IH s1 Hl1 E2) as (-> & T4 & T5 & T6). split_and!; congruence.
Qed.

(** ** Concrete runs *)
Definition offset_of (r : result (Z * replica_state)) : option Z := match r with Ok (o, _) => Some o | Fault _ => None end.
Definition complete : list poll1 := [Completion true; NoCompletion].
(** Two reads of the primary's log, complete. *)
Definition whole : replica_state :=
  Replica (Ctx 4096 100 500 7 4660 4660) (Dest 18 1 2 65536 4660 zero_gid) [false; false; true] (complete ++ complete)
    [Arrival (log primary) (λ _, true); Arrival (log primary) (λ _, true)] [] 0 (boot one_hash 4).
Lemma reads_inside_witness :
  ∃ s', backup_client_replication_handler 2 0 whole = Ok (35, s') ∧ completions s' = 2 ∧
    reads_posted s' = [RdmaRead 4096 100 65536 4660; RdmaRead (4096 + 35) 65 (65536 + 35) 4660] ∧
    Forall (inside (r_ctx whole) (r_dest whole)) (reads_posted s').
Proof.
  assert (match backup_client_replication_handler 2 0 whole with Ok (o, s') => Some (o, completions s', reads_posted s') | Fault _ => None end =
    Some (35, 2, [RdmaRead 4096 100 65536 4660; RdmaRead (4096 + 35) 65 (65536 + 35) 4660])) as Hv by (vm_compute; reflexivity).
  destruct (backup_client_replication_handler 2 0 whole) as [[r s']|f] eqn:E; [|discriminate Hv].
  injection Hv as -> H2 H3. exists s'. split; [reflexivity|]. split; [exact H2|]. split; [exact H3|].
  apply (reads_inside 2 whole s' 35); [cbn; lia|reflexivity|exact E].
Defined.

(** A record of three megabytes at the base of the log. *)
Definition large_log : memory := set_nbytes 0 3000000 (data_flags_or 0 ITEM_STORED ∅).
Definition large : replica_state :=
  Replica (Ctx 0 (8 * 1024 * 1024) 500 7 4660 4660) no_dest [] (complete ++ complete ++ complete) [] [] 0 (set_log large_log (boot one_hash 4)).
Lemma large_record_stalls_witness :
  ∃ s', backup_client_replication_handler 3 0 large = Ok (0, s') ∧ tab (rcache s') = tab (rcache large).
Proof.
  assert (offset_of (backup_client_replication_handler 3 0 large) = Some 0) as Hv by (vm_compute; reflexivity).
  destruct (backup_client_replication_handler 3 0 large) as [[r s']|f] eqn:E; [|discriminate Hv]. injection Hv as ->.
  exists s'. split; [reflexivity|]. apply (large_record_stalls 3 0 0 large s'); [|exact E].
  split; [cbn; lia|vm_compute; reflexivity|vm_compute; reflexivity|constructor].
Defined.
