(* ===== verification/Sasl.v ===== *)
(** * SASL set-up and the password file (sasl_defs.c)

    The callbacks handed to the SASL library: the check of a password against
    the file of [MEMCACHED_SASL_PWDB], the search for a configuration, what is
    logged, and [init_sasl].  Files and the environment are inputs. *)
From Stdlib Require Import ZArith Lia.
From stdpp Require Import strings prelude list.
From S2P Require Import Prelude Util.

(** ** The password file *)
Definition MAX_ENTRY_LEN : nat := 256.
(** [fgets]: what it takes of the file, up to [n] characters or a newline, and
    what is left. *)
Fixpoint fgets_take (n : nat) (f : list Z) : list Z * list Z :=
  match n, f with
  | O, _ => ([], f)
  | _, [] => ([], [])
  | S n, c :: f => if c =? LF then ([c], f) else let '(a, r) := fgets_take n f in (c :: a, r)
  end.
(** The buffer afterwards: the text, NUL, and what was there before. *)
Definition fgets (buffer f : list Z) : option (list Z * list Z) :=
  match f with
  | [] => None
  | _ => let '(a, r) := fgets_take (MAX_ENTRY_LEN - 1) f in Some (a ++ [0] ++ drop (length a + 1) buffer, r)
  end.

Inductive sasl_result : Set := SASL_OK | SASL_FAIL | SASL_NOAUTHZ.
#[global] Instance sasl_result_eq_dec : EqDecision sasl_result.
Proof. solve_decision. Defined.

Definition at_ (buffer : list Z) (i : nat) : Z := default 0 (buffer !! i).
Definition is_user (user buffer : list Z) : bool :=
  bool_decide (take (length user) buffer = user) && (at_ buffer (length user) =? 58).
(** After the colon: the password, and then the end of the entry. *)
Definition is_password (user pass buffer : list Z) : bool :=
  let unmlen := S (length user) in
  let next := at_ buffer (unmlen + length pass) in
  bool_decide (take (length pass) (drop unmlen buffer) = pass) &&
  ((next =? 58) || (next =? LF) || (next =? CR) || (next =? 0)).
(** The loop over the file; [fuel] is the length of the file. *)
Fixpoint search_user (fuel : nat) (user pass buffer f : list Z) : bool :=
  match fuel with
  | O => false
  | S n =>
      match fgets buffer f with
      | None => false
      | Some (buffer, f) => if is_user user buffer then is_password user pass buffer else search_user n user pass buffer f
      end
  end.
(** [pwfile] is the content of the file, [buffer] the stack. *)
Definition sasl_server_userdb_checkpass (pwfile : option (list Z)) (buffer user pass : list Z) : sasl_result :=
  if (MAX_ENTRY_LEN - 4 <? length pass + length user)%nat then SASL_NOAUTHZ
  else
    match pwfile with
    | None => SASL_NOAUTHZ
    | Some f => if search_user (S (length f)) user pass buffer f then SASL_OK else SASL_NOAUTHZ
    end.

(** ** Configuration, logging, initialisation *)
Definition locations : list (list Z) := [str "/etc/sasl/memcached.conf"; str "/etc/sasl2/memcached.conf"].
Definition sasl_getconf (env : option (list Z)) (exists_file : list Z → bool) : sasl_result * option (list Z) :=
  let path := match env with
              | Some p => Some p
              | None => head (filter (λ l, exists_file l = true) locations)
              end in
  (match path with Some _ => SASL_OK | None => SASL_FAIL end, path).

Inductive sasl_level : Set :=
  | SASL_LOG_NONE | SASL_LOG_ERR | SASL_LOG_FAIL | SASL_LOG_WARN | SASL_LOG_NOTE | SASL_LOG_DEBUG | SASL_LOG_TRACE | SASL_LOG_PASS.
(** Whether the message is printed. *)
Definition sasl_log (verbose : Z) (level : sasl_level) : bool :=
  match level with
  | SASL_LOG_NONE => false
  | SASL_LOG_PASS | SASL_LOG_TRACE | SASL_LOG_DEBUG | SASL_LOG_NOTE => negb (verbose <? 2)
  | SASL_LOG_WARN | SASL_LOG_FAIL => negb (verbose <? 1)
  | SASL_LOG_ERR => true
  end.

Inductive sasl_callback : Set := CB_CHECKPASS | CB_LOG | CB_GETCONF.
(** A list end in the first entry hides every callback. *)
Definition sasl_callbacks (pwdb : option (list Z)) : list sasl_callback :=
  match pwdb with None => [] | Some _ => [CB_CHECKPASS; CB_LOG; CB_GETCONF] end.
(** The host name, at most 1024 characters; the library may refuse. *)
Definition init_sasl (hostname pwdb : option (list Z)) (server_init_ok : list sasl_callback → bool) :
    result (list Z * list sasl_callback) :=
  let my_sasl_hostname := match hostname with Some h => take 1024 h | None => [] end in
  let cbs := sasl_callbacks pwdb in
  if server_init_ok cbs then Ok (my_sasl_hostname, cbs) else Fault (Exited 1).

(** ** The check is the look-up of an entry *)
Definition clean (s : list Z) : Prop := Forall (λ c, c ≠ 0 ∧ c ≠ LF) s.
(** The entry that counts is the first of the user. *)
Definition entry (user : list Z) (lines : list (list Z)) : option (list Z) :=
  l ← head (filter (λ l, user ++ [58] `prefix_of` l) lines); Some (drop (S (length user)) l).
Definition opens (pass rest : list Z) : Prop :=
  rest = pass ∨ ∃ r, rest = pass ++ 58 :: r ∨ rest = pass ++ CR :: r.
#[global] Instance opens_dec pass rest : Decision (opens pass rest).
Proof.
  refine (cast_if (decide (take (length pass) rest = pass ∧
    (drop (length pass) rest = [] ∨ head (drop (length pass) rest) = Some 58 ∨ head (drop (length pass) rest) = Some CR))));
    unfold opens.
  - destruct a as [Ht Hd]. rewrite <- (take_drop (length pass) rest), Ht. destruct (drop (length pass) rest) as [|c r].
    + left. by rewrite app_nil_r.
    + right. exists r. destruct Hd as [Hd|[[= ->]|[= ->]]]; [discriminate Hd|by left|by right].
  - intros Ho. apply n. destruct Ho as [->|[r [-> | ->]]].
    + rewrite take_ge, drop_ge by lia. auto.
    + rewrite take_app_length, drop_app_length. auto.
    + rewrite take_app_length, drop_app_length. auto.
Defined.

Lemma fgets_line n l rest : Forall (λ c, c ≠ LF) l → (length l < n)%nat → fgets_take n (l ++ LF :: rest) = (l ++ [LF], rest).
Proof.
  revert l. induction n as [|n IH]; intros l Hl Hn; [lia|]. destruct l as [|c l]; [done|]. cbn [app fgets_take].
  inversion Hl as [|? ? Hc Hl']; subst. rewrite (proj2 (Z.eqb_neq _ _) Hc), IH by (done || (cbn in Hn; lia)). done.
Qed.
(** Text without line ends is in front of a line's end or in the line. *)
Lemma prefix_of_line p l r : clean p → p `prefix_of` l ++ LF :: r ↔ p `prefix_of` l.
Proof.
  revert l. induction p as [|c p IH]; intros l Hp; [split; intros _; apply prefix_nil|].
  inversion Hp as [|? ? [H0 H1] Hp']; subst. destruct l as [|d l]; cbn [app].
  - split; intros H.
    + by apply prefix_cons_inv_1 in H.
    + by apply prefix_nil_inv in H.
  - split; intros H; pose proof (prefix_cons_inv_1 _ _ _ _ H) as ->; apply prefix_cons_inv_2 in H; apply prefix_cons; by apply IH.
Qed.
Lemma take_prefix (p s : list Z) : take (length p) s = p ↔ p `prefix_of` s.
Proof.
  split.
  - intros E. exists (drop (length p) s). by rewrite <- E at 1; rewrite take_drop.
  - intros [r ->]. by rewrite take_app_length.
Qed.
Lemma at_drop s n i : at_ s (n + i) = at_ (drop n s) i.
Proof. unfold at_. by rewrite lookup_drop. Qed.

Section line.
Context (user pass l stale : list Z) (Hu : clean user) (Hp : clean pass) (Hl : clean l).
(** The buffer after a line was read. *)
Let buffer := (l ++ [LF]) ++ [0] ++ stale.
Lemma is_user_line : is_user user buffer = bool_decide (user ++ [58] `prefix_of` l).
Proof.
  assert (buffer = l ++ LF :: 0 :: stale) as -> by (unfold buffer; by rewrite <- !app_assoc).
  assert (clean (user ++ [58])) as Hu' by (apply Forall_app; split; [done|by repeat constructor]).
  apply eq_bool_prop_intro. rewrite bool_decide_spec, <- (prefix_of_line _ l (0 :: stale) Hu').
  unfold is_user. rewrite andb_True, bool_decide_spec, Is_true_true, Z.eqb_eq. rewrite take_prefix. split.
  - intros [[r E] H58]. rewrite E in H58 |- *. unfold at_ in H58. rewrite lookup_app_r, Nat.sub_diag in H58 by lia.
    destruct r as [|c r]; [discriminate H58|]. cbn in H58. subst c. exists r. by rewrite <- app_assoc.
  - intros [r E]. rewrite E, <- app_assoc. split; [by exists ([58] ++ r)|]. unfold at_. by rewrite lookup_app_r, Nat.sub_diag by lia.
Qed.
Lemma is_password_line rest : l = (user ++ [58]) ++ rest → is_password user pass buffer = bool_decide (opens pass rest).
Proof.
  intros El. assert (clean rest) as Hr by (rewrite El in Hl; by apply Forall_app in Hl as [_ Hl]).
  unfold is_password. rewrite at_drop.
  assert (drop (S (length user)) buffer = rest ++ LF :: 0 :: stale) as ->.
  { unfold buffer. rewrite El, <- !app_assoc. cbn [app]. rewrite drop_app_ge by lia.
    replace (S (length user) - length user)%nat with 1%nat by lia. done. }
  apply eq_bool_prop_intro. rewrite andb_True, !bool_decide_spec, take_prefix, (prefix_of_line _ _ _ Hp). unfold opens. split.
  - intros [[r ->] Hn]. rewrite <- app_assoc in Hn. unfold at_ in Hn. rewrite lookup_app_r, Nat.sub_diag in Hn by lia.
    destruct r as [|c r]; [left; by rewrite app_nil_r|]. right. exists r. cbn in Hn.
    apply Forall_app in Hr as [_ Hr]. inversion Hr as [|? ? [H0 H1] _]; subst. unfold LF, CR in *.
    apply Is_true_true in Hn. assert (c = 58 ∨ c = 13) as [-> | ->] by lia; [by left|by right].
  - intros [-> |[r [-> | ->]]].
    + split; [done|]. unfold at_. rewrite lookup_app_r, Nat.sub_diag by lia. done.
    + split; [by exists (58 :: r)|]. unfold at_. rewrite <- app_assoc, lookup_app_r, Nat.sub_diag by lia. done.
    + split; [by exists (CR :: r)|]. unfold at_. rewrite <- app_assoc, lookup_app_r, Nat.sub_diag by lia. done.
Qed.
End line.

Definition file_of (lines : list (list Z)) : list Z := concat ((λ l, l ++ [LF]) <$> lines).
Definition file_ok (lines : list (list Z)) : Prop := Forall (λ l, clean l ∧ (length l < 255)%nat) lines.
Lemma clean_line l : clean l → Forall (λ c, c ≠ LF) l.
Proof. intros Hl. eapply Forall_impl; [exact Hl|]. by intros c [_ Hc]. Qed.
Lemma search_user_spec fuel user pass buffer lines :
  clean user → clean pass → file_ok lines → (length lines < fuel)%nat →
  search_user fuel user pass buffer (file_of lines) =
    match entry user lines with Some rest => bool_decide (opens pass rest) | None => false end.
Proof.
  intros Hu Hp. revert fuel buffer. induction lines as [|l lines IH]; intros fuel buffer Hf Hn; (destruct fuel as [|fuel]; [cbn in Hn; lia|]).
  - done.
  - inversion Hf as [|? ? [Hl Hlen] Hf']; subst. cbn [search_user].
    assert (file_of (l :: lines) = l ++ LF :: file_of lines) as Ef by (unfold file_of; cbn; by rewrite <- app_assoc).
    assert (fgets buffer (file_of (l :: lines)) =
      Some ((l ++ [LF]) ++ [0] ++ drop (length (l ++ [LF]) + 1) buffer, file_of lines)) as ->.
    { rewrite Ef. unfold fgets. rewrite fgets_line by (done || (by apply clean_line)). by destruct l. }
    rewrite is_user_line by done. unfold entry. rewrite filter_cons. destruct (decide (user ++ [58] `prefix_of` l)) as [[rest E]|Hno].
    + rewrite bool_decide_eq_true_2 by (by exists rest). rewrite (is_password_line user pass l _ Hp Hl rest E).
      cbn [head mbind option_bind]. rewrite E. assert (drop (S (length user)) ((user ++ [58]) ++ rest) = rest) as ->; [|done].
      apply drop_app_length'. rewrite length_app. cbn. lia.
    + rewrite bool_decide_eq_false_2 by done. apply IH; [done|]. cbn in Hn. lia.
Qed.
Lemma file_of_length lines : (length lines ≤ length (file_of lines))%nat.
Proof. unfold file_of. induction lines as [|l lines IH]; [done|]. cbn. rewrite !length_app. cbn in *. lia. Qed.

(** C38: the check of a password.  For a password file whose lines end in a
    newline, hold no NUL and are shorter than 255 characters ([file_ok]), and
    for a user name and a password without NUL and newline ([clean]), a
    password is accepted exactly when name and password together have at most
    252 characters and the first entry of the user holds the password: the
    password, and then the end of the line, a colon or a carriage return.  For
    such inputs the outcome does not depend on what the buffer held before.
    Outside of them it can: the comparison does not stop at the end of the
    line, so a password that ends in a newline is accepted, and one with a NUL
    is compared with what an earlier line left in the buffer. *)
Theorem checkpass_correct (lines : list (list Z)) (buffer user pass : list Z)
    (Hlines : file_ok lines) (Huser : clean user) (Hpass : clean pass) :
  sasl_server_userdb_checkpass (Some (file_of lines)) buffer user pass = SASL_OK ↔
  (length pass + length user ≤ 252)%nat ∧ ∃ rest, entry user lines = Some rest ∧ opens pass rest.
Proof.
  unfold sasl_server_userdb_checkpass, MAX_ENTRY_LEN. destruct (Nat.ltb_spec (256 - 4) (length pass + length user)).
  { split; [discriminate|intros [? _]; lia]. }
  rewrite search_user_spec by (done || (pose proof (file_of_length lines); lia)).
  destruct (entry user lines) as [rest|]; [|split; [done|by intros (_ & rest & [=] & _)]].
  destruct (bool_decide (opens pass rest)) eqn:E.
  - apply bool_decide_eq_true in E. split; [intros _; split; [lia|by exists rest]|done].
  - apply bool_decide_eq_false in E. split; [done|]. by intros (_ & rest' & [= <-] & Ho).
Qed.
Lemma checkpass_correct_witness :
  sasl_server_userdb_checkpass (Some (file_of [str "ann:one"; str "bob:two:more"; str "bob:three"])) (replicate 256 65) (str "bob") (str "two") = SASL_OK.
Proof.
  apply checkpass_correct.
  - unfold file_ok, clean. apply (bool_decide_unpack _). vm_compute. exact I.
  - unfold clean. apply (bool_decide_unpack _). vm_compute. exact I.
  - unfold clean. apply (bool_decide_unpack _). vm_compute. exact I.
  - split; [cbn; lia|]. exists (str "two:more"). split; [vm_compute; reflexivity|]. right. exists (str "more"). left. reflexivity.
Defined.
(** A newline after the password is taken for a part of it, and what follows a
    NUL is compared with the remains of an earlier line. *)
Example newline_accepted buffer :
  sasl_server_userdb_checkpass (Some (file_of [str "bob:two"])) buffer (str "bob") (str "two" ++ [LF]) = SASL_OK.
Proof. reflexivity. Qed.
Example stale_accepted :
  sasl_server_userdb_checkpass (Some (file_of [str "secret:entry"; str "bob:two"])) (replicate 256 0) (str "bob")
    (str "two" ++ [LF; 0] ++ str "try") = SASL_OK.
Proof. vm_compute. reflexivity. Qed.
(** Without a password file the library gets no callback at all. *)
Example no_callbacks_without_file : init_sasl (Some (str "host")) None (λ _, true) = Ok (str "host", []).
Proof. reflexivity. Qed.
